(* ===== verification/_CoqProject ===== *)
-Q . S2P
Prelude.v
Machine.v
TlvCodec.v
Proto.v
ChatCodec.v
CString.v
SessionManager.v
RoomManager.v
Repositories.v
MemWorld.v
LoginService.v
ChatService.v
FriendService.v
RoomService.v
ChatServer.v
ChatServerFacts.v
ChatServerTheorems.v
Requests.v
ServerLiveness.v
Conformance.v
Credentials.v
Interleaving.v
ThreadPool.v
MySQL.v
MySQLRepos.v
FriendStore.v
Friendship.v
Redis.v
TokenCache.v
PubSub.v
Deployment.v
ChatClient.v
ClientThreads.v
EndToEnd.v
