(* ===== verification/Prelude.v ===== *)
(** Verification of a chat system on the muduo network library (C++): a server, with its
    services and its MySQL and Redis back ends, and a command-line client.

    * The program and its parts

    A client connects by TCP and sends length-prefixed protobuf envelopes.  On the server,
    the codec ([src/codec.cc]) cuts the stream of a connection into payloads, parses them and
    calls [ChatServer::onEnvelope] ([src/chat_server.cc]), which runs on the I/O loop of the
    connection.  The handler of a request checks the session, hands the blocking work (a
    call of a service) to a thread pool, and the work hands a continuation back to the loop
    of the connection, which updates the tables of the session manager
    ([src/session_manager.cc]) and of the room manager ([src/room_manager.cc]) and sends the
    answers.  The services ([src/service]) are written against abstract repositories
    ([src/repository]), implemented over a pool of MySQL connections ([src/db.cc]) and, for
    sessions, over Redis ([src/redis_pool.cc], [src/repository/redis_session_repo.cc]).

    * The files

    - [Prelude]: outcomes of code on raw memory, the state monad with its evaluation lemmas
      (rewrite database [chat]) and its preservation lemmas (hint database [chat]), code on a
      part of the world ([zoom]), iteration over ordered sets.
    - [Machine], [CString]: machine integers and big-endian bytes; the decimal scanner and
      printer of the C library and NUL-terminated strings.
    - [TlvCodec]: [src/protocol/tlv_codec.{h,cc}], the TLV records and the checksummed
      envelope, on bytes.
    - [Proto]: [proto/chat.proto]; [ChatCodec]: [src/codec.{h,cc}], over the class
      [MuduoBuffer] for muduo's [Buffer] and the class [ProtoLib] for the protobuf runtime.
    - [SessionManager], [RoomManager]: the two tables of the process, every method a
      function on a record of finite maps and sets.
    - [Repositories]: one type class per abstract repository, the clock, the random engine
      and the surroundings ([Environment]), with the laws and the preservation classes that
      clients are proved against; [MemWorld] is an instance by tables in memory, on which
      theorems are evaluated.
    - [LoginService], [ChatService], [FriendService], [RoomService]: [src/service], over the
      repository classes.
    - [ChatServer]: [src/chat_server.{h,cc}] as a transition system.  A [Server] has the two
      tables, the queue of the thread pool, the tasks running, the queue of each loop, the
      connections, the world of the repositories and what was sent.  [Task] and [Cont] are
      the lambdas of the source with their captures; [step] is one of: a connection goes up
      or down, an envelope is received, a worker takes or finishes a task, a loop runs a
      continuation, the world changes from outside.  [Config] has the name of the node, the
      loop of each connection and the number of workers.  [ChatServerFacts] has the
      invariants, [ChatServerTheorems] the theorems about single requests and about bytes.
      [Requests] has the machine of requests, an abstract server without queues, workers
      and handlers, and shows that [step] carries it out.  [ServerLiveness] is about
      answers, [Conformance] about the messages that are sent, [Credentials] about who is
      logged in.  [Interleaving] lets the workers make the calls of their services one by
      one.
    - [ThreadPool]: [src/thread_pool.h].  [MySQL]: [src/db.{h,cc}] over the class
      [MySQLClient].  [MySQLRepos]: [src/repository/mysql_*_repo.{h,cc}], which are instances
      of the classes of [Repositories].  [FriendStore]: what the server does with the
      statements of the friend repository, the class [FriendTables], and the abstract machine
      of friendships that [FriendService] over it carries out.  [Friendship]: friendships
      through the whole server, over any store that keeps [FriendRepoLaws].  [Redis]:
      [src/redis_pool.{h,cc}] and [src/repository/redis_session_repo.{h,cc}] over the class
      [Hiredis].  [TokenCache]: [src/redis.{h,cc}], which the program does not use.
    - [PubSub]: [src/repository/redis_pubsub.{h,cc}]; the object, its owner and its
      subscriber thread are a transition system of their own.
    - [Deployment]: [src/main.cc].  A [Program] has the pool of MySQL connections, the Redis
      connection and the random generator of each thread and the thread that runs; the
      repositories, the clock and the surroundings of [ChatServer] are instances on it, so
      that every theorem about the server is one about the program.
    - [ChatClient]: [client/chat_client.cc], its class and its menu.  [ClientThreads]: the
      process with its two threads, a transition system.  [EndToEnd]: the client and
      the server together.

    * What is shown

    - Wire formats: the loops over untrusted bytes finish, stay inside the buffer and accept
      exactly the format ([decode_sound], [unwrap_spec], [onMessage_correct]); what one side
      writes the other reads ([decode_encode], [unwrap_wrap], [wire_to_server],
      [wire_to_client]); cuts in the stream do not matter ([onMessage_chunks]); damage is
      noticed ([unwrap_corrupted], [onMessage_oversized]).
    - Who may do and see what: [logged_in_by_credentials], [unauthenticated_ignored],
      [strangers_learn_nothing] and [chat_message_authentic], over all interleavings of
      [step]; [interleaved_security], also when the calls of the services are interleaved;
      [sent_messages_conform], what each message that is ever sent looks like and whom it
      may name.
    - What requests do, from arrival to answers, on every branch: [login_flow], [chat_flow],
      [recall_flow], [friend_response_flow], [private_message_end_to_end],
      [logout_end_to_end], [request_reaches_login]; and that they are answered:
      [every_request_answered].  What the client's menu asks for is sent:
      [menu_sends], [requests_sent_in_order].
    - Tables against abstract specifications: [getFriends_refines],
      [hasPendingRequest_refines], [getConnection_exact], [rooms_refine] for calls of the
      two managers; [server_follows_requests], by which the requests of a run, however they
      interleave, make exactly the calls that the machine of requests says, and none is
      left when the server is at rest; [tables_accounted], where the members of a room and
      the friends of a user come from.
    - Services on every branch: [login_outcome], [login_opens_session],
      [loginWithToken_outcome], [recallMessage_outcome], [created_at_roundtrip],
      [room_lifecycle].
    - Progress and resources: [server_comes_to_rest], [pool_executes_all], [pool_stops], [pool_accounting], [repos_return_connections].
    - Back ends: [friend_calls_refine], [friend_lifecycle], [escaped_values_read_back],
      [redis_session_roundtrip], [cache_roundtrip], [subscriber_dispatches], [subscriber_safe], [stop_waits].
    - The program as a whole: [deployed_login_token], from the start of [main] through the
      server, the login service and the session repository to the commands of Redis, on
      several threads: a token opens its user's session for seven days, and none after
      them; [deployed_pool_bounded]; [deployed_without_database].
    - Where the code does not do what it means to, a theorem says what it does:
      [offline_never_queued], [second_login_lost], [relogin_stale], [late_login_stays],
      [pending_requests_collide], [verifyUser_retry_leaks], [pool_never_recovers],
      [verify_sql_injectable], [revokeAllSessions_keeps_tokens],
      [redis_thread_never_recovers], [errors_spin], [client_is_nameless],
      [menu_spins_at_eof], [process_ends], [friend_lifecycle], [anyone_makes_friends].

    * Bounds and fuel

    Integers of the code are [Z] with their wrap-around written out.  The loops over bytes
    take one more than the number of bytes as fuel, since every turn takes a header off the
    input, and the theorems show that the fuel is never used up; [digit_count] takes one
    more than the binary logarithm.  All other functions are structurally recursive.  The
    queue of muduo's thread pool has its bound of 10000 tasks ([kMaxQueueSize], which the
    code sets): a step that would exceed it is not possible until there is room, as muduo's
    [run] blocks its caller.

    * What is a parameter, and what is not modelled

    muduo's buffer, protobuf, the MySQL and hiredis clients, the clock, [mktime] and the
    random engine are type classes; the laws used of them are classes of their own, with a
    concrete instance for each.  The laws of Redis are about the commands and keys that the
    program uses, which take effect at an instant of the clock of Redis; time passes, and
    sessions expire, in the changes from outside.  A message sent to a connection that is
    down counts as sent; muduo drops it.  A call of a repository is one step, and so is a handler or
    a continuation on its loop: the interleaving of the SQL statements of two calls, and of
    the table methods of two loops, is not modelled, nor are data races on references that
    outlive a lock.  muduo's event loop, its acceptor and the destructor of its server,
    logging and sleeps are left out; so are [benchmark/], [scripts/] and the Python tests,
    which are not part of the program.

    * What is left to do

    The message, room, user and session tables of the database, as [FriendTables] does for
    the friendships; handlers of different loops split into the calls of the tables. *)

From stdpp Require Export base tactics option list gmap strings sets sorting.
From Stdlib Require Export ZArith Lia.

(** ** Outcomes of code that indexes memory and loops *)

(** A computation on raw memory either finishes with a value, or reads outside
    the object it was given, or is still looping when its fuel is used up.  The
    last two are the outcomes the theorems of the codec files exclude. *)
Inductive outcome (A : Type) : Type :=
| Done (a : A)
| OutOfBounds
| OutOfFuel.
Arguments Done {A} _.
Arguments OutOfBounds {A}.
Arguments OutOfFuel {A}.

#[export] Instance outcome_ret : MRet outcome := λ A a, Done a.

#[export] Instance outcome_bind : MBind outcome := λ A B k m,
  match m with
  | Done a => k a
  | OutOfBounds => OutOfBounds
  | OutOfFuel => OutOfFuel
  end.

(** Turn a bounds-checked read into an outcome. *)
Definition in_bounds {A} (o : option A) : outcome A :=
  match o with
  | Some a => Done a
  | None => OutOfBounds
  end.

(** ** State passing *)

(** [State W A] is code that reads and updates a world [W] (the database, the
    cache, the clock, the random generator) and returns an [A]. *)
Definition State (W A : Type) : Type := W → A * W.

#[export] Instance state_ret {W} : MRet (State W) := λ A a w, (a, w).

#[export] Instance state_bind {W} : MBind (State W) := λ A B k m w,
  let '(a, w') := m w in k a w'.

(** Run a computation for its effect on the world only. *)
Definition exec {W A} (m : State W A) (w : W) : W := snd (m w).

(** The value a computation returns in a given world. *)
Definition eval {W A} (m : State W A) (w : W) : A := fst (m w).

(** A range-for loop over a container. *)
Fixpoint for_each {W A} (l : list A) (f : A → State W unit) : State W unit :=
  match l with
  | [] => mret tt
  | a :: l => _ ← f a; for_each l f
  end.

(** Read a part of the world, and replace the world. *)
Definition gets {W A} (f : W → A) : State W A := λ w, (f w, w).
Definition modify {W} (f : W → W) : State W unit := λ w, (tt, f w).

(** Code that works on a part [A] of the world [S]. *)
Definition zoom {S A X} (view : S → A) (put : A → S → S) (m : State A X) : State S X := λ s,
  let '(x, a) := m (view s) in (x, put a s).

(** ** Sequences of calls *)

(** Code that ends or makes a call and goes on with what it returns; [C B] are the calls
    that return a [B]. *)
Inductive Calls (C : Type → Type) (A : Type) : Type :=
| Ret (a : A)
| Do {B : Type} (c : C B) (k : B → Calls C A).
Arguments Ret {C A} a.
Arguments Do {C A B} c k.

#[export] Instance calls_ret {C} : MRet (Calls C) := λ A a, Ret a.

#[export] Instance calls_bind {C} : MBind (Calls C) := λ A B f,
  fix go p := match p with Ret a => f a | Do c k => Do c (λ b, go (k b)) end.

Definition call {C : Type → Type} {B} (c : C B) : Calls C B := Do c Ret.

(** What the calls do to a world. *)
Class Perform (C : Type → Type) (W : Type) := perform : ∀ {B}, C B → State W B.

(** All calls of a piece of code at once. *)
Fixpoint interp {C W} `{Perform C W} {A} (p : Calls C A) : State W A :=
  match p with
  | Ret a => mret a
  | Do c k => b ← perform c; interp (k b)
  end.

(** [s.empty()] of a [std::string]. *)
Definition empty_string (s : string) : bool := String.eqb s "".

(** A predicate on worlds that a computation never falsifies. *)
Definition preserves {W A} (P : W → Prop) (m : State W A) : Prop :=
  ∀ w, P w → P (exec m w).

(** ** Iteration over [std::set<std::string>] *)

(** The C++ ordered sets of strings are modelled as [gset string]; a range-for
    loop visits them in increasing byte order, which is the sorted list of the
    elements. *)
Definition string_le (s t : string) : Prop := String.leb s t = true.

#[export] Instance string_le_dec : RelDecision string_le := λ s t,
  decide (String.leb s t = true).

Definition set_iter (X : gset string) : list string :=
  merge_sort string_le (elements X).

(** ** Tactics *)

(** Split every [match] and [if] of the goal, closing what becomes trivial. *)
Ltac split_matches :=
  repeat (case_match; simplify_eq/=; try done).

(** Unfold the state monad in the goal and reduce. *)
Ltac run_state :=
  unfold mbind, mret, state_bind, state_ret, exec, eval in *; simpl in *.

Create HintDb chat discriminated.
Create Rewrite HintDb chat.

(** ** Lemmas on strings *)

Lemma string_app_assoc (s1 s2 s3 : string) : s1 +:+ (s2 +:+ s3) = (s1 +:+ s2) +:+ s3.
Proof. induction s1 as [|a s1 IH]; [done|]. exact (f_equal (String a) IH). Qed.

Lemma string_app_nil_r (s : string) : s +:+ "" = s.
Proof. induction s as [|a s IH]; [done|]. exact (f_equal (String a) IH). Qed.

(** ** Taking one occurrence out of a list *)

Fixpoint take_out `{EqDecision A} (x : A) (l : list A) : option (list A) :=
  match l with
  | [] => None
  | y :: l => if decide (x = y) then Some l else cons y <$> take_out x l
  end.

Lemma take_out_perm `{EqDecision A} (x : A) l k :
  l ≡ₚ x :: k → ∃ k', take_out x l = Some k' ∧ k' ≡ₚ k.
Proof.
  intros Hl. assert (∃ k', take_out x l = Some k' ∧ l ≡ₚ x :: k') as (k' & Hk & Hp).
  { assert (x ∈ l) as Hx by (rewrite Hl; left). clear Hl k. induction l as [|y l IH]; [by apply not_elem_of_nil in Hx|].
    cbn. case_decide as Hy; [subst; by exists l|].
    destruct IH as (k & -> & Hk); [by apply elem_of_cons in Hx as [|]|].
    exists (y :: k). split; [done|]. rewrite Hk. constructor. }
  exists k'. split; [done|]. apply (Permutation_cons_inv (a := x)). by rewrite <- Hp.
Qed.

Lemma take_out_Some `{EqDecision A} (x : A) l k : take_out x l = Some k → l ≡ₚ x :: k.
Proof.
  revert k. induction l as [|y l IH]; intros k Hk; cbn in Hk; [done|]. case_decide; simplify_eq; [done|].
  destruct (take_out x l) as [k'|]; cbn in Hk; simplify_eq. rewrite (IH k' eq_refl). constructor.
Qed.

(** ** Lemmas on outcomes and state computations *)

(** A result that is there, named. *)
Lemma some_default {A} (d : A) (o : option A) : bool_decide (is_Some o) = true → o = Some (default d o).
Proof. intros Ho%bool_decide_eq_true. by destruct Ho as [a ->]. Qed.

Lemma outcome_bind_done {A B} (m : outcome A) (k : A → outcome B) b :
  (m ≫= k) = Done b ↔ ∃ a, m = Done a ∧ k a = Done b.
Proof.
  destruct m as [a| |]; unfold mbind; simpl; split; try by intros ?; simplify_eq.
  - eauto.
  - by intros (a' & [= ->] & Hk).
  - by intros (? & ? & ?).
  - by intros (? & ? & ?).
Qed.

(** Naming the intermediate value and world of a bind. *)
Lemma bind_eq {W A B} (m : State W A) (k : A → State W B) w :
  (m ≫= k) w = k (eval m w) (exec m w).
Proof. unfold mbind, state_bind, eval, exec. by destruct (m w). Qed.

Lemma eval_bind {W A B} (m : State W A) (k : A → State W B) w :
  eval (m ≫= k) w = eval (k (eval m w)) (exec m w).
Proof. unfold eval at 1. by rewrite bind_eq. Qed.

Lemma exec_bind {W A B} (m : State W A) (k : A → State W B) w :
  exec (m ≫= k) w = exec (k (eval m w)) (exec m w).
Proof. unfold exec at 1. by rewrite bind_eq. Qed.

Lemma eval_ret {W A} (a : A) (w : W) : eval (mret a) w = a.
Proof. done. Qed.

Lemma exec_ret {W A} (a : A) (w : W) : exec (mret a : State W A) w = w.
Proof. done. Qed.

Lemma eval_gets {W A} (f : W → A) (w : W) : eval (gets f) w = f w.
Proof. done. Qed.

Lemma exec_gets {W A} (f : W → A) (w : W) : exec (gets f) w = w.
Proof. done. Qed.

Lemma exec_modify {W} (f : W → W) (w : W) : exec (modify f) w = f w.
Proof. done. Qed.

Lemma exec_for_each_nil {W A} (f : A → State W unit) (w : W) : exec (for_each [] f) w = w.
Proof. done. Qed.

Lemma exec_for_each_cons {W A} a l (f : A → State W unit) (w : W) :
  exec (for_each (a :: l) f) w = exec (for_each l f) (exec (f a) w).
Proof. cbn [for_each]. by rewrite exec_bind. Qed.

Lemma zoom_eq {S A X} (view : S → A) put (m : State A X) s :
  zoom view put m s = (eval m (view s), put (exec m (view s)) s).
Proof. unfold zoom, eval, exec. by destruct (m (view s)). Qed.

Lemma eval_zoom {S A X} (view : S → A) put (m : State A X) s :
  eval (zoom view put m) s = eval m (view s).
Proof. unfold eval at 1. by rewrite zoom_eq. Qed.

Lemma exec_zoom {S A X} (view : S → A) put (m : State A X) s :
  exec (zoom view put m) s = put (exec m (view s)) s.
Proof. unfold exec at 1. by rewrite zoom_eq. Qed.

Section Calls.
  Context {C : Type → Type} {W : Type} `{Perform C W}.

Lemma interp_ret {A} (a : A) w : interp (mret a : Calls C A) w = (a, w).
Proof. done. Qed.

Lemma interp_call {B} (c : C B) w : interp (call c) w = perform c w.
Proof. cbn. rewrite bind_eq. unfold eval, exec. by destruct (perform c w). Qed.

Lemma eval_call {B} (c : C B) w : eval (interp (call c)) w = eval (perform c) w.
Proof. unfold eval. by rewrite interp_call. Qed.

Lemma exec_call {B} (c : C B) w : exec (interp (call c)) w = exec (perform c) w.
Proof. unfold exec. by rewrite interp_call. Qed.

Lemma interp_bind {A B} (p : Calls C A) (f : A → Calls C B) w :
  interp (p ≫= f) w = interp (f (eval (interp p) w)) (exec (interp p) w).
Proof.
  revert w. induction p as [a|D c k IH]; intros w; [done|].
  change (interp (Do c k ≫= f)) with (b ← perform c; interp (k b ≫= f)). cbn [interp].
  rewrite bind_eq, IH. unfold eval at 1, exec at 1. by rewrite eval_bind, exec_bind.
Qed.

Lemma interp_bind_eq {A B} (p : Calls C A) (f : A → Calls C B) (m : State W A) (k : A → State W B) w :
  interp p w = m w → (∀ a w, interp (f a) w = k a w) → interp (p ≫= f) w = (m ≫= k) w.
Proof. intros Hp Hf. rewrite interp_bind, bind_eq. unfold eval, exec. by rewrite Hp, Hf. Qed.
End Calls.

(** Match code written as calls with the same code as a computation, call by call. *)
Ltac calls :=
  repeat first
    [ by etrans; [apply interp_call|]
    | reflexivity
    | apply interp_bind_eq; [|intros ? ?]
    | progress cbn [negb]
    | case_match
    | done ].

#[export] Hint Rewrite @eval_gets @exec_gets @exec_modify @eval_zoom @exec_zoom : chat.
#[export] Hint Rewrite @eval_bind @exec_bind @eval_ret @exec_ret : chat.

Lemma preserves_ret {W A} (P : W → Prop) (a : A) : preserves P (mret a : State W A).
Proof. by intros w Hw. Qed.

Lemma preserves_bind {W A B} (P : W → Prop) (m : State W A) (k : A → State W B) :
  preserves P m → (∀ a, preserves P (k a)) → preserves P (m ≫= k).
Proof.
  intros Hm Hk w Hw. unfold preserves, exec in *.
  unfold mbind, state_bind. specialize (Hm w Hw). destruct (m w) as [a w'].
  by apply Hk.
Qed.

Lemma preserves_gets {W A} (P : W → Prop) (f : W → A) : preserves P (gets f).
Proof. by intros w Hw. Qed.

Lemma preserves_for_each {W A} (P : W → Prop) (l : list A) (f : A → State W unit) :
  (∀ a, preserves P (f a)) → preserves P (for_each l f).
Proof.
  intros Hf. induction l as [|a l IH]; [apply preserves_ret|].
  by apply preserves_bind; [apply Hf|].
Qed.

#[export] Hint Resolve preserves_ret preserves_bind preserves_gets : chat.

(** Show that a computation keeps a predicate, operation by operation: the hint database
    has a lemma for each operation. *)
Ltac preserve :=
  repeat first
    [ apply preserves_ret
    | solve [eauto 2 with chat typeclass_instances]
    | apply preserves_bind; [|intros ?]
    | apply preserves_for_each; intros ?
    | progress cbn [negb]
    | case_match ].

(** ** Lemmas on sorted iteration *)

Lemma elem_of_set_iter X s : s ∈ set_iter X ↔ s ∈ X.
Proof. unfold set_iter. by rewrite merge_sort_Permutation, elem_of_elements. Qed.

Lemma NoDup_set_iter X : NoDup (set_iter X).
Proof. unfold set_iter. rewrite merge_sort_Permutation. apply NoDup_elements. Qed.

#[export] Instance string_le_total : Total string_le.
Proof.
  intros s t. unfold string_le, String.leb.
  rewrite (String.compare_antisym s t). by destruct (String.compare t s); [left|right|left].
Qed.

#[export] Hint Rewrite elem_of_set_iter : chat.
