(* ===== verification/Machine.v ===== *)
(** Fixed-width integers and big-endian bytes: the machine-level vocabulary of the
    codec files.  An [uintN_t] is a [Z] in [0, 2^N); arithmetic writes its wrap-around
    out with [u16], [u32], [u64], [i32] and [i64].  Bytes are [Byte.byte]. *)

From S2P Require Import Prelude.
From Stdlib Require Import Strings.Byte.

Local Open Scope Z_scope.

Abbreviation bytes := (list Byte.byte).

(** ** Conversions between integer types *)

Definition u16 (z : Z) : Z := z mod 2 ^ 16.
Definition u32 (z : Z) : Z := z mod 2 ^ 32.
Definition u64 (z : Z) : Z := z mod 2 ^ 64.

(** Conversion to a signed type of [n] bits (two's complement). *)
Definition to_signed (n : Z) (z : Z) : Z :=
  let u := z mod 2 ^ n in
  if u <? 2 ^ (n - 1) then u else u - 2 ^ n.

Definition i32 (z : Z) : Z := to_signed 32 z.
Definition i64 (z : Z) : Z := to_signed 64 z.

(** ** Bytes *)

(** [static_cast<uint8_t>]: the unsigned value of a byte. *)
Definition byte_val (b : Byte.byte) : Z := Z.of_N (Byte.to_N b).

Definition byte_of (z : Z) : Byte.byte :=
  default x00 (Byte.of_N (Z.to_N (z mod 256))).

(** [size()] of a byte string. *)
Definition size (data : bytes) : Z := Z.of_nat (length data).

(** The [n] bytes of an integer in network order: what [htobe16], [htobe32] and
    [htobe64] leave in memory, whatever the byte order of the host. *)
Fixpoint be_bytes (n : nat) (z : Z) : bytes :=
  match n with
  | O => []
  | S m => byte_of (z / 2 ^ (8 * Z.of_nat m)) :: be_bytes m z
  end.

(** The unsigned integer some bytes in network order spell ([be16toh], [be32toh],
    [be64toh] of what memory holds). *)
Fixpoint be_val (bs : bytes) : Z :=
  match bs with
  | [] => 0
  | b :: t => byte_val b * 2 ^ (8 * size t) + be_val t
  end.

(** Read [n] bytes at an offset as a big-endian integer, if they are all there. *)
Definition read_be (n : nat) (data : bytes) (offset : Z) : option Z :=
  if (0 <=? offset) && (offset + Z.of_nat n <=? size data)
  then Some (be_val (take n (drop (Z.to_nat offset) data)))
  else None.

(** [std::string::substr]: throws when the position is past the end, and clips
    the count to what is left. *)
Definition substr (data : bytes) (pos count : Z) : option bytes :=
  if (0 <=? pos) && (pos <=? size data)
  then Some (take (Z.to_nat (Z.min count (size data - pos))) (drop (Z.to_nat pos) data))
  else None.

(** ** Lemmas on sizes *)

Lemma size_nonneg data : 0 <= size data.
Proof. unfold size. lia. Qed.

Lemma size_nil : size [] = 0.
Proof. done. Qed.

Lemma size_cons b data : size (b :: data) = 1 + size data.
Proof. unfold size. simpl. lia. Qed.

Lemma size_app d1 d2 : size (d1 ++ d2) = size d1 + size d2.
Proof. unfold size. rewrite length_app. lia. Qed.

Lemma to_nat_size data : Z.to_nat (size data) = length data.
Proof. unfold size. lia. Qed.

Lemma size_take n data : 0 <= n <= size data -> size (take (Z.to_nat n) data) = n.
Proof. unfold size. intros ?. rewrite length_take. lia. Qed.

Lemma size_drop n data : 0 <= n <= size data -> size (drop (Z.to_nat n) data) = size data - n.
Proof. unfold size. intros ?. rewrite length_drop. lia. Qed.

#[export] Hint Rewrite size_nil size_cons size_app : chat.
#[export] Hint Resolve size_nonneg : chat.

(** ** Lemmas on bytes *)

Lemma byte_val_range b : 0 <= byte_val b < 256.
Proof.
  unfold byte_val. pose proof (Byte.to_N_bounded b). lia.
Qed.

Lemma byte_val_of z : byte_val (byte_of z) = z mod 256.
Proof.
  unfold byte_of, byte_val.
  pose proof (Z.mod_pos_bound z 256 ltac:(lia)) as Hb.
  destruct (Byte.of_N (Z.to_N (z mod 256))) as [b|] eqn:E; simpl.
  - apply Byte.to_of_N in E. rewrite E. lia.
  - apply Byte.of_N_None_iff in E. lia.
Qed.

Lemma byte_val_inj b1 b2 : byte_val b1 = byte_val b2 -> b1 = b2.
Proof.
  unfold byte_val. intros H. apply N2Z.inj in H.
  pose proof (Byte.of_to_N b1). pose proof (Byte.of_to_N b2). congruence.
Qed.

Lemma byte_of_val b : byte_of (byte_val b) = b.
Proof.
  apply byte_val_inj. rewrite byte_val_of. apply Z.mod_small, byte_val_range.
Qed.

(** ** Lemmas on big-endian integers *)

Lemma pow256_pos (n : Z) : 0 <= n -> 0 < 2 ^ (8 * n).
Proof. intros ?. apply Z.pow_pos_nonneg; lia. Qed.

Lemma pow256_succ (n : Z) : 0 <= n -> 2 ^ (8 * (1 + n)) = 256 * 2 ^ (8 * n).
Proof.
  intros ?. rewrite Z.mul_add_distr_l, Z.pow_add_r by lia. reflexivity.
Qed.

Lemma length_be_bytes n z : length (be_bytes n z) = n.
Proof. induction n; simpl; auto. Qed.

Lemma size_be_bytes n z : size (be_bytes n z) = Z.of_nat n.
Proof. unfold size. by rewrite length_be_bytes. Qed.

Lemma be_val_range bs : 0 <= be_val bs < 2 ^ (8 * size bs).
Proof.
  induction bs as [|b bs IH]; [by vm_compute|]. simpl. rewrite size_cons.
  rewrite pow256_succ by apply size_nonneg. pose proof (byte_val_range b). nia.
Qed.

Lemma be_val_be_bytes n z : be_val (be_bytes n z) = z mod 2 ^ (8 * Z.of_nat n).
Proof.
  induction n as [|n IH]; [by rewrite Z.mod_1_r|]. cbn [be_bytes be_val].
  rewrite IH, byte_val_of, size_be_bytes.
  replace (Z.of_nat (S n)) with (1 + Z.of_nat n) by lia.
  rewrite pow256_succ, (Z.mul_comm 256) by lia.
  rewrite Z.rem_mul_r; [lia|pose proof (pow256_pos (Z.of_nat n)); lia|lia].
Qed.

Lemma be_val_be_bytes_small n z :
  0 <= z < 2 ^ (8 * Z.of_nat n) -> be_val (be_bytes n z) = z.
Proof. intros ?. rewrite be_val_be_bytes. by apply Z.mod_small. Qed.

Lemma be_val_inj bs1 bs2 : length bs1 = length bs2 -> be_val bs1 = be_val bs2 -> bs1 = bs2.
Proof.
  revert bs2. induction bs1 as [|b1 bs1 IH]; intros [|b2 bs2] Hlen Hval; try done.
  simpl in *. injection Hlen as Hlen. unfold size in *. rewrite Hlen in Hval.
  pose proof (be_val_range bs1) as R1. pose proof (be_val_range bs2) as R2.
  unfold size in *. rewrite Hlen in R1.
  destruct (Z.div_mod_unique (2 ^ (8 * Z.of_nat (length bs2))) (byte_val b1)
    (byte_val b2) (be_val bs1) (be_val bs2)) as [Hb Hbs]; [by left|by left|lia|].
  f_equal; [by apply byte_val_inj|by apply IH].
Qed.

Lemma be_bytes_be_val bs : be_bytes (length bs) (be_val bs) = bs.
Proof.
  apply be_val_inj; [apply length_be_bytes|].
  rewrite be_val_be_bytes. apply Z.mod_small, be_val_range.
Qed.

(** ** Lemmas on bounds-checked reads *)

Lemma read_be_app n pre bs post :
  length bs = n -> read_be n (pre ++ bs ++ post) (size pre) = Some (be_val bs).
Proof.
  intros <-. unfold read_be. rewrite !size_app. pose proof (size_nonneg pre).
  pose proof (size_nonneg post). fold (size bs).
  rewrite (proj2 (Z.leb_le _ _)), (proj2 (Z.leb_le _ _)) by lia. simpl.
  rewrite to_nat_size. by rewrite drop_app_length, take_app_length.
Qed.

Lemma read_be_app_0 n bs post :
  length bs = n -> read_be n (bs ++ post) 0 = Some (be_val bs).
Proof. apply (read_be_app n []). Qed.

(** The same read, at an offset given by value. *)
Lemma read_be_at n pre bs post off :
  length bs = n -> off = size pre -> read_be n (pre ++ bs ++ post) off = Some (be_val bs).
Proof. intros Hn ->. by apply read_be_app. Qed.

Lemma be_bytes_be_val_n n bs : length bs = n -> be_bytes n (be_val bs) = bs.
Proof. intros <-. apply be_bytes_be_val. Qed.

Lemma be_val_range_n n bs : length bs = n -> 0 <= be_val bs < 2 ^ (8 * Z.of_nat n).
Proof. intros <-. apply be_val_range. Qed.

Lemma be_val_range_z n bs : size bs = n -> 0 <= be_val bs < 2 ^ (8 * n).
Proof. intros <-. apply be_val_range. Qed.

Lemma length_of_size data n : size data = n -> length data = Z.to_nat n.
Proof. unfold size. lia. Qed.

Lemma substr_app pre bs post n :
  n = size bs -> substr (pre ++ bs ++ post) (size pre) n = Some bs.
Proof.
  intros ->. unfold substr. rewrite !size_app. pose proof (size_nonneg pre).
  pose proof (size_nonneg post). pose proof (size_nonneg bs).
  rewrite (proj2 (Z.leb_le _ _)), (proj2 (Z.leb_le _ _)) by lia. simpl.
  rewrite Z.min_l by lia. rewrite !to_nat_size.
  by rewrite drop_app_length, take_app_length.
Qed.

(** Cutting a byte string at an offset that lies inside it. *)
Lemma split_at (data : bytes) n :
  0 <= n <= size data -> ∃ d1 d2, data = d1 ++ d2 ∧ size d1 = n.
Proof.
  intros Hn. exists (take (Z.to_nat n) data), (drop (Z.to_nat n) data).
  split; [by rewrite take_drop|by apply size_take].
Qed.

Lemma i32_small z : 0 <= z < 2 ^ 31 -> i32 z = z.
Proof.
  intros Hz. unfold i32, to_signed.
  change (2 ^ (32 - 1)) with (2 ^ 31).
  rewrite Z.mod_small by lia. rewrite (proj2 (Z.ltb_lt _ _)) by lia. done.
Qed.

Lemma i64_u64 z : - 2 ^ 63 <= z < 2 ^ 63 -> i64 (u64 z) = z.
Proof.
  intros Hz. unfold i64, to_signed, u64. rewrite Z.mod_mod by lia.
  change (2 ^ (64 - 1)) with (2 ^ 63).
  destruct (decide (0 <= z)).
  - rewrite Z.mod_small by lia. rewrite (proj2 (Z.ltb_lt _ _)) by lia. done.
  - rewrite <- (Z_mod_plus z 1) by lia. rewrite Z.mod_small by lia.
    rewrite (proj2 (Z.ltb_ge _ _)) by lia. lia.
Qed.

Lemma u64_i64 z : 0 <= z < 2 ^ 64 -> u64 (i64 z) = z.
Proof.
  intros Hz. unfold i64, to_signed, u64. rewrite (Z.mod_small z) by lia.
  case_match; [by apply Z.mod_small|].
  rewrite <- (Z_mod_plus (z - 2 ^ 64) 1) by lia. rewrite Z.mod_small; lia.
Qed.

Lemma be_bytes_mod n z : be_bytes n (z mod 2 ^ (8 * Z.of_nat n)) = be_bytes n z.
Proof.
  apply be_val_inj; [by rewrite !length_be_bytes|].
  rewrite !be_val_be_bytes. apply Z.mod_mod. pose proof (pow256_pos (Z.of_nat n)). lia.
Qed.

Lemma u32_i32 z : u32 (i32 z) = u32 z.
Proof.
  unfold u32, i32, to_signed. case_match; [by apply Z.mod_mod|].
  replace (z mod 2 ^ 32 - 2 ^ 32) with (z mod 2 ^ 32 + (-1) * 2 ^ 32) by lia.
  rewrite Z_mod_plus_full. by apply Z.mod_mod.
Qed.

#[global] Arguments be_bytes : simpl never.
#[global] Arguments be_val : simpl never.
#[global] Arguments read_be : simpl never.
#[global] Arguments substr : simpl never.
