(* ===== verification/TlvCodec.v ===== *)
(** The binary codecs of [src/protocol/tlv_codec.{h,cc}]: the TLV record codec
    ([TLVCodec]), the additive checksum ([ProtoCodec::computeChecksum]) and the
    checksummed envelope ([MessageWrapper]).  Definitions first, then: what [decode]
    accepts and that it never leaves the buffer, round trips, the checksum's
    algebra, and what [unwrap] accepts and rejects. *)

From S2P Require Import Prelude Machine.

Local Open Scope Z_scope.

(** ** struct TLV *)

Record TLV := mkTLV {
  TLV_type : Z;          (* uint16_t *)
  TLV_length : Z;        (* uint32_t *)
  TLV_value : bytes
}.

Definition sizeof_u16 : Z := 2.
Definition sizeof_u32 : Z := 4.

Definition encodedSize (valueLen : Z) : Z := u64 (sizeof_u16 + sizeof_u32 + valueLen).

(** ** class TLVCodec *)

(** One turn of the loop of [encode]: the fields as they are stored, the length
    field not recomputed from the value. *)
Definition encode1 (tlv : TLV) : bytes :=
  be_bytes 2 (TLV_type tlv) ++ be_bytes 4 (TLV_length tlv) ++ TLV_value tlv.

Fixpoint encode (tlvs : list TLV) : bytes :=
  match tlvs with
  | [] => []
  | tlv :: rest => encode1 tlv ++ encode rest
  end.

(** The [while] loop of [decode], from an offset and with the records found so far. *)
Fixpoint decode_loop (fuel : nat) (data : bytes) (offset : Z) (tlvs : list TLV)
    : outcome (list TLV) :=
  match fuel with
  | O => OutOfFuel
  | S fuel =>
    if u64 (offset + sizeof_u16 + sizeof_u32) <=? size data then
      type ← in_bounds (read_be 2 data offset);
      let offset := u64 (offset + sizeof_u16) in
      length ← in_bounds (read_be 4 data offset);
      let offset := u64 (offset + sizeof_u32) in
      if size data <? u64 (offset + length) then
        Done tlvs
      else
        value ← in_bounds (substr data offset length);
        decode_loop fuel data (u64 (offset + length))
          (tlvs ++ [mkTLV type length value])
    else Done tlvs
  end.

(** Every turn consumes at least the six bytes of a header, so one turn per byte
    (and one to leave the loop) is enough fuel. *)
Definition decode (data : bytes) : outcome (list TLV) :=
  decode_loop (S (length data)) data 0 [].

Definition encodeSingle (type : Z) (value : bytes) : bytes :=
  let beType := be_bytes 2 type in
  let beLen := be_bytes 4 (u32 (size value)) in
  beType ++ beLen ++ value.

(** [decodeSingle] fills its reference argument [tlv] as it goes: type and length
    are already overwritten when the value turns out to be cut short. *)
Definition decodeSingle (data : bytes) (tlv : TLV) : outcome (bool * TLV) :=
  if size data <? sizeof_u16 + sizeof_u32 then Done (false, tlv)
  else
    type ← in_bounds (read_be 2 data 0);
    length ← in_bounds (read_be 4 data sizeof_u16);
    let tlv := mkTLV type length (TLV_value tlv) in
    if size data <? u64 (sizeof_u16 + sizeof_u32 + length) then Done (false, tlv)
    else
      value ← in_bounds (substr data (sizeof_u16 + sizeof_u32) length);
      Done (true, mkTLV type length value).

(** ** ProtoCodec::computeChecksum *)

Fixpoint checksum_loop (data : bytes) (checksum : Z) : Z :=
  match data with
  | [] => checksum
  | b :: data => checksum_loop data (u32 (checksum + byte_val b))
  end.

Definition computeChecksum (data : bytes) : Z := checksum_loop data 0.

(** ** class MessageWrapper *)

Record Header := mkHeader {
  Header_magic : Z;      (* uint32_t *)
  Header_version : Z;    (* uint16_t *)
  Header_cmd : Z;        (* uint16_t *)
  Header_bodyLen : Z;    (* uint32_t *)
  Header_checksum : Z;   (* uint32_t *)
  Header_seq : Z         (* uint64_t *)
}.

Definition kMagic : Z := 0x43484154.

(** [sizeof(Header)]: 4 + 2 + 2 + 4 + 4 + 8, with no padding since every field
    falls on a multiple of its size. *)
Definition headerSize : Z := 24.

Definition encodeHeader (h : Header) : bytes :=
  be_bytes 4 (Header_magic h) ++ be_bytes 2 (Header_version h) ++
  be_bytes 2 (Header_cmd h) ++ be_bytes 4 (Header_bodyLen h) ++
  be_bytes 4 (Header_checksum h) ++ be_bytes 8 (Header_seq h).

(** [memcpy] of [sizeof(Header)] bytes followed by the byte swaps, field by field
    at its offset in the struct. *)
Definition decodeHeader (data : bytes) : outcome Header :=
  magic ← in_bounds (read_be 4 data 0);
  version ← in_bounds (read_be 2 data 4);
  cmd ← in_bounds (read_be 2 data 6);
  bodyLen ← in_bounds (read_be 4 data 8);
  checksum ← in_bounds (read_be 4 data 12);
  seq ← in_bounds (read_be 8 data 16);
  Done (mkHeader magic version cmd bodyLen checksum seq).

Definition wrap (cmd : Z) (body : bytes) (seq : Z) : bytes :=
  let h := mkHeader kMagic 1 cmd (u32 (size body)) (computeChecksum body) seq in
  encodeHeader h ++ body.

(** [unwrap] returns its verdict with the final contents of its two reference
    arguments. *)
Definition unwrap (data : bytes) (header : Header) (body : bytes)
    : outcome (bool * Header * bytes) :=
  if size data <? headerSize then Done (false, header, body)
  else
    header ← decodeHeader data;
    if negb (Header_magic header =? kMagic) then Done (false, header, body)
    else if size data <? u64 (headerSize + Header_bodyLen header) then
      Done (false, header, body)
    else
      body ← in_bounds (substr data headerSize (Header_bodyLen header));
      let computedChecksum := computeChecksum body in
      if negb (computedChecksum =? Header_checksum header) then
        Done (false, header, body)
      else Done (true, header, body).

(** ** Well-formed values and the format the loop recognises *)

(** The values the C++ types can hold, with a length field that tells the truth. *)
Definition wf_tlv (tlv : TLV) : Prop :=
  0 <= TLV_type tlv < 2 ^ 16 ∧ TLV_length tlv = size (TLV_value tlv) ∧
  size (TLV_value tlv) < 2 ^ 32.

Definition wf_header (h : Header) : Prop :=
  0 <= Header_magic h < 2 ^ 32 ∧ 0 <= Header_version h < 2 ^ 16 ∧
  0 <= Header_cmd h < 2 ^ 16 ∧ 0 <= Header_bodyLen h < 2 ^ 32 ∧
  0 <= Header_checksum h < 2 ^ 32 ∧ 0 <= Header_seq h < 2 ^ 64.

(** A tail that does not hold a whole record. *)
Definition incomplete (rest : bytes) : Prop :=
  size rest < 6 ∨ size rest < 6 + be_val (take 4 (drop 2 rest)).

(** The grammar of the format: records, then a tail that holds no whole record. *)
Inductive parses : bytes → list TLV → bytes → Prop :=
| parses_stop rest : incomplete rest → parses rest [] rest
| parses_record tlv data tlvs rest :
    wf_tlv tlv → parses data tlvs rest →
    parses (encode1 tlv ++ data) (tlv :: tlvs) rest.

(** The largest [size()] of a [std::string] on a 64-bit machine. *)
Definition max_size : Z := 2 ^ 63 - 1.

(** ** Lemmas on single records *)

Lemma u64_small z : 0 <= z < 2 ^ 64 -> u64 z = z.
Proof. intros ?. by apply Z.mod_small. Qed.

Lemma u32_range z : 0 <= u32 z < 2 ^ 32.
Proof. by apply Z.mod_pos_bound. Qed.

Lemma size_encode1 tlv : size (encode1 tlv) = 6 + size (TLV_value tlv).
Proof. unfold encode1. rewrite !size_app, !size_be_bytes. lia. Qed.

(** The two header fields of a record, as bytes, give the record back. *)
Lemma encode1_intro tb lb value :
  length tb = 2%nat -> length lb = 4%nat -> be_val lb = size value ->
  let tlv := mkTLV (be_val tb) (be_val lb) value in
  tb ++ lb ++ value = encode1 tlv ∧ wf_tlv tlv.
Proof.
  intros Ht Hl Hv tlv. unfold encode1, wf_tlv, tlv; cbn [TLV_type TLV_length TLV_value].
  rewrite !be_bytes_be_val_n by done.
  pose proof (be_val_range_n _ _ Ht). pose proof (be_val_range_n _ _ Hl). split; [done|].
  repeat split; simpl in *; lia.
Qed.

(** Six bytes at least: a type, a length and what follows. *)
Lemma header_split d :
  6 <= size d → ∃ tb lb d', d = tb ++ lb ++ d' ∧ length tb = 2%nat ∧ length lb = 4%nat.
Proof.
  intros Hd. destruct (split_at d 2) as (tb & d1 & -> & Ht); [lia|].
  rewrite size_app in Hd. destruct (split_at d1 4) as (lb & d' & -> & Hl); [lia|].
  exists tb, lb, d'. unfold size in *. split; [done|]. split; lia.
Qed.

Lemma take_drop_header (tb lb d : bytes) :
  length tb = 2%nat → length lb = 4%nat → take 4 (drop 2 (tb ++ lb ++ d)) = lb.
Proof.
  intros Ht Hl. rewrite (drop_app_length' tb) by done. by rewrite (take_app_length' lb).
Qed.

Lemma encode1_not_incomplete tlv data : wf_tlv tlv → ¬ incomplete (encode1 tlv ++ data).
Proof.
  intros (Ht & Hl & Hv) Hi. pose proof (size_nonneg data). pose proof (size_nonneg (TLV_value tlv)).
  unfold incomplete in Hi. rewrite size_app, size_encode1 in Hi.
  unfold encode1 in Hi. rewrite <- !app_assoc in Hi.
  rewrite take_drop_header in Hi by apply length_be_bytes.
  rewrite be_val_be_bytes_small in Hi by (simpl; lia). lia.
Qed.

Lemma encode1_inj t1 t2 d1 d2 :
  wf_tlv t1 → wf_tlv t2 → encode1 t1 ++ d1 = encode1 t2 ++ d2 → t1 = t2 ∧ d1 = d2.
Proof.
  destruct t1 as [ty1 l1 v1], t2 as [ty2 l2 v2].
  unfold wf_tlv, encode1; cbn [TLV_type TLV_length TLV_value].
  intros (Ht1 & -> & Hv1) (Ht2 & -> & Hv2). rewrite <- !app_assoc. intros Heq.
  apply app_inj_1 in Heq as [Hty Heq]; [|by rewrite !length_be_bytes].
  apply app_inj_1 in Heq as [Hl Heq]; [|by rewrite !length_be_bytes].
  apply (f_equal be_val) in Hty, Hl.
  pose proof (size_nonneg v1). pose proof (size_nonneg v2).
  rewrite !be_val_be_bytes_small in Hty, Hl by (simpl; lia).
  apply app_inj_1 in Heq as [-> ->]; [|unfold size in Hl; lia]. by subst.
Qed.

(** ** The grammar is what [encode] writes, and it is deterministic *)

Lemma parses_iff data tlvs rest :
  parses data tlvs rest ↔ data = encode tlvs ++ rest ∧ Forall wf_tlv tlvs ∧ incomplete rest.
Proof.
  split.
  - induction 1 as [rest Hi|tlv data tlvs rest Hw Hp (-> & Hf & Hi)]; simpl; [done|].
    rewrite <- app_assoc. split; [done|]. split; [by constructor|done].
  - intros (-> & Hf & Hi). induction Hf as [|tlv tlvs Hw Hf IH]; simpl.
    + by constructor.
    + rewrite <- app_assoc. by constructor.
Qed.

Lemma parses_det data tlvs1 rest1 tlvs2 rest2 :
  parses data tlvs1 rest1 → parses data tlvs2 rest2 → tlvs1 = tlvs2 ∧ rest1 = rest2.
Proof.
  intros H1. revert tlvs2 rest2.
  induction H1 as [rest Hi|tlv data tlvs rest Hw Hp IH]; intros tlvs2 rest2 H2.
  - destruct H2 as [|tlv2 data2 tlvs2 rest2 Hw2 _]; [done|].
    by destruct (encode1_not_incomplete tlv2 data2).
  - remember (encode1 tlv ++ data) as full eqn:Hfull.
    destruct H2 as [rest2 Hi2|tlv2 data2 tlvs2 rest2 Hw2 Hp2].
    + subst. by destruct (encode1_not_incomplete tlv data).
    + destruct (encode1_inj tlv2 tlv data2 data) as [-> ->]; [done..|].
      by destruct (IH _ _ Hp2) as [-> ->].
Qed.

(** ** The loop implements the grammar *)

Lemma decode_loop_turn fuel pre tb lb d acc :
  length tb = 2%nat → length lb = 4%nat → size pre + 6 + size d <= max_size →
  decode_loop (S fuel) (pre ++ tb ++ lb ++ d) (size pre) acc =
  if size d <? be_val lb then Done acc
  else decode_loop fuel (pre ++ tb ++ lb ++ d) (size pre + 6 + be_val lb)
         (acc ++ [mkTLV (be_val tb) (be_val lb) (take (Z.to_nat (be_val lb)) d)]).
Proof.
  intros Ht Hl Hsize. unfold max_size in *.
  pose proof (size_nonneg pre). pose proof (size_nonneg d).
  pose proof (be_val_range_n _ _ Hl) as Hlen. change (2 ^ (8 * Z.of_nat 4)) with (2 ^ 32) in Hlen.
  assert (size tb = 2) as Hts by (unfold size; lia).
  assert (size lb = 4) as Hls by (unfold size; lia).
  cbn [decode_loop]. unfold sizeof_u16, sizeof_u32.
  rewrite (u64_small (size pre + 2 + 4)), (u64_small (size pre + 2)) by lia.
  rewrite (u64_small (size pre + 2 + 4)), !size_app, Hts, Hls by lia.
  rewrite (proj2 (Z.leb_le _ _)) by lia. rewrite read_be_app by done. simpl.
  rewrite (app_assoc pre). replace (size pre + 2) with (size (pre ++ tb)) by (rewrite size_app; lia).
  rewrite read_be_app by done. simpl. rewrite u64_small by (rewrite size_app; lia).
  rewrite (app_assoc (pre ++ tb)).
  replace (size (pre ++ tb) + 4) with (size ((pre ++ tb) ++ lb)) by (rewrite !size_app; lia).
  destruct (size d <? be_val lb) eqn:Hcut; rewrite ?Z.ltb_lt, ?Z.ltb_ge in Hcut.
  { rewrite (proj2 (Z.ltb_lt _ _)) by (rewrite !size_app; lia). done. }
  rewrite (proj2 (Z.ltb_ge _ _)) by (rewrite !size_app; lia).
  rewrite <- (take_drop (Z.to_nat (be_val lb)) d) at 1.
  rewrite substr_app by (symmetry; apply size_take; lia). simpl.
  f_equal. rewrite !size_app. lia.
Qed.

Lemma decode_loop_parses fuel pre d acc :
  (length d < fuel)%nat → size pre + size d <= max_size →
  ∃ tlvs rest, decode_loop fuel (pre ++ d) (size pre) acc = Done (acc ++ tlvs) ∧
               parses d tlvs rest.
Proof.
  revert pre d acc. induction fuel as [|fuel IH]; intros pre d acc Hfuel Hsize; [lia|].
  pose proof (size_nonneg pre) as Hpre. pose proof (size_nonneg d) as Hd.
  destruct (decide (size d < 6)) as [Hshort|Hlong].
  { exists [], d. rewrite app_nil_r. split; [|constructor; by left].
    cbn [decode_loop]. unfold max_size, sizeof_u16, sizeof_u32 in *.
    rewrite u64_small, size_app by lia. by rewrite (proj2 (Z.leb_gt _ _)) by lia. }
  destruct (header_split d) as (tb & lb & d' & -> & Ht & Hl); [lia|].
  assert (size (tb ++ lb ++ d') = 6 + size d') as Hs by (unfold size; rewrite !length_app; lia).
  rewrite decode_loop_turn by (done || lia).
  destruct (size d' <? be_val lb) eqn:Hcut; rewrite ?Z.ltb_lt, ?Z.ltb_ge in Hcut.
  { exists [], (tb ++ lb ++ d'). rewrite app_nil_r. split; [done|]. constructor. right.
    rewrite take_drop_header by done. lia. }
  pose proof (be_val_range_n _ _ Hl) as Hlen.
  destruct (split_at d' (be_val lb)) as (v & d'' & -> & Hv); [lia|].
  rewrite <- Hv, to_nat_size, take_app_length.
  destruct (encode1_intro tb lb v) as [Henc Hwf]; [done..|].
  set (tlv := mkTLV _ _ v). rewrite <- Hv in *. fold tlv in Henc, Hwf.
  rewrite !(app_assoc _ _ d''), Henc.
  replace (size pre + 6 + size v) with (size (pre ++ encode1 tlv))
    by (rewrite size_app, size_encode1; simpl; lia).
  rewrite !size_app in *.
  destruct (IH (pre ++ encode1 tlv) d'' (acc ++ [tlv])) as (tlvs & rest & Hrun & Hp).
  - rewrite !length_app in Hfuel. lia.
  - rewrite size_app, size_encode1. simpl. lia.
  - exists (tlv :: tlvs), rest. rewrite size_app, <- (app_assoc acc) in Hrun.
    by split; [|constructor].
Qed.

Lemma decode_parses data :
  size data <= max_size → ∃ tlvs rest, decode data = Done tlvs ∧ parses data tlvs rest.
Proof.
  intros Hsize. apply (decode_loop_parses _ [] data []); [lia|done].
Qed.

(** ** Theorems: TLVCodec *)

(** C31. [decode] never reads outside its input and always finishes, whatever the
    bytes: it returns the maximal run of whole records at the front of the input,
    and what it leaves is a tail that holds no whole record. *)
Theorem decode_sound data :
  size data <= max_size →
  ∃ tlvs rest, decode data = Done tlvs ∧ data = encode tlvs ++ rest ∧
               Forall wf_tlv tlvs ∧ incomplete rest.
Proof.
  intros Hsize. destruct (decode_parses data Hsize) as (tlvs & rest & Hd & Hp).
  exists tlvs, rest. by rewrite <- parses_iff.
Qed.

Lemma decode_sound_witness :
  ∃ tlvs rest, decode (be_bytes 2 7 ++ be_bytes 4 1 ++ be_bytes 3 5) = Done tlvs ∧
    be_bytes 2 7 ++ be_bytes 4 1 ++ be_bytes 3 5 = encode tlvs ++ rest ∧
    Forall wf_tlv tlvs ∧ incomplete rest.
Proof. apply decode_sound. by vm_compute. Defined.

(** C32. Round trip: decoding what [encode] wrote gives the records back, also when
    a partial record (a truncated transmission) follows them. *)
Theorem decode_encode tlvs rest :
  Forall wf_tlv tlvs → incomplete rest → size (encode tlvs ++ rest) <= max_size →
  decode (encode tlvs ++ rest) = Done tlvs.
Proof.
  intros Hw Hi Hsize. destruct (decode_parses _ Hsize) as (tlvs' & rest' & -> & Hp).
  destruct (parses_det _ _ _ tlvs rest Hp) as [-> _]; [by apply parses_iff|done].
Qed.

Definition sample_tlvs : list TLV := [mkTLV 7 3 (be_bytes 3 258); mkTLV 9 0 []].

Lemma decode_encode_witness :
  decode (encode sample_tlvs ++ be_bytes 2 1) = Done sample_tlvs.
Proof.
  apply decode_encode.
  - repeat constructor; vm_compute; congruence.
  - left. by vm_compute.
  - by vm_compute.
Defined.

(** ** decodeSingle *)

Lemma decodeSingle_short data tlv : size data < 6 → decodeSingle data tlv = Done (false, tlv).
Proof.
  intros ?. unfold decodeSingle, sizeof_u16, sizeof_u32.
  by rewrite (proj2 (Z.ltb_lt _ _)) by lia.
Qed.

(** [decodeSingle] on a header and what follows it. *)
Lemma decodeSingle_header tb lb d tlv :
  length tb = 2%nat → length lb = 4%nat →
  decodeSingle (tb ++ lb ++ d) tlv =
  if size d <? be_val lb
  then Done (false, mkTLV (be_val tb) (be_val lb) (TLV_value tlv))
  else Done (true, mkTLV (be_val tb) (be_val lb) (take (Z.to_nat (be_val lb)) d)).
Proof.
  intros Ht Hl. pose proof (size_nonneg d).
  pose proof (be_val_range_n _ _ Hl) as Hlen. change (2 ^ (8 * Z.of_nat 4)) with (2 ^ 32) in Hlen.
  assert (size tb = 2) as Hts by (unfold size; lia).
  assert (size lb = 4) as Hls by (unfold size; lia).
  unfold decodeSingle, sizeof_u16, sizeof_u32.
  rewrite !size_app, Hts, Hls. rewrite (proj2 (Z.ltb_ge _ _)) by lia.
  rewrite (read_be_app_0 2 tb (lb ++ d) Ht). cbn [in_bounds mbind outcome_bind].
  rewrite <- Hts. rewrite read_be_app by done. cbn [in_bounds mbind outcome_bind TLV_value].
  rewrite u64_small by lia.
  destruct (size d <? be_val lb) eqn:Hcut; rewrite ?Z.ltb_lt, ?Z.ltb_ge in Hcut.
  { by rewrite (proj2 (Z.ltb_lt _ _)) by lia. }
  rewrite (proj2 (Z.ltb_ge _ _)) by lia. rewrite app_assoc.
  replace (size tb + 4) with (size (tb ++ lb)) by (rewrite size_app; lia).
  rewrite <- (take_drop (Z.to_nat (be_val lb)) d) at 1.
  by rewrite substr_app by (symmetry; apply size_take; lia).
Qed.

(** [decodeSingle] is total and accepts exactly the inputs that start with a
    whole record; on success the record is the one [encode] writes, on failure the
    value of the output argument is untouched. *)
Theorem decodeSingle_spec data tlv :
  ∃ ok tlv', decodeSingle data tlv = Done (ok, tlv') ∧
    (ok = true → wf_tlv tlv' ∧ ∃ rest, data = encode1 tlv' ++ rest) ∧
    (ok = false → incomplete data ∧ TLV_value tlv' = TLV_value tlv).
Proof.
  destruct (decide (size data < 6)) as [Hshort|Hlong].
  { exists false, tlv. rewrite decodeSingle_short by done. split_and!; [done..|].
    intros _. split; [by left|done]. }
  destruct (header_split data) as (tb & lb & d & -> & Ht & Hl); [lia|].
  rewrite decodeSingle_header by done.
  destruct (size d <? be_val lb) eqn:Hcut; rewrite ?Z.ltb_lt, ?Z.ltb_ge in Hcut.
  - eexists _, _. split_and!; [done..|]. intros _. split; [|done]. right.
    rewrite take_drop_header by done. rewrite !size_app. unfold size in *. lia.
  - eexists _, _. split_and!; [done| |done]. intros _.
    pose proof (be_val_range_n _ _ Hl) as Hlen.
    destruct (split_at d (be_val lb)) as (v & rest & -> & Hv); [lia|].
    rewrite <- Hv, to_nat_size, take_app_length.
    destruct (encode1_intro tb lb v) as [Henc Hwf]; [done..|].
    rewrite <- Hv in *. split; [done|]. exists rest.
    by rewrite <- Henc, <- !app_assoc.
Qed.

(** What a receiver makes of [encodeSingle]: the type modulo 2^16 and the first
    [size value mod 2^32] bytes of the value.  A value of 4 GiB or more is cut without
    an error; any shorter one comes back whole. *)
Theorem decodeSingle_encodeSingle type value rest tlv :
  decodeSingle (encodeSingle type value ++ rest) tlv =
  Done (true, mkTLV (u16 type) (u32 (size value)) (take (Z.to_nat (u32 (size value))) value)).
Proof.
  unfold encodeSingle. rewrite <- !app_assoc.
  rewrite decodeSingle_header by apply length_be_bytes.
  rewrite !be_val_be_bytes. change (2 ^ (8 * Z.of_nat 2)) with (2 ^ 16).
  change (2 ^ (8 * Z.of_nat 4)) with (2 ^ 32). fold (u16 type).
  rewrite (Z.mod_small (u32 _)) by apply u32_range.
  assert (u32 (size value) <= size value) as Hle
    by (apply Z.mod_le; [apply size_nonneg|done]).
  pose proof (size_nonneg rest). rewrite size_app.
  rewrite (proj2 (Z.ltb_ge _ _)) by lia.
  rewrite take_app_le; [done|]. unfold size in *. lia.
Qed.

(** ** The checksum *)

(** The mathematical sum of the bytes. *)
Fixpoint byte_sum (data : bytes) : Z :=
  match data with
  | [] => 0
  | b :: data => byte_val b + byte_sum data
  end.

Lemma checksum_loop_sum data c : u32 c = c → checksum_loop data c = u32 (c + byte_sum data).
Proof.
  revert c. induction data as [|b data IH]; intros c Hc; simpl; [by rewrite Z.add_0_r|].
  rewrite IH by (unfold u32; apply Z.mod_mod; lia).
  unfold u32. rewrite Zplus_mod_idemp_l. f_equal. lia.
Qed.

Lemma computeChecksum_sum data : computeChecksum data = u32 (byte_sum data).
Proof. unfold computeChecksum. by rewrite checksum_loop_sum. Qed.

Lemma byte_sum_app d1 d2 : byte_sum (d1 ++ d2) = byte_sum d1 + byte_sum d2.
Proof. induction d1; simpl; lia. Qed.

Lemma computeChecksum_range data : 0 <= computeChecksum data < 2 ^ 32.
Proof. rewrite computeChecksum_sum. apply u32_range. Qed.

Lemma byte_sum_perm d1 d2 : Permutation d1 d2 → byte_sum d1 = byte_sum d2.
Proof. induction 1; simpl; lia. Qed.

(** One altered byte always alters the checksum: the sums differ by less than 2^32. *)
Lemma computeChecksum_alter d1 b b' d2 :
  b ≠ b' → computeChecksum (d1 ++ b :: d2) ≠ computeChecksum (d1 ++ b' :: d2).
Proof.
  intros Hb Heq. apply Hb, byte_val_inj. rewrite !computeChecksum_sum in Heq.
  rewrite !byte_sum_app in Heq. simpl in Heq. unfold u32 in Heq.
  pose proof (byte_val_range b). pose proof (byte_val_range b').
  set (p := byte_sum d1) in *. set (q := byte_sum d2) in *.
  pose proof (Z.div_mod (p + (byte_val b + q)) (2 ^ 32) ltac:(lia)).
  pose proof (Z.div_mod (p + (byte_val b' + q)) (2 ^ 32) ltac:(lia)).
  rewrite Heq in *. lia.
Qed.

(** The checksum is the sum of the bytes modulo 2^32: it composes over
    concatenation, it is blind to the order of the bytes, and it sees every change of a
    single byte. *)
Theorem computeChecksum_spec :
  (∀ d1 d2, computeChecksum (d1 ++ d2) = u32 (computeChecksum d1 + computeChecksum d2)) ∧
  (∀ d1 d2, Permutation d1 d2 → computeChecksum d1 = computeChecksum d2) ∧
  (∀ d1 b b' d2, computeChecksum (d1 ++ b :: d2) = computeChecksum (d1 ++ b' :: d2) ↔ b = b').
Proof.
  split_and!.
  - intros d1 d2. rewrite !computeChecksum_sum, byte_sum_app. unfold u32.
    by rewrite <- Zplus_mod.
  - intros d1 d2 Hp. rewrite !computeChecksum_sum. by f_equal; apply byte_sum_perm.
  - intros d1 b b' d2. split; [|by intros ->]. intros Heq.
    destruct (decide (byte_val b = byte_val b')) as [|Hne]; [by apply byte_val_inj|].
    exfalso. apply (computeChecksum_alter d1 b b' d2); [congruence|done].
Qed.

(** ** MessageWrapper *)

Lemma size_encodeHeader h : size (encodeHeader h) = headerSize.
Proof. unfold encodeHeader. by rewrite !size_app, !size_be_bytes. Qed.

(** The 24 bytes of a header, field by field. *)
Lemma decodeHeader_fields m v c bl ck sq rest :
  length m = 4%nat → length v = 2%nat → length c = 2%nat → length bl = 4%nat →
  length ck = 4%nat → length sq = 8%nat →
  decodeHeader (m ++ v ++ c ++ bl ++ ck ++ sq ++ rest) =
  Done (mkHeader (be_val m) (be_val v) (be_val c) (be_val bl) (be_val ck) (be_val sq)).
Proof.
  intros Hm Hv Hc Hbl Hck Hsq. unfold decodeHeader.
  rewrite (read_be_app_0 4 m _ Hm). cbn [in_bounds mbind outcome_bind].
  rewrite (read_be_at 2 m v _ 4) by (done || unfold size; lia).
  rewrite (app_assoc m), (read_be_at 2 (m ++ v) c _ 6) by (done || unfold size; rewrite ?length_app; lia).
  rewrite (app_assoc (m ++ v)), (read_be_at 4 _ bl _ 8) by (done || unfold size; rewrite ?length_app; lia).
  rewrite (app_assoc (_ ++ c)), (read_be_at 4 _ ck _ 12) by (done || unfold size; rewrite ?length_app; lia).
  rewrite (app_assoc (_ ++ bl)), (read_be_at 8 _ sq _ 16) by (done || unfold size; rewrite ?length_app; lia).
  done.
Qed.

Lemma decodeHeader_encodeHeader h rest :
  wf_header h → decodeHeader (encodeHeader h ++ rest) = Done h.
Proof.
  intros (Hm & Hv & Hc & Hbl & Hck & Hsq). unfold encodeHeader. rewrite <- !app_assoc.
  rewrite decodeHeader_fields by apply length_be_bytes.
  rewrite !be_val_be_bytes_small by done. by destruct h.
Qed.

(** Any 24 bytes are the encoding of the header they decode to. *)
Lemma encodeHeader_decodeHeader data :
  headerSize <= size data →
  ∃ h rest, data = encodeHeader h ++ rest ∧ wf_header h ∧ decodeHeader data = Done h.
Proof.
  intros Hsize. unfold headerSize in Hsize.
  destruct (split_at data 24) as (hd & rest & -> & Hhd); [lia|]. clear Hsize.
  destruct (split_at hd 4) as (m & hd1 & -> & Hm); [lia|]. rewrite size_app in Hhd.
  destruct (split_at hd1 2) as (v & hd2 & -> & Hv); [lia|]. rewrite size_app in Hhd.
  destruct (split_at hd2 2) as (c & hd3 & -> & Hc); [lia|]. rewrite size_app in Hhd.
  destruct (split_at hd3 4) as (bl & hd4 & -> & Hbl); [lia|]. rewrite size_app in Hhd.
  destruct (split_at hd4 4) as (ck & sq & -> & Hck); [lia|]. rewrite size_app in Hhd.
  assert (size sq = 8) as Hsq by lia.
  pose proof (be_val_range_z 4 m Hm). pose proof (be_val_range_z 2 v Hv).
  pose proof (be_val_range_z 2 c Hc). pose proof (be_val_range_z 4 bl Hbl).
  pose proof (be_val_range_z 4 ck Hck). pose proof (be_val_range_z 8 sq Hsq).
  apply length_of_size in Hm, Hv, Hc, Hbl, Hck, Hsq.
  exists (mkHeader (be_val m) (be_val v) (be_val c) (be_val bl) (be_val ck) (be_val sq)), rest.
  split_and!.
  - unfold encodeHeader; cbn [Header_magic Header_version Header_cmd Header_bodyLen
      Header_checksum Header_seq].
    by rewrite !be_bytes_be_val_n by done.
  - unfold wf_header; cbn [Header_magic Header_version Header_cmd Header_bodyLen
      Header_checksum Header_seq].
    repeat (split; [assumption|]); assumption.
  - rewrite <- !app_assoc. by apply decodeHeader_fields.
Qed.

Lemma encodeHeader_app_inj h1 h2 d1 d2 :
  wf_header h1 → wf_header h2 → encodeHeader h1 ++ d1 = encodeHeader h2 ++ d2 →
  h1 = h2 ∧ d1 = d2.
Proof.
  intros Hw1 Hw2 Heq. apply app_inj_1 in Heq as [Heq ->].
  - split; [|done]. apply (f_equal (λ e, decodeHeader (e ++ []))) in Heq.
    rewrite !decodeHeader_encodeHeader in Heq by done. congruence.
  - pose proof (size_encodeHeader h1). pose proof (size_encodeHeader h2). unfold size in *. lia.
Qed.

(** [unwrap] on a header and what follows it. *)
Lemma unwrap_header h rest h0 b0 :
  wf_header h →
  unwrap (encodeHeader h ++ rest) h0 b0 =
  if negb (Header_magic h =? kMagic) then Done (false, h, b0)
  else if size rest <? Header_bodyLen h then Done (false, h, b0)
  else let body := take (Z.to_nat (Header_bodyLen h)) rest in
       Done (computeChecksum body =? Header_checksum h, h, body).
Proof.
  intros Hw. pose proof (size_nonneg rest). unfold unwrap.
  rewrite size_app, size_encodeHeader. rewrite (proj2 (Z.ltb_ge _ _)) by lia.
  rewrite decodeHeader_encodeHeader by done. cbn [mbind outcome_bind].
  case_match; [done|]. destruct Hw as (_ & _ & _ & Hbl & _ & _).
  rewrite u64_small by (unfold headerSize; lia).
  destruct (size rest <? Header_bodyLen h) eqn:Hcut; rewrite ?Z.ltb_lt, ?Z.ltb_ge in Hcut.
  { by rewrite (proj2 (Z.ltb_lt _ _)) by lia. }
  rewrite (proj2 (Z.ltb_ge _ _)) by lia. rewrite <- (size_encodeHeader h) at 1.
  rewrite <- (take_drop (Z.to_nat (Header_bodyLen h)) rest) at 1.
  rewrite substr_app by (symmetry; apply size_take; lia).
  cbn [in_bounds mbind outcome_bind]. cbv zeta. by destruct (computeChecksum _ =? _).
Qed.

(** C33. [unwrap] never reads outside its input, and it answers [true] exactly when
    the input starts with a well-formed header carrying the magic number, followed by
    a body of the announced length whose checksum is the announced one; header and
    body are then returned.  The version and the bytes after the body are not looked
    at. *)
Theorem unwrap_spec data h0 b0 :
  ∃ ok h b, unwrap data h0 b0 = Done (ok, h, b) ∧
    (ok = true ↔ ∃ h' b' rest,
       data = encodeHeader h' ++ b' ++ rest ∧ wf_header h' ∧ Header_magic h' = kMagic ∧
       Header_bodyLen h' = size b' ∧ Header_checksum h' = computeChecksum b') ∧
    (ok = true → ∃ rest, data = encodeHeader h ++ b ++ rest).
Proof.
  destruct (decide (size data < headerSize)) as [Hshort|Hlong].
  { exists false, h0, b0. unfold unwrap. rewrite (proj2 (Z.ltb_lt _ _)) by done.
    split_and!; [done| |done]. split; [done|]. intros (h' & b' & rest & -> & _).
    rewrite size_app, size_encodeHeader in Hshort.
    pose proof (size_nonneg (b' ++ rest)). lia. }
  destruct (encodeHeader_decodeHeader data) as (h & rest & -> & Hw & _); [lia|].
  rewrite unwrap_header by done.
  destruct (Header_magic h =? kMagic) eqn:Hm; rewrite ?Z.eqb_eq, ?Z.eqb_neq in Hm; cbn [negb].
  2: { eexists _, _, _. split_and!; [done| |done]. split; [done|].
       intros (h' & b' & rest' & Heq & Hw' & Hm' & _). by destruct (encodeHeader_app_inj _ _ _ _ Hw Hw' Heq) as [<- _]. }
  destruct (size rest <? Header_bodyLen h) eqn:Hcut; rewrite ?Z.ltb_lt, ?Z.ltb_ge in Hcut.
  { eexists _, _, _. split_and!; [done| |done]. split; [done|].
    intros (h' & b' & rest' & Heq & Hw' & _ & Hbl & _). destruct (encodeHeader_app_inj _ _ _ _ Hw Hw' Heq) as [<- ->].
    rewrite size_app in Hcut. pose proof (size_nonneg rest'). lia. }
  assert (0 <= Header_bodyLen h) as Hbl0 by (destruct Hw as (_ & _ & _ & ? & _); lia).
  destruct (split_at rest (Header_bodyLen h)) as (b & rest' & -> & Hb); [lia|].
  cbv zeta. rewrite <- Hb, to_nat_size, take_app_length.
  eexists _, _, _. split_and!; [done| |by eexists]. rewrite Z.eqb_eq. split.
  - intros Hck'. by exists h, b, rest'.
  - intros (h' & b' & rest'' & Heq & Hw' & _ & Hbl' & Hck'). destruct (encodeHeader_app_inj _ _ _ _ Hw Hw' Heq) as [<- Heq'].
    apply app_inj_1 in Heq' as [-> ->]; [done|]. unfold size in *. lia.
Qed.

(** Round trip: what [wrap] builds, [unwrap] accepts, whatever bytes follow, for
    every body a 32-bit length can announce. *)
Theorem unwrap_wrap cmd body seq rest h0 b0 :
  0 <= cmd < 2 ^ 16 → 0 <= seq < 2 ^ 64 → size body < 2 ^ 32 →
  unwrap (wrap cmd body seq ++ rest) h0 b0 =
  Done (true, mkHeader kMagic 1 cmd (size body) (computeChecksum body) seq, body).
Proof.
  intros Hcmd Hseq Hsize. pose proof (size_nonneg body). unfold wrap.
  assert (u32 (size body) = size body) as -> by (apply Z.mod_small; lia).
  rewrite <- app_assoc, unwrap_header.
  2: { pose proof (computeChecksum_range body). unfold wf_header; simpl.
       split_and!; (lia || by vm_compute). }
  cbn [Header_magic Header_bodyLen Header_checksum]. rewrite Z.eqb_refl. cbn [negb].
  pose proof (size_nonneg rest). rewrite size_app, (proj2 (Z.ltb_ge _ _)) by lia.
  cbv zeta. by rewrite to_nat_size, take_app_length, Z.eqb_refl.
Qed.

Definition sample_body : bytes := be_bytes 3 0x616263.
Definition empty_header : Header := mkHeader 0 0 0 0 0 0.

Lemma unwrap_wrap_witness :
  unwrap (wrap 5 sample_body 9 ++ be_bytes 1 0) empty_header [] =
  Done (true, mkHeader kMagic 1 5 (size sample_body) (computeChecksum sample_body) 9, sample_body).
Proof. by apply unwrap_wrap; vm_compute. Defined.

(** Corruption of any single byte of the body in transit is caught: [unwrap]
    rejects the message. *)
Theorem unwrap_corrupted cmd d1 b b' d2 seq rest h0 b0 :
  0 <= cmd < 2 ^ 16 → 0 <= seq < 2 ^ 64 → size (d1 ++ b :: d2) < 2 ^ 32 → b ≠ b' →
  let hd := take 24 (wrap cmd (d1 ++ b :: d2) seq) in
  ∃ h body, unwrap (hd ++ (d1 ++ b' :: d2) ++ rest) h0 b0 = Done (false, h, body).
Proof.
  intros Hcmd Hseq Hsize Hb hd. pose proof (size_nonneg (d1 ++ b :: d2)).
  set (body := d1 ++ b :: d2) in *. set (body' := d1 ++ b' :: d2).
  assert (size body' = size body) as Hs.
  { unfold body, body'. by rewrite !size_app, !size_cons. }
  set (h := mkHeader kMagic 1 cmd (size body) (computeChecksum body) seq).
  assert (hd = encodeHeader h) as ->.
  { unfold hd, wrap, u32. rewrite (Z.mod_small (size body)) by lia. fold h.
    apply take_app_length'. symmetry. apply (length_of_size _ 24), size_encodeHeader. }
  rewrite unwrap_header.
  2: { pose proof (computeChecksum_range body). unfold wf_header, h; simpl.
       split_and!; (lia || by vm_compute). }
  exists h, body'. unfold h. cbn [Header_magic Header_bodyLen Header_checksum].
  rewrite Z.eqb_refl. cbn [negb]. pose proof (size_nonneg rest).
  rewrite size_app, (proj2 (Z.ltb_ge _ _)) by lia. cbv zeta.
  rewrite <- Hs, to_nat_size, take_app_length.
  rewrite (proj2 (Z.eqb_neq _ _)); [done|]. apply computeChecksum_alter. congruence.
Qed.

Lemma unwrap_corrupted_witness :
  ∃ h body, unwrap (take 24 (wrap 5 ([byte_of 1] ++ byte_of 2 :: [byte_of 3]) 9) ++
    ([byte_of 1] ++ byte_of 7 :: [byte_of 3]) ++ []) empty_header [] = Done (false, h, body).
Proof. apply (unwrap_corrupted 5 [byte_of 1] (byte_of 2) (byte_of 7)); by vm_compute. Defined.
