(* ===== verification/Proto.v ===== *)
(** The messages of [proto/chat.proto]: one record per protobuf message, the [oneof]
    payloads as inductive types.  Only the data is modelled; parsing and serialising
    are the protobuf library's and appear as the operations of [ProtoLib]. *)

From S2P Require Import Prelude Machine.

Local Open Scope Z_scope.

(** ** Requests *)

Record LoginRequest := mkLoginRequest {
  lr_uid : string; lr_passwd : string; lr_token : string }.

Record LoginResponse := mkLoginResponse {
  lp_ok : bool; lp_token : string; lp_reason : string; lp_server_time : Z;
  lp_nickname : string; lp_email : string; lp_avatar_url : string }.

Record RegisterRequest := mkRegisterRequest {
  rr_uid : string; rr_passwd : string; rr_nickname : string; rr_email : string }.

Record RegisterResponse := mkRegisterResponse { rp_ok : bool; rp_reason : string }.

Record LogoutRequest := mkLogoutRequest { lo_uid : string; lo_token : string }.

Record ChatMessage := mkChatMessage {
  cm_from : string; cm_to : string; cm_room : string; cm_content : string;
  cm_msg_id : Z; cm_seq : Z; cm_timestamp : Z; cm_recalled : bool }.

Record CreateRoom := mkCreateRoom { cr_name : string; cr_creator : string }.

Record JoinRoom := mkJoinRoom { jr_room_name : string; jr_uid : string }.

Record FriendRequest := mkFriendRequest {
  fq_from_uid : string; fq_to_uid : string; fq_message : string }.

Record FriendResponse := mkFriendResponse {
  fp_from_uid : string; fp_to_uid : string; fp_accepted : bool }.

Record FriendRemove := mkFriendRemove { fv_target_uid : string }.

Record FriendInfo := mkFriendInfo { fi_uid : string; fi_nickname : string; fi_online : bool }.

Record FriendList := mkFriendList { fl_friends : list FriendInfo }.

Record RecallMessage := mkRecallMessage {
  rm_msg_id : Z; rm_from_uid : string; rm_room : string; rm_to_uid : string }.

Record RecallNotify := mkRecallNotify {
  rn_msg_id : Z; rn_from_uid : string; rn_room : string; rn_to_uid : string;
  rn_recall_time : Z }.

Record Heartbeat := mkHeartbeat { hb_timestamp : Z }.

Record ErrorResponse := mkErrorResponse { er_code : Z; er_reason : string }.

(** ** The two envelopes *)

(** The [oneof payload] of [Envelope]; [PAYLOAD_NOT_SET] is protobuf's name for the
    case where no field of the [oneof] is present. *)
Inductive Envelope_payload :=
| kLoginReq (r : LoginRequest)
| kLogoutReq (r : LogoutRequest)
| kRegisterReq (r : RegisterRequest)
| kChatMsg (r : ChatMessage)
| kCreateRoom (r : CreateRoom)
| kJoinRoom (r : JoinRoom)
| kFriendReq (r : FriendRequest)
| kFriendResp (r : FriendResponse)
| kFriendRemove (r : FriendRemove)
| kRecallMsg (r : RecallMessage)
| kHeartbeat (r : Heartbeat)
| PAYLOAD_NOT_SET.

Record Envelope := mkEnvelope { env_token : string; env_payload : Envelope_payload }.

Inductive ServerMessage :=
| login_resp (r : LoginResponse)
| register_resp (r : RegisterResponse)
| chat_msg (r : ChatMessage)
| recall_notify (r : RecallNotify)
| friend_req (r : FriendRequest)
| friend_resp (r : FriendResponse)
| friend_list (r : FriendList)
| friend_remove (r : FriendRemove)
| error (r : ErrorResponse)
| SERVER_PAYLOAD_NOT_SET.

(** ** The protobuf runtime *)

(** What the codecs use of the generated classes: [ParseFromArray] (verdict, and the
    object as the call leaves it) and [SerializeToString] (verdict, and the string). *)
Class ProtoLib := {
  Envelope_ParseFromArray : bytes → bool * Envelope;
  Envelope_SerializeToString : Envelope → bool * bytes;
  ServerMessage_ParseFromArray : bytes → bool * ServerMessage;
  ServerMessage_SerializeToString : ServerMessage → bool * bytes
}.
