(* ===== verification/ChatCodec.v ===== *)
(** The length-prefixed stream codec of [src/codec.{h,cc}]: [ChatCodec::onMessage] cuts
    the byte stream of a connection into payloads of at most 65536 bytes and hands
    each one to [handleMessage]; [sendServerMessage] writes one frame.

    muduo's [Buffer] is the interface [MuduoBuffer] with the laws its documentation
    states; the library's contiguous byte region is the instance [region_buffer].  What
    happens to the rest of the program is a state [S] with the callbacks of the code. *)

From S2P Require Import Prelude Machine Proto.

Local Open Scope Z_scope.

(** ** muduo::net::Buffer *)

(** [peek] is the readable region that starts at the pointer [peek()] returns. *)
Class MuduoBuffer (B : Type) := {
  newBuffer : B;
  readableBytes : B → Z;
  prependableBytes : B → Z;
  peek : B → bytes;
  retrieve : Z → B → B;
  append : bytes → B → B;
  prepend : bytes → B → B
}.

Class MuduoBufferLaws (B : Type) `{MuduoBuffer B} : Prop := {
  readableBytes_peek b : readableBytes b = size (peek b);
  peek_newBuffer : peek newBuffer = [];
  peek_append d b : peek (append d b) = peek b ++ d;
  peek_retrieve n b : 0 <= n <= readableBytes b → peek (retrieve n b) = drop (Z.to_nat n) (peek b);
  peek_prepend d b : size d <= prependableBytes b → peek (prepend d b) = d ++ peek b;
  cheap_prepend d : 8 <= prependableBytes (append d newBuffer)
}.

(** ** Sending *)

Definition serializeServerMessage `{ProtoLib} (msg : ServerMessage) : bytes :=
  snd (ServerMessage_SerializeToString msg).

Definition serializeEnvelope `{ProtoLib} (msg : Envelope) : bytes :=
  snd (Envelope_SerializeToString msg).

Definition parseEnvelope `{ProtoLib} (buf : bytes) : Envelope :=
  snd (Envelope_ParseFromArray buf).

(** The buffer [sendServerMessage] fills and passes to [conn->send]. *)
Definition sendServerMessage `{ProtoLib} (B : Type) `{MuduoBuffer B} (msg : ServerMessage) : B :=
  let payload := serializeServerMessage msg in
  let buf := append payload newBuffer in
  let len := i32 (size payload) in
  let be32 := be_bytes 4 (u32 len) in
  prepend be32 buf.

(** ** Receiving *)

Definition kHeaderLen : Z := 4.
Definition kMaxLen : Z := 65536.

(** Copy [len] bytes from a pointer to the readable region [data]. *)
Definition copy_bytes (data : bytes) (len : Z) : option bytes :=
  if (0 <=? len) && (len <=? size data) then Some (take (Z.to_nat len) data) else None.

Section onMessage.
Context {B : Type} `{MuduoBuffer B} {S : Type}.
Variable handleMessage : bytes → S → S.
Variable shutdown : S → S.

Fixpoint onMessage_loop (fuel : nat) (buf : B) (s : S) : outcome (B * S) :=
  match fuel with
  | O => OutOfFuel
  | Datatypes.S fuel =>
    if kHeaderLen <=? readableBytes buf then
      be32 ← in_bounds (read_be 4 (peek buf) 0);
      let len := i32 be32 in
      if (kMaxLen <? len) || (len <? 0) then
        Done (buf, shutdown s)
      else if u64 (len + kHeaderLen) <=? readableBytes buf then
        let buf := retrieve kHeaderLen buf in
        payload ← in_bounds (copy_bytes (peek buf) len);
        let s := handleMessage payload s in
        let buf := retrieve len buf in
        onMessage_loop fuel buf s
      else Done (buf, s)
    else Done (buf, s)
  end.

(** Every turn that goes on takes at least the header off the buffer. *)
Definition onMessage (buf : B) (s : S) : outcome (B * S) :=
  onMessage_loop (Datatypes.S (length (peek buf))) buf s.

End onMessage.

Section handleMessage.
Context `{ProtoLib} {S : Type}.
Variable envelopeCallback : Envelope → S → S.
Variable send : ServerMessage → S → S.

Definition handleMessage (payload : bytes) (s : S) : S :=
  let '(ok, env) := Envelope_ParseFromArray payload in
  if negb ok then send (error (mkErrorResponse 1 "parse error")) s
  else envelopeCallback env s.

End handleMessage.

(** ** The stream format *)

Definition frame (payload : bytes) : bytes := be_bytes 4 (size payload) ++ payload.

(** A tail the loop keeps for later: less than a header, or a header that announces
    an acceptable length with less than that many bytes after it. *)
Definition partial (rest : bytes) : Prop :=
  size rest < 4 ∨
  (be_val (take 4 rest) <= kMaxLen ∧ size rest < 4 + be_val (take 4 rest)).

(** A tail whose header announces more than 65536 bytes, or a negative length. *)
Definition oversized (rest : bytes) : Prop :=
  4 <= size rest ∧ kMaxLen < be_val (take 4 rest).

(** [frames data payloads rest bad]: the payloads at the front of the stream, the
    bytes that stay in the buffer, and whether they start with an invalid length. *)
Inductive frames : bytes → list bytes → bytes → bool → Prop :=
| frames_partial rest : partial rest → frames rest [] rest false
| frames_bad rest : oversized rest → frames rest [] rest true
| frames_one payload data payloads rest bad :
    size payload <= kMaxLen → frames data payloads rest bad →
    frames (frame payload ++ data) (payload :: payloads) rest bad.

(** The effect of a batch of payloads, and of the invalid length that may end it. *)
Definition deliver {S} (handle : bytes → S → S) (shutdown : S → S) (payloads : list bytes)
    (bad : bool) (s : S) : S :=
  let s := fold_left (λ s p, handle p s) payloads s in
  if bad then shutdown s else s.

(** ** A concrete buffer *)

(** A byte region with free space in front of the reader index. *)
Record region := mkRegion { region_prependable : Z; region_data : bytes }.

#[export] Instance region_buffer : MuduoBuffer region := {
  newBuffer := mkRegion 8 [];
  readableBytes b := size (region_data b);
  prependableBytes b := region_prependable b;
  peek b := region_data b;
  retrieve n b := mkRegion (region_prependable b + n) (drop (Z.to_nat n) (region_data b));
  append d b := mkRegion (region_prependable b) (region_data b ++ d);
  prepend d b := mkRegion (region_prependable b - size d) (d ++ region_data b)
}.

#[export] Instance region_buffer_laws : MuduoBufferLaws region.
Proof. split; done. Qed.

(** A handler that keeps what it is given, and a payload, for concrete runs. *)
Definition log_payload (p : bytes) (log : list bytes) : list bytes := log ++ [p].

Definition sample_payload : bytes := be_bytes 3 0x616263.

(** A protobuf runtime whose every message serialises to the same string. *)
Definition constant_proto (payload : bytes) : ProtoLib := {|
  Envelope_ParseFromArray _ := (false, mkEnvelope "" PAYLOAD_NOT_SET);
  Envelope_SerializeToString _ := (true, payload);
  ServerMessage_ParseFromArray _ := (false, SERVER_PAYLOAD_NOT_SET);
  ServerMessage_SerializeToString _ := (true, payload)
|}.

(** ** Lemmas on the format *)

Lemma size_frame payload : size (frame payload) = 4 + size payload.
Proof. unfold frame. by rewrite size_app, size_be_bytes. Qed.

Lemma take_frame payload data : take 4 (frame payload ++ data) = be_bytes 4 (size payload).
Proof.
  unfold frame. rewrite <- app_assoc.
  apply (take_app_length' (be_bytes 4 (size payload))). by rewrite length_be_bytes.
Qed.

Lemma frame_len payload : size payload <= kMaxLen → be_val (be_bytes 4 (size payload)) = size payload.
Proof.
  intros Hs. unfold kMaxLen in Hs. apply be_val_be_bytes_small. pose proof (size_nonneg payload).
  change (2 ^ (8 * Z.of_nat 4)) with (2 ^ 32). lia.
Qed.

Lemma frame_not_partial payload data : size payload <= kMaxLen → ¬ partial (frame payload ++ data).
Proof.
  intros Hs. unfold partial. rewrite take_frame, frame_len, size_app, size_frame by done.
  pose proof (size_nonneg payload). pose proof (size_nonneg data). lia.
Qed.

Lemma frame_not_oversized payload data : size payload <= kMaxLen → ¬ oversized (frame payload ++ data).
Proof.
  intros Hs. unfold oversized. rewrite take_frame, frame_len by done. lia.
Qed.

Lemma partial_not_oversized rest : partial rest → ¬ oversized rest.
Proof. unfold partial, oversized. lia. Qed.

Lemma frame_inj p1 p2 d1 d2 :
  size p1 <= kMaxLen → size p2 <= kMaxLen → frame p1 ++ d1 = frame p2 ++ d2 → p1 = p2 ∧ d1 = d2.
Proof.
  intros H1 H2. unfold frame. rewrite <- !app_assoc. intros Heq.
  apply app_inj_1 in Heq as [Hl Heq]; [|by rewrite !length_be_bytes].
  apply (f_equal be_val) in Hl. rewrite !frame_len in Hl by done.
  apply app_inj_1 in Heq; [done|]. unfold size in Hl. lia.
Qed.

Lemma frames_det data ps1 r1 b1 ps2 r2 b2 :
  frames data ps1 r1 b1 → frames data ps2 r2 b2 → ps1 = ps2 ∧ r1 = r2 ∧ b1 = b2.
Proof.
  intros H1. revert ps2 r2 b2.
  induction H1 as [rest Hp|rest Ho|p data ps rest bad Hs Hf IH]; intros ps2 r2 b2 H2.
  - destruct H2 as [|rest Ho|p d ps rest bad Hs _]; [done| |].
    + by destruct (partial_not_oversized rest).
    + by destruct (frame_not_partial p d).
  - destruct H2 as [rest Hp|rest|p d ps rest bad Hs _]; [|done|].
    + by destruct (partial_not_oversized rest).
    + by destruct (frame_not_oversized p d).
  - remember (frame p ++ data) as full eqn:Hfull.
    destruct H2 as [rest2 Hp2|rest2 Ho2|p2 d2 ps2 rest2 bad2 Hs2 Hf2].
    + subst. by destruct (frame_not_partial p data).
    + subst. by destruct (frame_not_oversized p data).
    + destruct (frame_inj p2 p d2 data) as [-> ->]; [done..|].
      by destruct (IH _ _ _ Hf2) as (-> & -> & ->).
Qed.

(** A stream that starts with a partial tail parses as its extension does. *)
Lemma frames_app d1 d2 ps1 r1 ps2 r2 b :
  frames d1 ps1 r1 false → frames (r1 ++ d2) ps2 r2 b → frames (d1 ++ d2) (ps1 ++ ps2) r2 b.
Proof.
  intros H1. remember false as f eqn:Hf.
  induction H1 as [rest Hp|rest Ho|p data ps rest bad Hs Hfr IH]; intros H2; [done|done|].
  rewrite <- app_assoc. simpl. constructor; [done|]. by apply IH.
Qed.

Lemma oversized_app rest later : oversized rest → oversized (rest ++ later).
Proof.
  intros [Hs Hl]. pose proof (size_nonneg later). split.
  - rewrite size_app. lia.
  - rewrite take_app_le; [done|]. unfold size in Hs. lia.
Qed.

Lemma frames_bad_app d1 d2 ps r :
  frames d1 ps r true → frames (d1 ++ d2) ps (r ++ d2) true.
Proof.
  intros H1. remember true as f eqn:Hf.
  induction H1 as [rest Hp|rest Ho|p data ps rest bad Hs Hfr IH]; [done| |].
  - by apply frames_bad, oversized_app.
  - rewrite <- app_assoc. constructor; [done|]. by apply IH.
Qed.

Lemma frames_rest d ps r b : frames d ps r b → frames r [] r b.
Proof. induction 1; [by constructor..|done]. Qed.

Lemma deliver_app {S} (handle : bytes → S → S) shutdown ps1 ps2 b s :
  deliver handle shutdown (ps1 ++ ps2) b s =
  deliver handle shutdown ps2 b (deliver handle shutdown ps1 false s).
Proof. unfold deliver. by rewrite fold_left_app. Qed.

(** ** The loop implements the format *)

(** Every stream starts with a whole frame, or is partial, or starts with an invalid
    length. *)
Lemma stream_cases d :
  partial d ∨ oversized d ∨ ∃ p d', d = frame p ++ d' ∧ size p <= kMaxLen.
Proof.
  destruct (decide (size d < 4)) as [Hshort|Hlong]; [by left; left|].
  destruct (split_at d 4) as (h & d' & -> & Hh); [lia|].
  pose proof (be_val_range_z 4 h Hh). pose proof (size_nonneg d'). apply length_of_size in Hh as Hl.
  unfold partial, oversized. rewrite !(take_app_length' h) by done. rewrite size_app, Hh.
  destruct (decide (be_val h <= kMaxLen)) as [Hn|Hn]; [|right; left; split; lia].
  destruct (decide (size d' < be_val h)) as [Hlt|Hge]; [left; right; split; lia|].
  right; right. destruct (split_at d' (be_val h)) as (p & d'' & -> & Hp); [lia|].
  exists p, d''. unfold frame. rewrite Hp, <- app_assoc. split; [|done].
  by rewrite (be_bytes_be_val_n 4) by done.
Qed.

Lemma frames_total d : ∃ payloads rest bad, frames d payloads rest bad.
Proof.
  remember (length d) as n eqn:Hn. revert d Hn.
  induction n as [n IH] using lt_wf_ind. intros d ->.
  destruct (stream_cases d) as [Hp|[Ho|(p & d' & -> & Hp)]].
  - exists [], d, false. by constructor.
  - exists [], d, true. by constructor.
  - destruct (IH (length d')) with (d := d') as (ps & r & b & Hf); [|done|].
    + rewrite length_app. pose proof (size_frame p). pose proof (size_nonneg p). unfold size in *. lia.
    + exists (p :: ps), r, b. by constructor.
Qed.

Section onMessage_correct.
Context {B : Type} `{MuduoBufferLaws B} {S : Type}.
Variable handle : bytes → S → S.
Variable shutdown : S → S.

(** The header of a buffer that holds one. *)
Lemma read_header (buf : B) :
  4 <= size (peek buf) → read_be 4 (peek buf) 0 = Some (be_val (take 4 (peek buf))).
Proof.
  intros Hs. unfold read_be. change (Z.of_nat 4) with 4.
  rewrite (proj2 (Z.leb_le _ _)) by lia. by rewrite (proj2 (Z.leb_le _ _)) by lia.
Qed.

Lemma header_range (data : bytes) : 4 <= size data → 0 <= be_val (take 4 data) < 2 ^ 32.
Proof. intros Hs. apply (be_val_range_z 4). apply (size_take 4). lia. Qed.

Lemma turn_partial fuel (buf : B) s :
  partial (peek buf) → onMessage_loop handle shutdown (Datatypes.S fuel) buf s = Done (buf, s).
Proof.
  intros Hp. cbn [onMessage_loop]. rewrite readableBytes_peek. unfold kHeaderLen.
  destruct (4 <=? size (peek buf)) eqn:Hh; rewrite ?Z.leb_le, ?Z.leb_gt in Hh; [|done].
  destruct Hp as [Hp|[Hn Hs]]; [lia|]. rewrite read_header by done.
  pose proof (header_range _ Hh). cbn [in_bounds mbind outcome_bind]. unfold kMaxLen in *.
  rewrite i32_small by lia. rewrite (proj2 (Z.ltb_ge 65536 _)), (proj2 (Z.ltb_ge _ 0)) by lia.
  unfold u64. rewrite Z.mod_small by lia. by rewrite (proj2 (Z.leb_gt _ _)) by lia.
Qed.

Lemma turn_oversized fuel (buf : B) s :
  oversized (peek buf) →
  onMessage_loop handle shutdown (Datatypes.S fuel) buf s = Done (buf, shutdown s).
Proof.
  intros [Hh Hn]. cbn [onMessage_loop]. rewrite readableBytes_peek. unfold kHeaderLen.
  rewrite (proj2 (Z.leb_le _ _)), read_header by done. cbn [in_bounds mbind outcome_bind].
  pose proof (header_range _ Hh). set (n := be_val _) in *.
  assert ((kMaxLen <? i32 n) || (i32 n <? 0) = true) as ->; [|done].
  apply orb_true_iff. rewrite !Z.ltb_lt. unfold i32, to_signed.
  rewrite Z.mod_small by lia. change (2 ^ (32 - 1)) with (2 ^ 31).
  case_match eqn:E; rewrite ?Z.ltb_lt, ?Z.ltb_ge in E; lia.
Qed.

Lemma turn_frame fuel (buf : B) s p d :
  peek buf = frame p ++ d → size p <= kMaxLen →
  ∃ buf', onMessage_loop handle shutdown (Datatypes.S fuel) buf s =
          onMessage_loop handle shutdown fuel buf' (handle p s) ∧ peek buf' = d.
Proof.
  intros Hd Hp. unfold kMaxLen in Hp. pose proof (size_nonneg p). pose proof (size_nonneg d).
  assert (size (peek buf) = 4 + size p + size d) as Hs by (rewrite Hd, size_app, size_frame; done).
  assert (peek (retrieve 4 buf) = p ++ d) as Hret.
  { rewrite peek_retrieve, Hd by (rewrite readableBytes_peek; lia). unfold frame.
    rewrite <- app_assoc. apply (drop_app_length' (be_bytes 4 _)). by rewrite length_be_bytes. }
  exists (retrieve (size p) (retrieve 4 buf)). split.
  2: { rewrite peek_retrieve by (rewrite readableBytes_peek, Hret, size_app; lia).
       by rewrite Hret, to_nat_size, drop_app_length. }
  cbn [onMessage_loop]. rewrite readableBytes_peek. unfold kHeaderLen.
  rewrite (proj2 (Z.leb_le _ _)), read_header by lia. cbn [in_bounds mbind outcome_bind].
  assert (be_val (take 4 (peek buf)) = size p) as ->.
  { by rewrite Hd, take_frame, frame_len. }
  unfold kMaxLen. rewrite i32_small by lia.
  rewrite (proj2 (Z.ltb_ge 65536 _)), (proj2 (Z.ltb_ge _ 0)) by lia. cbn [orb].
  unfold u64. rewrite Z.mod_small by lia. rewrite (proj2 (Z.leb_le _ _)) by lia. rewrite Hret.
  unfold copy_bytes. rewrite (proj2 (Z.leb_le _ _)) by lia.
  rewrite (proj2 (Z.leb_le _ _)) by (rewrite size_app; lia). cbn [in_bounds mbind outcome_bind andb].
  by rewrite to_nat_size, take_app_length.
Qed.

Lemma onMessage_frames_fuel data payloads rest bad fuel (buf : B) s :
  frames data payloads rest bad → peek buf = data → (length data < fuel)%nat →
  ∃ buf', onMessage_loop handle shutdown fuel buf s =
          Done (buf', deliver handle shutdown payloads bad s) ∧ peek buf' = rest.
Proof.
  intros Hf. revert fuel buf s.
  induction Hf as [rest Hp|rest Ho|p data ps rest bad Hs Hf IH];
    intros [|fuel] buf s Hb Hfuel; try lia; subst.
  - exists buf. by rewrite turn_partial.
  - exists buf. by rewrite turn_oversized.
  - destruct (turn_frame fuel buf s p data) as (buf1 & -> & Hb1); [done..|].
    apply IH; [done|]. rewrite length_app in Hfuel.
    pose proof (size_frame p). pose proof (size_nonneg p). unfold size in *. lia.
Qed.

Lemma onMessage_frames (buf : B) s payloads rest bad :
  frames (peek buf) payloads rest bad →
  ∃ buf', onMessage handle shutdown buf s = Done (buf', deliver handle shutdown payloads bad s) ∧
          peek buf' = rest.
Proof. intros Hf. eapply onMessage_frames_fuel; [done..|lia]. Qed.

End onMessage_correct.

(** ** Theorems: receiving *)

(** C14. [onMessage] implements the stream format on any buffer that obeys the laws of
    muduo's [Buffer]: it always finishes without reading past the readable bytes, hands
    exactly the payloads of the whole frames to [handleMessage], in order and each
    once, shuts the connection down only at an invalid length, and leaves in the buffer
    exactly the bytes that belong to no whole frame. *)
Theorem onMessage_correct {B : Type} `{MuduoBufferLaws B} {S : Type}
    (handle : bytes → S → S) (shutdown : S → S) (buf : B) (s : S) :
  ∃ payloads rest bad buf',
    frames (peek buf) payloads rest bad ∧
    onMessage handle shutdown buf s = Done (buf', deliver handle shutdown payloads bad s) ∧
    peek buf' = rest.
Proof.
  destruct (frames_total (peek buf)) as (ps & r & b & Hf).
  destruct (onMessage_frames handle shutdown buf s ps r b Hf) as (buf' & Hrun & Hb).
  by exists ps, r, b, buf'.
Qed.

Lemma onMessage_correct_witness :
  ∃ payloads rest bad buf',
    frames (peek (mkRegion 8 (frame sample_payload))) payloads rest bad ∧
    onMessage log_payload (λ s, s) (mkRegion 8 (frame sample_payload)) [] =
      Done (buf', deliver log_payload (λ s, s) payloads bad []) ∧
    peek buf' = rest.
Proof. apply onMessage_correct. Defined.

Lemma frames_stream payloads rest :
  Forall (λ p, size p <= kMaxLen) payloads → partial rest →
  frames (concat (frame <$> payloads) ++ rest) payloads rest false.
Proof.
  intros Hf Hp. induction Hf as [|p ps Hs Hf IH]; simpl; [by constructor|].
  rewrite <- app_assoc. by constructor.
Qed.

(** A stream of frames, each within the limit, is delivered payload by payload in
    the order it was sent, and an unfinished frame behind it waits in the buffer. *)
Theorem onMessage_delivers {B : Type} `{MuduoBufferLaws B} {S : Type}
    (handle : bytes → S → S) (shutdown : S → S) (buf : B) (s : S) payloads rest :
  Forall (λ p, size p <= kMaxLen) payloads → partial rest →
  peek buf = concat (frame <$> payloads) ++ rest →
  ∃ buf', onMessage handle shutdown buf s = Done (buf', fold_left (λ s p, handle p s) payloads s) ∧
          peek buf' = rest.
Proof.
  intros Hf Hp Hb. apply (onMessage_frames _ _ buf s payloads rest false).
  rewrite Hb. by apply frames_stream.
Qed.

Lemma onMessage_delivers_witness :
  ∃ buf', onMessage log_payload (λ s, s)
            (mkRegion 8 (concat (frame <$> [sample_payload; []; sample_payload]) ++ be_bytes 4 2)) [] =
          Done (buf', fold_left (λ s p, log_payload p s) [sample_payload; []; sample_payload] []) ∧
          peek buf' = be_bytes 4 2.
Proof.
  apply onMessage_delivers.
  - repeat constructor; by vm_compute.
  - right. by vm_compute.
  - done.
Defined.

(** C15. How TCP cuts the stream makes no difference: reading after each of two
    chunks leaves the program in the state, and the buffer with the bytes, of one read
    after both, provided shutting a connection down twice is shutting it down once. *)
Theorem onMessage_chunks {B : Type} `{MuduoBufferLaws B} {S : Type}
    (handle : bytes → S → S) (shutdown : S → S) (buf : B) (s : S) chunk :
  (∀ s, shutdown (shutdown s) = shutdown s) →
  ∃ buf1 s1 buf2 buf3 s2,
    onMessage handle shutdown buf s = Done (buf1, s1) ∧
    onMessage handle shutdown (append chunk buf1) s1 = Done (buf2, s2) ∧
    onMessage handle shutdown (append chunk buf) s = Done (buf3, s2) ∧
    peek buf2 = peek buf3.
Proof.
  intros Hidem. destruct (frames_total (peek buf)) as (ps1 & r1 & b1 & Hf1).
  destruct (onMessage_frames handle shutdown buf s _ _ _ Hf1) as (buf1 & Hrun1 & Hb1).
  destruct (frames_total (r1 ++ chunk)) as (ps2 & r2 & b2 & Hf2).
  set (s1 := deliver handle shutdown ps1 b1 s).
  assert (peek (append chunk buf1) = r1 ++ chunk) as Hb2 by (by rewrite peek_append, Hb1).
  destruct (onMessage_frames handle shutdown (append chunk buf1) s1 ps2 r2 b2) as (buf2 & Hrun2 & Hr2);
    [by rewrite Hb2|].
  destruct b1.
  - assert (ps2 = [] ∧ r2 = r1 ++ chunk ∧ b2 = true) as (-> & -> & ->).
    { apply frames_rest in Hf1. apply (frames_det _ _ _ _ _ _ _ Hf2).
      by apply (frames_bad_app _ chunk) in Hf1. }
    destruct (onMessage_frames handle shutdown (append chunk buf) s ps1 (r1 ++ chunk) true)
      as (buf3 & Hrun3 & Hr3); [rewrite peek_append; by apply frames_bad_app|].
    exists buf1, s1, buf2, buf3, s1. split_and!; [done| |done|by rewrite Hr2, Hr3].
    rewrite Hrun2. unfold s1, deliver. simpl. by rewrite Hidem.
  - destruct (onMessage_frames handle shutdown (append chunk buf) s (ps1 ++ ps2) r2 b2)
      as (buf3 & Hrun3 & Hr3); [rewrite peek_append; by eapply frames_app|].
    exists buf1, s1, buf2, buf3, (deliver handle shutdown ps2 b2 s1).
    split_and!; [done..| |by rewrite Hr2, Hr3]. by rewrite Hrun3, deliver_app.
Qed.

Lemma onMessage_chunks_witness :
  ∃ buf1 s1 buf2 buf3 s2,
    onMessage log_payload (λ s, s) (mkRegion 8 (be_bytes 4 3 ++ be_bytes 1 7)) [] = Done (buf1, s1) ∧
    onMessage log_payload (λ s, s) (append (be_bytes 2 9) buf1) s1 = Done (buf2, s2) ∧
    onMessage log_payload (λ s, s) (append (be_bytes 2 9) (mkRegion 8 (be_bytes 4 3 ++ be_bytes 1 7))) [] =
      Done (buf3, s2) ∧
    peek buf2 = peek buf3.
Proof. by apply onMessage_chunks. Defined.

(** An invalid length is final: the frames before it are delivered, the
    connection is shut down, and because the header stays in the buffer no byte that
    arrives later is ever delivered, each read shutting down again. *)
Theorem onMessage_oversized {B : Type} `{MuduoBufferLaws B} {S : Type}
    (handle : bytes → S → S) (shutdown : S → S) (buf : B) (s : S) payloads rest later :
  Forall (λ p, size p <= kMaxLen) payloads → oversized rest →
  peek buf = concat (frame <$> payloads) ++ rest →
  ∃ buf' buf'',
    onMessage handle shutdown buf s =
      Done (buf', shutdown (fold_left (λ s p, handle p s) payloads s)) ∧
    (∀ s', onMessage handle shutdown (append later buf') s' = Done (buf'', shutdown s')) ∧
    peek buf'' = rest ++ later.
Proof.
  intros Hf Ho Hb. assert (frames (peek buf) payloads rest true) as Hfr.
  { rewrite Hb. clear Hb. induction Hf as [|p ps Hs Hf IH]; simpl; [by constructor|].
    rewrite <- app_assoc. by constructor. }
  destruct (onMessage_frames handle shutdown buf s _ _ _ Hfr) as (buf' & Hrun & Hr).
  exists buf', (append later buf'). rewrite peek_append, Hr. split_and!; [done| |done].
  intros s'. apply turn_oversized. rewrite peek_append, Hr. by apply oversized_app.
Qed.

Lemma onMessage_oversized_witness :
  ∃ buf' buf'',
    onMessage log_payload (λ s, s)
      (mkRegion 8 (concat (frame <$> [sample_payload]) ++ be_bytes 4 (-1))) [] =
      Done (buf', fold_left (λ s p, log_payload p s) [sample_payload] []) ∧
    (∀ s', onMessage log_payload (λ s, s) (append sample_payload buf') s' = Done (buf'', s')) ∧
    peek buf'' = be_bytes 4 (-1) ++ sample_payload.
Proof.
  apply (onMessage_oversized log_payload (λ s, s)).
  - repeat constructor; by vm_compute.
  - split; by vm_compute.
  - done.
Defined.

(** ** Theorems: sending *)

Lemma peek_sendServerMessage `{ProtoLib} {B : Type} `{MuduoBufferLaws B} msg :
  peek (sendServerMessage B msg) = frame (serializeServerMessage msg).
Proof.
  unfold sendServerMessage. set (payload := serializeServerMessage msg).
  rewrite peek_prepend, peek_append, peek_newBuffer.
  - unfold frame. rewrite app_nil_l. f_equal. rewrite u32_i32. apply (be_bytes_mod 4).
  - rewrite size_be_bytes. pose proof (cheap_prepend (B:=B) payload). lia.
Qed.

(** What [sendServerMessage] puts on the wire is one frame.  A receiver running
    the same loop gets exactly the serialised message when it has at most 65536 bytes,
    and otherwise gets nothing and closes the connection: the sender does not check
    the limit the receiver enforces. *)
Theorem sendServerMessage_received `{ProtoLib} {B : Type} `{MuduoBufferLaws B} {S : Type}
    (handle : bytes → S → S) (shutdown : S → S) (buf : B) (s : S) msg :
  let payload := serializeServerMessage msg in
  size payload < 2 ^ 32 → peek buf = peek (sendServerMessage B msg) →
  ∃ buf', onMessage handle shutdown buf s =
          Done (buf', if size payload <=? kMaxLen then handle payload s else shutdown s).
Proof.
  intros payload Hs Hb. rewrite peek_sendServerMessage in Hb. fold payload in Hb.
  destruct (size payload <=? kMaxLen) eqn:Hl; rewrite ?Z.leb_le, ?Z.leb_gt in Hl.
  - destruct (onMessage_frames handle shutdown buf s [payload] [] false) as (buf' & Hrun & _).
    + rewrite Hb, <- (app_nil_r (frame payload)). constructor; [done|]. apply frames_partial.
      by left.
    + by exists buf'.
  - exists buf. apply turn_oversized. rewrite Hb. unfold oversized.
    rewrite <- (app_nil_r (frame payload)), take_frame, app_nil_r, size_frame.
    pose proof (size_nonneg payload). rewrite be_val_be_bytes_small by (simpl; lia). lia.
Qed.

Lemma sendServerMessage_received_witness :
  let lib := constant_proto sample_payload in
  let msg := error (mkErrorResponse 1 "parse error") in
  ∃ buf', onMessage log_payload (λ s, s) (sendServerMessage region msg) [] =
          Done (buf', if size (serializeServerMessage msg) <=? kMaxLen
                      then log_payload (serializeServerMessage msg) [] else []).
Proof.
  intros lib msg. apply (sendServerMessage_received log_payload (λ s, s)); by vm_compute.
Defined.
