(* ===== verification/CString.v ===== *)
(** Characters, decimal numbers and C strings, as the sources use the C library for them:
    the scanner behind [%wd] of [sscanf] and behind [atoi] and [atoll], [std::to_string], and
    [c_str()] where a callee reads up to the first NUL. *)

From S2P Require Import Prelude Machine.
From Stdlib Require Import Ascii.

Local Open Scope Z_scope.

(** ** Reading *)

(** [isspace] in the C locale. *)
Definition isspace (c : ascii) : bool :=
  let n := nat_of_ascii c in (n =? 32)%nat || ((9 <=? n)%nat && (n <=? 13)%nat).

Definition digit_of (c : ascii) : option Z :=
  let n := Z.of_nat (nat_of_ascii c) in
  if (48 <=? n) && (n <=? 57) then Some (n - 48) else None.

Fixpoint skip_ws (s : string) : string :=
  match s with
  | String c s' => if isspace c then skip_ws s' else s
  | EmptyString => s
  end.

(** Up to [w] digits; [None] when there is none. *)
Fixpoint scan_digits (w : nat) (acc : option Z) (s : string) : option (Z * string) :=
  match w, s with
  | S w, String c s' =>
    match digit_of c with
    | Some d => scan_digits w (Some (10 * default 0 acc + d)) s'
    | None => v ← acc; Some (v, s)
    end
  | _, _ => v ← acc; Some (v, s)
  end.

(** [%wd]: leading white space is free, a sign counts towards the width. *)
Definition scan_int (w : nat) (s : string) : option (Z * string) :=
  match skip_ws s with
  | String c s' =>
    if Ascii.eqb c "-" then '(v, r) ← scan_digits (w - 1) None s'; Some (- v, r)
    else if Ascii.eqb c "+" then scan_digits (w - 1) None s'
    else scan_digits w None (String c s')
  | EmptyString => None
  end.

(** [atoi] and [atoll]: the number at the front of the text, 0 when there is none. *)
Definition atoll (s : string) : Z :=
  match scan_int (S (String.length s)) s with
  | Some (v, _) => v
  | None => 0
  end.

(** What a callee that takes a [const char*] sees of a string. *)
Fixpoint c_str (s : string) : string :=
  match s with
  | EmptyString => EmptyString
  | String c s => if Ascii.eqb c "000"%char then EmptyString else String c (c_str s)
  end.

(** ** Writing *)

Definition digit_char (d : Z) : ascii := ascii_of_nat (Z.to_nat (48 + d)).

(** The last [n] decimal digits of [x], zeros included, in front of [rest]. *)
Fixpoint print_digits (n : nat) (x : Z) (rest : string) : string :=
  match n with
  | O => rest
  | S n => print_digits n (x / 10) (String (digit_char (x mod 10)) rest)
  end.

(** The number of decimal digits of a number that is not negative. *)
Fixpoint digit_count_loop (fuel : nat) (x : Z) : nat :=
  match fuel with
  | O => 1
  | S fuel => if x <? 10 then 1 else S (digit_count_loop fuel (x / 10))
  end.

Definition digit_count (x : Z) : nat := digit_count_loop (S (Z.to_nat (Z.log2 x))) x.

(** [std::to_string] of an integer. *)
Definition to_string (x : Z) : string :=
  if x <? 0 then String "-" (print_digits (digit_count (- x)) (- x) "")
  else print_digits (digit_count x) x "".

(** ** Lemmas *)

Lemma digit_of_char d : 0 <= d < 10 → digit_of (digit_char d) = Some d.
Proof.
  intros Hd. assert (∃ n, (n < 10)%nat ∧ d = Z.of_nat n) as (n & Hn & ->).
  { exists (Z.to_nat d). lia. }
  do 10 (destruct n as [|n]; [reflexivity|]). lia.
Qed.

Lemma digit_char_plain d : 0 <= d < 10 →
  isspace (digit_char d) = false ∧ Ascii.eqb (digit_char d) "-" = false ∧
  Ascii.eqb (digit_char d) "+" = false.
Proof.
  intros Hd. assert (∃ n, (n < 10)%nat ∧ d = Z.of_nat n) as (n & Hn & ->).
  { exists (Z.to_nat d). lia. }
  do 10 (destruct n as [|n]; [done|]). lia.
Qed.

(** Scanning back a printed block of digits. *)
Lemma scan_print_digits n k x acc rest :
  0 <= x →
  scan_digits (n + k) acc (print_digits n x rest) =
  scan_digits k (if decide (n = O) then acc
                 else Some (10 ^ Z.of_nat n * default 0 acc + x mod 10 ^ Z.of_nat n)) rest.
Proof.
  revert x k acc rest. induction n as [|n IH]; intros x k acc rest Hx; [done|].
  cbn [print_digits]. replace (S n + k)%nat with (n + S k)%nat by lia.
  rewrite IH by (apply Z.div_pos; lia). cbn [scan_digits].
  rewrite digit_of_char by (apply Z.mod_pos_bound; lia).
  rewrite (decide_False (P := S n = O)) by lia. f_equal. f_equal.
  rewrite Nat2Z.inj_succ, Z.pow_succ_r by lia.
  rewrite (Z.rem_mul_r x 10 (10 ^ Z.of_nat n)) by lia.
  case_decide as Hn; [subst; cbn [default Z.of_nat]; rewrite Z.pow_0_r, Z.mod_1_r; ring|].
  cbn [default]. unfold id. ring.
Qed.

Lemma print_digits_head n x rest : (0 < n)%nat → 0 <= x →
  ∃ d s, print_digits n x rest = String (digit_char d) s ∧ 0 <= d < 10.
Proof.
  intros Hn Hx. destruct n as [|n]; [lia|]. clear Hn. revert x rest Hx.
  induction n as [|n IH]; intros x rest Hx.
  - eexists _, _. cbn. split; [done|]. apply Z.mod_pos_bound; lia.
  - cbn [print_digits] in *. apply IH. apply Z.div_pos; lia.
Qed.

(** A block of [n] digits is a full [%nd], whatever follows. *)
Lemma scan_int_print n x rest :
  (0 < n)%nat → 0 <= x < 10 ^ Z.of_nat n →
  scan_int n (print_digits n x rest) = Some (x, rest).
Proof.
  intros Hn [Hx Hlt]. destruct (print_digits_head n x rest Hn Hx) as (d & s & Hs & Hd).
  destruct (digit_char_plain d Hd) as (H1 & H2 & H3).
  unfold scan_int. rewrite Hs. cbn [skip_ws]. rewrite H1, H2, H3, <- Hs.
  replace n with (n + 0)%nat at 1 by lia. rewrite scan_print_digits by done.
  rewrite decide_False by lia. cbn [default]. rewrite Z.mul_0_r, Z.add_0_l, Z.mod_small by done.
  by destruct rest.
Qed.

(** White space in front of a printed number is skipped by itself. *)
Lemma skip_ws_print n x rest :
  (0 < n)%nat → 0 <= x → skip_ws (print_digits n x rest) = print_digits n x rest.
Proof.
  intros Hn Hx. destruct n as [|n]; [lia|]. clear Hn. revert x rest Hx.
  induction n as [|n IH]; intros x rest Hx.
  - cbn. destruct (digit_char_plain (x mod 10)) as [-> _]; [apply Z.mod_pos_bound; lia|done].
  - cbn [print_digits] in *. apply IH. apply Z.div_pos; lia.
Qed.

Lemma digit_count_loop_bound fuel x :
  0 <= x < 2 ^ Z.of_nat fuel → 0 <= x < 10 ^ Z.of_nat (digit_count_loop fuel x).
Proof.
  revert x. induction fuel as [|fuel IH]; intros x Hx; cbn [digit_count_loop]; [cbn in *; lia|].
  destruct (Z.ltb_spec x 10); [cbn; lia|].
  rewrite Nat2Z.inj_succ, Z.pow_succ_r in Hx by lia. rewrite Nat2Z.inj_succ, Z.pow_succ_r by lia.
  pose proof (Z.div_mod x 10). pose proof (Z.mod_pos_bound x 10). specialize (IH (x / 10)). lia.
Qed.

Lemma digit_count_bound x : 0 <= x → x < 10 ^ Z.of_nat (digit_count x).
Proof.
  intros Hx. apply (digit_count_loop_bound (S (Z.to_nat (Z.log2 x))) x). split; [done|].
  destruct (decide (x = 0)) as [->|Hne]; [cbn; lia|].
  pose proof (Z.log2_spec x ltac:(lia)). pose proof (Z.log2_nonneg x).
  replace (Z.of_nat (S (Z.to_nat (Z.log2 x)))) with (Z.succ (Z.log2 x)) by lia. lia.
Qed.

Lemma digit_count_loop_pos fuel x : (0 < digit_count_loop fuel x)%nat.
Proof. destruct fuel; cbn; [lia|]. case_match; lia. Qed.

Lemma print_digits_length n x rest :
  String.length (print_digits n x rest) = (n + String.length rest)%nat.
Proof. revert x rest. induction n as [|n IH]; intros x rest; cbn; [done|]. rewrite IH. cbn. lia. Qed.

(** Numbers survive the trip through decimal text. *)
Lemma atoll_to_string x : atoll (to_string x) = x.
Proof.
  unfold atoll, to_string. destruct (Z.ltb_spec x 0) as [Hx|Hx].
  - set (n := digit_count (- x)). assert (0 < n)%nat as Hn by apply digit_count_loop_pos.
    pose proof (digit_count_bound (- x) ltac:(lia)) as Hb. fold n in Hb.
    unfold scan_int. cbn [skip_ws String.length]. change (isspace "-") with false. cbv iota.
    change (Ascii.eqb "-" "-") with true. cbv iota. cbn [Nat.sub].
    rewrite print_digits_length. cbn [String.length].
    replace (S (n + 0)) with (n + 1)%nat by lia.
    rewrite scan_print_digits, decide_False by lia. cbn [scan_digits mbind option_bind default from_option].
    rewrite Z.mod_small by lia. cbn. lia.
  - set (n := digit_count x). assert (0 < n)%nat as Hn by apply digit_count_loop_pos.
    pose proof (digit_count_bound x Hx) as Hb. fold n in Hb.
    destruct (print_digits_head n x "" Hn Hx) as (d & s & Hs & Hd).
    destruct (digit_char_plain d Hd) as (H1 & H2 & H3).
    unfold scan_int. rewrite Hs. cbn [skip_ws]. rewrite H1, H2, H3, <- Hs.
    rewrite print_digits_length. cbn [String.length].
    replace (S (n + 0)) with (n + 1)%nat by lia.
    rewrite scan_print_digits, decide_False by lia. cbn [scan_digits mbind option_bind default from_option].
    rewrite Z.mod_small by lia. cbn. lia.
Qed.

(** ** C strings *)

Lemma c_str_app s t : c_str s = s → c_str (s +:+ t) = s +:+ c_str t.
Proof.
  induction s as [|c s IH]; intros Hs; [done|]. change (String c s +:+ t) with (String c (s +:+ t)).
  cbn in *. destruct (Ascii.eqb c "000"); [done|]. injection Hs as Hs. by rewrite IH.
Qed.

Lemma c_str_idem s : c_str (c_str s) = c_str s.
Proof.
  induction s as [|c s IH]; [done|]. cbn. destruct (Ascii.eqb c "000") eqn:Hc; [done|].
  cbn. by rewrite Hc, IH.
Qed.

Lemma digit_char_nonul d : 0 <= d < 10 → Ascii.eqb (digit_char d) "000" = false.
Proof.
  intros Hd. assert (∃ n, (n < 10)%nat ∧ d = Z.of_nat n) as (n & Hn & ->).
  { exists (Z.to_nat d). lia. }
  do 10 (destruct n as [|n]; [done|]). lia.
Qed.

Lemma c_str_print_digits n x t : 0 <= x → c_str (print_digits n x t) = print_digits n x (c_str t).
Proof.
  revert x t. induction n as [|n IH]; intros x t Hx; [done|]. cbn [print_digits].
  rewrite IH by (apply Z.div_pos; lia). cbn [c_str].
  by rewrite digit_char_nonul by (apply Z.mod_pos_bound; lia).
Qed.

Lemma c_str_to_string x : c_str (to_string x) = to_string x.
Proof.
  unfold to_string. destruct (Z.ltb_spec x 0); [cbn [c_str]; cbn [Ascii.eqb Bool.eqb]; f_equal|];
    by rewrite c_str_print_digits by lia.
Qed.
