(* ===== verification/SessionManager.v ===== *)
(** [SessionManager] of [src/session_manager.{h,cc}]: who is online on which
    connection, who is a friend of whom, and which friend requests wait.

    The class keeps a [Session] in the context slot of each [TcpConnection]
    ([setContext]/[getContext], a [boost::any]); the slots are the map [contexts],
    where no entry is the empty [any].  The methods touch the tables only while they hold
    [mutex_], and a connection's slot is written by its own loop only, so each method is a
    single step on the state.  (The slot is also read without a lock by other loops, where
    [sendFriendList] is called for another user's connection, and [getFriends] returns a
    reference that outlives the lock; such reads are taken at the time of the call.)
    [getConnection] returns the null pointer as [None].  Log lines are left out. *)

From S2P Require Import Prelude.
From Stdlib Require Import Ascii.

(** The identity of a [TcpConnectionPtr]. *)
Abbreviation Conn := nat.

Record Session := mkSession {
  session_uid : string;
  session_token : string;
  session_authenticated : bool
}.

Record SessionManager := mkSessionManager {
  users_ : gmap string Conn;
  friendships_ : gmap string (gset string);
  pending_friend_requests_ : gset string;
  contexts : gmap Conn Session
}.

Definition new_SessionManager : SessionManager := mkSessionManager ∅ ∅ ∅ ∅.

Definition set_users (f : gmap string Conn → gmap string Conn) (m : SessionManager) : SessionManager :=
  mkSessionManager (f (users_ m)) (friendships_ m) (pending_friend_requests_ m) (contexts m).

Definition set_friendships (f : gmap string (gset string) → gmap string (gset string))
    (m : SessionManager) : SessionManager :=
  mkSessionManager (users_ m) (f (friendships_ m)) (pending_friend_requests_ m) (contexts m).

Definition set_pending (f : gset string → gset string) (m : SessionManager) : SessionManager :=
  mkSessionManager (users_ m) (friendships_ m) (f (pending_friend_requests_ m)) (contexts m).

Definition setContext (conn : Conn) (s : Session) (m : SessionManager) : SessionManager :=
  mkSessionManager (users_ m) (friendships_ m) (pending_friend_requests_ m) (<[conn := s]> (contexts m)).

(** ** Connections and sessions *)

Definition onConnection (conn : Conn) (m : SessionManager) : SessionManager := m.

Definition onDisconnection (conn : Conn) (m : SessionManager) : SessionManager :=
  match contexts m !! conn with
  | None => m
  | Some s =>
    if negb (String.eqb (session_uid s) "") then set_users (delete (session_uid s)) m else m
  end.

Definition authenticate (conn : Conn) (uid token : string) (m : SessionManager)
    : bool * SessionManager :=
  let m := set_users <[uid := conn]> m in
  (true, setContext conn (mkSession uid token true) m).

Definition deauthenticate (conn : Conn) (m : SessionManager) : SessionManager :=
  let m :=
    match contexts m !! conn with
    | Some s =>
      if negb (String.eqb (session_uid s) "") then set_users (delete (session_uid s)) m else m
    | None => m
    end in
  setContext conn (mkSession "" "" false) m.

Definition isAuthenticated (conn : Conn) (m : SessionManager) : bool :=
  match contexts m !! conn with
  | None => false
  | Some s => session_authenticated s
  end.

Definition getUid (conn : Conn) (m : SessionManager) : string :=
  match contexts m !! conn with
  | Some s => session_uid s
  | None => ""
  end.

Definition getConnection (uid : string) (m : SessionManager) : option Conn := users_ m !! uid.

Definition isOnline (uid : string) (m : SessionManager) : bool :=
  match users_ m !! uid with
  | Some _ => true
  | None => false
  end.

Definition onlineCount (m : SessionManager) : nat := size (users_ m).

(** ** Friendships *)

(** [friendships_[uid]]: the entry, created empty when there is none. *)
Definition friends_entry (uid : string) (fs : gmap string (gset string)) : gset string :=
  default ∅ (fs !! uid).

Definition addFriendship (uid1 uid2 : string) : SessionManager → SessionManager :=
  set_friendships (λ fs,
    let fs := <[uid1 := {[uid2]} ∪ friends_entry uid1 fs]> fs in
    <[uid2 := {[uid1]} ∪ friends_entry uid2 fs]> fs).

Definition removeFriendship (uid1 uid2 : string) : SessionManager → SessionManager :=
  set_friendships (λ fs,
    let fs := <[uid1 := friends_entry uid1 fs ∖ {[uid2]}]> fs in
    <[uid2 := friends_entry uid2 fs ∖ {[uid1]}]> fs).

Definition getFriends (uid : string) (m : SessionManager) : gset string :=
  match friendships_ m !! uid with
  | Some fs => fs
  | None => ∅
  end.

(** ** Pending friend requests *)

Definition pending_key (requester target : string) : string := requester +:+ ":" +:+ target.

Definition addPendingRequest (requester target : string) : SessionManager → SessionManager :=
  set_pending (λ p, {[pending_key requester target]} ∪ p).

Definition removePendingRequest (requester target : string) : SessionManager → SessionManager :=
  set_pending (λ p, p ∖ {[pending_key requester target]}).

Definition hasPendingRequest (requester target : string) (m : SessionManager) : bool :=
  bool_decide (pending_key requester target ∈ pending_friend_requests_ m).

(** ** Sequences of calls *)

(** The mutating methods, as calls to replay. *)
Inductive sm_call :=
| sm_connect (conn : Conn)
| sm_disconnect (conn : Conn)
| sm_authenticate (conn : Conn) (uid token : string)
| sm_deauthenticate (conn : Conn)
| sm_addFriendship (uid1 uid2 : string)
| sm_removeFriendship (uid1 uid2 : string)
| sm_addPending (requester target : string)
| sm_removePending (requester target : string).

Definition run_call (m : SessionManager) (c : sm_call) : SessionManager :=
  match c with
  | sm_connect conn => onConnection conn m
  | sm_disconnect conn => onDisconnection conn m
  | sm_authenticate conn uid token => snd (authenticate conn uid token m)
  | sm_deauthenticate conn => deauthenticate conn m
  | sm_addFriendship u v => addFriendship u v m
  | sm_removeFriendship u v => removeFriendship u v m
  | sm_addPending r t => addPendingRequest r t m
  | sm_removePending r t => removePendingRequest r t m
  end.

Definition run_calls (calls : list sm_call) (m : SessionManager) : SessionManager :=
  fold_left run_call calls m.

(** ** What the friendship and pending tables promise *)

(** The abstract friendship relation a sequence of calls describes: an undirected
    graph on which the last call about a pair decides. *)
Definition friend_spec (calls : list sm_call) (u v : string) : bool :=
  fold_left (λ b c,
    match c with
    | sm_addFriendship x y =>
      if bool_decide ((x = u ∧ y = v) ∨ (x = v ∧ y = u)) then true else b
    | sm_removeFriendship x y =>
      if bool_decide ((x = u ∧ y = v) ∨ (x = v ∧ y = u)) then false else b
    | _ => b
    end) calls false.

(** The abstract set of waiting requests, as pairs. *)
Definition pending_spec (calls : list sm_call) (r t : string) : bool :=
  fold_left (λ b c,
    match c with
    | sm_addPending x y => if bool_decide (x = r ∧ y = t) then true else b
    | sm_removePending x y => if bool_decide (x = r ∧ y = t) then false else b
    | _ => b
    end) calls false.

(** No colon in a user id. *)
Fixpoint colon_free (s : string) : bool :=
  match s with
  | EmptyString => true
  | String a s => negb (Ascii.eqb a ":"%char) && colon_free s
  end.

Definition requester_colon_free (c : sm_call) : Prop :=
  match c with
  | sm_addPending r _ | sm_removePending r _ => colon_free r = true
  | _ => True
  end.

(** ** The session discipline *)

(** Histories in which a connection logs in at most once before it logs out, and a
    user is on at most one connection at a time: [live] is the set of connections
    that are up. *)
Inductive disciplined : gset Conn → SessionManager → Prop :=
| disciplined_init : disciplined ∅ new_SessionManager
| disciplined_connect live m conn :
    disciplined live m → conn ∉ live → contexts m !! conn = None →
    disciplined ({[conn]} ∪ live) (onConnection conn m)
| disciplined_authenticate live m conn uid token :
    disciplined live m → conn ∈ live → uid ≠ ""%string →
    isAuthenticated conn m = false → isOnline uid m = false →
    disciplined live (snd (authenticate conn uid token m))
| disciplined_deauthenticate live m conn :
    disciplined live m → conn ∈ live → disciplined live (deauthenticate conn m)
| disciplined_disconnect live m conn :
    disciplined live m → conn ∈ live →
    disciplined (live ∖ {[conn]}) (onDisconnection conn m)
| disciplined_other live m f :
    disciplined live m → users_ (f m) = users_ m → contexts (f m) = contexts m →
    disciplined live (f m).

(** ** Lemmas on the three tables *)

Lemma getFriends_entry u m : getFriends u m = friends_entry u (friendships_ m).
Proof. unfold getFriends, friends_entry. by destruct (friendships_ m !! u). Qed.

Lemma friends_entry_insert u v X fs :
  friends_entry u (<[v := X]> fs) = if decide (v = u) then X else friends_entry u fs.
Proof.
  unfold friends_entry. rewrite lookup_insert. by case_decide.
Qed.

Lemma elem_of_addFriendship u v x y m :
  v ∈ getFriends u (addFriendship x y m) ↔
  (x = u ∧ y = v) ∨ (x = v ∧ y = u) ∨ v ∈ getFriends u m.
Proof.
  rewrite !getFriends_entry. unfold addFriendship, set_friendships; cbn [friendships_].
  rewrite !friends_entry_insert.
  destruct (decide (y = u)), (decide (x = y)), (decide (x = u)); subst; try congruence; set_solver.
Qed.

Lemma elem_of_removeFriendship u v x y m :
  v ∈ getFriends u (removeFriendship x y m) ↔
  v ∈ getFriends u m ∧ ¬ (x = u ∧ y = v) ∧ ¬ (x = v ∧ y = u).
Proof.
  rewrite !getFriends_entry. unfold removeFriendship, set_friendships; cbn [friendships_].
  rewrite !friends_entry_insert.
  destruct (decide (y = u)), (decide (x = y)), (decide (x = u)); subst; try congruence; set_solver.
Qed.

Lemma pending_key_inj r1 t1 r2 t2 :
  colon_free r1 = true → colon_free r2 = true →
  pending_key r1 t1 = pending_key r2 t2 → r1 = r2 ∧ t1 = t2.
Proof.
  unfold pending_key. revert r2.
  induction r1 as [|a1 r1 IH]; intros [|a2 r2] H1 H2 Heq; simpl in *; simplify_eq/=; try done.
  apply andb_true_iff in H1 as [_ H1], H2 as [_ H2].
  by destruct (IH r2) as [-> ->].
Qed.

(** No call but the friendship ones touches the friendships, no call but the
    pending ones touches the requests. *)
Lemma run_call_friendships m c :
  match c with sm_addFriendship _ _ | sm_removeFriendship _ _ => True
             | _ => friendships_ (run_call m c) = friendships_ m end.
Proof.
  destruct c; simpl; auto; unfold onDisconnection, deauthenticate;
    destruct (contexts m !! conn); simpl; auto; by case_match.
Qed.

Lemma run_call_pending m c :
  match c with sm_addPending _ _ | sm_removePending _ _ => True
             | _ => pending_friend_requests_ (run_call m c) = pending_friend_requests_ m end.
Proof.
  destruct c; simpl; auto; unfold onDisconnection, deauthenticate;
    destruct (contexts m !! conn); simpl; auto; by case_match.
Qed.

(** Every call keeps friendship symmetric. *)
Definition friends_symmetric (m : SessionManager) : Prop :=
  ∀ u v, v ∈ getFriends u m ↔ u ∈ getFriends v m.

Lemma run_call_symmetric m c : friends_symmetric m → friends_symmetric (run_call m c).
Proof.
  intros Hm u v. specialize (Hm u v). pose proof (run_call_friendships m c) as Hother.
  destruct c; try (rewrite !getFriends_entry, Hother, <- !getFriends_entry; exact Hm); simpl.
  - rewrite !elem_of_addFriendship. tauto.
  - rewrite !elem_of_removeFriendship. tauto.
Qed.

(** ** Theorems: friendships and requests *)

(** C28. The friendship table implements the abstract undirected graph: after any
    sequence of calls, [v] is listed as a friend of [u] exactly when the last friendship
    call about the pair, in either order, added it. *)
Theorem getFriends_refines calls u v :
  v ∈ getFriends u (run_calls calls new_SessionManager) ↔ friend_spec calls u v = true.
Proof.
  unfold run_calls, friend_spec. induction calls as [|c calls IH] using rev_ind; [done|].
  rewrite !fold_left_app. simpl. set (m := fold_left run_call calls _) in *.
  pose proof (run_call_friendships m c) as Hother.
  destruct c; try (rewrite getFriends_entry, Hother, <- getFriends_entry; exact IH); simpl.
  - rewrite elem_of_addFriendship, IH. case_bool_decide; tauto.
  - rewrite elem_of_removeFriendship, IH. case_bool_decide; [|tauto]. split; [tauto|done].
Qed.

(** The set of pending keys implements the abstract set of (requester, target)
    pairs as long as no requester's id holds a colon. *)
Theorem hasPendingRequest_refines calls r t :
  Forall requester_colon_free calls → colon_free r = true →
  hasPendingRequest r t (run_calls calls new_SessionManager) = pending_spec calls r t.
Proof.
  intros Hf Hr. unfold run_calls, pending_spec.
  induction calls as [|c calls IH] using rev_ind; [done|].
  apply Forall_app in Hf as [Hf Hc]. inversion_clear Hc as [|? ? Hc' _].
  rewrite !fold_left_app. simpl. set (m := fold_left run_call calls _) in *.
  specialize (IH Hf). unfold hasPendingRequest in *. pose proof (run_call_pending m c) as Hother.
  destruct c as [| | | | | |x y|x y]; try (rewrite Hother; exact IH); simpl in *; rewrite <- IH.
  - destruct (decide (x = r ∧ y = t)) as [[-> ->]|Hne].
    + rewrite (bool_decide_eq_true_2 (r = r ∧ t = t)) by done.
      apply bool_decide_eq_true_2. set_solver.
    + rewrite (bool_decide_eq_false_2 (x = r ∧ y = t)) by done.
      apply bool_decide_ext. rewrite elem_of_union, elem_of_singleton.
      split; [|by right]. intros [Heq|]; [|done]. apply pending_key_inj in Heq; naive_solver.
  - destruct (decide (x = r ∧ y = t)) as [[-> ->]|Hne].
    + rewrite (bool_decide_eq_true_2 (r = r ∧ t = t)) by done.
      apply bool_decide_eq_false_2. set_solver.
    + rewrite (bool_decide_eq_false_2 (x = r ∧ y = t)) by done.
      apply bool_decide_ext. rewrite elem_of_difference, elem_of_singleton.
      split; [by intros []|]. intros Hin. split; [done|]. intros Heq.
      apply pending_key_inj in Heq; naive_solver.
Qed.

Lemma hasPendingRequest_refines_witness :
  let calls := [sm_addPending "alice" "bob"; sm_addPending "carol" "x:y";
                sm_removePending "alice" "bob"] in
  hasPendingRequest "carol" "x:y" (run_calls calls new_SessionManager) =
  pending_spec calls "carol" "x:y".
Proof. intros calls. apply hasPendingRequest_refines; [by repeat constructor|done]. Defined.

(** With colons the keys collide: the request of [a] to [b:c] is reported as a
    request of [a:b] to [c] that nobody made, and withdrawing that one loses the first. *)
Theorem pending_requests_collide a b c m :
  let m' := addPendingRequest a (b +:+ ":" +:+ c) m in
  hasPendingRequest (a +:+ ":" +:+ b) c m' = true ∧
  hasPendingRequest a (b +:+ ":" +:+ c) (removePendingRequest (a +:+ ":" +:+ b) c m') = false.
Proof.
  assert (pending_key (a +:+ ":" +:+ b) c = pending_key a (b +:+ ":" +:+ c)) as Hk.
  { unfold pending_key. by rewrite !string_app_assoc. }
  intros m'. unfold hasPendingRequest. rewrite Hk. split.
  - apply bool_decide_eq_true_2. unfold m', addPendingRequest, set_pending; simpl. set_solver.
  - apply bool_decide_eq_false_2. unfold removePendingRequest, set_pending; simpl.
    rewrite Hk. set_solver.
Qed.

(** ** Theorems: sessions *)

(** What the discipline maintains: the user table is the live logged-in sessions, and
    a session is either logged in under a name or blank. *)
Definition sessions_ok (live : gset Conn) (m : SessionManager) : Prop :=
  (∀ uid conn, users_ m !! uid = Some conn ↔
     conn ∈ live ∧ ∃ token, contexts m !! conn = Some (mkSession uid token true)) ∧
  (∀ conn s, contexts m !! conn = Some s →
     if session_authenticated s then session_uid s ≠ ""%string else session_uid s = ""%string).

Lemma isAuthenticated_false conn m :
  isAuthenticated conn m = false → ∀ uid token, contexts m !! conn ≠ Some (mkSession uid token true).
Proof. unfold isAuthenticated. intros Ha uid token Hc. by rewrite Hc in Ha. Qed.

Lemma isOnline_false uid m : isOnline uid m = false → users_ m !! uid = None.
Proof. unfold isOnline. by destruct (users_ m !! uid). Qed.

Lemma sessions_ok_authenticate live m conn uid token :
  sessions_ok live m → conn ∈ live → uid ≠ ""%string →
  isAuthenticated conn m = false → isOnline uid m = false →
  sessions_ok live (snd (authenticate conn uid token m)).
Proof.
  intros [Hu Hs] Hlive Huid Hauth Hon. apply isOnline_false in Hon.
  pose proof (isAuthenticated_false _ _ Hauth) as Hna.
  split; unfold authenticate, setContext, set_users; simpl.
  - intros u c. rewrite !lookup_insert. specialize (Hu u c) as Huc. case_decide; subst.
    + split.
      * intros [= <-]. split; [done|]. exists token. by rewrite decide_True.
      * intros (Hc & tok & Ht). case_decide; [by subst|]. rewrite Hon in Huc.
        destruct Huc as [_ Huc]. by discriminate Huc; eauto.
    + rewrite Huc. case_decide; [|done]. subst. split.
      * intros (_ & tok & Ht). by destruct (Hna u tok).
      * intros (_ & tok & Ht). congruence.
  - intros c s. rewrite lookup_insert. case_decide; [by intros [= <-]|apply Hs].
Qed.

(** Dropping the entry of the session a connection holds leaves no entry for it. *)
Lemma forget_session live m conn :
  sessions_ok live m → conn ∈ live →
  let m' := match contexts m !! conn with
            | Some s => if negb (String.eqb (session_uid s) "") then set_users (delete (session_uid s)) m else m
            | None => m end in
  contexts m' = contexts m ∧
  ∀ u c, users_ m' !! u = Some c ↔ c ≠ conn ∧ users_ m !! u = Some c.
Proof.
  intros [Hu Hs] Hlive m'. subst m'. destruct (contexts m !! conn) as [s|] eqn:Hc.
  - specialize (Hs conn s Hc) as Hname.
    destruct s as [uid tok [|]]; simpl in *; destruct (String.eqb_spec uid ""); try done; simpl.
    + split; [done|]. intros u c. rewrite lookup_delete. case_decide; [|split; [|by intros []]].
      * subst. split; [done|]. intros [Hne Hu']. apply Hu in Hu' as Hu''.
        assert (users_ m !! u = Some conn) by (apply Hu; eauto). congruence.
      * intros Hu'. split; [|done]. intros ->. apply Hu in Hu' as (_ & t & Ht). congruence.
    + split; [done|]. intros u c. split; [|by intros []]. intros Hu'. split; [|done].
      intros ->. apply Hu in Hu' as (_ & t & Ht). congruence.
  - split; [done|]. intros u c. split; [|by intros []]. intros Hu'. split; [|done].
    intros ->. apply Hu in Hu' as (_ & t & Ht). congruence.
Qed.

Lemma sessions_ok_deauthenticate live m conn :
  sessions_ok live m → conn ∈ live → sessions_ok live (deauthenticate conn m).
Proof.
  intros Hok Hlive. destruct (forget_session live m conn Hok Hlive) as [Hctx Husers].
  destruct Hok as [Hu Hs]. unfold deauthenticate.
  set (m' := match contexts m !! conn with Some _ => _ | None => _ end) in *.
  split; unfold setContext; simpl; rewrite Hctx.
  - intros u c. rewrite Husers, Hu, lookup_insert. case_decide; naive_solver.
  - intros c s. rewrite lookup_insert. case_decide; [by intros [= <-]|apply Hs].
Qed.

Lemma sessions_ok_onDisconnection live m conn :
  sessions_ok live m → conn ∈ live → sessions_ok (live ∖ {[conn]}) (onDisconnection conn m).
Proof.
  intros Hok Hlive. destruct (forget_session live m conn Hok Hlive) as [Hctx Husers].
  destruct Hok as [Hu Hs].
  assert (onDisconnection conn m = match contexts m !! conn with
    | Some s => if negb (String.eqb (session_uid s) "") then set_users (delete (session_uid s)) m else m
    | None => m end) as -> by (unfold onDisconnection; by destruct (contexts m !! conn)).
  split; rewrite Hctx; [|exact Hs]. intros u c. rewrite Husers, Hu, elem_of_difference, elem_of_singleton.
  naive_solver.
Qed.

Lemma disciplined_ok live m : disciplined live m → sessions_ok live m.
Proof.
  induction 1 as [|live m conn _ [Hu Hs] Hfresh Hctx| | | |live m f _ [Hu Hs] Hfu Hfc];
    eauto using sessions_ok_authenticate, sessions_ok_deauthenticate, sessions_ok_onDisconnection.
  - split; [|done]. intros uid conn. split; [done|]. by intros [? _].
  - split; [|done]. intros uid c. unfold onConnection. rewrite Hu, elem_of_union, elem_of_singleton.
    split; intros [Hc Ht]; (split; [|exact Ht]); [by right|].
    destruct Hc as [->|Hc]; [|done]. destruct Ht as [tok Ht]. by rewrite Hctx in Ht.
  - by split; rewrite ?Hfu, ?Hfc.
Qed.

(** C29. Under the discipline the routing table is exact: a user is found on a
    connection exactly when that connection is up and logged in as that user. *)
Theorem getConnection_exact live m uid conn :
  disciplined live m →
  getConnection uid m = Some conn ↔
  conn ∈ live ∧ isAuthenticated conn m = true ∧ getUid conn m = uid.
Proof.
  intros Hd. destruct (disciplined_ok _ _ Hd) as [Hu Hs]. unfold getConnection, isAuthenticated, getUid.
  rewrite Hu. destruct (contexts m !! conn) as [[u tok a]|] eqn:Hc; simpl; [|naive_solver].
  destruct a; naive_solver.
Qed.

Lemma getConnection_exact_witness :
  getConnection "bob" (snd (authenticate 7 "bob" "t" (onConnection 7 new_SessionManager))) = Some 7 ↔
  7 ∈ ({[7]} ∪ ∅ : gset Conn) ∧
  isAuthenticated 7 (snd (authenticate 7 "bob" "t" (onConnection 7 new_SessionManager))) = true ∧
  getUid 7 (snd (authenticate 7 "bob" "t" (onConnection 7 new_SessionManager))) = "bob"%string.
Proof.
  apply getConnection_exact. apply disciplined_authenticate; [|set_solver|done..].
  apply disciplined_connect; [constructor|set_solver|done].
Defined.

(** [authenticate] puts the user on the connection and touches no other user,
    connection, friendship or request. *)
Theorem authenticate_spec conn uid token m :
  let '(ok, m') := authenticate conn uid token m in
  ok = true ∧ getConnection uid m' = Some conn ∧ isAuthenticated conn m' = true ∧
  getUid conn m' = uid ∧
  (∀ u, u ≠ uid → getConnection u m' = getConnection u m) ∧
  (∀ c, c ≠ conn → isAuthenticated c m' = isAuthenticated c m ∧ getUid c m' = getUid c m) ∧
  (∀ u, getFriends u m' = getFriends u m) ∧
  (∀ r t, hasPendingRequest r t m' = hasPendingRequest r t m).
Proof.
  unfold authenticate, getConnection, isAuthenticated, getUid, setContext, set_users; simpl.
  rewrite !lookup_insert_eq. split_and!; try done.
  - intros u Hu. by rewrite lookup_insert_ne.
  - intros c Hc. by rewrite lookup_insert_ne.
Qed.

(** Two logins of one user: when the older connection goes down, the user is no
    longer found although the newer connection is still logged in as that user. *)
Theorem second_login_lost uid c1 c2 t1 t2 m :
  c1 ≠ c2 → uid ≠ ""%string →
  let m' := onDisconnection c1 (snd (authenticate c2 uid t2 (snd (authenticate c1 uid t1 m)))) in
  isOnline uid m' = false ∧ getConnection uid m' = None ∧
  isAuthenticated c2 m' = true ∧ getUid c2 m' = uid.
Proof.
  intros Hc Hu. unfold onDisconnection, authenticate, setContext, set_users; simpl.
  rewrite (lookup_insert_ne _ c2 c1), lookup_insert_eq by done. simpl.
  destruct (String.eqb_spec uid ""); [done|]. simpl.
  unfold isOnline, getConnection, isAuthenticated, getUid; simpl.
  by rewrite lookup_delete_eq, !lookup_insert_eq.
Qed.

Lemma second_login_lost_witness :
  let m' := onDisconnection 1 (snd (authenticate 2 "bob" "t2"
              (snd (authenticate 1 "bob" "t1" new_SessionManager)))) in
  isOnline "bob" m' = false ∧ getConnection "bob" m' = None ∧
  isAuthenticated 2 m' = true ∧ getUid 2 m' = "bob"%string.
Proof. by apply second_login_lost. Defined.

(** Two users on one connection: when a connection logs in again under another
    name and then goes down, the first user stays online, on the dead connection. *)
Theorem relogin_stale conn u1 u2 t1 t2 m :
  u1 ≠ u2 →
  let m' := onDisconnection conn (snd (authenticate conn u2 t2 (snd (authenticate conn u1 t1 m)))) in
  isOnline u1 m' = true ∧ getConnection u1 m' = Some conn.
Proof.
  intros Hne. unfold onDisconnection, authenticate, setContext, set_users; simpl.
  rewrite lookup_insert_eq; simpl. unfold isOnline, getConnection.
  destruct (negb _); simpl; rewrite ?lookup_delete_ne by done;
    by rewrite lookup_insert_ne, lookup_insert_eq.
Qed.

Lemma relogin_stale_witness :
  let m' := onDisconnection 1 (snd (authenticate 1 "eve" "t2"
              (snd (authenticate 1 "bob" "t1" new_SessionManager)))) in
  isOnline "bob" m' = true ∧ getConnection "bob" m' = Some 1.
Proof. by apply relogin_stale. Defined.
