(* ===== verification/RoomManager.v ===== *)
(** [RoomManager] of [src/room_manager.{h,cc}]: the rooms the process knows and who is
    in them.  Every method holds [mutex_] from start to end, so each one is a single
    step on [rooms_]. *)

From S2P Require Import Prelude.

Record RoomManager := mkRoomManager { rooms_ : gmap string (gset string) }.

Definition new_RoomManager : RoomManager := mkRoomManager ∅.

(** ** The methods *)

Definition createRoom (name creator : string) (m : RoomManager) : bool * RoomManager :=
  match rooms_ m !! name with
  | Some _ => (false, m)
  | None => (true, mkRoomManager (<[name := {[creator]}]> (rooms_ m)))
  end.

Definition joinRoom (name uid : string) (m : RoomManager) : bool * RoomManager :=
  match rooms_ m !! name with
  | None => (false, m)
  | Some it => (true, mkRoomManager (<[name := {[uid]} ∪ it]> (rooms_ m)))
  end.

Definition leaveRoom (name uid : string) (m : RoomManager) : bool * RoomManager :=
  match rooms_ m !! name with
  | None => (false, m)
  | Some it => (true, mkRoomManager (<[name := it ∖ {[uid]}]> (rooms_ m)))
  end.

Definition roomExists (name : string) (m : RoomManager) : bool :=
  match rooms_ m !! name with
  | Some _ => true
  | None => false
  end.

Definition getRoomMembers (name : string) (m : RoomManager) : gset string :=
  match rooms_ m !! name with
  | Some it => it
  | None => ∅
  end.

(** [rooms_[name].insert(uid)]: the entry is created when there is none. *)
Definition addRoomMember (name uid : string) (m : RoomManager) : RoomManager :=
  mkRoomManager (<[name := {[uid]} ∪ default ∅ (rooms_ m !! name)]> (rooms_ m)).

Definition removeRoomMember (name uid : string) (m : RoomManager) : RoomManager :=
  match rooms_ m !! name with
  | Some it => mkRoomManager (<[name := it ∖ {[uid]}]> (rooms_ m))
  | None => m
  end.

Definition isInRoom (name uid : string) (m : RoomManager) : bool :=
  match rooms_ m !! name with
  | None => false
  | Some it => bool_decide (uid ∈ it)
  end.

Definition roomCount (m : RoomManager) : nat := size (rooms_ m).

(** ** Sequences of calls *)

Inductive rm_call :=
| rm_createRoom (name creator : string)
| rm_joinRoom (name uid : string)
| rm_leaveRoom (name uid : string)
| rm_addRoomMember (name uid : string)
| rm_removeRoomMember (name uid : string).

Definition run_rm_call (m : RoomManager) (c : rm_call) : RoomManager :=
  match c with
  | rm_createRoom name creator => snd (createRoom name creator m)
  | rm_joinRoom name uid => snd (joinRoom name uid m)
  | rm_leaveRoom name uid => snd (leaveRoom name uid m)
  | rm_addRoomMember name uid => addRoomMember name uid m
  | rm_removeRoomMember name uid => removeRoomMember name uid m
  end.

Definition run_rm_calls (calls : list rm_call) (m : RoomManager) : RoomManager :=
  fold_left run_rm_call calls m.

(** ** What the rooms promise *)

(** A room exists once a call has created it, and stays. *)
Definition exists_spec (calls : list rm_call) (name : string) : bool :=
  existsb (λ c,
    match c with
    | rm_createRoom n _ | rm_addRoomMember n _ => bool_decide (n = name)
    | _ => false
    end) calls.

(** One user's membership of one room as a two-state machine; the first component
    says whether the room exists. *)
Definition member_step (name uid : string) (s : bool * bool) (c : rm_call) : bool * bool :=
  let '(known, member) := s in
  match c with
  | rm_createRoom n u =>
    if bool_decide (n = name) && negb known then (true, bool_decide (u = uid)) else s
  | rm_joinRoom n u =>
    if bool_decide (n = name ∧ u = uid) && known then (known, true) else s
  | rm_leaveRoom n u | rm_removeRoomMember n u =>
    if bool_decide (n = name ∧ u = uid) then (known, false) else s
  | rm_addRoomMember n u =>
    if bool_decide (n = name) then (true, bool_decide (u = uid) || member) else s
  end.

Definition member_spec (calls : list rm_call) (name uid : string) : bool * bool :=
  fold_left (member_step name uid) calls (false, false).

(** ** Lemmas *)

(** What one user sees of one room. *)
Definition room_view (name uid : string) (m : RoomManager) : bool * bool :=
  (roomExists name m, isInRoom name uid m).

Lemma room_view_entry name uid m :
  room_view name uid m =
  match rooms_ m !! name with
  | Some it => (true, bool_decide (uid ∈ it))
  | None => (false, false)
  end.
Proof. unfold room_view, roomExists, isInRoom. by destruct (rooms_ m !! name). Qed.

Lemma room_view_insert n X name uid m :
  room_view name uid (mkRoomManager (<[n := X]> (rooms_ m))) =
  if decide (n = name) then (true, bool_decide (uid ∈ X)) else room_view name uid m.
Proof. rewrite !room_view_entry; cbn [rooms_]. rewrite lookup_insert. by case_decide. Qed.

Ltac decide_goal :=
  repeat match goal with
  | |- context [bool_decide ?P] => destruct (bool_decide_reflect P)
  | |- context [decide ?P] => destruct (decide P)
  end; simpl; try done; try set_solver.

Lemma room_view_step name uid m c :
  room_view name uid (run_rm_call m c) = member_step name uid (room_view name uid m) c.
Proof.
  destruct c as [n u|n u|n u|n u|n u]; cbn [run_rm_call];
    unfold createRoom, joinRoom, leaveRoom, addRoomMember, removeRoomMember;
    destruct (decide (n = name)) as [->|Hne];
    destruct (rooms_ m !! _) as [it|] eqn:Hit; cbn [snd];
    rewrite ?room_view_insert; rewrite ?room_view_entry, ?Hit; cbn [member_step default];
    try destruct (rooms_ m !! name) eqn:?; simplify_eq; unfold member_step; decide_goal.
Qed.

(** ** Theorems *)

(** C30. After any sequence of calls, what a user sees of a room is what the membership
    machine says: created rooms exist for good, creation puts the creator in, joining and
    leaving decide the membership, and joining an unknown room changes nothing. *)
Theorem rooms_refine calls name uid :
  let m := run_rm_calls calls new_RoomManager in
  (roomExists name m, isInRoom name uid m) = member_spec calls name uid.
Proof.
  intros m. subst m. unfold run_rm_calls, member_spec.
  induction calls as [|c calls IH] using rev_ind; [done|].
  rewrite !fold_left_app; cbn [fold_left]. rewrite <- IH. apply room_view_step.
Qed.

(** Results of the calls: creation succeeds exactly on a new name and then counts
    one room more, on a taken name it changes nothing; joining and leaving succeed exactly
    on a known room; the member set returned is the one [isInRoom] answers from. *)
Theorem room_results name uid m :
  let '(created, m') := createRoom name uid m in
  created = negb (roomExists name m) ∧
  (if created then roomCount m' = S (roomCount m) ∧ getRoomMembers name m' = {[uid]} else m' = m) ∧
  fst (joinRoom name uid m) = roomExists name m ∧
  fst (leaveRoom name uid m) = roomExists name m ∧
  (∀ v, v ∈ getRoomMembers name m ↔ isInRoom name v m = true).
Proof.
  unfold createRoom, joinRoom, leaveRoom, roomExists, getRoomMembers, isInRoom, roomCount.
  destruct (rooms_ m !! name) as [it|] eqn:Hit; cbn [negb fst rooms_]; split_and!; try done.
  - intros v. by rewrite bool_decide_eq_true.
  - by apply map_size_insert_None.
  - by rewrite lookup_insert_eq.
Qed.
