(* ===== verification/Repositories.v ===== *)
(** The rows of [src/db.h] and [src/repository/*_repository.h], and the abstract
    repository classes the services are written against: one type class per C++
    interface, its methods as computations on a world [W] that holds whatever the
    implementation keeps (a database, a cache, a table in memory).  The clock and the
    random generator of the standard library are classes on the same world. *)

From S2P Require Import Prelude Machine CString.

Local Open Scope Z_scope.

(** ** Rows, with the default member initialisers *)

Record UserInfo := mkUserInfo {
  ui_uid : string; ui_nickname : string; ui_email : string; ui_avatarUrl : string;
  ui_exists : bool }.

Definition default_UserInfo : UserInfo := mkUserInfo "" "" "" "" false.

Record MessageInfo := mkMessageInfo {
  mi_msg_id : Z; mi_seq : Z; mi_from_uid : string; mi_to_uid : string;
  mi_room_name : string; mi_content : string; mi_recalled : Z; mi_created_at : string;
  mi_exists : bool }.

Definition default_MessageInfo : MessageInfo := mkMessageInfo 0 0 "" "" "" "" 0 "" false.

Record RoomInfo := mkRoomInfo {
  ri_room_id : Z; ri_name : string; ri_creator_uid : string; ri_type : Z; ri_exists : bool }.

Definition default_RoomInfo : RoomInfo := mkRoomInfo 0 "" "" 0 false.

Record RoomMember := mkRoomMember { rmb_uid : string; rmb_role : Z }.

Record SessionInfo := mkSessionInfo {
  si_uid : string; si_token : string; si_node_id : string; si_ip_address : string;
  si_created_at : string; si_expired_at : string; si_revoked : Z; si_exists : bool }.

Definition default_SessionInfo : SessionInfo := mkSessionInfo "" "" "" "" "" "" 0 false.

(** ** The repository interfaces *)

Class UserRepository (W : Type) := {
  userRepo_registerUser : string → string → string → string → State W bool;
  userRepo_verifyUser : string → string → State W bool;
  userRepo_userExists : string → State W bool;
  userRepo_getUserInfo : string → State W (option UserInfo);
  userRepo_updateLastLogin : string → State W bool
}.

Class FriendRepository (W : Type) := {
  friendRepo_addFriendRequest : string → string → string → State W bool;
  friendRepo_respondFriendRequest : string → string → bool → State W bool;
  friendRepo_removeFriends : string → string → State W bool;
  friendRepo_getFriendList : string → State W (list UserInfo);
  friendRepo_getPendingRequests : string → State W (list string)
}.

Class MessageRepository (W : Type) := {
  msgRepo_storeMessage : string → string → string → string → State W Z;
  msgRepo_getMessage : Z → State W (option MessageInfo);
  msgRepo_recallMessage : Z → string → State W bool;
  msgRepo_addOfflineMessage : string → Z → State W bool;
  msgRepo_getUndeliveredMessages : string → State W (list MessageInfo);
  msgRepo_markMessagesDelivered : string → State W bool
}.

Class RoomRepository (W : Type) := {
  roomRepo_createRoom : string → string → State W Z;
  roomRepo_getRoomByName : string → State W (option RoomInfo);
  roomRepo_getRoomById : Z → State W (option RoomInfo);
  roomRepo_roomExists : string → State W bool;
  roomRepo_addRoomMember : Z → string → Z → State W bool;
  roomRepo_removeRoomMember : Z → string → State W bool;
  roomRepo_getRoomMembers : Z → State W (list string);
  roomRepo_getUserRooms : string → State W (list RoomInfo)
}.

Class SessionRepository (W : Type) := {
  sessionRepo_createSession : string → string → string → Z → State W bool;
  sessionRepo_getSessionByToken : string → State W (option SessionInfo);
  sessionRepo_revokeSession : string → State W bool;
  sessionRepo_revokeAllSessions : string → State W bool;
  sessionRepo_isValidSession : string → State W bool;
  sessionRepo_updateSessionNode : string → string → State W bool
}.

(** ** The standard library *)

(** [time(nullptr)] in seconds, and muduo's [Timestamp::now()] in microseconds. *)
Class Clock (W : Type) := {
  time_now : State W Z;
  Timestamp_now : State W Z
}.

(** Reading the clock changes nothing. *)
Class ClockLaws (W : Type) `{Clock W} := {
  time_now_pure w : exec time_now w = w;
  Timestamp_now_pure w : exec Timestamp_now w = w
}.

(** A draw from a [std::mt19937] through [uniform_int_distribution<> dis(lo, hi)]. *)
Class Random (W : Type) := {
  uniform_int : Z → Z → State W Z
}.

(** The distribution returns values of its closed range. *)
Class RandomLaws (W : Type) `{Random W} := {
  uniform_int_range lo hi w : lo <= hi → lo <= eval (uniform_int lo hi) w <= hi
}.

(** What happens to the world while the server does nothing: time passes, other programs
    write to the stores, another thread becomes the current one.  The ways are numbered. *)
Class Environment (W : Type) := {
  outside : nat → W → W
}.

(** ** What the interfaces promise each other *)

(** [P] is kept by every method of a repository, whichever it is. *)
Class UserRepoPreserves {W} `{UserRepository W} (P : W → Prop) := {
  preserves_registerUser u p n e : preserves P (userRepo_registerUser u p n e);
  preserves_verifyUser u p : preserves P (userRepo_verifyUser u p);
  preserves_userExists u : preserves P (userRepo_userExists u);
  preserves_getUserInfo u : preserves P (userRepo_getUserInfo u);
  preserves_updateLastLogin u : preserves P (userRepo_updateLastLogin u)
}.

Class FriendRepoPreserves {W} `{FriendRepository W} (P : W → Prop) := {
  preserves_addFriendRequest f t m : preserves P (friendRepo_addFriendRequest f t m);
  preserves_respondFriendRequest r t a : preserves P (friendRepo_respondFriendRequest r t a);
  preserves_removeFriends u v : preserves P (friendRepo_removeFriends u v);
  preserves_getFriendList u : preserves P (friendRepo_getFriendList u);
  preserves_getPendingRequests u : preserves P (friendRepo_getPendingRequests u)
}.

(** The methods of [MessageRepository] the server can reach leave out
    [addOfflineMessage]: see [ChatServer]. *)
Class MessageRepoPreserves {W} `{MessageRepository W} (P : W → Prop) := {
  preserves_storeMessage f t r c : preserves P (msgRepo_storeMessage f t r c);
  preserves_getMessage i : preserves P (msgRepo_getMessage i);
  preserves_recallMessage i u : preserves P (msgRepo_recallMessage i u);
  preserves_getUndeliveredMessages u : preserves P (msgRepo_getUndeliveredMessages u);
  preserves_markMessagesDelivered u : preserves P (msgRepo_markMessagesDelivered u)
}.

Class RoomRepoPreserves {W} `{RoomRepository W} (P : W → Prop) := {
  preserves_createRoom n c : preserves P (roomRepo_createRoom n c);
  preserves_getRoomByName n : preserves P (roomRepo_getRoomByName n);
  preserves_getRoomById i : preserves P (roomRepo_getRoomById i);
  preserves_roomExists n : preserves P (roomRepo_roomExists n);
  preserves_addRoomMember i u r : preserves P (roomRepo_addRoomMember i u r);
  preserves_removeRoomMember i u : preserves P (roomRepo_removeRoomMember i u);
  preserves_getRoomMembers i : preserves P (roomRepo_getRoomMembers i);
  preserves_getUserRooms u : preserves P (roomRepo_getUserRooms u)
}.

Class SessionRepoPreserves {W} `{SessionRepository W} (P : W → Prop) := {
  preserves_createSession u t n l : preserves P (sessionRepo_createSession u t n l);
  preserves_getSessionByToken t : preserves P (sessionRepo_getSessionByToken t);
  preserves_revokeSession t : preserves P (sessionRepo_revokeSession t);
  preserves_revokeAllSessions u : preserves P (sessionRepo_revokeAllSessions u);
  preserves_isValidSession t : preserves P (sessionRepo_isValidSession t);
  preserves_updateSessionNode t n : preserves P (sessionRepo_updateSessionNode t n)
}.

Class EnvPreserves {W} `{Clock W, Random W} (P : W → Prop) := {
  preserves_time_now : preserves P time_now;
  preserves_Timestamp_now : preserves P Timestamp_now;
  preserves_uniform_int lo hi : preserves P (uniform_int lo hi)
}.

Class OutsidePreserves {W} `{Environment W} (P : W → Prop) := {
  preserves_outside n w : P w → P (outside n w)
}.

(** [token] is a session of [uid] in the store. *)
Definition token_of {W} `{SessionRepository W} (token uid : string) (w : W) : Prop :=
  ∃ s, eval (sessionRepo_getSessionByToken token) w = Some s ∧ si_uid s = uid.

(** [token] opens no session. *)
Definition token_void {W} `{SessionRepository W} (token : string) (w : W) : Prop :=
  eval (sessionRepo_getSessionByToken token) w = None.

(** What a session store promises while it is in working order, which its own methods
    keep: a session that was created to last is found under its token with its user, one
    that was revoked is not found, and revoking the others brings it not back.  User ids
    are text: the stores pass them on as C strings. *)
Class SessionRepoLaws (W : Type) `{SessionRepository W} := {
  store_up : W → Prop;
  createSession_found uid token node_id ttl w :
    store_up w → c_str uid = uid → 0 < ttl →
    eval (sessionRepo_createSession uid token node_id ttl) w = true →
    store_up (exec (sessionRepo_createSession uid token node_id ttl) w) ∧
    token_of token uid (exec (sessionRepo_createSession uid token node_id ttl) w);
  revokeSession_void token w :
    store_up w →
    eval (sessionRepo_revokeSession token) w = true →
    store_up (exec (sessionRepo_revokeSession token) w) ∧
    token_void token (exec (sessionRepo_revokeSession token) w);
  revokeAllSessions_void token uid w :
    store_up w → token_void token w →
    token_void token (exec (sessionRepo_revokeAllSessions uid) w)
}.

(** ** Friendships *)

(** The friendship rows of a store: the status under the one who asked and the one who was
    asked, 0 for asked, 1 for accepted, 2 for refused. *)
Abbreviation Friendships := (gmap (string * string) Z).

(** A user id that every column and every collation of a database takes as it is. *)
Definition uid_char (c : Ascii.ascii) : bool :=
  let n := Ascii.nat_of_ascii c in
  ((48 <=? n) && (n <=? 57) || (97 <=? n) && (n <=? 122))%nat%bool.

Fixpoint uid_chars (s : string) : bool :=
  match s with EmptyString => true | String c s => uid_char c && uid_chars s end.

Definition plain_uid (uid : string) : bool := (String.length uid <=? 64)%nat && uid_chars uid.

(** A new row, where both users are known and there is none yet. *)
Definition insert_new {A} (known : gmap string A) (from to : string) (status : Z) (F : Friendships) : Friendships :=
  if bool_decide (is_Some (known !! from) ∧ is_Some (known !! to) ∧ F !! (from, to) = None)
  then <[(from, to) := status]> F else F.

(** An answer changes the row of the request; an acceptance also adds the row of the
    opposite direction. *)
Definition answer_request {A} (known : gmap string A) (requester responder : string) (accepted : bool)
    (F : Friendships) : Friendships :=
  let F := alter (λ _, if accepted then 1 else 2) (requester, responder) F in
  if accepted then insert_new known responder requester 1 F else F.

Definition unfriend (uid1 uid2 : string) (F : Friendships) : Friendships :=
  delete (uid2, uid1) (delete (uid1, uid2) F).

Definition are_friends (F : Friendships) (u v : string) : Prop := F !! (u, v) = Some 1 ∨ F !! (v, u) = Some 1.

#[export] Instance are_friends_dec F u v : Decision (are_friends F u v).
Proof. unfold are_friends. apply _. Defined.

(** What a store of friendships promises.  [friend_store] is what it holds while it is in
    working order: the rows and the profiles of the users. *)
Class FriendRepoLaws (W : Type) `{FriendRepository W, UserRepository W} := {
  friend_store : W → option (Friendships * gmap string UserInfo);
  profile_uid w F U u i : friend_store w = Some (F, U) → U !! u = Some i → ui_uid i = u;
  userExists_law u w F U :
    friend_store w = Some (F, U) → plain_uid u = true →
    eval (userRepo_userExists u) w = bool_decide (is_Some (U !! u)) ∧
    friend_store (exec (userRepo_userExists u) w) = Some (F, U);
  addFriendRequest_law from to message w F U :
    friend_store w = Some (F, U) → plain_uid from = true → plain_uid to = true →
    Z.of_nat (String.length message) <= 65536 →
    eval (friendRepo_addFriendRequest from to message) w = true ∧
    friend_store (exec (friendRepo_addFriendRequest from to message) w) = Some (insert_new U from to 0 F, U);
  respondFriendRequest_law requester responder accepted w F U :
    friend_store w = Some (F, U) → plain_uid requester = true → plain_uid responder = true →
    eval (friendRepo_respondFriendRequest requester responder accepted) w = true ∧
    friend_store (exec (friendRepo_respondFriendRequest requester responder accepted) w) =
      Some (answer_request U requester responder accepted F, U);
  removeFriends_law u v w F U :
    friend_store w = Some (F, U) → plain_uid u = true → plain_uid v = true →
    eval (friendRepo_removeFriends u v) w = true ∧
    friend_store (exec (friendRepo_removeFriends u v) w) = Some (unfriend u v F, U);
  getFriendList_law u w F U :
    friend_store w = Some (F, U) → plain_uid u = true →
    let l := eval (friendRepo_getFriendList u) w in
    NoDup l ∧ ∀ i, i ∈ l ↔ ∃ v, U !! v = Some i ∧ are_friends F u v;
  getPendingRequests_law u w F U :
    friend_store w = Some (F, U) → plain_uid u = true →
    let l := eval (friendRepo_getPendingRequests u) w in
    NoDup l ∧ ∀ v, v ∈ l ↔ F !! (v, u) = Some 0;
  getFriendList_keeps u w F U :
    friend_store w = Some (F, U) → friend_store (exec (friendRepo_getFriendList u) w) = Some (F, U);
  getPendingRequests_keeps u w F U :
    friend_store w = Some (F, U) → friend_store (exec (friendRepo_getPendingRequests u) w) = Some (F, U)
}.

#[export] Hint Resolve
  preserves_registerUser preserves_verifyUser preserves_userExists preserves_getUserInfo
  preserves_updateLastLogin preserves_addFriendRequest preserves_respondFriendRequest
  preserves_removeFriends preserves_getFriendList preserves_getPendingRequests
  preserves_storeMessage preserves_getMessage preserves_recallMessage
  preserves_getUndeliveredMessages preserves_markMessagesDelivered preserves_createRoom
  preserves_getRoomByName preserves_getRoomById preserves_roomExists preserves_addRoomMember
  preserves_removeRoomMember preserves_getRoomMembers preserves_getUserRooms
  preserves_createSession preserves_getSessionByToken preserves_revokeSession
  preserves_revokeAllSessions preserves_isValidSession preserves_updateSessionNode
  preserves_time_now preserves_Timestamp_now preserves_uniform_int : chat.

(** Only who is known matters, not what is known of them. *)
Lemma insert_new_known {A B} (U : gmap string A) (V : gmap string B) a b s F :
  (∀ u, is_Some (U !! u) ↔ is_Some (V !! u)) → insert_new U a b s F = insert_new V a b s F.
Proof. intros Hk. unfold insert_new. by erewrite (bool_decide_ext _ _) by (by rewrite !Hk). Qed.

(** A row that is there is not replaced. *)
Lemma insert_new_keeps {A} (U : gmap string A) a b status F x s :
  F !! x = Some s → insert_new U a b status F !! x = Some s.
Proof.
  intros HF. unfold insert_new. case_bool_decide as Hn; [|done].
  rewrite lookup_insert_ne; [done|]. intros <-. destruct Hn as (_ & _ & Hn). congruence.
Qed.
