(* ===== verification/MemWorld.v ===== *)
(** A world in memory that implements the repository interfaces, the clock and the random
    generator by tables, so that theorems stated against the interfaces have concrete
    instances to be evaluated on.  It models no file of the program. *)

From S2P Require Import Prelude Machine Repositories.

Local Open Scope Z_scope.

Record MemWorld := mkMemWorld {
  mw_users : gmap string (string * UserInfo);
  mw_friendships : Friendships;
  mw_messages : list MessageInfo;
  mw_offline : list (string * Z);
  mw_rooms : list RoomInfo;
  mw_members : list (Z * string);
  mw_sessions : list SessionInfo;
  mw_seconds : Z;
  mw_date : string;
  mw_seed : Z
}.

Definition mem_empty : MemWorld :=
  mkMemWorld ∅ ∅ [] [] [] [] [] 1704067200 "2024-01-01 00:00:00" 7.

(** A computation that only reads, and one that replaces the world. *)
Definition reads {A} (f : MemWorld → A) : State MemWorld A := λ w, (f w, w).
Definition writes {A} (a : A) (f : MemWorld → MemWorld) : State MemWorld A := λ w, (a, f w).

#[export] Instance mem_users : UserRepository MemWorld := {
  userRepo_registerUser u p n e := λ w,
    match mw_users w !! u with
    | Some _ => (false, w)
    | None => (true, mkMemWorld (<[u := (p, mkUserInfo u n e "" true)]> (mw_users w))
                (mw_friendships w) (mw_messages w) (mw_offline w) (mw_rooms w) (mw_members w)
                (mw_sessions w) (mw_seconds w) (mw_date w) (mw_seed w))
    end;
  userRepo_verifyUser u p := reads (λ w,
    match mw_users w !! u with
    | Some (q, _) => String.eqb p q
    | None => false
    end);
  userRepo_userExists u := reads (λ w, bool_decide (is_Some (mw_users w !! u)));
  userRepo_getUserInfo u := reads (λ w, snd <$> mw_users w !! u);
  userRepo_updateLastLogin u := mret true
}.

Definition mem_set_friendships f (w : MemWorld) : MemWorld :=
  mkMemWorld (mw_users w) (f (mw_friendships w)) (mw_messages w) (mw_offline w) (mw_rooms w)
    (mw_members w) (mw_sessions w) (mw_seconds w) (mw_date w) (mw_seed w).

#[export] Instance mem_friends : FriendRepository MemWorld := {
  friendRepo_addFriendRequest f t _ := writes true (λ w,
    mem_set_friendships (insert_new (mw_users w) f t 0) w);
  friendRepo_respondFriendRequest r t a := writes true (λ w,
    mem_set_friendships (answer_request (mw_users w) r t a) w);
  friendRepo_removeFriends u v := writes true (mem_set_friendships (unfriend u v));
  friendRepo_getFriendList u := reads (λ w,
    (λ x, x.2.2) <$> base.filter (λ x, are_friends (mw_friendships w) u x.1) (map_to_list (mw_users w)));
  friendRepo_getPendingRequests u := reads (λ w,
    (λ x, x.1.1) <$> base.filter (λ x, x.1.2 = u ∧ x.2 = 0) (map_to_list (mw_friendships w)))
}.

Definition mem_set_messages f g (w : MemWorld) : MemWorld :=
  mkMemWorld (mw_users w) (mw_friendships w) (f (mw_messages w)) (g (mw_offline w)) (mw_rooms w)
    (mw_members w) (mw_sessions w) (mw_seconds w) (mw_date w) (mw_seed w).

#[export] Instance mem_msgs : MessageRepository MemWorld := {
  msgRepo_storeMessage f t r c := λ w,
    let i := Z.of_nat (length (mw_messages w)) + 1 in
    (i, mem_set_messages (cons (mkMessageInfo i 1 f t r c 0 (mw_date w) true)) id w);
  msgRepo_getMessage i := reads (λ w, snd <$> list_find (λ m, mi_msg_id m = i) (mw_messages w));
  msgRepo_recallMessage i u := λ w,
    match list_find (λ m, mi_msg_id m = i ∧ mi_from_uid m = u) (mw_messages w) with
    | Some (k, m) =>
      (true, mem_set_messages (<[k := mkMessageInfo (mi_msg_id m) (mi_seq m) (mi_from_uid m)
         (mi_to_uid m) (mi_room_name m) (mi_content m) 1 (mi_created_at m) true]>) id w)
    | None => (false, w)
    end;
  msgRepo_addOfflineMessage u i := writes true (mem_set_messages id (cons (u, i)));
  msgRepo_getUndeliveredMessages u := reads (λ w,
    omap (λ x, if bool_decide (x.1 = u)
               then snd <$> list_find (λ m, mi_msg_id m = x.2) (mw_messages w) else None)
      (rev (mw_offline w)));
  msgRepo_markMessagesDelivered u :=
    writes true (mem_set_messages id (base.filter (λ x, x.1 ≠ u)))
}.

Definition mem_set_rooms f g (w : MemWorld) : MemWorld :=
  mkMemWorld (mw_users w) (mw_friendships w) (mw_messages w) (mw_offline w) (f (mw_rooms w))
    (g (mw_members w)) (mw_sessions w) (mw_seconds w) (mw_date w) (mw_seed w).

#[export] Instance mem_rooms : RoomRepository MemWorld := {
  roomRepo_createRoom n c := λ w,
    let i := Z.of_nat (length (mw_rooms w)) + 1 in
    (i, mem_set_rooms (cons (mkRoomInfo i n c 0 true)) (λ l, l) w);
  roomRepo_getRoomByName n := reads (λ w, snd <$> list_find (λ r, ri_name r = n) (mw_rooms w));
  roomRepo_getRoomById i := reads (λ w, snd <$> list_find (λ r, ri_room_id r = i) (mw_rooms w));
  roomRepo_roomExists n := reads (λ w,
    bool_decide (is_Some (list_find (λ r, ri_name r = n) (mw_rooms w))));
  roomRepo_addRoomMember i u _ := writes true (mem_set_rooms (λ l, l) (cons (i, u)));
  roomRepo_removeRoomMember i u :=
    writes true (mem_set_rooms (λ l, l) (base.filter (λ x, x ≠ (i, u))));
  roomRepo_getRoomMembers i := reads (λ w,
    omap (λ x, if bool_decide (x.1 = i) then Some x.2 else None) (mw_members w));
  roomRepo_getUserRooms u := reads (λ w,
    omap (λ x, if bool_decide (x.2 = u)
               then snd <$> list_find (λ r, ri_room_id r = x.1) (mw_rooms w) else None)
      (mw_members w))
}.

Definition mem_set_sessions f (w : MemWorld) : MemWorld :=
  mkMemWorld (mw_users w) (mw_friendships w) (mw_messages w) (mw_offline w) (mw_rooms w)
    (mw_members w) (f (mw_sessions w)) (mw_seconds w) (mw_date w) (mw_seed w).

Definition mem_find_session (t : string) (l : list SessionInfo) : option SessionInfo :=
  snd <$> list_find (λ s, si_token s = t) l.

#[export] Instance mem_session_repo : SessionRepository MemWorld := {
  sessionRepo_createSession u t n _ :=
    writes true (mem_set_sessions (cons (mkSessionInfo u t n "" "" "" 0 true)));
  sessionRepo_getSessionByToken t := reads (λ w, mem_find_session t (mw_sessions w));
  sessionRepo_revokeSession t :=
    writes true (mem_set_sessions (base.filter (λ s, si_token s ≠ t)));
  sessionRepo_revokeAllSessions u :=
    writes true (mem_set_sessions (base.filter (λ s, si_uid s ≠ u)));
  sessionRepo_isValidSession t := reads (λ w, bool_decide (is_Some (mem_find_session t (mw_sessions w))));
  sessionRepo_updateSessionNode t n := mret true
}.

#[export] Instance mem_clock : Clock MemWorld := {
  time_now := reads mw_seconds;
  Timestamp_now := reads (λ w, mw_seconds w * 1000000)
}.

#[export] Instance mem_random : Random MemWorld := {
  uniform_int lo hi := λ w,
    (lo + mw_seed w mod (hi - lo + 1),
     mkMemWorld (mw_users w) (mw_friendships w) (mw_messages w) (mw_offline w) (mw_rooms w)
       (mw_members w) (mw_sessions w) (mw_seconds w) (mw_date w) ((mw_seed w * 5 + 3) mod 4096))
}.

(** Outside the server only time passes. *)
#[export] Instance mem_environment : Environment MemWorld := {
  outside n w :=
    mkMemWorld (mw_users w) (mw_friendships w) (mw_messages w) (mw_offline w) (mw_rooms w)
      (mw_members w) (mw_sessions w) (mw_seconds w + Z.of_nat n) (mw_date w) (mw_seed w)
}.

(** ** Laws *)

#[export] Instance mem_random_laws : RandomLaws MemWorld.
Proof. constructor. intros lo hi w Hle. cbn. pose proof (Z.mod_pos_bound (mw_seed w) (hi - lo + 1)). lia. Qed.

Lemma mem_find_filter t (p : SessionInfo → Prop) `{∀ s, Decision (p s)} l :
  (∀ s, si_token s = t → p s → False) ∨ mem_find_session t l = None →
  mem_find_session t (base.filter p l) = None.
Proof.
  unfold mem_find_session. rewrite !fmap_None. intros Hp.
  apply list_find_None, Forall_forall. intros s [Hps Hs]%list_elem_of_filter Hst.
  destruct Hp as [Hp|Hp]; [by eapply Hp|]. apply list_find_None in Hp.
  rewrite Forall_forall in Hp. by eapply Hp.
Qed.

#[export] Instance mem_session_laws : SessionRepoLaws MemWorld.
Proof.
  refine {| store_up _ := True |}.
  - intros u t n ttl w _ _ _ _. split; [done|]. unfold token_of; cbn. unfold mem_find_session; cbn.
    rewrite decide_True by done. cbn. eauto.
  - intros t w _ _. split; [done|]. unfold token_void; cbn. apply mem_find_filter. left. naive_solver.
  - intros t u w _ Hw. unfold token_void in *; cbn in *. apply mem_find_filter. by right.
Defined.

(** The friendships are in order while every profile is under its user. *)
Definition mem_friend_store (w : MemWorld) : option (Friendships * gmap string UserInfo) :=
  if decide (map_Forall (λ u p, ui_uid p.2 = u) (mw_users w))
  then Some (mw_friendships w, snd <$> mw_users w) else None.

Lemma mem_friend_store_Some w F U :
  mem_friend_store w = Some (F, U) ↔
  mw_friendships w = F ∧ snd <$> mw_users w = U ∧ map_Forall (λ u p, ui_uid p.2 = u) (mw_users w).
Proof. unfold mem_friend_store. case_decide; naive_solver. Qed.

Lemma mem_known (U : gmap string (string * UserInfo)) u : is_Some (U !! u) ↔ is_Some ((snd <$> U) !! u).
Proof. by rewrite lookup_fmap, fmap_is_Some. Qed.

#[export] Instance mem_friend_laws : FriendRepoLaws MemWorld.
Proof.
  refine {| friend_store := mem_friend_store |}.
  - intros w F U u i (_ & <- & Hv)%mem_friend_store_Some. rewrite lookup_fmap.
    intros (p & Hp & ->)%fmap_Some. by apply (Hv u p).
  - intros u w F U Hs _. split; [|done]. apply mem_friend_store_Some in Hs as (_ & <- & _).
    apply bool_decide_ext, mem_known.
  - intros f t m w F U (<- & <- & Hv)%mem_friend_store_Some _ _ _. split; [done|].
    apply mem_friend_store_Some. split_and!; [|done..]. apply insert_new_known, mem_known.
  - intros r t a w F U (<- & <- & Hv)%mem_friend_store_Some _ _. split; [done|].
    apply mem_friend_store_Some. split_and!; [|done..]. unfold exec; cbn. unfold answer_request.
    destruct a; [|done]. apply insert_new_known, mem_known.
  - intros u v w F U (<- & <- & Hv)%mem_friend_store_Some _ _. split; [done|]. by apply mem_friend_store_Some.
  - intros u w F U (<- & <- & Hv)%mem_friend_store_Some _. cbv zeta. unfold eval; cbn. split.
    + apply NoDup_fmap_2_strong; [|apply NoDup_filter, NoDup_map_to_list].
      intros [v1 p1] [v2 p2] [_ H1%elem_of_map_to_list]%list_elem_of_filter [_ H2%elem_of_map_to_list]%list_elem_of_filter.
      cbn. intros Heq. assert (v1 = v2) as -> by (by rewrite <- (Hv _ _ H1), <- (Hv _ _ H2), Heq). by simplify_eq.
    + intros i. rewrite list_elem_of_fmap. split.
      * intros ([v p] & -> & [Hf Hp%elem_of_map_to_list]%list_elem_of_filter). exists v.
        by rewrite lookup_fmap, Hp.
      * intros (v & Hp & Hf). rewrite lookup_fmap in Hp. apply fmap_Some in Hp as (p & Hp & ->).
        exists (v, p). split; [done|]. by rewrite list_elem_of_filter, elem_of_map_to_list.
  - intros u w F U (<- & <- & Hv)%mem_friend_store_Some _. cbv zeta. unfold eval; cbn. split.
    + apply NoDup_fmap_2_strong; [|apply NoDup_filter, NoDup_map_to_list].
      intros [[a1 b1] s1] [[a2 b2] s2] [Hx _]%list_elem_of_filter [Hy _]%list_elem_of_filter. naive_solver.
    + intros v. rewrite list_elem_of_fmap. split.
      * intros ([[a b] s] & -> & [[? ?] Hp%elem_of_map_to_list]%list_elem_of_filter). cbn in *. by subst.
      * intros Hp. exists ((v, u), 0). split; [done|]. by rewrite list_elem_of_filter, elem_of_map_to_list.
  - done.
  - done.
Defined.

#[export] Instance mem_users_up : UserRepoPreserves (W := MemWorld) store_up.
Proof. by constructor. Qed.

(** The tables do not interfere: what concerns the sessions only is kept by the other
    repositories. *)
Section MemPreserves.
  Context (P : MemWorld → Prop).
  Hypothesis HP : ∀ w w', mw_sessions w = mw_sessions w' → P w → P w'.

Lemma mem_friends_preserves : FriendRepoPreserves P.
Proof. constructor; intros; intros w Hw; by apply HP with w. Qed.

Lemma mem_users_preserves : UserRepoPreserves P.
Proof.
  constructor; intros; intros w Hw; try by apply HP with w.
  apply HP with w; [|done]. cbn. unfold exec. by destruct (mw_users w !! u).
Qed.

Lemma mem_msgs_preserves : MessageRepoPreserves P.
Proof.
  constructor; intros; intros w Hw; try by apply HP with w.
  apply HP with w; [|done]. unfold exec; cbn. by destruct (list_find _ _) as [[]|].
Qed.
End MemPreserves.

#[export] Instance mem_friends_token t u : FriendRepoPreserves (token_of (W := MemWorld) t u).
Proof. apply mem_friends_preserves. intros w w' Hs. unfold token_of; cbn. by rewrite Hs. Qed.

#[export] Instance mem_msgs_token t u : MessageRepoPreserves (token_of (W := MemWorld) t u).
Proof. apply mem_msgs_preserves. intros w w' Hs. unfold token_of; cbn. by rewrite Hs. Qed.

(** A world with two users who are friends. *)
Definition mem_two : MemWorld :=
  exec (friendRepo_respondFriendRequest "alice" "bob" true)
    (exec (friendRepo_addFriendRequest "alice" "bob" "hi")
      (exec (userRepo_registerUser "bob" "pw2" "Bob" "b@x")
        (exec (userRepo_registerUser "alice" "pw" "Alice" "a@x") mem_empty))).
