(* ===== verification/LoginService.v ===== *)
(** [LoginService] of [src/service/login_service.{h,cc}]: password login, token login,
    registration and logout, over the repository interfaces. *)

From S2P Require Import Prelude Machine CString Repositories MemWorld.
From Stdlib Require Import Ascii.

Local Open Scope Z_scope.

Record LoginResult := mkLoginResult {
  ls_success : bool; ls_token : string; ls_userInfo : UserInfo; ls_friends : list UserInfo;
  ls_pendingRequests : list string; ls_offlineMessages : list MessageInfo;
  ls_reason : string }.

Definition LoginResult_failed (reason : string) : LoginResult :=
  mkLoginResult false "" default_UserInfo [] [] [] reason.

Definition hex : string := "0123456789abcdef".

(** [hex[i]]; the space is what the string holds where the index would be outside the
    array, which [generateToken_hex] excludes. *)
Definition hex_at (i : Z) : ascii := default " "%char (String.get (Z.to_nat i) hex).

(** 7 * 24 * 3600 seconds. *)
Definition session_ttl : Z := 7 * 24 * 3600.

Section LoginService.
  Context {W : Type}.
  Context `{UserRepository W, SessionRepository W, FriendRepository W, MessageRepository W}.
  Context `{Random W}.

(** The loop that fills [token[i]] for the [n] positions left. *)
Fixpoint generateToken_loop (n : nat) : State W string :=
  match n with
  | O => mret ""
  | S n =>
    d ← uniform_int 0 15;
    rest ← generateToken_loop n;
    mret (String (hex_at d) rest)
  end.

Definition generateToken : State W string := generateToken_loop 64.

Definition login (uid passwd node_id : string) : State W LoginResult :=
  verified ← userRepo_verifyUser uid passwd;
  if negb verified then mret (LoginResult_failed "invalid uid or password") else
  userInfo ← userRepo_getUserInfo uid;
  match userInfo with
  | None => mret (LoginResult_failed "user not found")
  | Some userInfo =>
    token ← generateToken;
    sessionOk ← sessionRepo_createSession uid token node_id session_ttl;
    if negb sessionOk then mret (LoginResult_failed "session create failed") else
    friends ← friendRepo_getFriendList uid;
    pendingRequests ← friendRepo_getPendingRequests uid;
    offlineMessages ← msgRepo_getUndeliveredMessages uid;
    mret (mkLoginResult true token userInfo friends pendingRequests offlineMessages "")
  end.

Definition loginWithToken (token node_id : string) : State W LoginResult :=
  session ← sessionRepo_getSessionByToken token;
  match session with
  | None => mret (LoginResult_failed "invalid token")
  | Some session =>
    let uid := si_uid session in
    _ ← sessionRepo_updateSessionNode token node_id;
    userInfo ← userRepo_getUserInfo uid;
    match userInfo with
    | None => mret (LoginResult_failed "user not found")
    | Some userInfo =>
      friends ← friendRepo_getFriendList uid;
      pendingRequests ← friendRepo_getPendingRequests uid;
      offlineMessages ← msgRepo_getUndeliveredMessages uid;
      mret (mkLoginResult true token userInfo friends pendingRequests offlineMessages "")
    end
  end.

Definition registerUser (uid passwd nickname email : string) : State W bool :=
  userRepo_registerUser uid passwd nickname email.

Definition logout (uid token : string) : State W bool :=
  _ ← sessionRepo_revokeSession token;
  _ ← sessionRepo_revokeAllSessions uid;
  mret true.

End LoginService.

(** ** Helpers of the statements *)

Definition hex_digit (c : ascii) : Prop := ∃ i, (i < 16)%nat ∧ String.get i hex = Some c.

Fixpoint all_chars (P : ascii → Prop) (s : string) : Prop :=
  match s with
  | EmptyString => True
  | String c s => P c ∧ all_chars P s
  end.

(** ** Lemmas *)

Section LoginServiceFacts.
  Context {W : Type}.
  Context `{UserRepository W, SessionRepository W, FriendRepository W, MessageRepository W}.
  Context `{Random W}.

Lemma hex_at_digit i : 0 <= i <= 15 → hex_digit (hex_at i).
Proof.
  intros Hi. exists (Z.to_nat i). split; [lia|]. unfold hex_at.
  assert (∀ n, (n < 16)%nat → String.get n hex = Some (default " "%char (String.get n hex))) as Hn.
  { intros n Hn. do 16 (destruct n as [|n]; [done|]). lia. }
  apply Hn. lia.
Qed.

Lemma generateToken_loop_hex `{!RandomLaws W} n w :
  let t := eval (generateToken_loop n) w in String.length t = n ∧ all_chars hex_digit t.
Proof.
  revert w. induction n as [|n IH]; intros w; [done|].
  unfold eval. cbn [generateToken_loop]. rewrite bind_eq, bind_eq. cbn.
  specialize (IH (exec (uniform_int 0 15) w)) as [Hl Hc].
  split; [by f_equal|]. split; [|done]. apply hex_at_digit, uniform_int_range. lia.
Qed.

Section Preservation.
  Context (P : W → Prop).
  Context `{!UserRepoPreserves P, !SessionRepoPreserves P, !FriendRepoPreserves P}.
  Context `{!MessageRepoPreserves P, Clock W, !EnvPreserves P}.

(** Whatever the repositories keep, the service keeps. *)
Lemma generateToken_loop_preserves n : preserves P (generateToken_loop n).
Proof. induction n; cbn [generateToken_loop]; preserve. Qed.
#[local] Hint Resolve generateToken_loop_preserves : chat.

Lemma login_preserves uid passwd node_id : preserves P (login uid passwd node_id).
Proof. unfold login, generateToken. preserve. Qed.

Lemma loginWithToken_preserves token node_id : preserves P (loginWithToken token node_id).
Proof. unfold loginWithToken. preserve. Qed.

Lemma registerUser_preserves uid passwd nickname email :
  preserves P (registerUser uid passwd nickname email).
Proof. unfold registerUser. preserve. Qed.

Lemma logout_preserves uid token : preserves P (logout uid token).
Proof. unfold logout. preserve. Qed.
End Preservation.

(** ** Theorems *)

(** C37. A password login succeeds exactly when the password is verified, the user has a
    row and the session is stored; it then hands out a fresh token with the user's row,
    and otherwise gives the reason of the first step that failed, no token and no data,
    with nothing stored after the failing step. *)
Theorem login_outcome uid passwd node_id w :
  let r := eval (login uid passwd node_id) w in
  let w1 := exec (userRepo_verifyUser uid passwd) w in
  let w2 := exec (userRepo_getUserInfo uid) w1 in
  let w3 := exec generateToken w2 in
  let token := eval generateToken w2 in
  let create := sessionRepo_createSession uid token node_id session_ttl in
  if ls_success r then
    eval (userRepo_verifyUser uid passwd) w = true ∧
    eval (userRepo_getUserInfo uid) w1 = Some (ls_userInfo r) ∧
    eval create w3 = true ∧ ls_token r = token ∧ ls_reason r = ""%string
  else
    r = LoginResult_failed (ls_reason r) ∧
    ((ls_reason r = "invalid uid or password"%string ∧
      eval (userRepo_verifyUser uid passwd) w = false ∧ exec (login uid passwd node_id) w = w1) ∨
     (ls_reason r = "user not found"%string ∧
      eval (userRepo_getUserInfo uid) w1 = None ∧ exec (login uid passwd node_id) w = w2) ∨
     (ls_reason r = "session create failed"%string ∧
      eval create w3 = false ∧ exec (login uid passwd node_id) w = exec create w3)).
Proof.
  cbv zeta. unfold login. autorewrite with chat.
  destruct (eval (userRepo_verifyUser uid passwd) w) eqn:Hv; cbn [negb]; autorewrite with chat;
    [|by cbn [ls_success LoginResult_failed ls_reason]; auto].
  destruct (eval (userRepo_getUserInfo uid) _) as [u|] eqn:Hu; autorewrite with chat;
    [|by cbn [ls_success LoginResult_failed ls_reason]; auto 8].
  destruct (eval (sessionRepo_createSession _ _ _ _) _) eqn:Hs; cbn [negb]; autorewrite with chat;
    by cbn [ls_success LoginResult_failed ls_reason ls_token ls_userInfo]; auto 9.
Qed.

(** The token of a login that succeeded. *)
Lemma login_token_shape `{!RandomLaws W} uid passwd node_id w :
  let r := eval (login uid passwd node_id) w in
  ls_success r = true → String.length (ls_token r) = 64%nat ∧ all_chars hex_digit (ls_token r).
Proof.
  cbv zeta. unfold login. autorewrite with chat.
  destruct (eval (userRepo_verifyUser uid passwd) w); cbn [negb]; [|done]. autorewrite with chat.
  destruct (eval (userRepo_getUserInfo uid) _); [|done]. autorewrite with chat.
  destruct (eval (sessionRepo_createSession _ _ _ _) _); cbn [negb]; [|done]. autorewrite with chat.
  intros _. cbn [ls_token]. apply generateToken_loop_hex.
Qed.

Lemma generateToken_loop_keeps (P : W → Prop) n :
  (∀ lo hi, preserves P (uniform_int lo hi)) → preserves P (generateToken_loop n).
Proof. intros HP. induction n; cbn [generateToken_loop]; preserve. Qed.

(** The token of a successful login is 64 hexadecimal digits, and it is a session of the
    user who logged in when the login is over: the store is in working order and neither
    the password check nor the random generator puts it out of order, and the look-ups
    that follow do not disturb the session. *)
Theorem login_opens_session uid passwd node_id w
    `{!RandomLaws W, !SessionRepoLaws W, !UserRepoPreserves store_up}
    `{∀ t, FriendRepoPreserves (token_of t uid), ∀ t, MessageRepoPreserves (token_of t uid)} :
  (∀ lo hi, preserves store_up (uniform_int lo hi)) →
  store_up w → c_str uid = uid →
  let r := eval (login uid passwd node_id) w in
  ls_success r = true →
  String.length (ls_token r) = 64%nat ∧ all_chars hex_digit (ls_token r) ∧
  token_of (ls_token r) uid (exec (login uid passwd node_id) w).
Proof.
  intros Hdraw Hup Huid. cbv zeta. unfold login. autorewrite with chat.
  destruct (eval (userRepo_verifyUser uid passwd) w) eqn:Hv; cbn [negb]; [|done].
  autorewrite with chat.
  destruct (eval (userRepo_getUserInfo uid) _) as [u|] eqn:Hu; [|done]. autorewrite with chat.
  set (w2 := exec (userRepo_getUserInfo uid) _).
  assert (store_up (exec generateToken w2)) as Hup2.
  { apply (generateToken_loop_keeps store_up 64); [done|]. by apply preserves_getUserInfo, preserves_verifyUser. }
  destruct (generateToken_loop_hex 64 w2) as [Hl Hc].
  destruct (eval (sessionRepo_createSession _ _ _ _) _) eqn:Hs; cbn [negb]; [|done].
  autorewrite with chat. cbn [ls_token]. intros _. split_and!; [done|done|].
  apply createSession_found in Hs as [_ Hs]; [|done..].
  by apply preserves_getUndeliveredMessages, preserves_getPendingRequests, preserves_getFriendList.
Qed.

(** Token login with a token that is a session of a user. *)
Lemma loginWithToken_found token node_id uid w :
  token_of token uid w →
  let r := eval (loginWithToken token node_id) w in
  let w2 := exec (sessionRepo_updateSessionNode token node_id) (exec (sessionRepo_getSessionByToken token) w) in
  match eval (userRepo_getUserInfo uid) w2 with
  | Some u => ls_success r = true ∧ ls_userInfo r = u ∧ ls_token r = token
  | None => r = LoginResult_failed "user not found"
  end.
Proof.
  intros (s & Hs & <-). cbv zeta. unfold loginWithToken. autorewrite with chat. rewrite Hs. autorewrite with chat.
  destruct (eval (userRepo_getUserInfo (si_uid s)) _); [|done]. by autorewrite with chat.
Qed.

(** Token login: a token that is a session of a user is accepted exactly when the
    user still has a row, logs that user in under the same token, and needs no password;
    a token that is no session is refused and nothing is written. *)
Theorem loginWithToken_outcome token node_id uid w :
  let r := eval (loginWithToken token node_id) w in
  let w1 := exec (sessionRepo_getSessionByToken token) w in
  let w2 := exec (sessionRepo_updateSessionNode token node_id) w1 in
  (token_of token uid w →
    match eval (userRepo_getUserInfo uid) w2 with
    | Some u => ls_success r = true ∧ ls_userInfo r = u ∧ ls_token r = token
    | None => r = LoginResult_failed "user not found"
    end) ∧
  (token_void token w →
    r = LoginResult_failed "invalid token" ∧ exec (loginWithToken token node_id) w = w1).
Proof.
  cbv zeta. split; [apply loginWithToken_found|].
  intros Hv. unfold loginWithToken, token_void in *. autorewrite with chat. by rewrite Hv.
Qed.

(** Logout always reports success; when the store, in working order, revoked the token, no later token
    login with it is accepted as long as the token stays void. *)
Theorem logout_revokes uid token node_id w `{!SessionRepoLaws W} :
  store_up w →
  eval (logout uid token) w = true ∧
  (eval (sessionRepo_revokeSession token) w = true →
   eval (loginWithToken token node_id) (exec (logout uid token) w) =
   LoginResult_failed "invalid token").
Proof.
  intros Hup. unfold logout. autorewrite with chat. split; [done|]. intros Hr.
  apply revokeSession_void in Hr as [Hup' Hr]; [|done].
  apply (revokeAllSessions_void token uid) in Hr; [|done].
  unfold loginWithToken, token_void in *. autorewrite with chat. by rewrite Hr.
Qed.
End LoginServiceFacts.

(** ** The theorems at work on the world in memory *)

(** The world after bob's login, and his token there. *)
Definition bob_in : MemWorld := exec (login "bob" "pw2" "node-1") mem_two.
Definition bob_token : string := ls_token (eval (login "bob" "pw2" "node-1") mem_two).

Lemma login_opens_session_witness :
  String.length bob_token = 64%nat ∧ all_chars hex_digit bob_token ∧
  token_of bob_token "bob" bob_in.
Proof.
  apply (login_opens_session "bob" "pw2" "node-1" mem_two); done.
Defined.

Lemma loginWithToken_outcome_witness :
  ls_success (eval (loginWithToken bob_token "node-2") bob_in) = true ∧
  eval (loginWithToken "nope" "node-2") bob_in = LoginResult_failed "invalid token".
Proof.
  split.
  - refine (proj1 (proj1 (loginWithToken_outcome bob_token "node-2" "bob" bob_in) _)).
    eexists. split; vm_compute; reflexivity.
  - refine (proj1 (proj2 (loginWithToken_outcome "nope" "node-2" "bob" bob_in) _)).
    vm_compute. reflexivity.
Defined.

Lemma logout_revokes_witness :
  eval (loginWithToken bob_token "node-2") (exec (logout "bob" bob_token) bob_in) =
  LoginResult_failed "invalid token".
Proof.
  refine (proj2 (logout_revokes "bob" bob_token "node-2" bob_in I) _). vm_compute. reflexivity.
Defined.
