(* ===== verification/ChatService.v ===== *)
(** [ChatService] of [src/service/chat_service.{h,cc}]: storing, reading, recalling and
    marking messages.  [recallMessage] reads the time stamp of the database row with
    [sscanf]; the scanner is modelled for the conversions its format uses. *)

From S2P Require Import Prelude Machine CString Repositories MemWorld.
From Stdlib Require Import Ascii.

Local Open Scope Z_scope.

Record SendMessageResult := mkSendMessageResult {
  sm_success : bool; sm_msg_id : Z; sm_reason : string }.

Record RecallResult := mkRecallResult { rc_success : bool; rc_reason : string }.

(** ** [sscanf] on the format of [created_at] *)

(** A directive: a decimal integer of at most [w] characters, one literal character, or
    white space. *)
Inductive directive :=
| scan_d (w : nat)
| scan_lit (c : ascii)
| scan_ws.

(** The values assigned, in order, until a directive fails. *)
Fixpoint sscanf (fmt : list directive) (s : string) : list Z :=
  match fmt with
  | [] => []
  | scan_d w :: fmt =>
    match scan_int w s with
    | Some (v, s) => v :: sscanf fmt s
    | None => []
    end
  | scan_lit c :: fmt =>
    match s with
    | String c' s => if Ascii.eqb c c' then sscanf fmt s else []
    | EmptyString => []
    end
  | scan_ws :: fmt => sscanf fmt (skip_ws s)
  end.

(** ["%4d-%2d-%2d %2d:%2d:%2d"]. *)
Definition created_at_format : list directive :=
  [scan_d 4; scan_lit "-"; scan_d 2; scan_lit "-"; scan_d 2; scan_ws;
   scan_d 2; scan_lit ":"; scan_d 2; scan_lit ":"; scan_d 2].

(** The members of [struct tm] the code sets; the others stay zero. *)
Record tm := mktm {
  tm_year : Z; tm_mon : Z; tm_mday : Z; tm_hour : Z; tm_min : Z; tm_sec : Z }.

(** [struct tm tm = {}], the scan into it, and the two corrections. *)
Definition tm_of_created_at (created_at : string) : tm :=
  let v := sscanf created_at_format created_at in
  let field i := default 0 (v !! i) in
  mktm (field 0%nat - 1900) (field 1%nat - 1) (field 2%nat) (field 3%nat) (field 4%nat) (field 5%nat).

(** [mktime] depends on the time zone of the host. *)
Class Mktime := { mktime : tm → Z }.

(** The operations of [RedisPubSub] the service uses through its pointer. *)
Record PubSub (W : Type) := mkPubSub { pubsub_publish : string → string → State W bool }.
Arguments pubsub_publish {W} _ _ _.

Section ChatService.
  Context {W : Type}.
  Context `{MessageRepository W, Clock W, Mktime}.
  Context (pubsub_ : option (PubSub W)).

Definition sendMessage (from to room content : string) : State W SendMessageResult :=
  msg_id ← msgRepo_storeMessage from to room content;
  if msg_id <=? 0 then mret (mkSendMessageResult false 0 "store message failed")
  else mret (mkSendMessageResult true msg_id "").

Definition getMessage (msg_id : Z) : State W (option MessageInfo) := msgRepo_getMessage msg_id.

Definition recallMessage (msg_id : Z) (uid to room : string) : State W RecallResult :=
  msg ← msgRepo_getMessage msg_id;
  match msg with
  | None => mret (mkRecallResult false "message not found")
  | Some msg =>
    if negb (String.eqb (mi_from_uid msg) uid)
    then mret (mkRecallResult false "can only recall your own messages") else
    now ← time_now;
    let msgTime := mktime (tm_of_created_at (mi_created_at msg)) in
    if 120 <? now - msgTime
    then mret (mkRecallResult false "recall window expired (2 min)") else
    recalled ← msgRepo_recallMessage msg_id uid;
    if negb recalled then mret (mkRecallResult false "recall failed")
    else mret (mkRecallResult true "")
  end.

Definition markMessagesDelivered (uid : string) : State W bool :=
  msgRepo_markMessagesDelivered uid.

Definition publishMessage (channel message : string) : State W unit :=
  match pubsub_ with
  | Some p => _ ← pubsub_publish p channel message; mret tt
  | None => mret tt
  end.
End ChatService.

(** ** How the database writes a [DATETIME] *)

(** ["YYYY-MM-DD hh:mm:ss"]. *)
Definition print_datetime (y mo d h mi s : Z) : string :=
  print_digits 4 y (String "-" (print_digits 2 mo (String "-" (print_digits 2 d
    (String " " (print_digits 2 h (String ":" (print_digits 2 mi (String ":"
      (print_digits 2 s EmptyString)))))))))).

(** ** Lemmas *)

Section Preservation.
  Context {W : Type} `{MessageRepository W, Clock W, Random W, Mktime}.
  Context (P : W → Prop) `{!MessageRepoPreserves P, !EnvPreserves P}.

Lemma sendMessage_preserves from to room content :
  preserves P (sendMessage from to room content).
Proof. unfold sendMessage. preserve. Qed.

Lemma getMessage_preserves msg_id : preserves P (getMessage msg_id).
Proof. unfold getMessage. preserve. Qed.

Lemma recallMessage_preserves msg_id uid to room : preserves P (recallMessage msg_id uid to room).
Proof. unfold recallMessage. preserve. Qed.

Lemma markMessagesDelivered_preserves uid : preserves P (markMessagesDelivered uid).
Proof. unfold markMessagesDelivered. preserve. Qed.
End Preservation.

(** ** Theorems *)

(** The time stamp the database writes is read back field by field: the scan and the
    two corrections give the broken-down time of every date of a four-digit year. *)
Theorem created_at_roundtrip y mo d h mi s :
  0 <= y < 10000 → Forall (λ x, 0 <= x < 100) [mo; d; h; mi; s] →
  tm_of_created_at (print_datetime y mo d h mi s) = mktm (y - 1900) (mo - 1) d h mi s.
Proof.
  intros Hy Hf. repeat match goal with H : Forall _ (_ :: _) |- _ => inversion_clear H end.
  unfold tm_of_created_at, created_at_format, print_datetime. cbn [sscanf].
  repeat (rewrite scan_int_print by (first [lia | split; simpl; lia]); cbn [sscanf Ascii.eqb Bool.eqb]).
  cbn [skip_ws]. change (isspace " ") with true. cbv iota.
  rewrite skip_ws_print by lia.
  repeat (rewrite scan_int_print by (first [lia | split; simpl; lia]); cbn [sscanf Ascii.eqb Bool.eqb]).
  done.
Qed.

Section ChatServiceFacts.
  Context {W : Type} `{MessageRepository W, Clock W, Mktime}.

(** C36. Recall is allowed for the sender only and for two minutes only: it succeeds
    exactly when the message exists, was sent by the caller, is at most 120 seconds old
    by the clock and the store marks it; the store is not asked to mark it otherwise. *)
Theorem recallMessage_outcome msg_id uid to room w :
  let r := eval (recallMessage msg_id uid to room) w in
  let found := eval (msgRepo_getMessage msg_id) w in
  let w1 := exec (msgRepo_getMessage msg_id) w in
  let w2 := exec time_now w1 in
  let mark := msgRepo_recallMessage msg_id uid in
  let allowed := ∃ m, found = Some m ∧ mi_from_uid m = uid ∧
    eval time_now w1 - mktime (tm_of_created_at (mi_created_at m)) <= 120 in
  (rc_success r = true ↔ allowed ∧ eval mark w2 = true) ∧
  (¬ allowed → exec (recallMessage msg_id uid to room) w = w1 ∨
               exec (recallMessage msg_id uid to room) w = w2) ∧
  (rc_success r = false ↔ rc_reason r ≠ ""%string).
Proof.
  cbv zeta. unfold recallMessage. autorewrite with chat.
  destruct (eval (msgRepo_getMessage msg_id) w) as [m|]; autorewrite with chat; cbn [rc_success rc_reason].
  2: { split_and!; [split; [done|by intros [(? & ? & _) _]]|by left|done]. }
  destruct (String.eqb_spec (mi_from_uid m) uid) as [Hu|Hu]; cbn [negb]; autorewrite with chat.
  2: { cbn. split_and!; [split; [done|naive_solver]|by left|done]. }
  destruct (Z.ltb_spec 120 (eval time_now (exec (msgRepo_getMessage msg_id) w) -
    mktime (tm_of_created_at (mi_created_at m)))) as [Hlt|Hle]; autorewrite with chat.
  - cbn. split_and!; [split; [done|]|by right|done].
    intros [(m' & [= <-] & _ & Hle) _]. lia.
  - destruct (eval (msgRepo_recallMessage msg_id uid) _) eqn:Hr; cbn [negb]; autorewrite with chat;
      cbn [rc_success rc_reason]; naive_solver.
Qed.

(** Storing: the message is accepted exactly when the store gives it a positive id,
    and that id is the one the sender is told. *)
Theorem sendMessage_outcome from to room content w :
  let r := eval (sendMessage from to room content) w in
  let id := eval (msgRepo_storeMessage from to room content) w in
  (sm_success r = true ↔ 0 < id) ∧
  (if sm_success r then sm_msg_id r = id ∧ sm_reason r = ""%string
   else sm_msg_id r = 0 ∧ sm_reason r = "store message failed"%string) ∧
  exec (sendMessage from to room content) w = exec (msgRepo_storeMessage from to room content) w.
Proof.
  cbv zeta. unfold sendMessage. autorewrite with chat.
  destruct (Z.leb_spec (eval (msgRepo_storeMessage from to room content) w) 0);
    autorewrite with chat; cbn; split_and!; try done; lia.
Qed.
End ChatServiceFacts.

(** ** The theorems at work *)

Lemma created_at_roundtrip_witness :
  tm_of_created_at (print_datetime 2024 1 31 23 59 8) = mktm 124 0 31 23 59 8.
Proof. apply (created_at_roundtrip 2024 1 31 23 59 8); [lia|repeat constructor; lia]. Defined.
