(* ===== verification/FriendService.v ===== *)
(** [FriendService] of [src/service/friend_service.{h,cc}]: friend requests and friend
    lists over the repository interfaces.  [pubsub_] is stored and never used. *)

From S2P Require Import Prelude Machine Repositories MemWorld.

Record FriendResult := mkFriendResult { fr_success : bool; fr_reason : string }.

Section FriendService.
  Context {W : Type} `{FriendRepository W, UserRepository W}.

Definition addFriendRequest (from to message : string) : State W FriendResult :=
  exists_ ← userRepo_userExists to;
  if negb exists_ then mret (mkFriendResult false "target user not found") else
  ok ← friendRepo_addFriendRequest from to message;
  mret (mkFriendResult ok (if negb ok then "add friend request failed" else "")).

Definition respondFriendRequest (requester responder : string) (accepted : bool)
    : State W FriendResult :=
  ok ← friendRepo_respondFriendRequest requester responder accepted;
  mret (mkFriendResult ok (if negb ok then "respond friend request failed" else "")).

Definition removeFriend (uid1 uid2 : string) : State W FriendResult :=
  ok ← friendRepo_removeFriends uid1 uid2;
  mret (mkFriendResult ok (if negb ok then "remove friend failed" else "")).

Definition getFriendList (uid : string) : State W (list UserInfo) := friendRepo_getFriendList uid.

Definition getPendingRequests (uid : string) : State W (list string) :=
  friendRepo_getPendingRequests uid.
End FriendService.

(** ** Lemmas *)

Section Preservation.
  Context {W : Type} `{FriendRepository W, UserRepository W}.
  Context (P : W → Prop) `{!FriendRepoPreserves P, !UserRepoPreserves P}.

Lemma addFriendRequest_preserves from to message : preserves P (addFriendRequest from to message).
Proof. unfold addFriendRequest. preserve. Qed.

Lemma respondFriendRequest_preserves requester responder accepted :
  preserves P (respondFriendRequest requester responder accepted).
Proof. unfold respondFriendRequest. preserve. Qed.

Lemma removeFriend_preserves uid1 uid2 : preserves P (removeFriend uid1 uid2).
Proof. unfold removeFriend. preserve. Qed.
End Preservation.

(** ** Theorems *)

(** A friend request is stored only for a target that exists: it succeeds exactly
    when the target has a row and the store accepts it, a missing target leaves the
    friend table unasked, and a reason is given exactly on failure. *)
Theorem addFriendRequest_outcome {W} `{FriendRepository W, UserRepository W} from to message w :
  let r := eval (addFriendRequest from to message) w in
  let known := eval (userRepo_userExists to) w in
  let w1 := exec (userRepo_userExists to) w in
  let add := friendRepo_addFriendRequest from to message in
  fr_success r = known && eval add w1 ∧
  exec (addFriendRequest from to message) w = (if known then exec add w1 else w1) ∧
  (fr_success r = false ↔ fr_reason r ≠ ""%string).
Proof.
  cbv zeta. unfold addFriendRequest. autorewrite with chat.
  destruct (eval (userRepo_userExists to) w); cbn [negb andb]; autorewrite with chat; [|done].
  destruct (eval (friendRepo_addFriendRequest from to message) _); done.
Qed.
