(* ===== verification/RoomService.v ===== *)
(** [RoomService] of [src/service/room_service.{h,cc}]: the rooms of the database.
    [userRepo_] and [pubsub_] are stored and never used. *)

From S2P Require Import Prelude Machine Repositories MemWorld.

Local Open Scope Z_scope.

Record RoomResult := mkRoomResult { ro_success : bool; ro_room_id : Z; ro_reason : string }.

Section RoomService.
  Context {W : Type} `{RoomRepository W}.

Definition createRoom (name creator : string) : State W RoomResult :=
  taken ← roomRepo_roomExists name;
  if (taken : bool) then mret (mkRoomResult false 0 "room already exists") else
  room_id ← roomRepo_createRoom name creator;
  if room_id <=? 0 then mret (mkRoomResult false 0 "create room failed") else
  _ ← roomRepo_addRoomMember room_id creator 2;
  mret (mkRoomResult true room_id "").

Definition joinRoom (room_name uid : string) : State W RoomResult :=
  room ← roomRepo_getRoomByName room_name;
  match room with
  | None => mret (mkRoomResult false 0 "room not found")
  | Some room =>
    ok ← roomRepo_addRoomMember (ri_room_id room) uid 0;
    mret (mkRoomResult ok (ri_room_id room) (if negb ok then "join room failed" else ""))
  end.

Definition leaveRoom (room_id : Z) (uid : string) : State W bool :=
  roomRepo_removeRoomMember room_id uid.

Definition getRoomByName (name : string) : State W (option RoomInfo) :=
  roomRepo_getRoomByName name.

Definition getRoomById (room_id : Z) : State W (option RoomInfo) := roomRepo_getRoomById room_id.

Definition roomExists (name : string) : State W bool := roomRepo_roomExists name.

Definition getRoomMembers (room_id : Z) : State W (list string) :=
  roomRepo_getRoomMembers room_id.

Definition getUserRooms (uid : string) : State W (list RoomInfo) := roomRepo_getUserRooms uid.

(** The row the table has under a name. *)
Definition room_named (name : string) (room_id : Z) (w : W) : Prop :=
  ∃ r, eval (roomRepo_getRoomByName name) w = Some r ∧ ri_room_id r = room_id.
End RoomService.

(** What a room table promises: a room that was created with a positive id is found under
    its name with that id, [roomExists] and [getRoomByName] agree, and neither a look-up
    nor a membership changes which room has a name. *)
Class RoomRepoLaws (W : Type) `{RoomRepository W} := {
  createRoom_found name creator w :
    0 < eval (roomRepo_createRoom name creator) w →
    room_named name (eval (roomRepo_createRoom name creator) w)
      (exec (roomRepo_createRoom name creator) w);
  roomExists_named name room_id w :
    room_named name room_id w → eval (roomRepo_roomExists name) w = true;
  addRoomMember_named name room_id i uid role :
    preserves (room_named name room_id) (roomRepo_addRoomMember i uid role);
  roomExists_keeps name room_id n : preserves (room_named name room_id) (roomRepo_roomExists n)
}.

(** ** Lemmas *)

Section Preservation.
  Context {W : Type} `{RoomRepository W}.
  Context (P : W → Prop) `{!RoomRepoPreserves P}.

Lemma createRoom_preserves name creator : preserves P (createRoom name creator).
Proof. unfold createRoom. preserve. Qed.

Lemma joinRoom_preserves room_name uid : preserves P (joinRoom room_name uid).
Proof. unfold joinRoom. preserve. Qed.
End Preservation.

(** ** Theorems *)

(** A room name is taken once: after a creation that succeeded the name stands for
    the new room, a second creation under the name is refused and writes nothing more, and
    joining by name enters the caller into that room. *)
Theorem room_lifecycle {W} `{RoomRepository W, !RoomRepoLaws W} name creator other uid w :
  let r := eval (createRoom name creator) w in
  let w' := exec (createRoom name creator) w in
  let w1 := exec (roomRepo_getRoomByName name) w' in
  ro_success r = true →
  room_named name (ro_room_id r) w' ∧
  eval (createRoom name other) w' = mkRoomResult false 0 "room already exists" ∧
  exec (createRoom name other) w' = exec (roomRepo_roomExists name) w' ∧
  ro_success (eval (joinRoom name uid) w') = eval (roomRepo_addRoomMember (ro_room_id r) uid 0) w1 ∧
  ro_room_id (eval (joinRoom name uid) w') = ro_room_id r.
Proof.
  cbv zeta. intros Hr.
  assert (room_named name (ro_room_id (eval (createRoom name creator) w))
            (exec (createRoom name creator) w)) as Hn.
  { revert Hr. unfold createRoom. autorewrite with chat.
    destruct (eval (roomRepo_roomExists name) w); [done|]. autorewrite with chat.
    destruct (Z.leb_spec (eval (roomRepo_createRoom name creator)
      (exec (roomRepo_roomExists name) w)) 0); [done|].
    autorewrite with chat. intros _. cbn [ro_room_id].
    by apply addRoomMember_named, createRoom_found. }
  set (w' := exec (createRoom name creator) w) in *.
  set (i := ro_room_id _) in *. split; [done|].
  apply roomExists_named in Hn as Hx. destruct Hn as (room & Hroom & Hi).
  unfold createRoom at 1 2, joinRoom. autorewrite with chat.
  rewrite Hx, Hroom. autorewrite with chat. by rewrite Hi.
Qed.

(** Creating a room reports success whatever became of the creator's membership: the
    result of the insertion into the member table is not looked at. *)
Theorem createRoom_outcome {W} `{RoomRepository W} name creator w :
  let r := eval (createRoom name creator) w in
  let w1 := exec (roomRepo_roomExists name) w in
  let room_id := eval (roomRepo_createRoom name creator) w1 in
  let w2 := exec (roomRepo_createRoom name creator) w1 in
  (ro_success r = true ↔ eval (roomRepo_roomExists name) w = false ∧ 0 < room_id) ∧
  (ro_success r = true →
     ro_room_id r = room_id ∧
     exec (createRoom name creator) w = exec (roomRepo_addRoomMember room_id creator 2) w2) ∧
  (ro_success r = false ↔ ro_reason r ≠ ""%string).
Proof.
  cbv zeta. unfold createRoom. autorewrite with chat.
  destruct (eval (roomRepo_roomExists name) w); autorewrite with chat; [by cbn; naive_solver|].
  destruct (Z.leb_spec (eval (roomRepo_createRoom name creator)
    (exec (roomRepo_roomExists name) w)) 0); autorewrite with chat; cbn [ro_success ro_room_id ro_reason];
    split_and!; try done; naive_solver lia.
Qed.

(** ** The theorems at work *)

#[export] Instance mem_room_laws : RoomRepoLaws MemWorld.
Proof.
  constructor.
  - intros n c w _. unfold room_named. cbn. rewrite decide_True by done. cbn. eauto.
  - intros n i w (r & Hr & _). cbn in *. apply bool_decide_eq_true_2.
    destruct (list_find _ _); [eauto|done].
  - by intros n i j u r w Hw.
  - by intros n i n' w Hw.
Qed.

Lemma room_lifecycle_witness :
  let w' := exec (createRoom "lobby" "alice") mem_two in
  eval (createRoom "lobby" "bob") w' = mkRoomResult false 0 "room already exists".
Proof.
  cbv zeta. refine (proj1 (proj2 (room_lifecycle "lobby" "alice" "bob" "bob" mem_two _))).
  vm_compute. reflexivity.
Defined.
