(* ===== verification/ChatServer.v ===== *)
(** [ChatServer] of [src/chat_server.{h,cc}]: the request handlers, the work they hand to
    the thread pool and the continuations the work hands back to the I/O loops, as a
    transition system.

    The lambdas of the source are defunctionalised: a [Task] is a lambda given to
    [threadPool_.run], a [Cont] one given to [runInLoop], each with the variables it
    captures.  Tasks wait in [pool] (first in, first out, at most [kMaxQueueSize] of them),
    are taken into [running] by a worker that is free and may finish in any order; a
    continuation waits in the queue of the loop of its connection.  A worker is never the
    loop's own thread, so [runInLoop] queues.  [threadPool_.run] blocks its caller while the
    queue is full: a handler or a continuation that would queue a task too many is a step
    that is not possible yet. *)

From S2P Require Import Prelude Machine Proto ChatCodec SessionManager RoomManager Repositories.
From S2P Require Import MemWorld LoginService ChatService FriendService RoomService.

Local Open Scope Z_scope.

(** ** Parameters of a server *)

(** The name of the node, the I/O loop that muduo assigned to each connection, and the
    number of workers, which is [std::thread::hardware_concurrency()].  (With no workers
    muduo runs a task in its caller; such a host is left out.) *)
Class Config := {
  node_id_ : string;
  getLoop : Conn → nat;
  workers : nat;
  workers_pos : (0 < workers)%nat
}.

(** [threadPool_.setMaxQueueSize(10000)]. *)
Definition kMaxQueueSize : Z := 10000.

(** ** Deferred work *)

Inductive Task :=
| task_loginWithToken (conn : Conn) (token : string)
| task_login (conn : Conn) (uid passwd : string)
| task_logout (uid token : string)
| task_register (conn : Conn) (uid passwd nickname email : string)
| task_sendMessage (conn : Conn) (from to room content : string)
| task_getMessage (to : string) (msg_id : Z)
| task_createRoom (conn : Conn) (uid name : string)
| task_joinRoom (conn : Conn) (uid roomName : string)
| task_friendRequest (conn : Conn) (from to msg : string)
| task_friendResponse (conn : Conn) (requester responder : string) (accepted : bool)
| task_friendRemove (conn : Conn) (uid target : string)
| task_markDelivered (uid : string)
| task_recall (conn : Conn) (uid : string) (msg_id : Z) (to room : string).

Inductive Cont :=
| cont_loginWithToken (conn : Conn) (result : LoginResult) (token : string)
| cont_login (conn : Conn) (result : LoginResult)
| cont_register (conn : Conn) (ok : bool)
| cont_sendMessage (conn : Conn) (from to room content : string) (result : SendMessageResult)
| cont_createRoom (conn : Conn) (uid name : string) (result : RoomResult)
| cont_joinRoom (conn : Conn) (uid roomName : string) (result : RoomResult)
| cont_friendRequest (conn : Conn) (from to msg : string)
| cont_friendResponse (conn : Conn) (requester responder : string) (accepted : bool)
| cont_friendRemove (conn : Conn) (uid target : string)
| cont_recall (conn : Conn) (uid : string) (msg_id : Z) (to room : string) (result : RecallResult).

(** What the server does to a connection. *)
Inductive Action :=
| Send (conn : Conn) (msg : ServerMessage)
| Shutdown (conn : Conn).

(** ** The state *)

Section State.
  Context {W : Type}.

(** [connected] are the connections that are up and [seen] those that ever were;
    [out] records the actions in order, also those on a connection that has gone down in the
    meantime, which muduo drops. *)
Record Server := mkServer {
  sessionManager_ : SessionManager;
  roomManager_ : RoomManager;
  pool : list Task;
  running : list Task;
  loops : gmap nat (list Cont);
  connected : gset Conn;
  seen : gset Conn;
  world : W;
  out : list Action
}.

Definition set_sm (m : SessionManager) (s : Server) : Server :=
  mkServer m (roomManager_ s) (pool s) (running s) (loops s) (connected s) (seen s) (world s) (out s).

Definition set_rooms (r : RoomManager) (s : Server) : Server :=
  mkServer (sessionManager_ s) r (pool s) (running s) (loops s) (connected s) (seen s) (world s) (out s).

Definition set_pool (p : list Task) (s : Server) : Server :=
  mkServer (sessionManager_ s) (roomManager_ s) p (running s) (loops s) (connected s) (seen s) (world s) (out s).

Definition set_running (r : list Task) (s : Server) : Server :=
  mkServer (sessionManager_ s) (roomManager_ s) (pool s) r (loops s) (connected s) (seen s) (world s) (out s).

Definition set_loops (l : gmap nat (list Cont)) (s : Server) : Server :=
  mkServer (sessionManager_ s) (roomManager_ s) (pool s) (running s) l (connected s) (seen s) (world s) (out s).

Definition set_connected (c sn : gset Conn) (s : Server) : Server :=
  mkServer (sessionManager_ s) (roomManager_ s) (pool s) (running s) (loops s) c sn (world s) (out s).

Definition set_world (w : W) (s : Server) : Server :=
  mkServer (sessionManager_ s) (roomManager_ s) (pool s) (running s) (loops s) (connected s) (seen s) w (out s).

Definition set_out (o : list Action) (s : Server) : Server :=
  mkServer (sessionManager_ s) (roomManager_ s) (pool s) (running s) (loops s) (connected s) (seen s) (world s) o.

(** A server that has just been constructed and started. *)
Definition start (w : W) : Server :=
  mkServer new_SessionManager new_RoomManager [] [] ∅ ∅ ∅ w [].

(** ** Primitive steps of a handler *)

Definition call_sm (f : SessionManager → SessionManager) : State Server unit :=
  modify (λ s, set_sm (f (sessionManager_ s)) s).

Definition ask_sm {A} (f : SessionManager → A) : State Server A := gets (λ s, f (sessionManager_ s)).

Definition call_rooms (f : RoomManager → RoomManager) : State Server unit :=
  modify (λ s, set_rooms (f (roomManager_ s)) s).

Definition threadPool_run (t : Task) : State Server unit := modify (λ s, set_pool (pool s ++ [t]) s).

(** A call of a service or of the clock. *)
Definition call_world {A} (m : State W A) : State Server A := λ s,
  let '(a, w) := m (world s) in (a, set_world w s).

Definition emit (a : Action) : State Server unit := modify (λ s, set_out (out s ++ [a]) s).

(** [codec_.sendServerMessage(conn, msg)]. *)
Definition codec_send (conn : Conn) (msg : ServerMessage) : State Server unit := emit (Send conn msg).

Definition sendError (conn : Conn) (code : Z) (reason : string) : State Server unit :=
  codec_send conn (error (mkErrorResponse code reason)).
End State.
Arguments Server : clear implicits.

(** ** Messages the handlers build *)

Definition chat_message (from to room content : string) (msg_id timestamp : Z) : ServerMessage :=
  chat_msg (mkChatMessage from to room content (u64 msg_id) 0 (u64 timestamp) false).

Definition recall_message (msg_id : Z) (from_uid room to_uid : string) (recallTime : Z) : ServerMessage :=
  recall_notify (mkRecallNotify (u64 msg_id) from_uid room to_uid (u64 recallTime)).

(** ** Sending what is known *)

Section ChatServer.
  Context {W : Type}.
  Context `{UserRepository W, SessionRepository W, FriendRepository W, MessageRepository W}.
  Context `{RoomRepository W, Clock W, Random W, Mktime, Environment W, Config}.

Definition sendFriendList (conn : Conn) : State (Server W) unit :=
  uid ← ask_sm (getUid conn);
  friends ← ask_sm (getFriends uid);
  list_ ← gets (λ s, map (λ fuid, mkFriendInfo fuid fuid (isOnline fuid (sessionManager_ s)))
                        (set_iter friends));
  codec_send conn (friend_list (mkFriendList list_)).

Definition handleFriendList (conn : Conn) : State (Server W) unit := sendFriendList conn.

Definition sendOfflineMessages (conn : Conn) (messages : list MessageInfo) : State (Server W) unit :=
  _ ← for_each messages (λ om,
    now ← call_world Timestamp_now;
    codec_send conn (chat_message (mi_from_uid om) (mi_to_uid om) (mi_room_name om)
                       (mi_content om) (mi_msg_id om) now));
  match messages with
  | [] => mret tt
  | _ => uid ← ask_sm (getUid conn); threadPool_run (task_markDelivered uid)
  end.

Definition sendPendingRequests (conn : Conn) (requests : list string) : State (Server W) unit :=
  uid ← ask_sm (getUid conn);
  for_each requests (λ requester,
    _ ← call_sm (addPendingRequest requester uid);
    codec_send conn (friend_req (mkFriendRequest requester uid ""))).

(** ** The handlers *)

Definition handleLogin (conn : Conn) (req : LoginRequest) : State (Server W) unit :=
  if empty_string (lr_token req) && empty_string (lr_passwd req)
  then sendError conn 1 "need password or token"
  else if negb (empty_string (lr_token req))
  then threadPool_run (task_loginWithToken conn (lr_token req))
  else
    let uid := lr_uid req in
    if empty_string uid then sendError conn 2 "uid required"
    else threadPool_run (task_login conn uid (lr_passwd req)).

Definition handleLogout (conn : Conn) (req : LogoutRequest) : State (Server W) unit :=
  let uid := lo_uid req in
  let token := lo_token req in
  _ ← threadPool_run (task_logout uid token);
  _ ← call_sm (deauthenticate conn);
  codec_send conn (login_resp (mkLoginResponse true "" "logged out" 0 "" "" "")).

Definition handleRegister (conn : Conn) (req : RegisterRequest) : State (Server W) unit :=
  if empty_string (rr_uid req) || empty_string (rr_passwd req)
  then sendError conn 7 "uid and password required"
  else threadPool_run
         (task_register conn (rr_uid req) (rr_passwd req) (rr_nickname req) (rr_email req)).

Definition handleChatMessage (conn : Conn) (msg : ChatMessage) : State (Server W) unit :=
  auth ← ask_sm (isAuthenticated conn);
  if negb auth then mret tt else
  from ← ask_sm (getUid conn);
  threadPool_run (task_sendMessage conn from (cm_to msg) (cm_room msg) (cm_content msg)).

Definition handleCreateRoom (conn : Conn) (req : CreateRoom) : State (Server W) unit :=
  auth ← ask_sm (isAuthenticated conn);
  if negb auth then mret tt else
  uid ← ask_sm (getUid conn);
  threadPool_run (task_createRoom conn uid (cr_name req)).

Definition handleJoinRoom (conn : Conn) (req : JoinRoom) : State (Server W) unit :=
  auth ← ask_sm (isAuthenticated conn);
  if negb auth then mret tt else
  uid ← ask_sm (getUid conn);
  threadPool_run (task_joinRoom conn uid (jr_room_name req)).

Definition handleFriendRequest (conn : Conn) (req : FriendRequest) : State (Server W) unit :=
  auth ← ask_sm (isAuthenticated conn);
  if negb auth then mret tt else
  threadPool_run (task_friendRequest conn (fq_from_uid req) (fq_to_uid req) (fq_message req)).

Definition handleFriendResponse (conn : Conn) (req : FriendResponse) : State (Server W) unit :=
  auth ← ask_sm (isAuthenticated conn);
  if negb auth then mret tt else
  let responder := fp_from_uid req in
  let requester := fp_to_uid req in
  threadPool_run (task_friendResponse conn requester responder (fp_accepted req)).

Definition handleFriendRemove (conn : Conn) (req : FriendRemove) : State (Server W) unit :=
  auth ← ask_sm (isAuthenticated conn);
  if negb auth then mret tt else
  uid ← ask_sm (getUid conn);
  threadPool_run (task_friendRemove conn uid (fv_target_uid req)).

Definition handleRecall (conn : Conn) (req : RecallMessage) : State (Server W) unit :=
  auth ← ask_sm (isAuthenticated conn);
  if negb auth then mret tt else
  uid ← ask_sm (getUid conn);
  let msg_id := i64 (rm_msg_id req) in
  threadPool_run (task_recall conn uid msg_id (rm_to_uid req) (rm_room req)).

Definition onEnvelope (conn : Conn) (env : Envelope) : State (Server W) unit :=
  match env_payload env with
  | kLoginReq r => handleLogin conn r
  | kLogoutReq r => handleLogout conn r
  | kRegisterReq r => handleRegister conn r
  | kChatMsg r => handleChatMessage conn r
  | kCreateRoom r => handleCreateRoom conn r
  | kJoinRoom r => handleJoinRoom conn r
  | kFriendReq r => handleFriendRequest conn r
  | kFriendResp r => handleFriendResponse conn r
  | kFriendRemove r => handleFriendRemove conn r
  | kRecallMsg r => handleRecall conn r
  | kHeartbeat _ => mret tt
  | PAYLOAD_NOT_SET => emit (Shutdown conn)
  end.

(** [onConnection] is called when a connection goes up and when it goes down. *)
Definition onConnection (conn : Conn) (up : bool) : State (Server W) unit :=
  if up then call_sm (SessionManager.onConnection conn)
  else call_sm (onDisconnection conn).

(** ** The lambdas of the thread pool *)

(** The body of a task: the service call, and the continuation it queues. *)
Definition task_body (t : Task) : State W (option (Conn * Cont)) :=
  match t with
  | task_loginWithToken conn token =>
    result ← loginWithToken token node_id_;
    mret (Some (conn, cont_loginWithToken conn result token))
  | task_login conn uid passwd =>
    result ← login uid passwd node_id_;
    mret (Some (conn, cont_login conn result))
  | task_logout uid token => _ ← logout uid token; mret None
  | task_register conn uid passwd nickname email =>
    ok ← registerUser uid passwd nickname email;
    mret (Some (conn, cont_register conn ok))
  | task_sendMessage conn from to room content =>
    result ← sendMessage from to room content;
    mret (Some (conn, cont_sendMessage conn from to room content result))
  | task_getMessage _ msg_id => _ ← getMessage msg_id; mret None
  | task_createRoom conn uid name =>
    result ← RoomService.createRoom name uid;
    mret (Some (conn, cont_createRoom conn uid name result))
  | task_joinRoom conn uid roomName =>
    result ← RoomService.joinRoom roomName uid;
    mret (Some (conn, cont_joinRoom conn uid roomName result))
  | task_friendRequest conn from to msg =>
    _ ← addFriendRequest from to msg;
    mret (Some (conn, cont_friendRequest conn from to msg))
  | task_friendResponse conn requester responder accepted =>
    _ ← respondFriendRequest requester responder accepted;
    mret (Some (conn, cont_friendResponse conn requester responder accepted))
  | task_friendRemove conn uid target =>
    _ ← removeFriend uid target;
    mret (Some (conn, cont_friendRemove conn uid target))
  | task_markDelivered uid => _ ← markMessagesDelivered uid; mret None
  | task_recall conn uid msg_id to room =>
    result ← recallMessage msg_id uid to room;
    mret (Some (conn, cont_recall conn uid msg_id to room result))
  end.

(** [conn->getLoop()->runInLoop(k)] from a worker. *)
Definition runInLoop (conn : Conn) (k : Cont) : State (Server W) unit :=
  modify (λ s,
    let l := getLoop conn in
    set_loops (<[l := default [] (loops s !! l) ++ [k]]> (loops s)) s).

Definition run_task (t : Task) : State (Server W) unit :=
  next ← call_world (task_body t);
  match next with
  | Some (conn, k) => runInLoop conn k
  | None => mret tt
  end.

(** ** The lambdas of the loops *)

(** The two login continuations differ in the token only. *)
Definition login_done (conn : Conn) (result : LoginResult) (token : string) : State (Server W) unit :=
  if ls_success result then
    let u := ls_userInfo result in
    _ ← call_sm (λ m, snd (authenticate conn (ui_uid u) token m));
    _ ← for_each (ls_friends result) (λ f, call_sm (addFriendship (ui_uid u) (ui_uid f)));
    now ← call_world Timestamp_now;
    _ ← codec_send conn (login_resp
          (mkLoginResponse true token "" (u64 now) (ui_nickname u) (ui_email u) (ui_avatarUrl u)));
    _ ← sendPendingRequests conn (ls_pendingRequests result);
    _ ← sendOfflineMessages conn (ls_offlineMessages result);
    sendFriendList conn
  else sendError conn 6 (ls_reason result).

(** The loop over the members of a room. *)
Definition broadcast (room : string) (msg : ServerMessage) : State (Server W) unit :=
  members ← gets (λ s, RoomManager.getRoomMembers room (roomManager_ s));
  for_each (set_iter members) (λ member,
    memberConn ← ask_sm (getConnection member);
    match memberConn with
    | Some c => codec_send c msg
    | None => mret tt
    end).

Definition sendMessage_done (conn : Conn) (from to room content : string)
    (result : SendMessageResult) : State (Server W) unit :=
  if negb (sm_success result) then sendError conn 3 (sm_reason result) else
  now ← call_world Timestamp_now;
  if negb (empty_string to) then
    targetConn ← ask_sm (getConnection to);
    let reply := chat_message from to "" content (sm_msg_id result) now in
    _ ← match targetConn with
        | Some c => codec_send c reply
        | None => mret tt
        end;
    let echo := chat_message from to "" content (sm_msg_id result) now in
    _ ← codec_send conn echo;
    match targetConn with
    | None =>
      _ ← sendError conn 3 "user offline";
      threadPool_run (task_getMessage to (sm_msg_id result))
    | Some _ => mret tt
    end
  else if negb (empty_string room) then
    broadcast room (chat_message from "" room content (sm_msg_id result) now)
  else mret tt.

Definition recall_done (conn : Conn) (uid : string) (msg_id : Z) (to room : string)
    (result : RecallResult) : State (Server W) unit :=
  if negb (rc_success result) then sendError conn 8 (rc_reason result) else
  recallTime ← call_world Timestamp_now;
  _ ← (if negb (empty_string to) then
         targetConn ← ask_sm (getConnection to);
         match targetConn with
         | Some c => codec_send c (recall_message msg_id uid "" to recallTime)
         | None => mret tt
         end
       else if negb (empty_string room) then
         broadcast room (recall_message msg_id uid room "" recallTime)
       else mret tt);
  codec_send conn (recall_message msg_id uid room to recallTime).

Definition cont_body (k : Cont) : State (Server W) unit :=
  match k with
  | cont_loginWithToken conn result token => login_done conn result token
  | cont_login conn result => login_done conn result (ls_token result)
  | cont_register conn ok =>
    codec_send conn (register_resp (mkRegisterResponse ok (if negb ok then "register failed" else "")))
  | cont_sendMessage conn from to room content result =>
    sendMessage_done conn from to room content result
  | cont_createRoom conn uid name result =>
    if negb (ro_success result) then sendError conn 5 (ro_reason result)
    else call_rooms (λ r, snd (RoomManager.createRoom name uid r))
  | cont_joinRoom conn uid roomName result =>
    if negb (ro_success result) then sendError conn 4 (ro_reason result)
    else call_rooms (λ r, snd (RoomManager.joinRoom roomName uid r))
  | cont_friendRequest conn from to msg =>
    _ ← call_sm (addPendingRequest from to);
    targetConn ← ask_sm (getConnection to);
    match targetConn with
    | Some c => codec_send c (friend_req (mkFriendRequest from "" msg))
    | None => mret tt
    end
  | cont_friendResponse conn requester responder accepted =>
    _ ← (if (accepted : bool) then call_sm (addFriendship requester responder) else mret tt);
    _ ← call_sm (removePendingRequest requester responder);
    requesterConn ← ask_sm (getConnection requester);
    _ ← match requesterConn with
        | Some c =>
          _ ← codec_send c (friend_resp (mkFriendResponse responder requester accepted));
          sendFriendList c
        | None => mret tt
        end;
    sendFriendList conn
  | cont_friendRemove conn uid target =>
    _ ← call_sm (removeFriendship uid target);
    targetConn ← ask_sm (getConnection target);
    _ ← match targetConn with
        | Some c =>
          _ ← codec_send c (friend_remove (mkFriendRemove uid));
          sendFriendList c
        | None => mret tt
        end;
    sendFriendList conn
  | cont_recall conn uid msg_id to room result => recall_done conn uid msg_id to room result
  end.

(** ** The transition system *)

(** What can happen next: a connection goes up or down, the codec hands over an envelope,
    a worker takes the oldest task or finishes one, a loop runs its oldest continuation,
    the world changes from outside. *)
Inductive event :=
| Connect (conn : Conn)
| Disconnect (conn : Conn)
| Recv (conn : Conn) (env : Envelope)
| TakeTask
| FinishTask (i : nat)
| RunLoop (l : nat)
| Outside (n : nat).

(** A step that may queue tasks, possible only when they fit into the queue: this stands for
    muduo's [ThreadPool::run], which blocks its caller while the queue is full. *)
Definition with_room (s : Server W) : option (Server W) :=
  if Z.of_nat (length (pool s)) <=? kMaxQueueSize then Some s else None.

(** One event, [None] when it is not possible. *)
Definition step (e : event) (s : Server W) : option (Server W) :=
  match e with
  | Connect conn =>
    if decide (conn ∈ seen s) then None
    else Some (exec (onConnection conn true)
                 (set_connected ({[conn]} ∪ connected s) ({[conn]} ∪ seen s) s))
  | Disconnect conn =>
    if decide (conn ∈ connected s)
    then Some (exec (onConnection conn false) (set_connected (connected s ∖ {[conn]}) (seen s) s))
    else None
  | Recv conn env =>
    if decide (conn ∈ connected s) then with_room (exec (onEnvelope conn env) s) else None
  | TakeTask =>
    match pool s with
    | t :: rest =>
      if (length (running s) <? workers)%nat
      then Some (set_running (running s ++ [t]) (set_pool rest s)) else None
    | [] => None
    end
  | FinishTask i =>
    match running s !! i with
    | Some t => Some (exec (run_task t) (set_running (delete i (running s)) s))
    | None => None
    end
  | RunLoop l =>
    match loops s !! l with
    | Some (k :: rest) => with_room (exec (cont_body k) (set_loops (<[l := rest]> (loops s)) s))
    | _ => None
    end
  | Outside n => Some (set_world (outside n (world s)) s)
  end.

Fixpoint run (es : list event) (s : Server W) : option (Server W) :=
  match es with
  | [] => Some s
  | e :: es => s' ← step e s; run es s'
  end.

(** The events the server makes by itself. *)
Definition internal (e : event) : bool :=
  match e with
  | TakeTask | FinishTask _ | RunLoop _ => true
  | _ => false
  end.

(** ** The message callback *)

(** [ChatCodec::onMessage] bound to [onEnvelope], as the constructor installs it: the bytes
    that arrived on a connection, handed over frame by frame. *)
Definition server_onMessage {B} `{MuduoBuffer B, ProtoLib} (conn : Conn) (buf : B) (s : Server W)
    : outcome (B * Server W) :=
  ChatCodec.onMessage
    (ChatCodec.handleMessage (λ env s, exec (onEnvelope conn env) s) (λ m s, exec (codec_send conn m) s))
    (λ s, exec (emit (Shutdown conn)) s) buf s.

End ChatServer.
