(* ===== verification/ChatServerFacts.v ===== *)
(** The invariants and evaluation lemmas of the transition system of [ChatServer], on
    which the theorems of [ChatServerTheorems] rest: what the three stores keep, the
    security invariant over the log of logins, the effect of the continuations in closed
    form, and the measure of the work left. *)

From S2P Require Import Prelude Machine Proto SessionManager RoomManager Repositories MemWorld.
From S2P Require Import LoginService ChatService FriendService RoomService ChatServer.

Local Open Scope Z_scope.

(** ** Notions used in the statements *)

(** The member connections a broadcast reaches, in the order of the member set. *)
Definition online_members (members : gset string) (m : SessionManager) : list Conn :=
  omap (λ u, getConnection u m) (set_iter members).

(** The friend list a connection is shown. *)
Definition friend_list_of (conn : Conn) (m : SessionManager) : ServerMessage :=
  friend_list (mkFriendList
    (map (λ u, mkFriendInfo u u (isOnline u m)) (set_iter (getFriends (getUid conn m) m)))).

(** A request that only a logged-in connection may make. *)
Definition needs_login (p : Envelope_payload) : bool :=
  match p with
  | kChatMsg _ | kCreateRoom _ | kJoinRoom _ | kFriendReq _ | kFriendResp _
  | kFriendRemove _ | kRecallMsg _ => true
  | _ => false
  end.

(** The logins that an event performs: the connection and the user of a login
    continuation that succeeded. *)
Definition logins {W} (e : event) (s : Server W) : list (Conn * string) :=
  match e with
  | RunLoop l =>
    match loops s !! l with
    | Some (cont_loginWithToken conn result _ :: _)
    | Some (cont_login conn result :: _) =>
      if ls_success result then [(conn, ui_uid (ls_userInfo result))] else []
    | _ => []
    end
  | _ => []
  end.

(** A run together with the list of its logins, newest last. *)
Inductive history {W} `{UserRepository W, SessionRepository W, FriendRepository W,
    MessageRepository W, RoomRepository W, Clock W, Random W, Mktime, Environment W, Config}
    (w : W) : list (Conn * string) → Server W → Prop :=
| history_start : history w [] (start w)
| history_step log s e s' :
    history w log s → step e s = Some s' →
    history w (log ++ logins e s) s'.

(** The connection has logged in at some time. *)
Definition known (log : list (Conn * string)) (conn : Conn) : Prop := ∃ uid, (conn, uid) ∈ log.

(** Work done in a user's name carries a user that its connection logged in as. *)
Definition task_ok (log : list (Conn * string)) (t : Task) : Prop :=
  match t with
  | task_sendMessage conn uid _ _ _ | task_createRoom conn uid _ | task_joinRoom conn uid _
  | task_friendRemove conn uid _ | task_recall conn uid _ _ _ => (conn, uid) ∈ log
  | task_friendRequest conn _ _ _ | task_friendResponse conn _ _ _ => known log conn
  | _ => True
  end.

Definition cont_ok (log : list (Conn * string)) (k : Cont) : Prop :=
  match k with
  | cont_sendMessage conn uid _ _ _ _ | cont_createRoom conn uid _ _ | cont_joinRoom conn uid _ _
  | cont_friendRemove conn uid _ | cont_recall conn uid _ _ _ _ => (conn, uid) ∈ log
  | cont_friendRequest conn _ _ _ | cont_friendResponse conn _ _ _ => known log conn
  | _ => True
  end.

(** Messages anybody may get: errors, the outcome of a registration, and the answer to a
    logout. *)
Definition harmless (m : ServerMessage) : Prop :=
  match m with
  | error _ | register_resp _ => True
  | login_resp r => lp_token r = ""%string ∧ lp_nickname r = ""%string ∧ lp_email r = ""%string
  | _ => False
  end.

Definition action_ok (log : list (Conn * string)) (a : Action) : Prop :=
  match a with
  | Send conn m => harmless m ∨ known log conn
  | Shutdown _ => True
  end.

(** The amount of work left: what a task costs until it and all it leads to is done. *)
Definition task_cost (t : Task) : nat :=
  match t with
  | task_logout _ _ | task_getMessage _ _ | task_markDelivered _ => 2
  | _ => 5
  end.

Definition work_left {W} (s : Server W) : nat :=
  sum_list (map task_cost (pool s)) +
  sum_list (map (λ t, task_cost t - 1)%nat (running s)) +
  sum_list (map (λ p, 3 * length p.2)%nat (map_to_list (loops s))).

(** Nothing waits, nothing runs. *)
Definition at_rest {W} (s : Server W) : Prop :=
  pool s = [] ∧ running s = [] ∧ ∀ l, default [] (loops s !! l) = [].

(** ** Evaluating handlers *)

Section Facts.
  Context {W : Type}.
  Context `{UserRepository W, SessionRepository W, FriendRepository W, MessageRepository W}.
  Context `{RoomRepository W, Clock W, Random W, Mktime, Environment W, Config}.
  Implicit Types s : Server W.

Lemma eval_ask_sm {A} (f : SessionManager → A) s : eval (ask_sm f) s = f (sessionManager_ s).
Proof. done. Qed.

Lemma exec_ask_sm {A} (f : SessionManager → A) s : exec (ask_sm f) s = s.
Proof. done. Qed.

Lemma exec_call_sm f s : exec (call_sm f) s = set_sm (f (sessionManager_ s)) s.
Proof. done. Qed.

Lemma exec_call_rooms f s : exec (call_rooms f) s = set_rooms (f (roomManager_ s)) s.
Proof. done. Qed.

Lemma exec_threadPool_run t s : exec (threadPool_run t) s = set_pool (pool s ++ [t]) s.
Proof. done. Qed.

Lemma exec_codec_send c m s : exec (codec_send c m) s = set_out (out s ++ [Send c m]) s.
Proof. done. Qed.

Lemma exec_sendError c n r s :
  exec (sendError c n r) s = set_out (out s ++ [Send c (error (mkErrorResponse n r))]) s.
Proof. done. Qed.

Lemma eval_call_world {A} (m : State W A) s : eval (call_world m) s = eval m (world s).
Proof. unfold call_world, eval. by destruct (m (world s)). Qed.

Lemma exec_call_world {A} (m : State W A) s : exec (call_world m) s = set_world (exec m (world s)) s.
Proof. unfold call_world, exec. by destruct (m (world s)). Qed.

Lemma with_room_Some s s' :
  with_room s = Some s' → s' = s ∧ Z.of_nat (length (pool s)) <= kMaxQueueSize.
Proof. unfold with_room. case_match eqn:Hle; [|done]. apply Z.leb_le in Hle. by intros [= ->]. Qed.

Lemma with_room_fits s : Z.of_nat (length (pool s)) <= kMaxQueueSize → with_room s = Some s.
Proof. intros Hle. unfold with_room. by rewrite (proj2 (Z.leb_le _ _) Hle). Qed.

Lemma exec_sendFriendList c s :
  exec (sendFriendList c) s = set_out (out s ++ [Send c (friend_list_of c (sessionManager_ s))]) s.
Proof. done. Qed.
End Facts.

#[export] Hint Rewrite @eval_ask_sm @exec_ask_sm @exec_call_sm @exec_call_rooms
  @exec_threadPool_run @exec_codec_send @exec_sendError @eval_call_world @exec_call_world
  @exec_sendFriendList : chat.

(** ** Invariants of the three stores *)

(** A predicate on the session table kept by its methods, one on the rooms kept by theirs
    and one on the database kept by the repositories are together kept by every step. *)
Section Stores.
  Context {W : Type}.
  Context `{UserRepository W, SessionRepository W, FriendRepository W, MessageRepository W}.
  Context `{RoomRepository W, Clock W, Random W, Mktime, Environment W, Config}.
  Context (Q : SessionManager → Prop) (R : RoomManager → Prop) (P : W → Prop).
  Hypothesis HQ : ∀ m c, Q m → Q (run_call m c).
  Hypothesis HR : ∀ r c, R r → R (run_rm_call r c).
  Context `{!UserRepoPreserves P, !SessionRepoPreserves P, !FriendRepoPreserves P}.
  Context `{!MessageRepoPreserves P, !RoomRepoPreserves P, !EnvPreserves P, !OutsidePreserves P}.

Definition stores (s : Server W) : Prop := Q (sessionManager_ s) ∧ R (roomManager_ s) ∧ P (world s).

Lemma stores_call_sm f : (∀ m, Q m → Q (f m)) → preserves stores (call_sm f).
Proof. intros Hf s (HQs & HRs & HPs). split_and!; [by apply Hf|done|done]. Qed.

Lemma stores_call_rooms f : (∀ r, R r → R (f r)) → preserves stores (call_rooms f).
Proof. intros Hf s (HQs & HRs & HPs). split_and!; [done|by apply Hf|done]. Qed.

Lemma stores_call_world {A} (m : State W A) : preserves P m → preserves stores (call_world m).
Proof.
  intros Hm s (HQs & HRs & HPs). unfold stores. rewrite exec_call_world. cbn.
  split_and!; [done..|by apply Hm].
Qed.

Lemma stores_ask_sm {A} (f : SessionManager → A) : preserves stores (ask_sm f).
Proof. by intros s Hs. Qed.

Lemma stores_threadPool_run t : preserves stores (threadPool_run t).
Proof. by intros s Hs. Qed.

Lemma stores_emit a : preserves stores (emit a).
Proof. by intros s Hs. Qed.

Lemma stores_codec_send c m : preserves stores (codec_send c m).
Proof. by intros s Hs. Qed.

Lemma stores_sendError c n r : preserves stores (sendError c n r).
Proof. by intros s Hs. Qed.

Lemma stores_runInLoop c k : preserves stores (runInLoop c k).
Proof. by intros s Hs. Qed.

Lemma stores_now : preserves stores (call_world Timestamp_now).
Proof. apply stores_call_world, preserves_Timestamp_now. Qed.

Local Hint Resolve stores_call_sm stores_call_rooms stores_ask_sm stores_threadPool_run
  stores_emit stores_codec_send stores_sendError stores_runInLoop stores_now : chat.

Lemma Q_authenticate c u t m : Q m → Q (snd (authenticate c u t m)).
Proof. apply (HQ m (sm_authenticate c u t)). Qed.
Lemma Q_deauthenticate c m : Q m → Q (deauthenticate c m).
Proof. apply (HQ m (sm_deauthenticate c)). Qed.
Lemma Q_addFriendship u v m : Q m → Q (addFriendship u v m).
Proof. apply (HQ m (sm_addFriendship u v)). Qed.
Lemma Q_removeFriendship u v m : Q m → Q (removeFriendship u v m).
Proof. apply (HQ m (sm_removeFriendship u v)). Qed.
Lemma Q_addPending u v m : Q m → Q (addPendingRequest u v m).
Proof. apply (HQ m (sm_addPending u v)). Qed.
Lemma Q_removePending u v m : Q m → Q (removePendingRequest u v m).
Proof. apply (HQ m (sm_removePending u v)). Qed.

Local Hint Resolve Q_authenticate Q_deauthenticate Q_addFriendship Q_removeFriendship
  Q_addPending Q_removePending : chat.

Lemma stores_sendFriendList c : preserves stores (sendFriendList c).
Proof. by intros s Hs. Qed.
Local Hint Resolve stores_sendFriendList : chat.

Lemma stores_onEnvelope c env : preserves stores (onEnvelope c env).
Proof.
  unfold onEnvelope, handleLogin, handleLogout, handleRegister, handleChatMessage,
    handleCreateRoom, handleJoinRoom, handleFriendRequest, handleFriendResponse,
    handleFriendRemove, handleRecall. cbv zeta. preserve; eauto with chat.
Qed.

Lemma task_body_preserves t : preserves P (task_body t).
Proof.
  destruct t; cbn [task_body]; preserve;
    eauto using login_preserves, loginWithToken_preserves, registerUser_preserves,
      logout_preserves, sendMessage_preserves, getMessage_preserves, recallMessage_preserves,
      markMessagesDelivered_preserves, addFriendRequest_preserves, respondFriendRequest_preserves,
      removeFriend_preserves, createRoom_preserves, joinRoom_preserves.
Qed.

Lemma stores_run_task t : preserves stores (run_task t).
Proof.
  unfold run_task. apply preserves_bind; [apply stores_call_world, task_body_preserves|].
  intros [[c k]|]; eauto with chat.
Qed.

Lemma stores_broadcast room m : preserves stores (broadcast room m).
Proof. unfold broadcast. preserve. Qed.
Local Hint Resolve stores_broadcast : chat.

Lemma stores_cont_body k : preserves stores (cont_body k).
Proof.
  destruct k; cbn [cont_body]; unfold login_done, sendPendingRequests, sendOfflineMessages,
    sendMessage_done, recall_done; cbv zeta; preserve; eauto with chat.
  - apply stores_call_rooms. intros r. apply (HR r (rm_createRoom _ _)).
  - apply stores_call_rooms. intros r. apply (HR r (rm_joinRoom _ _)).
Qed.

Lemma stores_step e s s' : step e s = Some s' → stores s → stores s'.
Proof.
  intros Hstep Hs. destruct e as [c|c|c env| |i|l|n]; cbn [step] in Hstep.
  - case_decide; simplify_eq. exact Hs.
  - case_decide; simplify_eq. cbn [onConnection]. apply stores_call_sm; [|exact Hs].
    intros m. apply (HQ m (sm_disconnect c)).
  - case_decide; [|done]. apply with_room_Some in Hstep as [-> _]. by apply stores_onEnvelope.
  - destruct (pool s); [done|]. case_match; simplify_eq. exact Hs.
  - destruct (running s !! i); simplify_eq. by apply stores_run_task.
  - destruct (loops s !! l) as [[|k rest]|]; try done.
    apply with_room_Some in Hstep as [-> _]. by apply stores_cont_body.
  - simplify_eq. destruct Hs as (HQs & HRs & HPs). split_and!; [done..|]. by apply preserves_outside.
Qed.

Lemma stores_run es s s' : run es s = Some s' → stores s → stores s'.
Proof.
  revert s. induction es as [|e es IH]; intros s Hrun Hs; cbn in Hrun; [by simplify_eq|].
  destruct (step e s) as [s1|] eqn:Hstep; [|done].
  eapply IH; [exact Hrun|]. by eapply stores_step.
Qed.
End Stores.

(** ** Runs *)

Section Runs.
  Context {W : Type}.
  Context `{UserRepository W, SessionRepository W, FriendRepository W, MessageRepository W}.
  Context `{RoomRepository W, Clock W, Random W, Mktime, Environment W, Config}.
  Context (P : W → Prop) `{!EnvPreserves P, !OutsidePreserves P}.
  Abbreviation on_world := (stores (W := W) (λ _, True) (λ _, True) P).

Lemma run_app es1 es2 s : run (es1 ++ es2) s = run es1 s ≫= run es2.
Proof.
  revert s. induction es1 as [|e es1 IH]; intros s; [done|]. cbn.
  destruct (step e s) as [s1|]; [|done]. cbn. apply IH.
Qed.

(** The world changes in a step only by the body of a task, by reading the clock and from
    outside. *)
Lemma world_step e s s' :
  step e s = Some s' →
  (∀ i t, e = FinishTask i → running s !! i = Some t → P (exec (task_body t) (world s))) →
  P (world s) → P (world s').
Proof.
  intros Hstep Htask HP. assert (on_world s) as Hs by done.
  destruct e as [c|c|c env| |i|l|n]; cbn [step] in Hstep.
  - case_decide; simplify_eq. exact HP.
  - case_decide; simplify_eq. exact HP.
  - case_decide; [|done]. apply with_room_Some in Hstep as [-> _].
    by apply (stores_onEnvelope (λ _, True) (λ _, True) P (λ _ _ _, I) c env s Hs).
  - destruct (pool s); [done|]. case_match; simplify_eq. exact HP.
  - destruct (running s !! i) as [t|] eqn:Ht; simplify_eq. specialize (Htask i t eq_refl Ht).
    unfold run_task. autorewrite with chat. cbn [world set_running].
    by destruct (eval (task_body t) (world s)) as [[c k]|].
  - destruct (loops s !! l) as [[|k rest]|] eqn:Hl; try done.
    apply with_room_Some in Hstep as [-> _].
    by apply (stores_cont_body (λ _, True) (λ _, True) P (λ _ _ _, I) (λ _ _ _, I) k
      (set_loops (<[l := rest]> (loops s)) s)).
  - simplify_eq. by apply preserves_outside.
Qed.

(** Along a run every task that is carried out is one of these. *)
Fixpoint undisturbed (ok : Task → W → Prop) (es : list event) (s : Server W) : Prop :=
  match es with
  | [] => True
  | e :: es =>
    match e with
    | FinishTask i =>
      match running s !! i with Some t => ok t (world s) | None => True end
    | _ => True
    end ∧
    match step e s with Some s' => undisturbed ok es s' | None => True end
  end.

(** A run keeps what the tasks it carries out keep. *)
Lemma run_undisturbed ok es s s' :
  (∀ t w, P w → ok t w → P (exec (task_body t) w)) →
  run es s = Some s' → undisturbed ok es s → P (world s) → P (world s').
Proof.
  intros Hok. revert s. induction es as [|e es IH]; intros s Hrun Hun HP; cbn in Hrun, Hun; [by simplify_eq|].
  destruct (step e s) as [s1|] eqn:Hs; [|done]. destruct Hun as [He Hun]. cbn in Hrun.
  apply (IH s1); [done|done|]. apply (world_step e s s1 Hs); [|done].
  intros j t -> Ht. rewrite Ht in He. by apply Hok.
Qed.
End Runs.

(** ** Who may act, and who may be told *)

(** The session table knows only pairs of the login log. *)
Definition sm_secure (log : list (Conn * string)) (m : SessionManager) : Prop :=
  (∀ c x, contexts m !! c = Some x → session_authenticated x = true → (c, session_uid x) ∈ log) ∧
  (∀ u c, users_ m !! u = Some c → (c, u) ∈ log).

Record secure {W} (log : list (Conn * string)) (s : Server W) : Prop := mkSecure {
  secure_pool : Forall (task_ok log) (pool s);
  secure_running : Forall (task_ok log) (running s);
  secure_loops : ∀ l ks, loops s !! l = Some ks → Forall (cont_ok log) ks;
  secure_sm : sm_secure log (sessionManager_ s);
  secure_out : Forall (action_ok log) (out s)
}.

Section Secure.
  Context {W : Type}.
  Context `{UserRepository W, SessionRepository W, FriendRepository W, MessageRepository W}.
  Context `{RoomRepository W, Clock W, Random W, Mktime, Environment W, Config}.
  Context (log : list (Conn * string)).
  Abbreviation sec := (secure (W := W) log).

Lemma sm_secure_authenticate c u t m :
  (c, u) ∈ log → sm_secure log m → sm_secure log (snd (authenticate c u t m)).
Proof.
  intros Hin [Hc Hu]. split; cbn.
  - intros c' x. rewrite lookup_insert. case_decide; [intros [= <-]; by subst|apply Hc].
  - intros u' c'. rewrite lookup_insert. case_decide; [intros [= <-]; by subst|apply Hu].
Qed.

Lemma sm_secure_forget u c m :
  sm_secure log m → sm_secure log (setContext c (mkSession "" "" false) (set_users (delete u) m)) ∧
  sm_secure log (set_users (delete u) m).
Proof.
  intros [Hc Hu]. assert (∀ u' c', delete u (users_ m) !! u' = Some c' → (c', u') ∈ log) as Hd.
  { intros u' c'. rewrite lookup_delete. case_decide; [done|apply Hu]. }
  split; split; cbn; try done.
  intros c' x. rewrite lookup_insert. case_decide; [by intros [= <-]|apply Hc].
Qed.

Lemma sm_secure_deauthenticate c m : sm_secure log m → sm_secure log (deauthenticate c m).
Proof.
  intros Hm. assert (sm_secure log (setContext c (mkSession "" "" false) m)) as Hplain.
  { destruct Hm as [Hc Hu]. split; cbn; [|done].
    intros c' x. rewrite lookup_insert. case_decide; [by intros [= <-]|apply Hc]. }
  unfold deauthenticate. destruct (contexts m !! c) as [x|]; [|done].
  destruct (negb _); [by apply sm_secure_forget|done].
Qed.

Lemma sm_secure_onDisconnection c m : sm_secure log m → sm_secure log (onDisconnection c m).
Proof.
  intros Hm. unfold onDisconnection. destruct (contexts m !! c) as [x|]; [|done].
  destruct (negb _); [by apply (sm_secure_forget _ c)|done].
Qed.

Lemma sec_call_sm f : (∀ m, sm_secure log m → sm_secure log (f m)) → preserves sec (call_sm f).
Proof. intros Hf s []. constructor; cbn; auto. Qed.

Lemma sec_codec_send c m : harmless m ∨ known log c → preserves sec (codec_send c m).
Proof. intros Hm s []. constructor; cbn; auto. by apply Forall_app, conj, Forall_singleton. Qed.

Lemma sec_sendError c n r : preserves sec (sendError c n r).
Proof. apply sec_codec_send. by left. Qed.

Lemma sec_threadPool_run t : task_ok log t → preserves sec (threadPool_run t).
Proof. intros Ht s []. constructor; cbn; auto. apply Forall_app; auto. Qed.

Lemma sec_call_world {A} (m : State W A) : preserves sec (call_world m).
Proof. intros s []. rewrite exec_call_world. by constructor. Qed.

Lemma sec_call_rooms f : preserves sec (call_rooms f).
Proof. intros s []. by constructor. Qed.

Lemma sec_ask_sm {A} (f : SessionManager → A) : preserves sec (ask_sm f).
Proof. by intros s Hs. Qed.

Lemma sec_sendFriendList c : known log c → preserves sec (sendFriendList c).
Proof. intros Hc s Hs. rewrite exec_sendFriendList. apply sec_codec_send; auto. Qed.

(** A connection found for a user has logged in. *)
Lemma sec_getConnection {A} u (k : option Conn → State (Server W) A) :
  (∀ c, known log c → preserves sec (k (Some c))) → preserves sec (k None) →
  preserves sec (c ← ask_sm (getConnection u); k c).
Proof.
  intros Hsome Hnone s Hs. rewrite exec_bind, eval_ask_sm, exec_ask_sm.
  destruct (getConnection u (sessionManager_ s)) as [c|] eqn:Hc; [|by apply Hnone].
  apply Hsome; [|done]. exists u. by apply (secure_sm _ _ Hs).
Qed.

(** The gate of the handlers: the work after it belongs to a user of the log. *)
Lemma sec_gate c (k : string → State (Server W) unit) :
  (∀ uid, (c, uid) ∈ log → preserves sec (k uid)) →
  preserves sec (auth ← ask_sm (isAuthenticated c);
                 if negb auth then mret tt else uid ← ask_sm (getUid c); k uid).
Proof.
  intros Hk s Hs. rewrite exec_bind, eval_ask_sm, exec_ask_sm.
  destruct (isAuthenticated c (sessionManager_ s)) eqn:Ha; cbn [negb]; [|done].
  rewrite exec_bind, eval_ask_sm, exec_ask_sm. apply Hk; [|done].
  unfold isAuthenticated, getUid in *. destruct (contexts _ !! c) as [x|] eqn:Hx; [|done].
  destruct (secure_sm _ _ Hs) as [Hctx _]. by apply Hctx.
Qed.

Lemma sec_gate_known c (k : State (Server W) unit) :
  (known log c → preserves sec k) →
  preserves sec (auth ← ask_sm (isAuthenticated c); if negb auth then mret tt else k).
Proof.
  intros Hk s Hs. rewrite exec_bind, eval_ask_sm, exec_ask_sm.
  destruct (isAuthenticated c (sessionManager_ s)) eqn:Ha; cbn [negb]; [|done].
  apply Hk; [|done]. unfold isAuthenticated in Ha.
  destruct (contexts _ !! c) as [x|] eqn:Hx; [|done].
  destruct (secure_sm _ _ Hs) as [Hctx _]. exists (session_uid x). by apply Hctx.
Qed.

Lemma sec_runInLoop c k : cont_ok log k → preserves sec (runInLoop c k).
Proof.
  intros Hk s [Hp Hr Hl Hm Ho]. constructor; cbn; auto. intros l ks. rewrite lookup_insert.
  case_decide; [|apply Hl]. intros [= <-]. apply Forall_app. split; [|by apply Forall_singleton].
  destruct (loops s !! getLoop c) eqn:Hq; cbn; eauto.
Qed.

Local Hint Resolve sec_call_sm sec_sendError sec_threadPool_run sec_call_world sec_call_rooms
  sec_ask_sm sec_sendFriendList sec_codec_send sm_secure_deauthenticate : chat.
Local Hint Extern 1 (task_ok _ _) => first [exact I | assumption] : chat.
Local Hint Extern 1 (harmless _ ∨ _) => first [by left | by right] : chat.

Lemma sec_onEnvelope c env : preserves sec (onEnvelope c env).
Proof.
  unfold onEnvelope. destruct (env_payload env) as [r|r|r|r|r|r|r|r|r|r|r|].
  - unfold handleLogin. cbv zeta. preserve.
  - unfold handleLogout. cbv zeta. preserve; auto with chat.
  - unfold handleRegister. preserve.
  - apply sec_gate. auto with chat.
  - apply sec_gate. auto with chat.
  - apply sec_gate. auto with chat.
  - apply sec_gate_known. auto with chat.
  - apply sec_gate_known. auto with chat.
  - apply sec_gate. auto with chat.
  - apply sec_gate. auto with chat.
  - apply preserves_ret.
  - intros s []. constructor; cbn; auto. apply Forall_app; repeat constructor; auto.
Qed.

(** A task hands its user on to the continuation. *)
Lemma task_body_ok t w : task_ok log t →
  match eval (task_body t) w with Some (_, k) => cont_ok log k | None => True end.
Proof.
  intros Ht. destruct t; cbn [task_body]; autorewrite with chat; cbn; try done.
Qed.

Lemma sec_run_task t : task_ok log t → preserves sec (run_task t).
Proof.
  intros Ht s Hs. unfold run_task. rewrite exec_bind, eval_call_world.
  pose proof (task_body_ok t (world s) Ht) as Hk. apply (sec_call_world (task_body t)) in Hs.
  destruct (eval (task_body t) (world s)) as [[c k]|]; [by apply sec_runInLoop|done].
Qed.

Lemma sec_broadcast room m : preserves sec (broadcast room m).
Proof.
  unfold broadcast. apply preserves_bind; [auto with chat|intros X].
  apply preserves_for_each. intros u. apply sec_getConnection; [|auto with chat].
  intros c Hc. apply sec_codec_send. by right.
Qed.
Local Hint Resolve sec_broadcast : chat.

Lemma sec_login_done c r t :
  (ls_success r = true → (c, ui_uid (ls_userInfo r)) ∈ log) → preserves sec (login_done c r t).
Proof.
  intros Hin. unfold login_done. destruct (ls_success r); [|auto with chat].
  specialize (Hin eq_refl). assert (known log c) as Hc by by eexists.
  unfold sendPendingRequests, sendOfflineMessages. cbv zeta. preserve.
  all: auto using sm_secure_authenticate with chat.
Qed.

Lemma sec_cont_body k :
  cont_ok log k →
  match k with
  | cont_loginWithToken c r _ | cont_login c r =>
    ls_success r = true → (c, ui_uid (ls_userInfo r)) ∈ log
  | _ => True
  end → preserves sec (cont_body k).
Proof.
  destruct k as [c r t|c r|c ok|c f t r x res|c u n res|c u n res|c f t m|c r t a|c u t|c u i t r res];
    cbn [cont_ok cont_body]; intros Hk Hlog.
  - by apply sec_login_done.
  - by apply sec_login_done.
  - apply sec_codec_send. by left.
  - assert (known log c) as Hc by by eexists. unfold sendMessage_done.
    destruct (negb (sm_success res)); [auto with chat|].
    apply preserves_bind; [auto with chat|intros now]. cbv zeta.
    destruct (negb (empty_string t)); [|destruct (negb _); auto with chat].
    apply sec_getConnection; intros; preserve.
  - destruct (negb _); auto with chat.
  - destruct (negb _); auto with chat.
  - apply preserves_bind; [by apply sec_call_sm|intros _].
    apply sec_getConnection; intros; auto with chat.
  - apply preserves_bind; [destruct a; [by apply sec_call_sm|auto with chat]|intros _].
    apply preserves_bind; [by apply sec_call_sm|intros _].
    apply sec_getConnection; intros; preserve.
  - assert (known log c) as Hc by by eexists.
    apply preserves_bind; [by apply sec_call_sm|intros _].
    apply sec_getConnection; intros; preserve.
  - assert (known log c) as Hc by by eexists. unfold recall_done.
    destruct (negb (rc_success res)); [auto with chat|].
    apply preserves_bind; [auto with chat|intros now].
    apply preserves_bind; [|auto with chat].
    destruct (negb (empty_string t)); [|destruct (negb _); auto with chat].
    apply sec_getConnection; intros; auto with chat.
Qed.
End Secure.

Section History.
  Context {W : Type}.
  Context `{UserRepository W, SessionRepository W, FriendRepository W, MessageRepository W}.
  Context `{RoomRepository W, Clock W, Random W, Mktime, Environment W, Config}.
  Implicit Types s : Server W.

Lemma known_mono log log' c : log ⊆ log' → known log c → known log' c.
Proof. intros Hsub [u Hu]. exists u. by apply Hsub. Qed.

Lemma secure_mono log log' s : log ⊆ log' → secure log s → secure log' s.
Proof.
  intros Hsub [Hp Hr Hl [Hc Hu] Ho]. pose proof (known_mono log log') as Hk.
  assert (∀ t, task_ok log t → task_ok log' t) as Ht by (intros []; cbn; auto).
  constructor; [| | |split; eauto|].
  - by eapply Forall_impl.
  - by eapply Forall_impl.
  - intros l ks Hks. eapply Forall_impl; [by apply (Hl l)|]. intros []; cbn; auto.
  - eapply Forall_impl; [done|]. intros []; cbn; [|done]. intros [|]; auto.
Qed.

Lemma secure_step log e s s' :
  step e s = Some s' → secure log s → secure (log ++ logins e s) s'.
Proof.
  intros Hstep Hs.
  assert (secure (log ++ logins e s) s) as Hs' by (eapply secure_mono; [|done]; set_solver).
  destruct e as [c|c|c env| |i|l|n]; cbn [step] in Hstep.
  - case_decide; simplify_eq. by destruct Hs'.
  - case_decide; simplify_eq. cbn [onConnection]. apply sec_call_sm; [|by destruct Hs'].
    apply sm_secure_onDisconnection.
  - case_decide; [|done]. apply with_room_Some in Hstep as [-> _]. by apply sec_onEnvelope.
  - destruct (pool s) as [|t rest] eqn:Hpool; [done|]. case_match; simplify_eq.
    destruct Hs' as [Hp Hr Hl Hm Ho].
    rewrite Hpool in Hp. inversion_clear Hp. constructor; cbn; auto.
    by apply Forall_app, conj, Forall_singleton.
  - destruct (running s !! i) as [t|] eqn:Ht; simplify_eq. destruct Hs' as [Hp Hr Hl Hm Ho].
    apply sec_run_task; [by eapply Forall_lookup_1|]. constructor; cbn; auto. by apply Forall_delete.
  - cbn [logins] in *. destruct (loops s !! l) as [[|k rest]|] eqn:Hq; try done.
    apply with_room_Some in Hstep as [-> _]. destruct Hs' as [Hp Hr Hl Hm Ho]. specialize (Hl l _ Hq) as Hk. inversion_clear Hk as [|? ? Hk1 Hk2].
    apply sec_cont_body; [done| |].
    + destruct k; try done; intros Hsucc; rewrite Hsucc; set_solver.
    + constructor; cbn; auto. intros l' ks. rewrite lookup_insert. case_decide; [by intros [= <-]|apply Hl].
  - simplify_eq. by destruct Hs'.
Qed.

Lemma history_secure w log s : history w log s → secure log s.
Proof.
  induction 1 as [|log s e s' _ IH Hstep]; [|by eapply secure_step].
  constructor; cbn; try done; split; cbn; intros ? ?; by rewrite lookup_empty.
Qed.

(** ** The effect of a broadcast *)

Lemma exec_for_each_send (members : list string) (m : ServerMessage) s :
  exec (for_each members (λ member, memberConn ← ask_sm (getConnection member);
          match memberConn with Some c => codec_send c m | None => mret tt end)) s =
  set_out (out s ++ map (λ c, Send c m) (omap (λ u, getConnection u (sessionManager_ s)) members)) s.
Proof.
  revert s. induction members as [|u members IH]; intros s; [by destruct s; cbn; rewrite app_nil_r|].
  rewrite exec_for_each_cons, exec_bind, eval_ask_sm, exec_ask_sm. cbn [omap list_omap].
  destruct (getConnection u (sessionManager_ s)) as [c|] eqn:Hc; rewrite IH.
  - rewrite exec_codec_send. cbn. by rewrite <- app_assoc.
  - by rewrite exec_ret.
Qed.

Lemma exec_broadcast room m s :
  exec (broadcast room m) s =
  set_out (out s ++ map (λ c, Send c m)
    (online_members (RoomManager.getRoomMembers room (roomManager_ s)) (sessionManager_ s))) s.
Proof. unfold broadcast. rewrite exec_bind, eval_gets, exec_gets. apply exec_for_each_send. Qed.

Lemma elem_of_online_members room c r m :
  c ∈ online_members (RoomManager.getRoomMembers room r) m →
  ∃ u, isInRoom room u r = true ∧ users_ m !! u = Some c.
Proof.
  intros Hc. unfold online_members in Hc. apply list_elem_of_omap in Hc as (u & Hm & Hc).
  rewrite elem_of_set_iter in Hm. exists u. split; [|done].
  unfold RoomManager.getRoomMembers, isInRoom in *.
  destruct (rooms_ r !! room); [by apply bool_decide_eq_true|set_solver].
Qed.

(** ** The effect of a chat message *)

(** What the continuation of a chat message does, by case. *)
Definition chat_effect (conn : Conn) (from to room content : string) (result : SendMessageResult)
    (s : Server W) : Server W :=
  if negb (sm_success result)
  then set_out (out s ++ [Send conn (error (mkErrorResponse 3 (sm_reason result)))]) s else
  let now := eval Timestamp_now (world s) in
  let s1 := set_world (exec Timestamp_now (world s)) s in
  if negb (empty_string to) then
    let m := chat_message from to "" content (sm_msg_id result) now in
    match getConnection to (sessionManager_ s) with
    | Some c => set_out (out s ++ [Send c m; Send conn m]) s1
    | None =>
      set_pool (pool s ++ [task_getMessage to (sm_msg_id result)])
        (set_out (out s ++ [Send conn m; Send conn (error (mkErrorResponse 3 "user offline"))]) s1)
    end
  else if negb (empty_string room) then
    set_out (out s ++ map (λ c, Send c (chat_message from "" room content (sm_msg_id result) now))
      (online_members (RoomManager.getRoomMembers room (roomManager_ s)) (sessionManager_ s))) s1
  else s1.

Lemma exec_sendMessage_done conn from to room content result s :
  exec (sendMessage_done conn from to room content result) s =
  chat_effect conn from to room content result s.
Proof.
  unfold sendMessage_done, chat_effect. destruct (negb (sm_success result)); [done|].
  rewrite exec_bind, exec_call_world, eval_call_world.
  destruct (negb (empty_string to)).
  - rewrite exec_bind, eval_ask_sm, exec_ask_sm. cbv zeta. cbn [sessionManager_ set_world].
    destruct (getConnection to (sessionManager_ s)) as [c|]; autorewrite with chat;
      cbn; by rewrite <- app_assoc.
  - destruct (negb (empty_string room)); [by rewrite exec_broadcast|done].
Qed.

Lemma server_ext s s' :
  sessionManager_ s = sessionManager_ s' → roomManager_ s = roomManager_ s' →
  pool s = pool s' → running s = running s' → loops s = loops s' →
  connected s = connected s' → seen s = seen s' → world s = world s' → out s = out s' → s = s'.
Proof. destruct s, s'. cbn. congruence. Qed.

(** ** One request from arrival to answer *)

(** The events of a request served by an idle server. *)
Definition serve (conn : Conn) (env : Envelope) : list event :=
  [Recv conn env; TakeTask; FinishTask 0; RunLoop (getLoop conn)].

Definition idle_for (conn : Conn) (s : Server W) : Prop :=
  conn ∈ connected s ∧ pool s = [] ∧ running s = [] ∧ default [] (loops s !! getLoop conn) = [].

(** The state in which the continuation starts. *)
Definition after_task (conn : Conn) (w : W) (s : Server W) : Server W :=
  set_loops (<[getLoop conn := []]> (loops s)) (set_world w s).

Lemma exec_for_each_call_sm {A} (g : A → SessionManager → SessionManager) (l : list A) s :
  exec (for_each l (λ a, call_sm (g a))) s =
  set_sm (fold_left (λ m a, g a m) l (sessionManager_ s)) s.
Proof.
  revert s. induction l as [|a l IH]; intros s; [by destruct s|].
  by rewrite exec_for_each_cons, IH.
Qed.

Lemma exec_for_each_pending conn uid (l : list string) s :
  exec (for_each l (λ q, _ ← call_sm (addPendingRequest q uid);
          codec_send conn (friend_req (mkFriendRequest q uid "")))) s =
  set_out (out s ++ map (λ q, Send conn (friend_req (mkFriendRequest q uid ""))) l)
    (set_sm (fold_left (λ m q, addPendingRequest q uid m) l (sessionManager_ s)) s).
Proof.
  revert s. induction l as [|q l IH]; intros s; [by destruct s; cbn; rewrite app_nil_r|].
  rewrite exec_for_each_cons, IH, exec_bind, exec_call_sm, exec_codec_send. cbn.
  by rewrite <- app_assoc.
Qed.

(** The offline messages as they are sent, each with its own reading of the clock. *)
Fixpoint offline_sends (conn : Conn) (messages : list MessageInfo) (w : W) : list Action :=
  match messages with
  | [] => []
  | om :: messages =>
    Send conn (chat_message (mi_from_uid om) (mi_to_uid om) (mi_room_name om) (mi_content om)
                 (mi_msg_id om) (eval Timestamp_now w))
    :: offline_sends conn messages (exec Timestamp_now w)
  end.

Definition tick (w : W) : W := exec Timestamp_now w.

Lemma exec_for_each_offline conn (l : list MessageInfo) s :
  exec (for_each l (λ om, now ← call_world Timestamp_now;
          codec_send conn (chat_message (mi_from_uid om) (mi_to_uid om) (mi_room_name om)
            (mi_content om) (mi_msg_id om) now))) s =
  set_out (out s ++ offline_sends conn l (world s)) (set_world (Nat.iter (length l) tick (world s)) s).
Proof.
  revert s. induction l as [|om l IH]; intros s; [by destruct s; cbn; rewrite app_nil_r|].
  rewrite exec_for_each_cons, IH, exec_bind, eval_call_world, exec_call_world, exec_codec_send. cbn.
  by rewrite <- app_assoc, <- Nat.iter_succ_r.
Qed.

(** The session table after a login. *)
Definition login_tables (conn : Conn) (r : LoginResult) (token : string) (m : SessionManager)
    : SessionManager :=
  let uid := ui_uid (ls_userInfo r) in
  let m := snd (authenticate conn uid token m) in
  let m := fold_left (λ m f, addFriendship uid (ui_uid f) m) (ls_friends r) m in
  fold_left (λ m q, addPendingRequest q uid m) (ls_pendingRequests r) m.

(** The answer to a login. *)
Definition login_answer (r : LoginResult) (token : string) (now : Z) : ServerMessage :=
  let u := ls_userInfo r in
  login_resp (mkLoginResponse true token "" (u64 now) (ui_nickname u) (ui_email u) (ui_avatarUrl u)).

Lemma getUid_fold_addFriendship conn uid (l : list UserInfo) m :
  getUid conn (fold_left (λ m f, addFriendship uid (ui_uid f) m) l m) = getUid conn m.
Proof. revert m. induction l as [|f l IH]; intros m; [done|]. cbn. by rewrite IH. Qed.

Lemma getUid_fold_addPending conn uid (l : list string) m :
  getUid conn (fold_left (λ m q, addPendingRequest q uid m) l m) = getUid conn m.
Proof. revert m. induction l as [|f l IH]; intros m; [done|]. cbn. by rewrite IH. Qed.

Lemma getUid_authenticate conn uid token m : getUid conn (snd (authenticate conn uid token m)) = uid.
Proof. unfold getUid. cbn. by rewrite lookup_insert_eq. Qed.

Lemma exec_login_done conn r token s :
  ls_success r = true →
  let uid := ui_uid (ls_userInfo r) in
  let m := login_tables conn r token (sessionManager_ s) in
  let w1 := tick (world s) in
  exec (login_done conn r token) s =
  set_out (out s ++ Send conn (login_answer r token (eval Timestamp_now (world s)))
                 :: map (λ q, Send conn (friend_req (mkFriendRequest q uid ""))) (ls_pendingRequests r)
                 ++ offline_sends conn (ls_offlineMessages r) w1
                 ++ [Send conn (friend_list_of conn m)])
    (set_pool (pool s ++ match ls_offlineMessages r with [] => [] | _ => [task_markDelivered uid] end)
      (set_world (Nat.iter (length (ls_offlineMessages r)) tick w1) (set_sm m s))).
Proof.
  intros Hr. cbv zeta. unfold login_done. rewrite Hr. cbv zeta.
  unfold sendPendingRequests, sendOfflineMessages.
  rewrite !exec_bind, exec_call_sm, exec_for_each_call_sm, eval_call_world, exec_call_world,
    exec_codec_send, eval_ask_sm, exec_ask_sm.
  cbn [sessionManager_ set_out set_world set_sm].
  rewrite getUid_fold_addFriendship, getUid_authenticate, exec_for_each_pending, exec_for_each_offline.
  cbn [sessionManager_ set_out set_world set_sm world out pool].
  destruct (ls_offlineMessages r) as [|om l]; cbn [length].
  - rewrite exec_ret, exec_sendFriendList. cbn [sessionManager_ set_out set_world set_sm world out].
    apply server_ext; cbn [sessionManager_ roomManager_ pool running loops connected seen world out
      set_sm set_pool set_world set_out]; try done; [by rewrite app_nil_r|].
    by rewrite <- !app_assoc.
  - rewrite exec_bind, eval_ask_sm, exec_ask_sm, exec_threadPool_run, exec_sendFriendList.
    cbn [sessionManager_ set_out set_world set_sm world out pool set_pool].
    rewrite getUid_fold_addPending, getUid_fold_addFriendship, getUid_authenticate.
    apply server_ext; cbn [sessionManager_ roomManager_ pool running loops connected seen world out
      set_sm set_pool set_world set_out]; try done. by rewrite <- !app_assoc.
Qed.

(** ** The tables after a login *)

Lemma users_fold_login uid (fs : list UserInfo) (qs : list string) m :
  let m' := fold_left (λ m q, addPendingRequest q uid m) qs
              (fold_left (λ m f, addFriendship uid (ui_uid f) m) fs m) in
  users_ m' = users_ m ∧ contexts m' = contexts m.
Proof.
  cbv zeta. set (m1 := fold_left _ fs m).
  assert (users_ m1 = users_ m ∧ contexts m1 = contexts m) as [<- <-].
  { subst m1. revert m. induction fs as [|f fs IH]; intros m; [done|]. cbn. by destruct (IH (addFriendship uid (ui_uid f) m)) as [-> ->]. }
  generalize m1. clear. induction qs as [|q qs IH]; intros m; [done|]. cbn.
  by destruct (IH (addPendingRequest q uid m)) as [-> ->].
Qed.

Lemma getFriends_fold_addPending uid qs m u :
  getFriends u (fold_left (λ m q, addPendingRequest q uid m) qs m) = getFriends u m.
Proof. revert m. induction qs as [|q qs IH]; intros m; [done|]. cbn. by rewrite IH. Qed.

Lemma elem_of_fold_addFriendship uid (fs : list UserInfo) m v :
  v ∈ getFriends uid (fold_left (λ m f, addFriendship uid (ui_uid f) m) fs m) ↔
  v ∈ getFriends uid m ∨ v ∈ map ui_uid fs.
Proof.
  revert m. induction fs as [|f fs IH]; intros m; cbn.
  - rewrite elem_of_nil. tauto.
  - rewrite IH, elem_of_addFriendship, elem_of_cons. naive_solver.
Qed.

Lemma hasPending_fold uid qs m q :
  q ∈ qs ∨ hasPendingRequest q uid m = true →
  hasPendingRequest q uid (fold_left (λ m q, addPendingRequest q uid m) qs m) = true.
Proof.
  revert m. induction qs as [|q' qs IH]; intros m Hq; cbn.
  - destruct Hq as [Hq|Hq]; [by apply not_elem_of_nil in Hq|done].
  - apply IH. rewrite elem_of_cons in Hq. unfold hasPendingRequest in *.
    destruct Hq as [[->|Hq]|Hq]; [right|by left|right]; apply bool_decide_eq_true.
    + cbn. set_solver.
    + apply bool_decide_eq_true in Hq. cbn. set_solver.
Qed.

Lemma login_tables_spec conn r token m :
  let uid := ui_uid (ls_userInfo r) in
  let m' := login_tables conn r token m in
  isAuthenticated conn m' = true ∧ getUid conn m' = uid ∧ getConnection uid m' = Some conn ∧
  (∀ u, u ≠ uid → getConnection u m' = getConnection u m) ∧
  (∀ v, v ∈ getFriends uid m' ↔ v ∈ getFriends uid m ∨ v ∈ map ui_uid (ls_friends r)) ∧
  (∀ q, q ∈ ls_pendingRequests r → hasPendingRequest q uid m' = true).
Proof.
  cbv zeta. unfold login_tables. set (uid := ui_uid _). set (m0 := snd (authenticate conn uid token m)).
  destruct (users_fold_login uid (ls_friends r) (ls_pendingRequests r) m0) as [Hu Hc].
  unfold isAuthenticated, getUid, getConnection. rewrite Hu, Hc. cbn. rewrite !lookup_insert_eq.
  split_and!; try done.
  - intros u Hne. by rewrite lookup_insert_ne.
  - intros v. by rewrite getFriends_fold_addPending, elem_of_fold_addFriendship.
  - intros q Hq. apply hasPending_fold. by left.
Qed.

(** ** Counting the work left *)

Lemma sum_list_perm (l l' : list nat) : l ≡ₚ l' → sum_list l = sum_list l'.
Proof. induction 1; cbn; unfold id in *; lia. Qed.

Definition loops_work (q : gmap nat (list Cont)) : nat :=
  sum_list (map (λ p, 3 * length p.2)%nat (map_to_list q)).

Lemma loops_work_insert (q : gmap nat (list Cont)) l ks :
  (loops_work (<[l := ks]> q) + 3 * length (default [] (q !! l)) =
   loops_work q + 3 * length ks)%nat.
Proof.
  assert (∀ (q' : gmap nat (list Cont)) ks, q' !! l = None →
    loops_work (<[l := ks]> q') = (3 * length ks + loops_work q')%nat) as Hnew.
  { intros q' ks' Hq'. unfold loops_work.
    by rewrite (sum_list_perm _ _ (Permutation_map _ (map_to_list_insert q' l ks' Hq'))). }
  destruct (q !! l) as [ks'|] eqn:Hl; cbn [default from_option]; unfold id.
  - rewrite <- (insert_delete_id q l ks' Hl) at 2. rewrite <- (insert_delete_eq q l ks).
    rewrite !Hnew by apply lookup_delete_eq. lia.
  - rewrite Hnew by done. cbn [length]. lia.
Qed.

Lemma work_left_eq s :
  work_left s = (sum_list (map task_cost (pool s)) +
    sum_list (map (λ t, task_cost t - 1)%nat (running s)) + loops_work (loops s))%nat.
Proof. done. Qed.

Lemma sum_list_app (l l' : list nat) : sum_list (l ++ l') = (sum_list l + sum_list l')%nat.
Proof. induction l as [|a l IH]; cbn; [done|]. rewrite IH. unfold id. lia. Qed.

Lemma sum_list_delete (f : Task → nat) l i t : l !! i = Some t →
  sum_list (map f l) = (f t + sum_list (map f (delete i l)))%nat.
Proof.
  intros Hi. apply delete_Permutation in Hi.
  by rewrite (sum_list_perm _ _ (Permutation_map f Hi)).
Qed.

(** A continuation queues at most one task, a cheap one. *)
Lemma cont_body_queues k s :
  let s' := exec (cont_body k) s in
  running s' = running s ∧ loops s' = loops s ∧
  ∃ ts, pool s' = pool s ++ ts ∧ (length ts <= 1)%nat ∧ (sum_list (map task_cost ts) <= 2)%nat.
Proof.
  assert (∀ c r t, let s' := exec (login_done c r t) s in running s' = running s ∧ loops s' = loops s ∧
    ∃ ts, pool s' = pool s ++ ts ∧ (length ts <= 1)%nat ∧ (sum_list (map task_cost ts) <= 2)%nat) as Hlogin.
  { intros c r t. destruct (ls_success r) eqn:Hr; cbv zeta.
    - rewrite exec_login_done by done. split_and!; [done..|]. eexists. split; [done|].
      destruct (ls_offlineMessages r); cbn; auto with lia.
    - unfold login_done. rewrite Hr. split_and!; [done..|]. exists []. rewrite app_nil_r. cbn. auto with lia. }
  assert (∀ s', pool s' = pool s → running s' = running s → loops s' = loops s →
    running s' = running s ∧ loops s' = loops s ∧
    ∃ ts, pool s' = pool s ++ ts ∧ (length ts <= 1)%nat ∧ (sum_list (map task_cost ts) <= 2)%nat) as Hsame.
  { intros s' Hp Hr Hl. split_and!; [done..|]. exists []. rewrite app_nil_r. cbn. auto with lia. }
  cbv zeta. destruct k as [c r t|c r|c ok|c f t r x res|c u n res|c u n res|c f t m|c r t a|c u t|c u i t r res];
    cbn [cont_body].
  - apply Hlogin.
  - apply Hlogin.
  - by apply Hsame.
  - rewrite exec_sendMessage_done. unfold chat_effect. destruct (negb (sm_success res)); [by apply Hsame|].
    destruct (negb (empty_string t)); [|destruct (negb (empty_string r)); by apply Hsame].
    cbv zeta. destruct (getConnection _ _); [by apply Hsame|].
    split_and!; [done..|]. eexists. split; [done|]. cbn. auto with lia.
  - destruct (negb _); by apply Hsame.
  - destruct (negb _); by apply Hsame.
  - autorewrite with chat. destruct (getConnection _ _); by apply Hsame.
  - destruct a; autorewrite with chat; destruct (getConnection _ _); autorewrite with chat; by apply Hsame.
  - autorewrite with chat; destruct (getConnection _ _); autorewrite with chat; by apply Hsame.
  - unfold recall_done. destruct (negb (rc_success res)); [by apply Hsame|]. autorewrite with chat.
    destruct (negb (empty_string t)); [|destruct (negb (empty_string r)); rewrite ?exec_broadcast; by apply Hsame].
    autorewrite with chat. destruct (getConnection _ _); by apply Hsame.
Qed.

(** One request served by an idle server. *)
Lemma serve_task conn env t k s :
  idle_for conn s → exec (onEnvelope conn env) s = set_pool (pool s ++ [t]) s →
  eval (task_body t) (world s) = Some (conn, k) →
  run (serve conn env) s =
  Some (exec (cont_body k) (after_task conn (exec (task_body t) (world s)) s)).
Proof.
  intros (Hc & Hp & Hr & Hl) Henv Hk. unfold serve. cbn [run step].
  rewrite decide_True by done. rewrite Henv, with_room_fits by (cbn [pool set_pool]; by rewrite Hp).
  cbn [mbind option_bind]. cbn [pool set_pool]. rewrite Hp.
  cbn [app mbind option_bind running set_pool set_running]. rewrite Hr. cbn [length].
  rewrite (proj2 (Nat.ltb_lt _ _) workers_pos). cbn [mbind option_bind running set_running].
  cbn [app lookup list_lookup mbind option_bind]. unfold run_task.
  rewrite exec_bind, eval_call_world, exec_call_world. cbn [world set_world set_running set_pool].
  rewrite Hk. unfold runInLoop. rewrite exec_modify.
  cbn [loops set_loops set_world set_running set_pool]. rewrite Hl. cbn [app].
  rewrite lookup_insert_eq. set (s1 := set_loops _ _).
  replace s1 with (after_task conn (exec (task_body t) (world s)) s).
  - rewrite with_room_fits; [done|].
    destruct (cont_body_queues k (after_task conn (exec (task_body t) (world s)) s)) as (_ & _ & ts & -> & Hts & _).
    cbn [pool after_task set_loops set_world]. rewrite Hp. unfold kMaxQueueSize. cbn [app]. lia.
  - subst s1. apply server_ext; try done;
      cbn [pool running loops after_task set_loops set_world set_running set_pool].
    by rewrite insert_insert_eq.
Qed.

(** A task that queues a continuation costs more than one that does not. *)
Lemma task_body_cost t w :
  match eval (task_body t) w with Some _ => task_cost t = 5 | None => task_cost t = 2 end%nat.
Proof. destruct t; cbn [task_body]; autorewrite with chat; by cbn. Qed.

Lemma internal_step_decreases e s s' :
  internal e = true → step e s = Some s' → (work_left s' < work_left s)%nat.
Proof.
  intros Hi Hstep. destruct e as [c|c|c env| |i|l|n]; try discriminate Hi; cbn [step] in Hstep;
    rewrite !work_left_eq.
  - destruct (pool s) as [|t rest] eqn:Hp; [done|]. case_match; simplify_eq. cbn. rewrite map_app, sum_list_app. cbn.
    destruct t; cbn; lia.
  - destruct (running s !! i) as [t|] eqn:Ht; simplify_eq. unfold run_task.
    rewrite exec_bind, eval_call_world, exec_call_world. cbn [world set_running].
    pose proof (task_body_cost t (world s)) as Hc.
    rewrite (sum_list_delete (λ t, task_cost t - 1)%nat _ _ _ Ht).
    destruct (eval (task_body t) (world s)) as [[c k]|].
    + unfold runInLoop. rewrite exec_modify. cbn [loops set_loops set_world set_running pool running].
      pose proof (loops_work_insert (loops s) (getLoop c) (default [] (loops s !! getLoop c) ++ [k])) as Hl.
      rewrite length_app in Hl. cbn in *. lia.
    + rewrite exec_ret. cbn [loops set_world set_running pool running]. lia.
  - destruct (loops s !! l) as [[|k rest]|] eqn:Hl; try done. apply with_room_Some in Hstep as [-> _].
    destruct (cont_body_queues k (set_loops (<[l := rest]> (loops s)) s)) as (-> & -> & ts & -> & _ & Hts).
    cbn [loops running pool set_loops]. pose proof (loops_work_insert (loops s) l rest) as Hw.
    rewrite Hl in Hw. rewrite map_app, sum_list_app. cbn in Hw. unfold id in Hw. lia.
Qed.

(** Back-pressure does not block: when tasks run, one can finish; when none runs, a
    worker is free; when none waits either, the queue has room for what a loop may add. *)
Lemma internal_progress s :
  at_rest s ∨ ∃ e s', internal e = true ∧ step e s = Some s'.
Proof.
  destruct (running s) as [|t rest] eqn:Hr.
  2: { right. exists (FinishTask 0). cbn [step internal]. rewrite Hr. cbn. eauto. }
  destruct (pool s) as [|t rest] eqn:Hp.
  2: { right. exists TakeTask. cbn [step internal]. rewrite Hp, Hr. cbn [length].
       rewrite (proj2 (Nat.ltb_lt _ _) workers_pos). eauto. }
  destruct (decide (map_Forall (λ _ ks, ks = []) (loops s))) as [Hall|Hsome].
  - left. split_and!; [done..|]. intros l. destruct (loops s !! l) eqn:Hl; [|done]. by apply (Hall l).
  - right. apply map_not_Forall in Hsome as (l & ks & Hl & Hne); [|apply _].
    destruct ks as [|k rest]; [done|]. exists (RunLoop l). cbn [step internal]. rewrite Hl.
    rewrite with_room_fits; [eauto|].
    destruct (cont_body_queues k (set_loops (<[l := rest]> (loops s)) s)) as (_ & _ & ts & -> & Hts & _).
    cbn [pool set_loops]. rewrite Hp. unfold kMaxQueueSize. cbn [app]. lia.
Qed.

(** The work of a sequence of internal steps is paid for. *)
Lemma internal_run_bound es s s' :
  Forall (λ e, internal e = true) es → run es s = Some s' →
  (length es + work_left s' <= work_left s)%nat.
Proof.
  revert s. induction es as [|e es IH]; intros s Hes Hrun; cbn [run] in Hrun; [by simplify_eq/=|].
  inversion_clear Hes as [|? ? He Hes'].
  destruct (step e s) as [s1|] eqn:Hstep; [|done]. cbn in Hrun.
  apply internal_step_decreases in Hstep; [|done]. specialize (IH s1 Hes' Hrun). cbn. lia.
Qed.

Lemma run_to_rest s : ∃ es s', Forall (λ e, internal e = true) es ∧
  run es s = Some s' ∧ at_rest s'.
Proof.
  remember (work_left s) as n eqn:Hn. revert s Hn.
  induction (lt_wf n) as [n _ IH]. intros s ->.
  destruct (internal_progress s) as [Hrest|(e & s1 & He & Hstep)]; [by exists [], s|].
  destruct (IH (work_left s1)) with (s := s1) as (es & s' & Hes & Hrun & Hrest);
    [by eapply internal_step_decreases|done|].
  exists (e :: es), s'. cbn. rewrite Hstep. auto.
Qed.
End History.
