(* ===== verification/ChatServerTheorems.v ===== *)
(** What the transition system of [ChatServer] guarantees: who may act and who may be told
    what, the exact effect of each kind of request from its arrival to its answers, that
    the server comes to rest, and that the byte streams of the codec act as the envelopes
    they carry. *)

From S2P Require Import Prelude Machine Proto ChatCodec SessionManager RoomManager Repositories.
From S2P Require Import MemWorld LoginService ChatService FriendService RoomService ChatServer.
From S2P Require Import ChatServerFacts.

Local Open Scope Z_scope.

(** ** Theorems: who may act, and who may be told *)

Section Theorems.
  Context {W : Type}.
  Context `{UserRepository W, SessionRepository W, FriendRepository W, MessageRepository W}.
  Context `{RoomRepository W, Clock W, Random W, Mktime, Environment W, Config}.
  Implicit Types s : Server W.

(** C4. A connection that is not logged in cannot chat, open or join rooms, handle
    friends or recall: such a request changes nothing and is not even answered. *)
Theorem unauthenticated_ignored conn env s :
  needs_login (env_payload env) = true → isAuthenticated conn (sessionManager_ s) = false →
  exec (onEnvelope conn env) s = s.
Proof.
  intros Hp Ha. unfold onEnvelope. destruct (env_payload env); try discriminate Hp;
    unfold handleChatMessage, handleCreateRoom, handleJoinRoom, handleFriendRequest,
      handleFriendResponse, handleFriendRemove, handleRecall;
    autorewrite with chat; by rewrite Ha.
Qed.

(** C2. In every reachable state, whatever was sent to a connection that never logged in
    is an error, the outcome of a registration or the answer to a logout: chat messages,
    recall notices, friend lists, friend requests and login data go only to connections
    that have logged in. *)
Theorem strangers_learn_nothing w log s conn m :
  history w log s → Send conn m ∈ out s → (∀ uid, (conn, uid) ∉ log) →
  harmless m.
Proof.
  intros Hh Hin Hnot. apply history_secure in Hh as [_ _ _ _ Ho].
  rewrite Forall_forall in Ho. destruct (Ho _ Hin) as [|[u Hu]]; [done|]. by destruct (Hnot u).
Qed.

(** C1. Chat messages cannot be forged or misdelivered: when the continuation of a chat
    message runs, its sender is a user that the requesting connection logged in as, every
    message it sends carries that sender and the given content, and each goes back to the
    requester, to a connection that logged in as the addressee, or, for a room message, to
    one that logged in as a member of the room. *)
Theorem chat_message_authentic w log s l conn from to room content result rest s' :
  history w log s →
  loops s !! l = Some (cont_sendMessage conn from to room content result :: rest) →
  step (RunLoop l) s = Some s' →
  (conn, from) ∈ log ∧
  ∃ new, out s' = out s ++ new ∧
    ∀ c m, Send c (chat_msg m) ∈ new →
      cm_from m = from ∧ cm_content m = content ∧
      (c = conn ∨ (c, to) ∈ log ∨
       (to = ""%string ∧ ∃ u, isInRoom room u (roomManager_ s) = true ∧ (c, u) ∈ log)).
Proof.
  intros Hh Hq Hstep. apply history_secure in Hh as Hs. destruct Hs as [_ _ Hl [_ Hu] _].
  specialize (Hl l _ Hq). inversion_clear Hl as [|? ? Hin _]. cbn in Hin. split; [done|].
  cbn [step] in Hstep. rewrite Hq in Hstep. apply with_room_Some in Hstep as [-> _]. cbn [cont_body].
  rewrite exec_sendMessage_done. unfold chat_effect, chat_message. destruct (sm_success result); cbn [negb].
  2: { eexists. split; [done|]. intros c m Hm. by apply list_elem_of_singleton in Hm. }
  destruct (empty_string to) eqn:Hto; cbn [negb].
  - destruct (empty_string room); cbn [negb].
    { exists []. split; [by rewrite app_nil_r|]. by intros ? ? ?%not_elem_of_nil. }
    eexists. split; [done|]. intros c m Hm.
    apply list_elem_of_fmap in Hm as (c' & [= <- ->] & Hc). cbn. split_and!; [done..|]. right; right.
    apply String.eqb_eq in Hto. split; [done|].
    apply elem_of_online_members in Hc as (u & Hm & Hc). exists u. split; [done|]. by apply Hu.
  - cbn. destruct (getConnection to (sessionManager_ s)) as [c'|] eqn:Hc'; (eexists; split; [done|]);
      intros c m Hm; rewrite !elem_of_cons, elem_of_nil in Hm; destruct Hm as [Hm|[Hm|[]]];
      simplify_eq/=; auto 6.
Qed.

(** ** Theorems: what a request does *)

(** C11. A password login, from the request to the answer. On success the connection is
    logged in as the user and the user is found on it, the stored friends are added to the
    friend table and the stored requests to the pending table, and the client is sent the
    login answer, the pending requests, the offline messages and its friend list, in this
    order; marking the messages delivered is queued exactly when there were some. On
    failure the tables are untouched and the client is sent error 6 with the reason. *)
Theorem login_flow conn env req s :
  idle_for conn s → env_payload env = kLoginReq req →
  lr_token req = ""%string → lr_passwd req ≠ ""%string → lr_uid req ≠ ""%string →
  let r := eval (login (lr_uid req) (lr_passwd req) node_id_) (world s) in
  let w1 := exec (login (lr_uid req) (lr_passwd req) node_id_) (world s) in
  let uid := ui_uid (ls_userInfo r) in
  ∃ s', run (serve conn env) s = Some s' ∧
  if ls_success r then
    let m' := sessionManager_ s' in
    (isAuthenticated conn m' = true ∧ getUid conn m' = uid ∧ getConnection uid m' = Some conn ∧
     (∀ u, u ≠ uid → getConnection u m' = getConnection u (sessionManager_ s)) ∧
     (∀ v, v ∈ getFriends uid m' ↔
        v ∈ getFriends uid (sessionManager_ s) ∨ v ∈ map ui_uid (ls_friends r)) ∧
     (∀ q, q ∈ ls_pendingRequests r → hasPendingRequest q uid m' = true)) ∧
    out s' = out s ++ Send conn (login_answer r (ls_token r) (eval Timestamp_now w1))
      :: map (λ q, Send conn (friend_req (mkFriendRequest q uid ""))) (ls_pendingRequests r)
      ++ offline_sends conn (ls_offlineMessages r) (tick w1)
      ++ [Send conn (friend_list_of conn m')] ∧
    pool s' = match ls_offlineMessages r with [] => [] | _ => [task_markDelivered uid] end
  else
    sessionManager_ s' = sessionManager_ s ∧ world s' = w1 ∧ pool s' = [] ∧
    out s' = out s ++ [Send conn (error (mkErrorResponse 6 (ls_reason r)))].
Proof.
  intros Hidle Henv Ht Hp Hu. cbv zeta. set (r := eval (login _ _ _) _). eexists. split.
  { apply (serve_task conn env (task_login conn (lr_uid req) (lr_passwd req))
             (cont_login conn r)); [done| |].
    - unfold onEnvelope. rewrite Henv. unfold handleLogin, empty_string. rewrite Ht.
      destruct (String.eqb_spec (lr_passwd req) ""), (String.eqb_spec (lr_uid req) ""); done.
    - cbn [task_body]. by autorewrite with chat. }
  cbn [cont_body]. cbn [task_body]. autorewrite with chat. fold r. destruct (ls_success r) eqn:Hr.
  - rewrite exec_login_done by done.
    cbn [after_task sessionManager_ set_out set_pool set_world set_sm set_loops world out pool].
    split; [apply login_tables_spec|]. split; [done|].
    destruct Hidle as (_ & Hpool & _). by rewrite Hpool.
  - unfold login_done. rewrite Hr, exec_sendError. cbn. by destruct Hidle as (_ & Hpool & _).
Qed.

(** C10. A chat message, from the request to the deliveries.  The message is stored first;
    when that fails only error 3 is sent.  A message with an addressee goes to the
    addressee when online and is echoed to the sender; when the addressee is offline the
    sender gets the echo and error 3, and a look-up of the message is queued.  A room
    message goes to the members online, in the order of the member set, without an extra
    echo.  The tables of the server do not change. *)
Theorem chat_flow conn env msg s :
  idle_for conn s → env_payload env = kChatMsg msg →
  isAuthenticated conn (sessionManager_ s) = true →
  let from := getUid conn (sessionManager_ s) in
  let store := msgRepo_storeMessage from (cm_to msg) (cm_room msg) (cm_content msg) in
  let id := eval store (world s) in
  let w1 := exec store (world s) in
  let now := eval Timestamp_now w1 in
  let private := chat_message from (cm_to msg) "" (cm_content msg) id now in
  let public := chat_message from "" (cm_room msg) (cm_content msg) id now in
  ∃ s', run (serve conn env) s = Some s' ∧
    sessionManager_ s' = sessionManager_ s ∧ roomManager_ s' = roomManager_ s ∧
    (world s', pool s', out s') =
    if id <=? 0 then
      (w1, [], out s ++ [Send conn (error (mkErrorResponse 3 "store message failed"))])
    else if negb (empty_string (cm_to msg)) then
      match getConnection (cm_to msg) (sessionManager_ s) with
      | Some c => (tick w1, [], out s ++ [Send c private; Send conn private])
      | None =>
        (tick w1, [task_getMessage (cm_to msg) id],
         out s ++ [Send conn private; Send conn (error (mkErrorResponse 3 "user offline"))])
      end
    else if negb (empty_string (cm_room msg)) then
      (tick w1, [], out s ++ map (λ c, Send c public)
        (online_members (RoomManager.getRoomMembers (cm_room msg) (roomManager_ s)) (sessionManager_ s)))
    else (tick w1, [], out s).
Proof.
  intros Hidle Henv Ha. cbv zeta. set (from := getUid conn (sessionManager_ s)).
  set (result := eval (sendMessage from (cm_to msg) (cm_room msg) (cm_content msg)) (world s)).
  eexists. split.
  { apply (serve_task conn env
      (task_sendMessage conn from (cm_to msg) (cm_room msg) (cm_content msg))
      (cont_sendMessage conn from (cm_to msg) (cm_room msg) (cm_content msg) result)); [done| |].
    - unfold onEnvelope. rewrite Henv. unfold handleChatMessage. autorewrite with chat. by rewrite Ha.
    - cbn [task_body]. by autorewrite with chat. }
  cbn [cont_body task_body]. autorewrite with chat. rewrite exec_sendMessage_done.
  unfold chat_effect. subst result. unfold sendMessage. autorewrite with chat.
  set (id := eval (msgRepo_storeMessage _ _ _ _) _). destruct Hidle as (_ & Hpool & _).
  destruct (id <=? 0); autorewrite with chat; cbn; [by rewrite Hpool|].
  destruct (negb (empty_string (cm_to msg))).
  - destruct (getConnection (cm_to msg) (sessionManager_ s)); cbn; by rewrite Hpool.
  - destruct (negb (empty_string (cm_room msg))); cbn; by rewrite Hpool.
Qed.

(** C35. A recall, from the request to the notices.  The service decides with the user of
    the session; a refusal is answered by error 8 and nothing else is sent; a recall that
    was accepted is announced to the addressee when online, or to the members of the room
    online when there is no addressee, and always to the caller. *)
Theorem recall_flow conn env req s :
  idle_for conn s → env_payload env = kRecallMsg req →
  isAuthenticated conn (sessionManager_ s) = true →
  let uid := getUid conn (sessionManager_ s) in
  let id := i64 (rm_msg_id req) in
  let to := rm_to_uid req in
  let room := rm_room req in
  let r := eval (recallMessage id uid to room) (world s) in
  let w1 := exec (recallMessage id uid to room) (world s) in
  let now := eval Timestamp_now w1 in
  ∃ s', run (serve conn env) s = Some s' ∧
    sessionManager_ s' = sessionManager_ s ∧ roomManager_ s' = roomManager_ s ∧ pool s' = [] ∧
    out s' = out s ++
      (if negb (rc_success r) then [Send conn (error (mkErrorResponse 8 (rc_reason r)))]
      else
        (if negb (empty_string to) then
           match getConnection to (sessionManager_ s) with
           | Some c => [Send c (recall_message id uid "" to now)]
           | None => []
           end
         else if negb (empty_string room) then
           map (λ c, Send c (recall_message id uid room "" now))
             (online_members (RoomManager.getRoomMembers room (roomManager_ s)) (sessionManager_ s))
         else []) ++ [Send conn (recall_message id uid room to now)]).
Proof.
  intros Hidle Henv Ha. cbv zeta. set (uid := getUid conn (sessionManager_ s)).
  set (r := eval (recallMessage _ _ _ _) _). eexists. split.
  { apply (serve_task conn env
      (task_recall conn uid (i64 (rm_msg_id req)) (rm_to_uid req) (rm_room req))
      (cont_recall conn uid (i64 (rm_msg_id req)) (rm_to_uid req) (rm_room req) r)); [done| |].
    - unfold onEnvelope. rewrite Henv. unfold handleRecall. autorewrite with chat. by rewrite Ha.
    - cbn [task_body]. by autorewrite with chat. }
  cbn [cont_body task_body]. autorewrite with chat. destruct Hidle as (_ & Hpool & _).
  unfold recall_done. destruct (negb (rc_success r)); [done|]. autorewrite with chat.
  destruct (negb (empty_string (rm_to_uid req))); autorewrite with chat.
  - cbn [after_task sessionManager_ set_world set_loops].
    destruct (getConnection (rm_to_uid req) (sessionManager_ s)); autorewrite with chat; [|done].
    split_and!; [done..|]. cbn. by rewrite <- app_assoc.
  - destruct (negb (empty_string (rm_room req))); [|done]. rewrite exec_broadcast.
    split_and!; [done..|]. cbn. by rewrite <- app_assoc.
Qed.

(** Answering a friend request, from the answer to the notices.  An acceptance makes
    the two users named in the message friends of each other and withdraws the request; the
    requester is told when online.  Neither name is compared with the user of the session,
    and it does not matter whether such a request was pending or whether the store took
    the answer. *)
Theorem friend_response_flow conn env req s :
  idle_for conn s → env_payload env = kFriendResp req →
  isAuthenticated conn (sessionManager_ s) = true →
  let responder := fp_from_uid req in
  let requester := fp_to_uid req in
  ∃ s', run (serve conn env) s = Some s' ∧
    hasPendingRequest requester responder (sessionManager_ s') = false ∧
    (∀ u v, v ∈ getFriends u (sessionManager_ s') ↔
       v ∈ getFriends u (sessionManager_ s) ∨
       (fp_accepted req = true ∧
        ((requester = u ∧ responder = v) ∨ (requester = v ∧ responder = u)))) ∧
    users_ (sessionManager_ s') = users_ (sessionManager_ s) ∧
    out s' = out s ++
      match getConnection requester (sessionManager_ s) with
      | Some c => [Send c (friend_resp (mkFriendResponse responder requester (fp_accepted req)));
                   Send c (friend_list_of c (sessionManager_ s'))]
      | None => []
      end ++ [Send conn (friend_list_of conn (sessionManager_ s'))].
Proof.
  intros Hidle Henv Ha. cbv zeta. eexists. split.
  { apply (serve_task conn env
      (task_friendResponse conn (fp_to_uid req) (fp_from_uid req) (fp_accepted req))
      (cont_friendResponse conn (fp_to_uid req) (fp_from_uid req) (fp_accepted req))); [done| |].
    - unfold onEnvelope. rewrite Henv. unfold handleFriendResponse. autorewrite with chat. by rewrite Ha.
    - cbn [task_body]. by autorewrite with chat. }
  cbn [cont_body task_body]. set (w1 := exec _ (world s)). clearbody w1. clear Hidle Henv Ha.
  assert (∀ m, hasPendingRequest (fp_to_uid req) (fp_from_uid req)
            (removePendingRequest (fp_to_uid req) (fp_from_uid req) m) = false) as Hno.
  { intros m. unfold hasPendingRequest. apply bool_decide_eq_false_2. cbn. set_solver. }
  assert (∀ u v m, v ∈ getFriends u (removePendingRequest (fp_to_uid req) (fp_from_uid req) m) ↔
            v ∈ getFriends u m) as Hfr by done.
  destruct (fp_accepted req); autorewrite with chat; cbn [sessionManager_ after_task set_sm set_world set_loops].
  - change (getConnection (fp_to_uid req) (removePendingRequest _ _ (addFriendship _ _ (sessionManager_ s))))
      with (getConnection (fp_to_uid req) (sessionManager_ s)).
    destruct (getConnection (fp_to_uid req) (sessionManager_ s)); autorewrite with chat;
      (split; [apply Hno|]; split; [intros u v; etransitivity; [apply Hfr|]; etransitivity; [apply elem_of_addFriendship|]; tauto|]);
      (split; [done|]); cbn; by repeat (rewrite <- app_assoc; cbn).
  - change (getConnection (fp_to_uid req) (removePendingRequest _ _ (sessionManager_ s)))
      with (getConnection (fp_to_uid req) (sessionManager_ s)).
    destruct (getConnection (fp_to_uid req) (sessionManager_ s)); autorewrite with chat;
      (split; [apply Hno|]; split; [intros u v; etransitivity; [apply Hfr|]; naive_solver|]);
      (split; [done|]); cbn; by repeat (rewrite <- app_assoc; cbn).
Qed.

(** Logout works on the connection and on the data of the request separately: the
    connection is logged out at once and its user is no longer found, whatever the request
    says, while the user and the token to revoke are the ones the client wrote. *)
Theorem logout_flow conn env req s :
  env_payload env = kLogoutReq req →
  let s' := exec (onEnvelope conn env) s in
  let uid := getUid conn (sessionManager_ s) in
  isAuthenticated conn (sessionManager_ s') = false ∧ getUid conn (sessionManager_ s') = ""%string ∧
  (uid ≠ ""%string → getConnection uid (sessionManager_ s') = None) ∧
  pool s' = pool s ++ [task_logout (lo_uid req) (lo_token req)] ∧
  out s' = out s ++ [Send conn (login_resp (mkLoginResponse true "" "logged out" 0 "" "" ""))] ∧
  world s' = world s.
Proof.
  intros Henv. cbv zeta. unfold onEnvelope. rewrite Henv. unfold handleLogout. cbv zeta.
  autorewrite with chat. cbn. unfold isAuthenticated, getUid, getConnection, deauthenticate.
  split_and!; try done; cbn; rewrite ?lookup_insert_eq; try done.
  destruct (contexts (sessionManager_ s) !! conn) as [x|]; cbn; [|done].
  destruct (String.eqb_spec (session_uid x) ""); [done|]. cbn. by rewrite lookup_delete_eq.
Qed.

(** ** Theorems: every run *)

(** Friendship is symmetric in every reachable state of the server. *)
Theorem friendship_symmetric w es s u v :
  run es (start w) = Some s →
  v ∈ getFriends u (sessionManager_ s) ↔ u ∈ getFriends v (sessionManager_ s).
Proof.
  intros Hrun. destruct (stores_run friends_symmetric (λ _, True) (λ _, True))
    with es (start w) s as (HQ & _ & _); try done. apply run_call_symmetric.
Qed.

(** No run stores an offline message: whatever is kept by all the repository methods
    except [addOfflineMessage] holds for ever, so the queue of undelivered messages can
    only shrink, although the server looks there at every login. *)
Theorem offline_never_queued (P : W → Prop)
    `{!UserRepoPreserves P, !SessionRepoPreserves P, !FriendRepoPreserves P}
    `{!MessageRepoPreserves P, !RoomRepoPreserves P, !EnvPreserves P, !OutsidePreserves P} w es s :
  P w → run es (start w) = Some s → P (world s).
Proof.
  intros HP Hrun. by destruct (stores_run (λ _, True) (λ _, True) P)
    with es (start w) s as (_ & _ & HPs).
Qed.

(** C13. The server comes to rest: after the last request, every sequence of internal
    steps is at most as long as the work left, and there is one after which no task and
    no continuation waits. *)
Theorem server_comes_to_rest s :
  (∀ es s', Forall (λ e, internal e = true) es → run es s = Some s' →
     (length es <= work_left s)%nat) ∧
  (∃ es s', Forall (λ e, internal e = true) es ∧ run es s = Some s' ∧ at_rest s').
Proof.
  split; [|apply run_to_rest]. intros es s' Hes Hrun.
  pose proof (internal_run_bound es s s' Hes Hrun). lia.
Qed.

(** A login that is answered after the connection went down puts the user on the dead
    connection, and nothing will take the user off it: the connection can neither go down
    again nor come back. *)
Theorem late_login_stays conn r l rest s :
  loops s !! l = Some (cont_login conn r :: rest) → ls_success r = true →
  conn ∈ seen s → conn ∉ connected s → Z.of_nat (length (pool s)) < kMaxQueueSize →
  ∃ s', step (RunLoop l) s = Some s' ∧
    getConnection (ui_uid (ls_userInfo r)) (sessionManager_ s') = Some conn ∧
    (conn ∉ connected s') ∧
    step (Disconnect conn) s' = None ∧
    step (Connect conn) s' = None.
Proof.
  intros Hl Hr Hseen Hdown Hroom. eexists. cbn [step]. rewrite Hl. split.
  { apply with_room_fits.
    destruct (cont_body_queues (cont_login conn r) (set_loops (<[l := rest]> (loops s)) s))
      as (_ & _ & ts & -> & Hts & _). rewrite length_app. cbn [pool set_loops]. lia. }
  cbn [cont_body]. rewrite exec_login_done by done.
  split; [apply login_tables_spec|]. split; [exact Hdown|].
  split; [by rewrite decide_False|by rewrite decide_True].
Qed.

(** ** Theorems: from bytes to answers *)

Lemma onEnvelope_connected conn env s : connected (exec (onEnvelope conn env) s) = connected s.
Proof.
  unfold onEnvelope. destruct (env_payload env); try done; unfold handleLogin, handleLogout,
    handleRegister, handleChatMessage, handleCreateRoom, handleJoinRoom, handleFriendRequest,
    handleFriendResponse, handleFriendRemove, handleRecall; cbv zeta; autorewrite with chat;
    repeat (match goal with |- context [if ?b then _ else _] => destruct b end;
      autorewrite with chat); done.
Qed.

(** A handler queues at most one task. *)
Lemma onEnvelope_queues conn env s :
  (length (pool (exec (onEnvelope conn env) s)) <= S (length (pool s)))%nat.
Proof.
  unfold onEnvelope. destruct (env_payload env); try (cbn; lia); unfold handleLogin, handleLogout,
    handleRegister, handleChatMessage, handleCreateRoom, handleJoinRoom, handleFriendRequest,
    handleFriendResponse, handleFriendRemove, handleRecall; cbv zeta; autorewrite with chat;
    repeat (match goal with |- context [if ?b then _ else _] => destruct b end;
      autorewrite with chat); cbn; rewrite ?length_app; cbn; lia.
Qed.

Lemma run_recv conn envs s :
  conn ∈ connected s → Z.of_nat (length (pool s) + length envs) <= kMaxQueueSize →
  run (Recv conn <$> envs) s =
  Some (fold_left (λ s env, exec (onEnvelope conn env) s) envs s).
Proof.
  revert s. induction envs as [|env envs IH]; intros s Hc Hroom; [done|].
  pose proof (onEnvelope_queues conn env s). cbn [length] in Hroom.
  rewrite fmap_cons. cbn [run step]. rewrite decide_True by done. rewrite with_room_fits by lia.
  cbn [mbind option_bind fold_left]. apply IH; [by rewrite onEnvelope_connected|lia].
Qed.

(** Bytes act as the envelopes they carry: a stream of frames whose payloads parse, and
    whose requests the task queue has room for, takes the server through the events that receive those envelopes, in order, and the
    unfinished frame behind them stays in the buffer. *)
Lemma stream_acts_as_envelopes {B} `{MuduoBufferLaws B, ProtoLib} conn (buf : B) s
    payloads envs rest :
  Forall (λ p, Machine.size p <= kMaxLen) payloads → partial rest →
  peek buf = concat (frame <$> payloads) ++ rest →
  Forall2 (λ p env, Envelope_ParseFromArray p = (true, env)) payloads envs →
  conn ∈ connected s → Z.of_nat (length (pool s) + length envs) <= kMaxQueueSize →
  ∃ buf' s', server_onMessage conn buf s = Done (buf', s') ∧ peek buf' = rest ∧
    run (Recv conn <$> envs) s = Some s'.
Proof.
  intros Hsize Hrest Hbuf Hparse Hc Hroom. unfold server_onMessage.
  edestruct (onMessage_frames (handleMessage (λ env s, exec (onEnvelope conn env) s)
    (λ m s, exec (codec_send conn m) s)) (λ s, exec (emit (Shutdown conn)) s) buf s payloads rest false)
    as (buf' & Hrun & Hpeek); [rewrite Hbuf; by apply frames_stream|].
  exists buf', (fold_left (λ s env, exec (onEnvelope conn env) s) envs s).
  split; [|split; [done|by apply run_recv]]. rewrite Hrun. do 2 f_equal. unfold deliver.
  clear - Hparse. revert s. induction Hparse as [|p env payloads envs Hp _ IH]; intros s; [done|].
  cbn [fold_left]. rewrite <- IH. f_equal. unfold handleMessage. by rewrite Hp.
Qed.

(** A payload that does not parse costs its sender an error and nobody anything
    else: error 1 goes to the connection it came from and the rest of the server state is
    as before. *)
Theorem parse_error_isolated {B} `{MuduoBufferLaws B, ProtoLib} conn (buf : B) s payload env :
  Machine.size payload <= kMaxLen → peek buf = frame payload →
  Envelope_ParseFromArray payload = (false, env) →
  ∃ buf', server_onMessage conn buf s =
    Done (buf', set_out (out s ++ [Send conn (error (mkErrorResponse 1 "parse error"))]) s) ∧
    peek buf' = [].
Proof.
  intros Hsize Hbuf Hparse. unfold server_onMessage.
  edestruct (onMessage_frames (handleMessage (λ env s, exec (onEnvelope conn env) s)
    (λ m s, exec (codec_send conn m) s)) (λ s, exec (emit (Shutdown conn)) s) buf s [payload] [] false)
    as (buf' & Hrun & Hpeek).
  { rewrite Hbuf, <- (app_nil_r (frame payload)). constructor; [done|]. constructor. by left. }
  exists buf'. split; [|done]. rewrite Hrun. cbn [deliver fold_left]. unfold handleMessage. by rewrite Hparse.
Qed.
End Theorems.

(** ** The theorems at work on the world in memory *)

(** A host that takes every date for the start of 2024, a server with one loop and four
    workers, and the same with one connection up. *)
#[export] Instance epoch_mktime : Mktime := {| mktime _ := 1704067200 |}.

#[export] Instance config1 : Config :=
  {| node_id_ := "node-1"; getLoop _ := 0%nat; workers := 4; workers_pos := ltac:(lia) |}.

Definition get (o : option (Server MemWorld)) : Server MemWorld := default (start mem_empty) o.

Definition up1 : Server MemWorld := get (run [Connect 1%nat] (start mem_two)).

Definition login_alice : Envelope := mkEnvelope "" (kLoginReq (mkLoginRequest "alice" "pw" "")).
Definition say_bob : Envelope :=
  mkEnvelope "" (kChatMsg (mkChatMessage "" "bob" "" "hi" 0 0 0 false)).

(** Alice is logged in on connection 1; in [said1] her message to bob is being sent. *)
Definition alice1 : Server MemWorld := get (run (serve 1%nat login_alice) up1).
Definition said_events : list event :=
  Connect 1%nat :: serve 1%nat login_alice ++ [Recv 1%nat say_bob; TakeTask; FinishTask 0].
Definition said1 : Server MemWorld := get (run said_events (start mem_two)).

(** The log of a run. *)
Fixpoint run_log (es : list event) (s : Server MemWorld) (log : list (Conn * string))
    : list (Conn * string) :=
  match es with
  | [] => log
  | e :: es => run_log es (get (step e s)) (log ++ logins e s)
  end.

Lemma run_history es s s' w log :
  history w log s → run es s = Some s' →
  history w (run_log es s log) s'.
Proof.
  revert s log. induction es as [|e es IH]; intros s log Hh Hrun; cbn in *; [by simplify_eq|].
  destruct (step e s) as [s1|] eqn:Hstep; [|done]. cbn in *.
  apply IH; [|done]. by eapply history_step.
Qed.

Lemma unauthenticated_ignored_witness : exec (onEnvelope 1%nat say_bob) up1 = up1.
Proof. apply unauthenticated_ignored; vm_compute; reflexivity. Defined.

(** A login without password or token is answered with an error. *)
Definition bad_login : Envelope := mkEnvelope "" (kLoginReq (mkLoginRequest "alice" "" "")).
Definition refused1 : Server MemWorld := get (run [Connect 1%nat; Recv 1%nat bad_login] (start mem_two)).

Lemma strangers_learn_nothing_witness :
  harmless (error (mkErrorResponse 1 "need password or token")).
Proof.
  apply (strangers_learn_nothing mem_two [] refused1 1%nat).
  - apply (run_history [Connect 1%nat; Recv 1%nat bad_login] (start mem_two) refused1 mem_two []);
      [constructor|vm_compute; reflexivity].
  - vm_compute. left.
  - intros uid Hin. by apply not_elem_of_nil in Hin.
Defined.

Lemma chat_message_authentic_witness : (1%nat, "alice") ∈ run_log said_events (start mem_two) [].
Proof.
  eapply (chat_message_authentic mem_two _ said1 0%nat 1%nat "alice").
  - apply run_history; [constructor|vm_compute; reflexivity].
  - vm_compute. reflexivity.
  - vm_compute. reflexivity.
Defined.

Lemma idle_up1 : idle_for 1%nat up1.
Proof. split_and!; [vm_compute; reflexivity|done|done|done]. Qed.

Lemma idle_alice1 : idle_for 1%nat alice1.
Proof. split_and!; [vm_compute; reflexivity|vm_compute; reflexivity..]. Qed.

Lemma login_flow_witness :
  ∃ s', run (serve 1%nat login_alice) up1 = Some s' ∧
    getConnection "alice" (sessionManager_ s') = Some 1%nat.
Proof.
  destruct (login_flow 1%nat login_alice (mkLoginRequest "alice" "pw" "") up1
    idle_up1 eq_refl eq_refl ltac:(done) ltac:(done)) as (s' & Hrun & Hs').
  exists s'. split; [exact Hrun|].
  assert (ls_success (eval (login "alice" "pw" node_id_) (world up1)) = true) as Hok
    by (vm_compute; reflexivity).
  cbn [lr_uid lr_passwd] in Hs'. rewrite Hok in Hs'. destruct Hs' as [(_ & _ & Hc & _) _].
  assert (ui_uid (ls_userInfo (eval (login "alice" "pw" node_id_) (world up1))) = "alice"%string) as Hu
    by (vm_compute; reflexivity).
  rewrite Hu in Hc. exact Hc.
Defined.

(** Bob is offline: alice gets her echo and the error, and her message is stored. *)
Lemma chat_flow_witness :
  ∃ s', run (serve 1%nat say_bob) alice1 = Some s' ∧
    sessionManager_ s' = sessionManager_ alice1 ∧ roomManager_ s' = roomManager_ alice1.
Proof.
  destruct (chat_flow 1%nat say_bob (mkChatMessage "" "bob" "" "hi" 0 0 0 false) alice1
    idle_alice1 eq_refl ltac:(vm_compute; reflexivity)) as (s' & Hrun & Hsm & Hrm & _).
  exists s'. exact (conj Hrun (conj Hsm Hrm)).
Defined.

Definition recall_9 : Envelope := mkEnvelope "" (kRecallMsg (mkRecallMessage 9 "" "" "bob")).

Lemma recall_flow_witness :
  ∃ s', run (serve 1%nat recall_9) alice1 = Some s' ∧ sessionManager_ s' = sessionManager_ alice1.
Proof.
  destruct (recall_flow 1%nat recall_9 (mkRecallMessage 9 "" "" "bob") alice1
    idle_alice1 eq_refl ltac:(vm_compute; reflexivity)) as (s' & Hrun & Hsm & _).
  exists s'. exact (conj Hrun Hsm).
Defined.

(** Alice answers, in bob's name, a request of carol that nobody made. *)
Definition forged : Envelope := mkEnvelope "" (kFriendResp (mkFriendResponse "bob" "carol" true)).

Lemma friend_response_flow_witness :
  ∃ s', run (serve 1%nat forged) alice1 = Some s' ∧
    "bob"%string ∈ getFriends "carol" (sessionManager_ s').
Proof.
  destruct (friend_response_flow 1%nat forged (mkFriendResponse "bob" "carol" true) alice1
    idle_alice1 eq_refl ltac:(vm_compute; reflexivity)) as (s' & Hrun & _ & Hf & _).
  exists s'. split; [exact Hrun|]. apply Hf. right. cbn. auto.
Defined.

Lemma logout_flow_witness :
  getConnection "alice" (sessionManager_
    (exec (onEnvelope 1%nat (mkEnvelope "" (kLogoutReq (mkLogoutRequest "" "")))) alice1)) = None.
Proof.
  destruct (logout_flow 1%nat (mkEnvelope "" (kLogoutReq (mkLogoutRequest "" "")))
    (mkLogoutRequest "" "") alice1 eq_refl) as (_ & _ & Hn & _).
  apply Hn. vm_compute. discriminate.
Defined.

Lemma friendship_symmetric_witness :
  "bob"%string ∈ getFriends "alice" (sessionManager_ alice1) ↔
  "alice"%string ∈ getFriends "bob" (sessionManager_ alice1).
Proof.
  apply (friendship_symmetric mem_two (Connect 1%nat :: serve 1%nat login_alice)).
  vm_compute. reflexivity.
Defined.

(** The queue of undelivered messages is empty. *)
Definition nothing_queued (w : MemWorld) : Prop := mw_offline w = [].

Ltac keep_empty := intros; intros w Hw; unfold nothing_queued in *; unfold exec; cbn; try done;
  repeat case_match; cbn; rewrite ?Hw; done.

#[local] Instance empty_users : UserRepoPreserves nothing_queued.
Proof. constructor; keep_empty. Qed.
#[local] Instance empty_sessions : SessionRepoPreserves nothing_queued.
Proof. constructor; keep_empty. Qed.
#[local] Instance empty_friends : FriendRepoPreserves nothing_queued.
Proof. constructor; keep_empty. Qed.
#[local] Instance empty_messages : MessageRepoPreserves nothing_queued.
Proof. constructor; keep_empty. Qed.
#[local] Instance empty_rooms : RoomRepoPreserves nothing_queued.
Proof. constructor; keep_empty. Qed.
#[local] Instance empty_env : EnvPreserves nothing_queued.
Proof. constructor; keep_empty. Qed.
#[local] Instance empty_outside : OutsidePreserves nothing_queued.
Proof. constructor. by intros n w Hw. Qed.

(** Alice's message to bob, who is offline, is not queued for him. *)
Lemma offline_never_queued_witness : nothing_queued (world (get (run (serve 1%nat say_bob) alice1))).
Proof.
  apply (offline_never_queued nothing_queued mem_two
    (Connect 1%nat :: serve 1%nat login_alice ++ serve 1%nat say_bob)); [done|].
  vm_compute. reflexivity.
Defined.

(** Alice's connection goes down between the request and the answer. *)
Definition late1 : Server MemWorld :=
  get (run [Recv 1%nat login_alice; TakeTask; FinishTask 0; Disconnect 1%nat] up1).

Lemma late_login_stays_witness :
  ∃ s', step (RunLoop 0%nat) late1 = Some s' ∧
    getConnection "alice" (sessionManager_ s') = Some 1%nat.
Proof.
  destruct (late_login_stays 1%nat
    (eval (login "alice" "pw" node_id_) mem_two) 0%nat [] late1) as (s' & Hstep & Hc & _).
  - vm_compute. reflexivity.
  - vm_compute. reflexivity.
  - vm_compute. reflexivity.
  - vm_compute. discriminate.
  - vm_compute. reflexivity.
  - exists s'. split; [exact Hstep|].
    assert (ui_uid (ls_userInfo (eval (login "alice" "pw" node_id_) mem_two)) = "alice"%string) as Hu
      by (vm_compute; reflexivity).
    rewrite Hu in Hc. exact Hc.
Defined.

(** A parser that takes three bytes for a message to bob and refuses the rest. *)
#[local] Instance toy_proto : ProtoLib := {|
  Envelope_ParseFromArray p :=
    if (length p =? 3)%nat then (true, say_bob) else (false, mkEnvelope "" PAYLOAD_NOT_SET);
  Envelope_SerializeToString _ := (true, []);
  ServerMessage_ParseFromArray _ := (false, SERVER_PAYLOAD_NOT_SET);
  ServerMessage_SerializeToString _ := (true, [])
|}.

Lemma parse_error_isolated_witness :
  ∃ buf', server_onMessage 1%nat (mkRegion 8 (frame (be_bytes 1 7))) alice1 =
    Done (buf', set_out (out alice1 ++ [Send 1%nat (error (mkErrorResponse 1 "parse error"))]) alice1) ∧
    peek buf' = [].
Proof.
  apply (parse_error_isolated 1%nat (mkRegion 8 (frame (be_bytes 1 7))) alice1 (be_bytes 1 7)
    (mkEnvelope "" PAYLOAD_NOT_SET)); [vm_compute; discriminate|reflexivity|vm_compute; reflexivity].
Defined.
