(* ===== verification/Requests.v ===== *)
(** What the requests do to the tables of the server, whatever else goes on: the machine of
    requests, in which a request is a single entry between the time it is received and the
    time it is answered, and the theorem that [ChatServer], with its task queue, its workers
    and the queues of its loops, carries it out.  The effect of each kind of request is
    written down once, in [asked] and [answered], without reference to the handlers. *)

From S2P Require Import Prelude Machine Proto SessionManager RoomManager Repositories MemWorld.
From S2P Require Import LoginService ChatService FriendService RoomService.
From S2P Require Import ChatServer ChatServerFacts ChatServerTheorems.

Local Open Scope Z_scope.

(** ** The machine of requests *)

(** The requests that may change a table, with the user of the session where it matters. *)
Inductive Ask :=
| asks_login (uid passwd : string)
| asks_loginWithToken (token : string)
| asks_createRoom (uid name : string)
| asks_joinRoom (uid name : string)
| asks_friend (requester target : string)
| asks_reply (requester responder : string) (accepted : bool)
| asks_unfriend (uid target : string).

#[export] Instance Ask_eq_dec : EqDecision Ask.
Proof. solve_decision. Defined.

(** What a payload asks for on a connection. *)
Definition asked (conn : Conn) (p : Envelope_payload) (m : SessionManager) : option Ask :=
  match p with
  | kLoginReq r =>
    if negb (empty_string (lr_token r)) then Some (asks_loginWithToken (lr_token r))
    else if empty_string (lr_passwd r) || empty_string (lr_uid r) then None
    else Some (asks_login (lr_uid r) (lr_passwd r))
  | kCreateRoom r =>
    if isAuthenticated conn m then Some (asks_createRoom (getUid conn m) (cr_name r)) else None
  | kJoinRoom r =>
    if isAuthenticated conn m then Some (asks_joinRoom (getUid conn m) (jr_room_name r)) else None
  | kFriendReq r =>
    if isAuthenticated conn m then Some (asks_friend (fq_from_uid r) (fq_to_uid r)) else None
  | kFriendResp r =>
    if isAuthenticated conn m
    then Some (asks_reply (fp_to_uid r) (fp_from_uid r) (fp_accepted r)) else None
  | kFriendRemove r =>
    if isAuthenticated conn m then Some (asks_unfriend (getUid conn m) (fv_target_uid r)) else None
  | _ => None
  end.

Record Spec := mkSpec {
  sp_sessions : SessionManager;
  sp_rooms : RoomManager;
  sp_open : list (Conn * Ask)
}.

Definition spec_start : Spec := mkSpec new_SessionManager new_RoomManager [].

(** What happens to the machine; an answer comes from the stores in some world. *)
Inductive label {W : Type} :=
| l_up (conn : Conn)
| l_down (conn : Conn)
| l_asked (conn : Conn) (p : Envelope_payload)
| l_answered (conn : Conn) (a : Ask) (w : W).
Arguments label : clear implicits.

(** What arrives from outside, in a run of the machine and in a run of the server. *)
Definition arrives {W} (l : label W) : option (label W) :=
  match l with l_answered _ _ _ => None | _ => Some l end.

Definition received {W} (e : event) : option (label W) :=
  match e with
  | Connect conn => Some (l_up conn)
  | Disconnect conn => Some (l_down conn)
  | Recv conn env => Some (l_asked conn (env_payload env))
  | _ => None
  end.

Section Spec.
  Context {W : Type}.
  Context `{UserRepository W, SessionRepository W, FriendRepository W, MessageRepository W}.
  Context `{RoomRepository W, Clock W, Random W, Mktime, Environment W, Config}.

(** A login that the stores accepted puts the user on the connection and brings the stored
    friends and the waiting requests into the tables. *)
Definition login_calls (conn : Conn) (r : LoginResult) (token : string) : list sm_call :=
  let uid := ui_uid (ls_userInfo r) in
  if ls_success r then
    sm_authenticate conn uid token
    :: map (λ f, sm_addFriendship uid (ui_uid f)) (ls_friends r)
    ++ map (λ q, sm_addPending q uid) (ls_pendingRequests r)
  else [].

(** What a request does to the tables when the stores answer it in the world [w]. *)
Definition answered (conn : Conn) (a : Ask) (w : W) : list sm_call * list rm_call :=
  match a with
  | asks_login uid passwd =>
    let r := eval (login uid passwd node_id_) w in (login_calls conn r (ls_token r), [])
  | asks_loginWithToken token =>
    (login_calls conn (eval (loginWithToken token node_id_) w) token, [])
  | asks_createRoom uid name =>
    ([], if ro_success (eval (RoomService.createRoom name uid) w) then [rm_createRoom name uid] else [])
  | asks_joinRoom uid name =>
    ([], if ro_success (eval (RoomService.joinRoom name uid) w) then [rm_joinRoom name uid] else [])
  | asks_friend requester target => ([sm_addPending requester target], [])
  | asks_reply requester responder accepted =>
    ((if (accepted : bool) then [sm_addFriendship requester responder] else [])
     ++ [sm_removePending requester responder], [])
  | asks_unfriend uid target => ([sm_removeFriendship uid target], [])
  end.

Definition spec_step (l : label W) (S : Spec) : option Spec :=
  let m := sp_sessions S in
  match l with
  | l_up conn => Some (mkSpec (run_call m (sm_connect conn)) (sp_rooms S) (sp_open S))
  | l_down conn => Some (mkSpec (run_call m (sm_disconnect conn)) (sp_rooms S) (sp_open S))
  | l_asked conn p =>
    let m' := match p with kLogoutReq _ => run_call m (sm_deauthenticate conn) | _ => m end in
    Some (mkSpec m' (sp_rooms S) (sp_open S ++ option_list (pair conn <$> asked conn p m)))
  | l_answered conn a w =>
    rest ← take_out (conn, a) (sp_open S);
    Some (mkSpec (run_calls (answered conn a w).1 m) (run_rm_calls (answered conn a w).2 (sp_rooms S)) rest)
  end.

Fixpoint spec_run (ls : list (label W)) (S : Spec) : option Spec :=
  match ls with
  | [] => Some S
  | l :: ls => S' ← spec_step l S; spec_run ls S'
  end.

(** The worlds a run goes through. *)
Fixpoint worlds (es : list event) (s : Server W) : list W :=
  world s :: match es with
             | [] => []
             | e :: es => match step e s with Some s' => worlds es s' | None => [] end
             end.

(** In the run [es] a request was received on [conn] that asked for [a]. *)
Definition asks_in (es : list event) (w : W) (conn : Conn) (a : Ask) : Prop :=
  ∃ es1 env es2 s1, es = es1 ++ Recv conn env :: es2 ∧ run es1 (start w) = Some s1 ∧
    asked conn (env_payload env) (sessionManager_ s1) = Some a.

(** In the run, [u] logged in and the stores listed [v] as a friend. *)
Definition login_lists (es : list event) (w : W) (u v : string) : Prop :=
  ∃ conn r w', w' ∈ worlds es (start w) ∧
    ((∃ uid passwd, asks_in es w conn (asks_login uid passwd) ∧ r = eval (login uid passwd node_id_) w') ∨
     (∃ token, asks_in es w conn (asks_loginWithToken token) ∧ r = eval (loginWithToken token node_id_) w')) ∧
    ls_success r = true ∧ ui_uid (ls_userInfo r) = u ∧ v ∈ map ui_uid (ls_friends r).

Definition befriended (es : list event) (w : W) (u v : string) : Prop :=
  (∃ conn, asks_in es w conn (asks_reply u v true)) ∨ login_lists es w u v.

Definition admitted (es : list event) (w : W) (room uid : string) : Prop :=
  ∃ conn, asks_in es w conn (asks_createRoom uid room) ∨ asks_in es w conn (asks_joinRoom uid room).
End Spec.

(** ** The work of the server as open requests *)

(** The request that a task serves; the other tasks do not change a table. *)
Definition task_ask (t : Task) : option (Conn * Ask) :=
  match t with
  | task_loginWithToken conn token => Some (conn, asks_loginWithToken token)
  | task_login conn uid passwd => Some (conn, asks_login uid passwd)
  | task_createRoom conn uid name => Some (conn, asks_createRoom uid name)
  | task_joinRoom conn uid name => Some (conn, asks_joinRoom uid name)
  | task_friendRequest conn from to _ => Some (conn, asks_friend from to)
  | task_friendResponse conn requester responder accepted =>
    Some (conn, asks_reply requester responder accepted)
  | task_friendRemove conn uid target => Some (conn, asks_unfriend uid target)
  | _ => None
  end.

(** The entries of the queues of all loops. *)
Definition queued {X} (q : gmap nat (list X)) : list X := concat (map snd (map_to_list q)).

Lemma queued_insert {X} (q : gmap nat (list X)) l xs :
  queued (<[l := xs]> q) ++ default [] (q !! l) ≡ₚ queued q ++ xs.
Proof.
  assert (∀ (q' : gmap nat (list X)) xs, q' !! l = None → queued (<[l := xs]> q') ≡ₚ xs ++ queued q') as Hnew.
  { intros q' xs' Hq'. unfold queued. by rewrite (map_to_list_insert q' l xs' Hq'). }
  destruct (q !! l) as [ys|] eqn:Hl; cbn [default from_option]; unfold id.
  - rewrite <- (insert_delete_id q l ys Hl) at 2. rewrite <- (insert_delete_eq q l xs).
    rewrite !Hnew by apply lookup_delete_eq. solve_Permutation.
  - rewrite Hnew by done. solve_Permutation.
Qed.

Lemma queued_nil {X} (q : gmap nat (list X)) : (∀ l, default [] (q !! l) = []) → queued q = [].
Proof.
  intros Hq. unfold queued. assert (Forall (λ p : nat * list X, p.2 = []) (map_to_list q)) as Hall.
  { apply Forall_forall. intros [l xs] Hin%elem_of_map_to_list. specialize (Hq l). by rewrite Hin in Hq. }
  induction Hall as [|[l xs] ps Hp _ IH]; [done|]. cbn in *. by subst.
Qed.

Section Simulation.
  Context {W : Type}.
  Context `{UserRepository W, SessionRepository W, FriendRepository W, MessageRepository W}.
  Context `{RoomRepository W, Clock W, Random W, Mktime, Environment W, Config}.
  Implicit Types s : Server W.

(** A continuation with the task and the world that it comes from. *)
Abbreviation Handed := (Cont * (Task * W))%type.

Definition handed_ok (Past : W → Prop) (h : Handed) : Prop :=
  let '(k, (t, w)) := h in Past w ∧ snd <$> eval (task_body t) w = Some k.

Definition handed_ask (h : Handed) : option (Conn * Ask) := task_ask h.2.1.

(** The server in a state of the machine: [done] are the queues of the loops with where
    each continuation comes from. *)
Definition follows (Past : W → Prop) (s : Server W) (S : Spec) : Prop :=
  sessionManager_ s = sp_sessions S ∧ roomManager_ s = sp_rooms S ∧
  ∃ done : gmap nat (list Handed),
    loops s = fmap (map fst) done ∧ Forall (handed_ok Past) (queued done) ∧
    sp_open S ≡ₚ omap task_ask (pool s) ++ omap task_ask (running s) ++ omap handed_ask (queued done).

(** ** Handlers and continuations *)

Lemma run_calls_map {A} (f : A → sm_call) (l : list A) m :
  run_calls (map f l) m = fold_left (λ m a, run_call m (f a)) l m.
Proof. revert m. induction l as [|a l IH]; intros m; [done|apply IH]. Qed.

Lemma run_calls_app cs1 cs2 m : run_calls (cs1 ++ cs2) m = run_calls cs2 (run_calls cs1 m).
Proof. apply fold_left_app. Qed.

Lemma login_calls_tables conn r token m :
  ls_success r = true → run_calls (login_calls conn r token) m = login_tables conn r token m.
Proof.
  intros Hr. unfold login_calls, login_tables. rewrite Hr. cbn [run_calls fold_left].
  change (fold_left run_call) with run_calls. by rewrite run_calls_app, !run_calls_map.
Qed.

(** A handler does to the tables and queues what the payload asks for. *)
Lemma onEnvelope_opens conn env s :
  let s' := exec (onEnvelope conn env) s in
  let m := sessionManager_ s in
  sessionManager_ s' = match env_payload env with
                       | kLogoutReq _ => run_call m (sm_deauthenticate conn) | _ => m end ∧
  roomManager_ s' = roomManager_ s ∧ running s' = running s ∧ loops s' = loops s ∧
  omap task_ask (pool s') =
    omap task_ask (pool s) ++ option_list (pair conn <$> asked conn (env_payload env) m).
Proof.
  cbv zeta. unfold onEnvelope. destruct (env_payload env) as [r|r|r|r|r|r|r|r|r|r|r|];
    unfold handleLogin, handleLogout, handleRegister, handleChatMessage, handleCreateRoom,
      handleJoinRoom, handleFriendRequest, handleFriendResponse, handleFriendRemove, handleRecall;
    cbn [asked]; cbv zeta; autorewrite with chat.
  1: destruct (empty_string (lr_token r)), (empty_string (lr_passwd r)), (empty_string (lr_uid r));
       cbn [negb andb orb]; autorewrite with chat.
  all: try destruct (isAuthenticated conn (sessionManager_ s)); cbn [negb]; autorewrite with chat;
    repeat (match goal with |- context [if ?b then _ else _] => destruct b end; autorewrite with chat);
    cbn [sessionManager_ roomManager_ running loops pool set_pool set_sm set_out
      fmap option_fmap option_map option_list option_rect];
    by rewrite ?omap_app, ?app_nil_r.
Qed.

(** A continuation does to the tables what its request does when it is answered, and the
    task it may queue is not a request. *)
Lemma cont_body_answers t w conn k s :
  eval (task_body t) w = Some (conn, k) →
  let s' := exec (cont_body k) s in
  (sessionManager_ s', roomManager_ s') =
  match task_ask t with
  | Some (c, a) => (run_calls (answered c a w).1 (sessionManager_ s),
                    run_rm_calls (answered c a w).2 (roomManager_ s))
  | None => (sessionManager_ s, roomManager_ s)
  end.
Proof.
  assert (∀ c r token, (sessionManager_ (exec (login_done c r token) s), roomManager_ (exec (login_done c r token) s)) =
    (run_calls (login_calls c r token) (sessionManager_ s), roomManager_ s)) as Hlogin.
  { intros c r token. destruct (ls_success r) eqn:Hr.
    - by rewrite login_calls_tables, exec_login_done by done.
    - unfold login_done, login_calls. by rewrite Hr. }
  intros Hk. cbv zeta. destruct t; cbn [task_body task_ask] in *; autorewrite with chat in Hk; cbn in Hk;
    simplify_eq; cbn [cont_body answered fst snd run_calls fold_left run_rm_calls].
  - apply Hlogin.
  - apply Hlogin.
  - done.
  - rewrite exec_sendMessage_done. unfold chat_effect. repeat case_match; done.
  - by destruct (ro_success _).
  - by destruct (ro_success _).
  - autorewrite with chat. by destruct (getConnection _ _).
  - destruct accepted; autorewrite with chat; destruct (getConnection _ _); by autorewrite with chat.
  - autorewrite with chat. destruct (getConnection _ _); by autorewrite with chat.
  - unfold recall_done. destruct (negb _); [done|]. autorewrite with chat.
    destruct (negb (empty_string to)); [|destruct (negb (empty_string room)); rewrite ?exec_broadcast; done].
    autorewrite with chat. destruct (getConnection _ _); by autorewrite with chat.
Qed.

Lemma cheap_tasks_ask ts : (sum_list (map task_cost ts) <= 2)%nat → omap task_ask ts = [].
Proof.
  induction ts as [|t ts IH]; [done|]. intros Hc. change (task_cost t + sum_list (map task_cost ts) <= 2)%nat in Hc.
  destruct t; cbn [task_cost] in Hc; try lia; apply IH; lia.
Qed.
(** ** The simulation *)

Definition answered_in (Past : W → Prop) (l : label W) : Prop :=
  match l with l_answered _ _ w => Past w | _ => True end.

(** The machine makes these moves for an event of the server. *)
Definition answers (Past : W → Prop) (e : event) (S : Spec) (s' : Server W) : Prop :=
  ∃ l S', spec_run (option_list l) S = Some S' ∧ omap arrives (option_list l) = option_list (received e) ∧
    Forall (answered_in Past) (option_list l) ∧ follows Past s' S'.

Lemma answers_one Past e (l : label W) S S' s' :
  received e = Some l → spec_step l S = Some S' → follows Past s' S' → answers Past e S s'.
Proof.
  intros He Hl Hs'. exists (Some l), S'. cbn [spec_run option_list option_rect]. rewrite Hl, He. split; [done|].
  destruct e; cbn in He; simplify_eq; (split; [done|]; split; [by repeat constructor|done]).
Qed.

Lemma answers_none Past e S s' : @received W e = None → follows Past s' S → answers Past e S s'.
Proof. intros He Hs'. exists None, S. by rewrite He. Qed.

Lemma follows_recv Past conn env s S :
  follows Past s S →
  ∃ S', spec_step (l_asked conn (env_payload env)) S = Some S' ∧
    follows Past (exec (onEnvelope conn env) s) S'.
Proof.
  intros (Hm & Hr & done & Hl & Hok & Hopen). eexists. split; [reflexivity|].
  destruct (onEnvelope_opens conn env s) as (Hm' & Hr' & Hrun & Hl' & Hp').
  split; [by rewrite Hm', Hm|]. split; [by rewrite Hr'|]. exists done.
  rewrite Hl', Hrun, Hp', <- Hm. split; [done|]. split; [done|]. cbn [sp_open]. rewrite Hopen. solve_Permutation.
Qed.

(** A task that is finished hands its request to its continuation. *)
Lemma follows_finish Past i t s S :
  Past (world s) → running s !! i = Some t → follows Past s S →
  follows Past (exec (run_task t) (set_running (delete i (running s)) s)) S.
Proof.
  intros Hpast Ht (Hm & Hr & done & Hl & Hok & Hopen). unfold run_task.
  rewrite exec_bind, eval_call_world, exec_call_world. cbn [world set_running].
  rewrite (delete_Permutation _ _ _ Ht) in Hopen. cbn [omap list_omap] in Hopen.
  destruct (eval (task_body t) (world s)) as [[conn k]|] eqn:Hk.
  - unfold runInLoop. rewrite exec_modify. cbn [loops set_world set_running]. split; [done|]. split; [done|].
    set (h := (k, (t, world s))).
    exists (<[getLoop conn := default [] (done !! getLoop conn) ++ [h]]> done).
    cbn [loops set_loops pool running set_world set_running].
    pose proof (queued_insert done (getLoop conn) (default [] (done !! getLoop conn) ++ [h])) as Hq.
    assert (queued (<[getLoop conn := default [] (done !! getLoop conn) ++ [h]]> done) ≡ₚ h :: queued done) as Hq'.
    { apply (Permutation_app_inv_r (default [] (done !! getLoop conn))). rewrite Hq. solve_Permutation. }
    split_and!.
    + rewrite Hl, fmap_insert, lookup_fmap. f_equal. by destruct (done !! getLoop conn); cbn; rewrite ?map_app.
    + rewrite Hq'. constructor; [|done]. split; [done|]. by rewrite Hk.
    + rewrite Hopen, Hq'. cbn [omap list_omap]. unfold handed_ask at 2. cbn [h snd fst].
      destruct (task_ask t); [|done]. solve_Permutation.
  - split; [done|]. split; [done|]. exists done. split; [done|]. split; [done|].
    cbn [pool running set_world set_running]. rewrite Hopen.
    destruct t; cbn [task_body] in Hk; autorewrite with chat in Hk; try done; cbn in Hk; discriminate.
Qed.

(** A continuation that runs answers its request. *)
Lemma follows_loop Past l k rest s S :
  loops s !! l = Some (k :: rest) → follows Past s S →
  answers Past (RunLoop l) S (exec (cont_body k) (set_loops (<[l := rest]> (loops s)) s)).
Proof.
  intros Hlk (Hm & Hr & done & Hl & Hok & Hopen).
  rewrite Hl, lookup_fmap in Hlk. destruct (done !! l) as [[|[k' [t w]] hs]|] eqn:Hd; try discriminate Hlk.
  cbn in Hlk. simplify_eq/=. set (s1 := set_loops _ s). set (h := (k, (t, w))) in *.
  assert (queued done ≡ₚ h :: queued (<[l := hs]> done)) as Hq.
  { apply (Permutation_app_inv_r hs). rewrite <- (queued_insert done l hs), Hd. solve_Permutation. }
  rewrite Hq in Hok, Hopen. apply Forall_cons in Hok as [[Hpast Hk] Hok']. cbn [omap list_omap] in Hopen.
  destruct (eval (task_body t) w) as [[conn k']|] eqn:Hbody; [|done]. cbn in Hk. simplify_eq.
  pose proof (cont_body_answers t w conn k s1 Hbody) as Htab. cbv zeta in Htab.
  destruct (cont_body_queues k s1) as (Hrun' & Hl' & ts & Hp' & _ & Hts). apply cheap_tasks_ask in Hts.
  assert (∀ S', sessionManager_ (exec (cont_body k) s1) = sp_sessions S' →
    roomManager_ (exec (cont_body k) s1) = sp_rooms S' →
    sp_open S' ≡ₚ omap task_ask (pool s) ++ omap task_ask (running s) ++ omap handed_ask (queued (<[l := hs]> done)) →
    follows Past (exec (cont_body k) s1) S') as Hfollows.
  { intros S' Hm' Hr' Ho'. split; [done|]. split; [done|]. exists (<[l := hs]> done).
    rewrite Hl', Hp', Hrun'. cbn [loops pool running s1 set_loops]. rewrite Hl, fmap_insert. split; [done|].
    split; [done|]. by rewrite omap_app, Hts, app_nil_r. }
  unfold handed_ask at 1 in Hopen. cbn [h snd fst] in Hopen.
  destruct (task_ask t) as [[c a]|].
  - destruct (take_out_perm (c, a) (sp_open S) (omap task_ask (pool s) ++ omap task_ask (running s)
      ++ omap handed_ask (queued (<[l := hs]> done)))) as (open' & Htake & Hopen'); [rewrite Hopen; solve_Permutation|].
    eexists (Some (l_answered c a w)), _. cbn [spec_run spec_step option_list option_rect]. rewrite Htake. cbn [mbind option_bind].
    split; [reflexivity|]. split; [done|]. split; [by repeat constructor|].
    cbn [sessionManager_ roomManager_ s1 set_loops] in Htab. apply pair_eq in Htab as [Hm' Hr'].
    apply Hfollows; cbn [sp_sessions sp_rooms sp_open]; [by rewrite Hm', Hm|by rewrite Hr', Hr|done].
  - apply answers_none; [done|]. cbn [sessionManager_ roomManager_ s1 set_loops] in Htab. apply pair_eq in Htab as [Hm' Hr'].
    apply Hfollows; [by rewrite Hm'|by rewrite Hr'|done].
Qed.

Lemma follows_step Past e s s' S :
  Past (world s) → follows Past s S → step e s = Some s' → answers Past e S s'.
Proof.
  intros Hpast Hs Hstep. assert (∀ S', follows Past s S' → follows Past s S') as Hid by auto.
  destruct e as [c|c|c env| |i|l|n]; cbn [step] in Hstep.
  - case_decide; [done|]. simplify_eq. destruct Hs as (Hm & Hr & Hd).
    eapply answers_one; [done|reflexivity|]. split; [|by split]. cbn. by rewrite Hm.
  - case_decide; [|done]. simplify_eq. destruct Hs as (Hm & Hr & Hd).
    eapply answers_one; [done|reflexivity|]. split; [|by split]. cbn. by rewrite Hm.
  - case_decide; [|done]. apply with_room_Some in Hstep as [-> _].
    destruct (follows_recv Past c env s S Hs) as (S' & HS' & Hs'). by eapply answers_one.
  - apply answers_none; [done|]. destruct (pool s) as [|t rest] eqn:Hp; [done|]. case_match; simplify_eq.
    destruct Hs as (Hm & Hr & done & Hl & Hok & Hopen). split; [done|]. split; [done|]. exists done.
    split; [done|]. split; [done|]. rewrite Hopen, Hp. cbn [pool running set_running set_pool]. rewrite omap_app.
    cbn [omap list_omap]. destruct (task_ask t); solve_Permutation.
  - apply answers_none; [done|]. destruct (running s !! i) as [t|] eqn:Ht; simplify_eq. by apply follows_finish.
  - destruct (loops s !! l) as [[|k rest]|] eqn:Hl; try done. apply with_room_Some in Hstep as [-> _].
    by apply follows_loop.
  - apply answers_none; [done|]. by simplify_eq.
Qed.
(** ** Runs *)

Lemma worlds_snoc es e s s1 s' :
  run es s = Some s1 → step e s1 = Some s' → worlds (es ++ [e]) s = worlds es s ++ [world s'].
Proof.
  revert s. induction es as [|e0 es IH]; intros s Hrun Hstep; cbn in Hrun |- *.
  - simplify_eq. by rewrite Hstep.
  - destruct (step e0 s) as [s2|]; [|done]. f_equal. by apply IH.
Qed.

Lemma world_in_worlds es s s' : run es s = Some s' → world s' ∈ worlds es s.
Proof.
  revert s. induction es as [|e es IH]; intros s Hrun; cbn in Hrun |- *; [simplify_eq; left|].
  destruct (step e s) as [s1|]; [|done]. right. by apply IH.
Qed.

Lemma spec_run_app ls1 ls2 S : spec_run ls1 S ≫= spec_run ls2 = spec_run (ls1 ++ ls2) S.
Proof.
  revert S. induction ls1 as [|l ls1 IH]; intros S; [done|]. cbn.
  destruct (spec_step l S) as [S1|]; [|done]. cbn. apply IH.
Qed.

Lemma follows_mono (Past Past' : W → Prop) s S :
  (∀ w, Past w → Past' w) → follows Past s S → follows Past' s S.
Proof.
  intros Hp (Hm & Hr & done & Hl & Hok & Hopen). split; [done|]. split; [done|]. exists done.
  split; [done|]. split; [|done]. eapply Forall_impl; [exact Hok|]. intros [k [t w]] [Hw Hk]. split; [by apply Hp|done].
Qed.

(** A predicate on states of the machine that its moves keep is reached along every run. *)
Lemma run_follows (w : W) (I : list event → Spec → Prop) :
  I [] spec_start →
  (∀ es s e s' S, run es (start w) = Some s → step e s = Some s' →
     sessionManager_ s = sp_sessions S → I es S → I (es ++ [e]) S) →
  (∀ es s e s' S l S', run es (start w) = Some s → step e s = Some s' →
     sessionManager_ s = sp_sessions S → I es S → arrives l = received e →
     answered_in (λ w', w' ∈ worlds es (start w)) l → spec_step l S = Some S' → I (es ++ [e]) S') →
  ∀ es s, run es (start w) = Some s →
  ∃ ls S, spec_run ls spec_start = Some S ∧ omap arrives ls = omap received es ∧
    Forall (answered_in (λ w', w' ∈ worlds es (start w))) ls ∧
    follows (λ w', w' ∈ worlds es (start w)) s S ∧ I es S.
Proof.
  intros HI0 HInone HI es. induction es as [|e es IH] using rev_ind; intros s Hrun.
  - cbn in Hrun. simplify_eq. exists [], spec_start. do 3 (split; [done|]). split; [|done].
    do 2 (split; [done|]). exists ∅. by rewrite fmap_empty.
  - rewrite run_app in Hrun. destruct (run es (start w)) as [s1|] eqn:Hrun1; [|done]. cbn in Hrun.
    destruct (step e s1) as [s2|] eqn:Hstep; [|done]. cbn in Hrun. simplify_eq.
    destruct (IH s1 eq_refl) as (ls & S & Hspec & Harr & Hpast & Hf & Hinv).
    destruct (follows_step _ e s1 s S (world_in_worlds _ _ _ Hrun1) Hf Hstep)
      as (l & S' & Hspec' & Harr' & Hpast' & Hf').
    assert (∀ w', w' ∈ worlds es (start w) → w' ∈ worlds (es ++ [e]) (start w)) as Hmono.
    { intros w' Hw'. rewrite (worlds_snoc _ _ _ _ _ Hrun1 Hstep). apply elem_of_app. by left. }
    assert (∀ l : label W, answered_in (λ w', w' ∈ worlds es (start w)) l →
      answered_in (λ w', w' ∈ worlds (es ++ [e]) (start w)) l) as Hmono' by (intros []; cbn; auto).
    exists (ls ++ option_list l), S'. rewrite <- spec_run_app, Hspec. split; [done|].
    split; [rewrite !omap_app, Harr, Harr'; by destruct e|]. split; [|split].
    + apply Forall_app. split; by eapply Forall_impl.
    + by apply (follows_mono _ _ s S' Hmono Hf').
    + destruct Hf as (Hm & _). clear Hf' Hmono Hmono'. destruct l as [l|]; cbn in Hspec'; [|simplify_eq; by apply (HInone es s1 e s)].
      destruct (spec_step l S) as [S1|] eqn:Hl; simplify_eq/=. inversion_clear Hpast'.
      apply (HI es s1 e s S l); try done. clear - Harr'. destruct (arrives l), (received e); cbn in Harr'; congruence.
Qed.

(** ** Theorems *)

(** C17. The server carries out the machine of requests: every run, however the requests of
    all connections interleave in the task queue, the workers and the loops, leaves the two
    tables exactly as the machine leaves them, which receives the same connections,
    disconnections and payloads in the same order, and answers every request at most once,
    as the services answer it in a world that the run went through.  When the server is at
    rest, every request has been answered. *)
Theorem server_follows_requests w es s :
  run es (start w) = Some s →
  ∃ ls S, spec_run ls spec_start = Some S ∧ omap arrives ls = omap received es ∧
    (∀ conn a w', l_answered conn a w' ∈ ls → w' ∈ worlds es (start w)) ∧
    sessionManager_ s = sp_sessions S ∧ roomManager_ s = sp_rooms S ∧
    (at_rest s → sp_open S = []).
Proof.
  intros Hrun. destruct (run_follows w (λ _ _, True)) with es s
    as (ls & S & Hspec & Harr & Hpast & (Hm & Hr & hs & Hl & _ & Hopen) & _); auto.
  exists ls, S. do 2 (split; [done|]). split.
  { intros conn a w' Hin. by apply (proj1 (Forall_forall _ _) Hpast) in Hin. }
  do 2 (split; [done|]). intros (Hp & Hrest & Hloops). apply Permutation_nil_r. rewrite Hopen, Hp, Hrest.
  rewrite queued_nil; [done|]. intros l. specialize (Hloops l). rewrite Hl, lookup_fmap in Hloops.
  destruct (hs !! l) as [[|]|]; [done|discriminate Hloops|done].
Qed.

(** ** Where friends and members come from *)

Lemma run_calls_friends cs m u v :
  v ∈ getFriends u (run_calls cs m) →
  v ∈ getFriends u m ∨ sm_addFriendship u v ∈ cs ∨ sm_addFriendship v u ∈ cs.
Proof.
  revert m. induction cs as [|c cs IH]; intros m Hv; [by left|].
  destruct (IH _ Hv) as [Hv'|[Hin|Hin]]; [|right; left; by right|right; right; by right].
  pose proof (run_call_friendships m c) as Hother.
  destruct c; try (left; rewrite getFriends_entry, Hother, <- getFriends_entry in Hv'; exact Hv'); cbn in Hv'.
  - apply elem_of_addFriendship in Hv'. rewrite !elem_of_cons. naive_solver.
  - apply elem_of_removeFriendship in Hv'. tauto.
Qed.

Lemma run_rm_calls_members cs r room u :
  isInRoom room u (run_rm_calls cs r) = true →
  isInRoom room u r = true ∨ rm_createRoom room u ∈ cs ∨ rm_joinRoom room u ∈ cs ∨
  rm_addRoomMember room u ∈ cs.
Proof.
  revert r. induction cs as [|c cs IH]; intros r Hv; [by left|]. rewrite !elem_of_cons.
  destruct (IH _ Hv) as [Hv'|Hin]; [|naive_solver]. clear IH Hv.
  pose proof (room_view_step room u r c) as Hstep. unfold room_view in Hstep.
  rewrite Hv' in Hstep.
  destruct c as [n x|n x|n x|n x|n x]; cbn [member_step] in Hstep;
    repeat (match type of Hstep with context [bool_decide ?P] => destruct (bool_decide_reflect P) end);
    destruct (RoomManager.roomExists room r), (isInRoom room u r); cbn in Hstep; naive_solver.
Qed.

Section Sources.
  Context (w : W).

Definition accounted (es : list event) (S : Spec) : Prop :=
  (∀ conn a, (conn, a) ∈ sp_open S → asks_in es w conn a) ∧
  (∀ room u, isInRoom room u (sp_rooms S) = true → admitted es w room u) ∧
  (∀ u v, v ∈ getFriends u (sp_sessions S) → befriended es w u v ∨ befriended es w v u).

Lemma asks_in_snoc es e conn a : asks_in es w conn a → asks_in (es ++ [e]) w conn a.
Proof.
  intros (es1 & env & es2 & s1 & -> & Hrun & Ha). exists es1, env, (es2 ++ [e]), s1.
  by rewrite <- app_assoc.
Qed.

Lemma asks_in_last es s conn env a :
  run es (start w) = Some s → asked conn (env_payload env) (sessionManager_ s) = Some a →
  asks_in (es ++ [Recv conn env]) w conn a.
Proof. intros Hrun Ha. by exists es, env, [], s. Qed.

Lemma login_lists_snoc es e s s' u v :
  run es (start w) = Some s → step e s = Some s' → login_lists es w u v → login_lists (es ++ [e]) w u v.
Proof.
  intros Hrun Hstep (conn & r & w' & Hw & Hr & Hrest). exists conn, r, w'.
  split; [rewrite (worlds_snoc _ _ _ _ _ Hrun Hstep); apply elem_of_app; by left|]. split; [|done].
  destruct Hr as [(uid & passwd & Ha & ->)|(token & Ha & ->)]; [left|right]; eauto using asks_in_snoc.
Qed.

(** An answer adds friends and members only where its request or the stores name them. *)
Lemma answered_befriends es conn a w' u v :
  asks_in es w conn a → w' ∈ worlds es (start w) →
  sm_addFriendship u v ∈ (answered conn a w').1 → befriended es w u v.
Proof.
  intros Ha Hw Hin.
  assert (∀ r token, sm_addFriendship u v ∈ login_calls conn r token →
    ls_success r = true ∧ ui_uid (ls_userInfo r) = u ∧ v ∈ map ui_uid (ls_friends r)) as Hlogin.
  { intros r token Hr. unfold login_calls in Hr. destruct (ls_success r); [|by apply not_elem_of_nil in Hr].
    rewrite elem_of_cons, elem_of_app, !list_elem_of_fmap in Hr. split; [done|].
    destruct Hr as [?|[(f & ? & Hf)|(q & ? & _)]]; simplify_eq. split; [done|]. by apply list_elem_of_fmap_2. }
  destruct a; cbn [answered fst] in Hin.
  - right. eexists conn, _, w'. split; [done|]. split; [left; eauto|]. by eapply Hlogin.
  - right. eexists conn, _, w'. split; [done|]. split; [right; eauto|]. by eapply Hlogin.
  - by apply not_elem_of_nil in Hin.
  - by apply not_elem_of_nil in Hin.
  - by apply list_elem_of_singleton in Hin.
  - left. exists conn. destruct accepted; cbn in Hin; rewrite ?elem_of_cons, elem_of_nil in Hin; naive_solver.
  - by apply list_elem_of_singleton in Hin.
Qed.

Lemma answered_admits es conn a w' room u :
  asks_in es w conn a →
  rm_createRoom room u ∈ (answered conn a w').2 ∨ rm_joinRoom room u ∈ (answered conn a w').2 ∨
  rm_addRoomMember room u ∈ (answered conn a w').2 → admitted es w room u.
Proof.
  intros Ha Hin. exists conn. destruct a; cbn [answered snd] in Hin; try destruct (ro_success _);
    rewrite ?list_elem_of_singleton, ?elem_of_nil in Hin; naive_solver.
Qed.

Lemma accounted_more es s e s' S :
  run es (start w) = Some s → step e s = Some s' → accounted es S → accounted (es ++ [e]) S.
Proof.
  intros Hrun Hstep (Ho & Hr & Hf).
  assert (∀ u v, befriended es w u v → befriended (es ++ [e]) w u v) as Hb.
  { intros u v [[conn Ha]|Hl]; [left; eauto using asks_in_snoc|right; by eapply login_lists_snoc]. }
  split; [auto using asks_in_snoc|]. split.
  - intros room u Hin. destruct (Hr _ _ Hin) as (conn & [Ha|Ha]); exists conn; auto using asks_in_snoc.
  - intros u v Hv. destruct (Hf _ _ Hv); auto.
Qed.

Lemma accounted_step es s e s' S l S' :
  run es (start w) = Some s → step e s = Some s' → sessionManager_ s = sp_sessions S →
  accounted es S → arrives l = received e → answered_in (λ w', w' ∈ worlds es (start w)) l →
  spec_step l S = Some S' → accounted (es ++ [e]) S'.
Proof.
  intros Hrun Hstep Hm Hacc He Hpast Hl. apply (accounted_more es s e s' S Hrun Hstep) in Hacc as (Ho & Hr & Hf).
  assert (∀ c m, match c with sm_addFriendship _ _ => False | _ => True end →
    ∀ u v, v ∈ getFriends u (run_call m c) → v ∈ getFriends u m) as Hplain.
  { intros c m Hc u v Hv. destruct (run_calls_friends [c] m u v Hv) as [|[Hin|Hin]]; [done|..];
      apply list_elem_of_singleton in Hin; by subst. }
  destruct l as [c|c|c p|c a w']; cbn [spec_step] in Hl; simplify_eq; cbn [sp_open sp_rooms sp_sessions].
  - split; [done|]. split; [done|]. intros u v Hv. apply Hf. by apply (Hplain (sm_connect c)).
  - split; [done|]. split; [done|]. intros u v Hv. apply Hf. by apply (Hplain (sm_disconnect c)).
  - destruct e as [| |c' env| | | |]; cbn in He; try discriminate He. injection He as -> ->.
    split; [|split; [done|]].
    + intros conn a [Hin|Hin]%elem_of_app; [by apply Ho|].
      destruct (asked c' (env_payload env) (sp_sessions S)) as [b|] eqn:Ha; cbn in Hin; [|by apply not_elem_of_nil in Hin].
      apply list_elem_of_singleton in Hin. simplify_eq. apply (asks_in_last es s); [done|]. by rewrite Hm.
    + intros u v Hv. apply Hf. destruct (env_payload env); try done. by apply (Hplain (sm_deauthenticate c')).
  - destruct (take_out (c, a) (sp_open S)) as [rest|] eqn:Ht; cbn in Hl; simplify_eq.
    apply take_out_Some in Ht.
    assert (asks_in (es ++ [e]) w c a) as Ha by (apply Ho; rewrite Ht; left).
    assert (w' ∈ worlds (es ++ [e]) (start w)) as Hw.
    { rewrite (worlds_snoc _ _ _ _ _ Hrun Hstep). apply elem_of_app. by left. }
    split; [intros conn b Hin; apply Ho; rewrite Ht; by right|]. split.
    + intros room u [Hin|Hin]%run_rm_calls_members; [by apply Hr|]. by eapply answered_admits.
    + intros u v [Hin|[Hin|Hin]]%run_calls_friends; [by apply Hf|left|right]; by eapply answered_befriends.
Qed.
End Sources.

(** C27. Where the tables come from: whoever is in a room asked to create or to join it on a
    connection that was logged in as that user; two users are friends in the table only
    when a logged-in connection sent an acceptance that names them, or when one of them
    logged in and the stores, in a world of the run, listed the other. *)
Theorem tables_accounted w es s :
  run es (start w) = Some s →
  (∀ room u, isInRoom room u (roomManager_ s) = true → admitted es w room u) ∧
  (∀ u v, v ∈ getFriends u (sessionManager_ s) → befriended es w u v ∨ befriended es w v u).
Proof.
  intros Hrun. destruct (run_follows w (accounted w)) with es s
    as (ls & S & _ & _ & _ & (Hm & Hr & _) & _ & Hrooms & Hfriends); eauto using accounted_more, accounted_step.
  - split; [|split]; cbn; intros *.
    + by intros ?%not_elem_of_nil.
    + done.
    + by intros ?%not_elem_of_empty.
  - by rewrite Hm, Hr.
Qed.
End Simulation.

(** ** The theorems at work on the world in memory *)

(** Alice logs in, answers a request in bob's name and opens a room. *)
Definition open_den : Envelope := mkEnvelope "" (kCreateRoom (mkCreateRoom "den" "")).

Definition den_events : list event :=
  Connect 1%nat :: serve 1%nat login_alice ++ serve 1%nat forged ++ serve 1%nat open_den.

Definition den : Server MemWorld := get (run den_events (start mem_two)).

Example den_tables :
  isInRoom "den" "alice" (roomManager_ den) = true ∧
  bool_decide ("bob"%string ∈ getFriends "carol" (sessionManager_ den)) = true.
Proof. vm_compute. by split. Qed.

Lemma server_follows_requests_witness :
  ∃ ls S, spec_run ls spec_start = Some S ∧ omap arrives ls = omap received den_events ∧
    roomManager_ den = sp_rooms S ∧ sp_open S = [].
Proof.
  destruct (server_follows_requests mem_two den_events den) as (ls & S & Hspec & Harr & _ & _ & Hr & Hrest).
  { apply some_default. vm_compute. reflexivity. }
  exists ls, S. refine (conj Hspec (conj Harr (conj Hr (Hrest _)))).
  split; [vm_compute; reflexivity|]. split; [vm_compute; reflexivity|]. intros l.
  assert (loops den = {[0%nat := []]}) as -> by (vm_compute; reflexivity).
  rewrite lookup_singleton. by case_decide.
Defined.

Lemma tables_accounted_witness : admitted den_events mem_two "den" "alice".
Proof.
  apply (tables_accounted mem_two den_events den); [|vm_compute; reflexivity].
  apply some_default. vm_compute. reflexivity.
Defined.
