(* ===== verification/ServerLiveness.v ===== *)
(** What the transition system of [ChatServer] guarantees about time: requests are answered
    however the work of other connections interleaves. *)

From S2P Require Import Prelude Machine Proto SessionManager RoomManager Repositories MemWorld.
From S2P Require Import LoginService ChatService FriendService RoomService.
From S2P Require Import ChatServer ChatServerFacts ChatServerTheorems.

Local Open Scope Z_scope.

(** ** Notions used in the statements *)

(** The requests that are answered: whatever a connection says about its login, and, from
    a connection that is logged in, private messages, recalls, answers to friend requests
    and removals of friends.  (The server is silent about rooms that were created or
    joined, and a room message is sent to the members only.) *)
Definition expects_answer (authenticated : bool) (p : Envelope_payload) : bool :=
  match p with
  | kLoginReq _ | kLogoutReq _ | kRegisterReq _ => true
  | kChatMsg m => authenticated && negb (empty_string (cm_to m))
  | kFriendResp _ | kFriendRemove _ | kRecallMsg _ => authenticated
  | _ => false
  end.

(** Deferred work that ends in a message to [conn]. *)
Definition task_answers (conn : Conn) (t : Task) : Prop :=
  match t with
  | task_loginWithToken c _ | task_login c _ _ | task_register c _ _ _ _
  | task_friendResponse c _ _ _ | task_friendRemove c _ _ | task_recall c _ _ _ _ => c = conn
  | task_sendMessage c _ to _ _ => c = conn ∧ empty_string to = false
  | _ => False
  end.

Definition cont_answers (conn : Conn) (k : Cont) : Prop :=
  match k with
  | cont_loginWithToken c _ _ | cont_login c _ | cont_register c _
  | cont_friendResponse c _ _ _ | cont_friendRemove c _ _ | cont_recall c _ _ _ _ _ => c = conn
  | cont_sendMessage c _ to _ _ _ => c = conn ∧ empty_string to = false
  | _ => False
  end.

(** An answer to [conn] is under way. *)
Definition owed {W} (conn : Conn) (s : Server W) : Prop :=
  Exists (task_answers conn) (pool s) ∨ Exists (task_answers conn) (running s) ∨
  ∃ l, Exists (cont_answers conn) (default [] (loops s !! l)).

(** Since the actions [o], something was sent to [conn]. *)
Definition told {W} (o : list Action) (conn : Conn) (s : Server W) : Prop :=
  ∃ new m, out s = o ++ new ∧ Send conn m ∈ new.

Definition grown {W} (o : list Action) (s : Server W) : Prop := ∃ new, out s = o ++ new.

(** ** What is sent stays sent *)

Section Liveness.
  Context {W : Type}.
  Context `{UserRepository W, SessionRepository W, FriendRepository W, MessageRepository W}.
  Context `{RoomRepository W, Clock W, Random W, Mktime, Environment W, Config}.
  Implicit Types s : Server W.

Section Out.
  Context (I : list Action → Prop).
  Hypothesis HI : ∀ o a, I o → I (o ++ [a]).
  Abbreviation keeps := (λ s : Server W, I (out s)).

Lemma keeps_emit a : preserves keeps (emit a).
Proof. intros s Hs. by apply HI. Qed.

Lemma keeps_send conn m : preserves keeps (codec_send conn m).
Proof. apply keeps_emit. Qed.

Lemma keeps_error conn n r : preserves keeps (sendError conn n r).
Proof. apply keeps_emit. Qed.

Lemma keeps_call_sm f : preserves keeps (call_sm f).
Proof. by intros s Hs. Qed.

Lemma keeps_call_rooms f : preserves keeps (call_rooms f).
Proof. by intros s Hs. Qed.

Lemma keeps_ask_sm {B} (f : SessionManager → B) : preserves keeps (ask_sm f).
Proof. by intros s Hs. Qed.

Lemma keeps_run t : preserves keeps (threadPool_run t).
Proof. by intros s Hs. Qed.

Lemma keeps_call_world {B} (m : State W B) : preserves keeps (call_world m).
Proof. intros s Hs. by rewrite exec_call_world. Qed.

Lemma keeps_friendList conn : preserves keeps (sendFriendList conn).
Proof. intros s Hs. by apply HI. Qed.

Local Hint Resolve keeps_emit keeps_send keeps_error keeps_call_sm keeps_call_rooms keeps_ask_sm
  keeps_run keeps_call_world keeps_friendList : chat.

Lemma keeps_onEnvelope conn env : preserves keeps (onEnvelope conn env).
Proof.
  unfold onEnvelope, handleLogin, handleLogout, handleRegister, handleChatMessage,
    handleCreateRoom, handleJoinRoom, handleFriendRequest, handleFriendResponse,
    handleFriendRemove, handleRecall. cbv zeta. preserve.
Qed.

Lemma keeps_cont_body k : preserves keeps (cont_body k).
Proof.
  destruct k; cbn [cont_body]; unfold login_done, sendPendingRequests, sendOfflineMessages,
    sendMessage_done, recall_done, broadcast; cbv zeta; preserve.
  all: intros s Hs; exact Hs.
Qed.

Lemma keeps_step e s s' : step e s = Some s' → I (out s) → I (out s').
Proof.
  intros Hstep Hs. destruct e as [c|c|c env| |i|l|n]; cbn [step] in Hstep.
  - case_decide; by simplify_eq.
  - case_decide; by simplify_eq.
  - case_decide; [|done]. apply with_room_Some in Hstep as [-> _]. by apply keeps_onEnvelope.
  - destruct (pool s); [done|]. case_match; by simplify_eq.
  - destruct (running s !! i) as [t|]; simplify_eq. unfold run_task.
    rewrite exec_bind, exec_call_world. by destruct (eval _ _) as [[c k]|].
  - destruct (loops s !! l) as [[|k rest]|]; try done. apply with_room_Some in Hstep as [-> _].
    by apply keeps_cont_body.
  - by simplify_eq.
Qed.

End Out.

(** ** Obligations are kept until they are met *)

Lemma grown_step o e s s' : step e s = Some s' → grown o s → grown o s'.
Proof.
  intros Hstep. apply (keeps_step (λ o', ∃ new, o' = o ++ new)) with e; [|done].
  intros o' a [new ->]. exists (new ++ [a]). by rewrite app_assoc.
Qed.

Lemma told_step o conn e s s' : step e s = Some s' → told o conn s → told o conn s'.
Proof.
  intros Hstep. apply (keeps_step (λ o', ∃ new m, o' = o ++ new ∧ Send conn m ∈ new)) with e; [|done].
  intros o' a (new & m & -> & Hm). exists (new ++ [a]), m. rewrite app_assoc. set_solver.
Qed.

Lemma told_grown o conn s s' : grown o s → told (out s) conn s' → told o conn s'.
Proof.
  intros [new1 Hs] (new & m & Hs' & Hm). exists (new1 ++ new), m. rewrite Hs', Hs, app_assoc. set_solver.
Qed.

(** Show a message to the connection among the actions of an evaluated handler. *)
Ltac tells := eexists _, _; split;
  [cbn; rewrite <- ?app_assoc; reflexivity
  |rewrite ?elem_of_app, ?elem_of_cons; eauto 12].

(** The continuation that owes an answer gives it. *)
Lemma cont_tells conn k s : cont_answers conn k → told (out s) conn (exec (cont_body k) s).
Proof.
  assert (∀ c r t, told (out s) c (exec (login_done c r t) s)) as Hlogin.
  { intros c r t. destruct (ls_success r) eqn:Hr.
    - rewrite exec_login_done by done. tells.
    - unfold login_done. rewrite Hr. tells. }
  destruct k as [c r t|c r|c ok|c f t r x res|c u n res|c u n res|c f t m|c r t a|c u t|c u i t r res];
    cbn [cont_answers cont_body]; intros Hk; try done.
  - subst. apply Hlogin.
  - subst. apply Hlogin.
  - subst. tells.
  - destruct Hk as [-> Ht]. rewrite exec_sendMessage_done. unfold chat_effect.
    destruct (negb (sm_success res)).
    { tells. }
    rewrite Ht. cbn [negb]. cbv zeta. destruct (getConnection _ _); tells.
  - subst. destruct a; autorewrite with chat; destruct (getConnection _ _); autorewrite with chat; tells.
  - subst. autorewrite with chat; destruct (getConnection _ _); autorewrite with chat; tells.
  - subst. unfold recall_done. destruct (negb (rc_success res)).
    { tells. }
    autorewrite with chat. destruct (negb (empty_string t)).
    + autorewrite with chat. destruct (getConnection _ _); autorewrite with chat; tells.
    + destruct (negb (empty_string r)); rewrite ?exec_broadcast; tells.
Qed.

(** A task that owes an answer hands the obligation to its continuation. *)
Lemma task_hands_on conn t w :
  task_answers conn t → ∃ k, eval (task_body t) w = Some (conn, k) ∧ cont_answers conn k.
Proof.
  destruct t; cbn [task_answers task_body]; intros Ht; try done; autorewrite with chat; cbn;
    repeat (match goal with Hand : _ ∧ _ |- _ => destruct Hand end); subst; eexists; (split; [done|]); done.
Qed.

(** A handler only adds to the queue of tasks. *)
Lemma onEnvelope_frame conn env s :
  let s' := exec (onEnvelope conn env) s in
  running s' = running s ∧ loops s' = loops s ∧ ∃ ts, pool s' = pool s ++ ts.
Proof.
  assert (∀ s', pool s' = pool s → running s' = running s → loops s' = loops s →
    running s' = running s ∧ loops s' = loops s ∧ ∃ ts, pool s' = pool s ++ ts) as Hsame.
  { intros s' Hp Hr Hl. split_and!; [done..|]. exists []. by rewrite app_nil_r. }
  cbv zeta. unfold onEnvelope. destruct (env_payload env); try (by apply Hsame); unfold handleLogin,
    handleLogout, handleRegister, handleChatMessage, handleCreateRoom, handleJoinRoom,
    handleFriendRequest, handleFriendResponse, handleFriendRemove, handleRecall; cbv zeta;
    autorewrite with chat;
    repeat (match goal with |- context [if ?b then _ else _] => destruct b end; autorewrite with chat);
    try (by apply Hsame); (split; [done|]; split; [done|]); eexists; reflexivity.
Qed.

Lemma owed_run_task conn t s :
  owed conn s ∨ task_answers conn t → owed conn (exec (run_task t) s).
Proof.
  intros Ho. unfold run_task. rewrite exec_bind, eval_call_world, exec_call_world.
  assert (∀ c k, owed conn s ∨ (c = conn ∧ cont_answers conn k) →
    owed conn (exec (runInLoop c k) (set_world (exec (task_body t) (world s)) s))) as Hqueue.
  { intros c k Hck. unfold owed, runInLoop. rewrite exec_modify. cbn [pool running loops set_loops set_world].
    destruct Hck as [[Hp|[Hr|[l Hl]]]|[-> Hk]]; [by left|by right; left|right; right..].
    - exists l. rewrite lookup_insert. case_decide; [subst; apply Exists_app; by left|done].
    - exists (getLoop conn). rewrite lookup_insert_eq. cbn. apply Exists_app. right. by constructor. }
  destruct Ho as [Ho|Ht].
  - destruct (eval (task_body t) (world s)) as [[c k]|]; [by apply Hqueue; left|exact Ho].
  - destruct (task_hands_on conn t (world s) Ht) as (k & -> & Hk). apply Hqueue. by right.
Qed.

Lemma owed_step conn e s s' :
  step e s = Some s' → owed conn s → owed conn s' ∨ told (out s) conn s'.
Proof.
  intros Hstep Ho. destruct e as [c|c|c env| |i|l|n]; cbn [step] in Hstep.
  - left. case_decide; by simplify_eq.
  - left. case_decide; by simplify_eq.
  - left. case_decide; [|done]. apply with_room_Some in Hstep as [-> _].
    destruct (onEnvelope_frame c env s) as (Hr & Hl & ts & Hp). unfold owed. rewrite Hr, Hl, Hp.
    rewrite Exists_app. destruct Ho as [|[|]]; auto.
  - left. unfold owed in *. destruct (pool s) as [|t rest] eqn:Hp; [done|]. case_match; simplify_eq.
    cbn [pool running loops set_running set_pool]. rewrite Exists_app.
    destruct Ho as [[Ht|Hrest]%Exists_cons|[Hr|Hl]]; [right; left; right|by left|right; left; left|by right; right];
      [by constructor|done].
  - left. destruct (running s !! i) as [t|] eqn:Ht; simplify_eq. apply owed_run_task.
    destruct Ho as [Hp|[Hr|Hl]]; [by left; left| |by left; right; right].
    rewrite (delete_Permutation _ _ _ Ht), Exists_cons in Hr.
    destruct Hr as [Hr|Hr]; [by right|by left; right; left].
  - destruct (loops s !! l) as [[|k rest]|] eqn:Hq; try done. apply with_room_Some in Hstep as [-> _].
    destruct (cont_body_queues k (set_loops (<[l := rest]> (loops s)) s)) as (Hr & Hl & ts & Hp & _).
    unfold owed. rewrite Hr, Hl, Hp. cbn [pool running loops set_loops]. rewrite Exists_app.
    destruct Ho as [Hp'|[Hr'|[l' Hl']]]; [by left; left; left|by left; right; left|].
    destruct (decide (l = l')) as [<-|Hne].
    + rewrite Hq in Hl'. cbn in Hl'. apply Exists_cons in Hl' as [Hk|Hrest].
      * right. by apply (cont_tells conn k (set_loops (<[l := rest]> (loops s)) s)).
      * left; right; right. exists l. by rewrite lookup_insert_eq.
    + left; right; right. exists l'. by rewrite lookup_insert_ne.
  - left. by simplify_eq.
Qed.

Lemma owed_run conn es s s' :
  run es s = Some s' → owed conn s → owed conn s' ∨ told (out s) conn s'.
Proof.
  assert (∀ es o s s', run es s = Some s' → told o conn s → told o conn s') as Htold.
  { induction es0 as [|e es0 IH]; intros o s1 s2 Hrun Ht; cbn in Hrun; [by simplify_eq|].
    destruct (step e s1) as [s3|] eqn:Hstep; [|done]. eapply IH; [exact Hrun|]. by eapply told_step. }
  revert s. induction es as [|e es IH]; intros s Hrun Ho; cbn in Hrun; [simplify_eq; by left|].
  destruct (step e s) as [s1|] eqn:Hstep; [|done]. cbn in Hrun.
  destruct (owed_step conn e s s1 Hstep Ho) as [Ho1|Ht]; [|right; by eapply Htold].
  destruct (IH s1 Hrun Ho1) as [|Ht]; [by left|]. right. eapply told_grown; [|exact Ht].
  eapply grown_step; [exact Hstep|]. exists []. by rewrite app_nil_r.
Qed.

Lemma at_rest_owes_nothing conn s : at_rest s → ¬ owed conn s.
Proof.
  intros (Hp & Hr & Hl) [Ho|[Ho|[l Ho]]].
  - rewrite Hp in Ho. by apply Exists_nil in Ho.
  - rewrite Hr in Ho. by apply Exists_nil in Ho.
  - rewrite Hl in Ho. by apply Exists_nil in Ho.
Qed.
(** Receiving a request that expects an answer answers it or takes on the obligation. *)
Lemma recv_owes conn env s :
  expects_answer (isAuthenticated conn (sessionManager_ s)) (env_payload env) = true →
  let s' := exec (onEnvelope conn env) s in owed conn s' ∨ told (out s) conn s'.
Proof.
  assert (∀ t, task_answers conn t → owed conn (set_pool (pool s ++ [t]) s)) as Hqueue.
  { intros t Ht. left. apply Exists_app. right. by constructor. }
  cbv zeta. unfold onEnvelope. destruct (env_payload env) as [r|r|r|m|r|r|r|r|r|r|r|];
    cbn [expects_answer]; intros Ha; try done.
  - unfold handleLogin. cbv zeta. destruct (empty_string (lr_token r) && _); [right; tells|].
    destruct (negb (empty_string (lr_token r))); [left; by apply Hqueue|].
    destruct (empty_string (lr_uid r)); [right; tells|left; by apply Hqueue].
  - right. unfold handleLogout. cbv zeta. autorewrite with chat. tells.
  - unfold handleRegister. destruct (empty_string (rr_uid r) || _); [right; tells|left; by apply Hqueue].
  - apply andb_true_iff in Ha as [Ha Hto%negb_true_iff]. left. unfold handleChatMessage.
    autorewrite with chat. rewrite Ha. by apply Hqueue.
  - left. unfold handleFriendResponse. autorewrite with chat. rewrite Ha. by apply Hqueue.
  - left. unfold handleFriendRemove. autorewrite with chat. rewrite Ha. by apply Hqueue.
  - left. unfold handleRecall. autorewrite with chat. rewrite Ha. by apply Hqueue.
Qed.

(** ** Theorems *)

(** C5. Every request that expects an answer is answered, whatever else happens: after the
    request was received, in every continuation of the run (other requests, connections
    that go up and down, workers and loops in any order, changes of the world) in which the
    server has come to rest, its connection has been sent something; and from every state
    the server can come to rest by its own steps, in spite of the bounds on its queue and
    its workers. *)
Theorem every_request_answered conn env s s1 es s' :
  expects_answer (isAuthenticated conn (sessionManager_ s)) (env_payload env) = true →
  step (Recv conn env) s = Some s1 → run es s1 = Some s' →
  (at_rest s' → told (out s) conn s') ∧
  ∃ es' s2, Forall (λ e, internal e = true) es' ∧ run es' s' = Some s2 ∧ at_rest s2 ∧
    told (out s) conn s2.
Proof.
  intros Ha Hstep Hrun. cbn [step] in Hstep. case_decide; [|done].
  assert (∀ es s', run es s1 = Some s' → at_rest s' → told (out s) conn s') as Hall.
  { intros es0 s2 Hrun2 Hrest. apply with_room_Some in Hstep as [-> _].
    assert (grown (out s) (exec (onEnvelope conn env) s)) as Hgrown.
    { apply (keeps_onEnvelope (λ o', ∃ new, o' = out s ++ new)).
      - intros o a [new ->]. exists (new ++ [a]). by rewrite app_assoc.
      - exists []. by rewrite app_nil_r. }
    destruct (recv_owes conn env s Ha) as [Ho|Ht].
    - destruct (owed_run conn es0 _ s2 Hrun2 Ho) as [Ho2|Ht]; [by destruct (at_rest_owes_nothing conn s2)|].
      by eapply told_grown.
    - clear - Hrun2 Ht. revert Hrun2 Ht. generalize (exec (onEnvelope conn env) s).
      induction es0 as [|e es0 IH]; intros s0 Hrun2 Ht; cbn in Hrun2; [by simplify_eq|].
      destruct (step e s0) as [s3|] eqn:Hs; [|done]. eapply IH; [exact Hrun2|]. by eapply told_step. }
  split; [by apply Hall with es|].
  destruct (run_to_rest s') as (es' & s2 & Hint & Hrun2 & Hrest). exists es', s2. split_and!; [done..|].
  apply Hall with (es ++ es'); [|done]. clear - Hrun Hrun2. revert s1 Hrun.
  induction es as [|e es IH]; intros s1 Hrun; cbn in Hrun |- *; [by simplify_eq|].
  destruct (step e s1) as [s3|]; [|done]. by apply IH.
Qed.

End Liveness.

(** ** The theorems at work on the world in memory *)

(** Alice's private message, while another connection comes up and time passes. *)
Definition busy_events : list event :=
  [Connect 2%nat; TakeTask; Outside 5; Recv 2%nat bad_login; FinishTask 0; Disconnect 2%nat].

Lemma every_request_answered_witness :
  ∃ s1 s' es' s2, step (Recv 1%nat say_bob) alice1 = Some s1 ∧ run busy_events s1 = Some s' ∧
    run es' s' = Some s2 ∧ at_rest s2 ∧ told (out alice1) 1%nat s2.
Proof.
  set (s1 := get (step (Recv 1%nat say_bob) alice1)). set (s' := get (run busy_events s1)).
  assert (step (Recv 1%nat say_bob) alice1 = Some s1) as Hstep by (vm_compute; reflexivity).
  assert (run busy_events s1 = Some s') as Hrun by (vm_compute; reflexivity).
  destruct (every_request_answered 1%nat say_bob alice1 s1 busy_events s')
    as (_ & es' & s2 & _ & Hrun2 & Hrest & Ht); [vm_compute; reflexivity|exact Hstep|exact Hrun|].
  exists s1, s', es', s2. exact (conj Hstep (conj Hrun (conj Hrun2 (conj Hrest Ht)))).
Defined.
