(* ===== verification/Conformance.v ===== *)
(** What the server says, message by message: which pairs of error code and reason there
    are, what an answer to a login or a registration looks like, and whose names the notices
    carry, in every message that any run of [ChatServer] sends. *)

From S2P Require Import Prelude Machine Proto SessionManager RoomManager Repositories MemWorld.
From S2P Require Import LoginService ChatService FriendService RoomService.
From S2P Require Import ChatServer ChatServerFacts ChatServerTheorems.

Local Open Scope Z_scope.

(** ** The vocabulary of the server *)

(** The reasons that the services give when they refuse. *)
Definition login_reasons : list string :=
  ["invalid uid or password"; "user not found"; "session create failed"; "invalid token"].
Definition create_reasons : list string := ["room already exists"; "create room failed"].
Definition join_reasons : list string := ["room not found"; "join room failed"].
Definition recall_reasons : list string :=
  ["message not found"; "can only recall your own messages"; "recall window expired (2 min)";
   "recall failed"].

(** Which reasons go with which error code. *)
Definition reasons_of (code : Z) : list string :=
  match code with
  | 1 => ["need password or token"]
  | 2 => ["uid required"]
  | 3 => ["store message failed"; "user offline"]
  | 4 => join_reasons
  | 5 => create_reasons
  | 6 => login_reasons
  | 7 => ["uid and password required"]
  | 8 => recall_reasons
  | _ => []
  end%string.

(** The user has logged in, on some connection. *)
Definition has_logged_in (log : list (Conn * string)) (uid : string) : Prop := ∃ c, (c, uid) ∈ log.

(** A message that the server may send to a connection after these logins. *)
Definition conforms (log : list (Conn * string)) (conn : Conn) (m : ServerMessage) : Prop :=
  match m with
  | login_resp r =>
    lp_ok r = true ∧
    (lp_reason r = "logged out"%string ∧ lp_token r = ""%string ∨
     lp_reason r = ""%string ∧ known log conn)
  | register_resp r => rp_reason r = (if rp_ok r then "" else "register failed")%string
  | chat_msg c => known log conn ∧ cm_seq c = 0 ∧ cm_recalled c = false
  | recall_notify n => known log conn ∧ has_logged_in log (rn_from_uid n)
  | friend_req q => (conn, fq_to_uid q) ∈ log ∨ known log conn ∧ fq_to_uid q = ""%string
  | friend_resp p => (conn, fp_to_uid p) ∈ log
  | friend_list l => known log conn ∧ Forall (λ f, fi_nickname f = fi_uid f) (fl_friends l)
  | friend_remove v => known log conn ∧ has_logged_in log (fv_target_uid v)
  | error e => er_reason e ∈ reasons_of (er_code e)
  | SERVER_PAYLOAD_NOT_SET => False
  end.

Definition says (log : list (Conn * string)) (a : Action) : Prop :=
  match a with Send conn m => conforms log conn m | Shutdown _ => True end.

(** A refusal that waits to be sent has one of its reasons. *)
Definition cont_says (k : Cont) : Prop :=
  match k with
  | cont_loginWithToken _ r _ | cont_login _ r => ls_success r = false → ls_reason r ∈ login_reasons
  | cont_sendMessage _ _ _ _ _ r => sm_success r = false → sm_reason r = "store message failed"%string
  | cont_createRoom _ _ _ r => ro_success r = false → ro_reason r ∈ create_reasons
  | cont_joinRoom _ _ _ r => ro_success r = false → ro_reason r ∈ join_reasons
  | cont_recall _ _ _ _ _ r => rc_success r = false → rc_reason r ∈ recall_reasons
  | _ => True
  end.

(** ** The reasons of the services *)

Section Conformance.
  Context {W : Type}.
  Context `{UserRepository W, SessionRepository W, FriendRepository W, MessageRepository W}.
  Context `{RoomRepository W, Clock W, Random W, Mktime, Environment W, Config}.
  Implicit Types s : Server W.

(** A computation whose values have a property in every world. *)
Definition returns {A} (Q : A → Prop) (m : State W A) : Prop := ∀ w, Q (eval m w).

Lemma returns_ret {A} (Q : A → Prop) a : Q a → returns Q (mret a).
Proof. by intros Ha w. Qed.

Lemma returns_bind {A B} (Q : B → Prop) (m : State W A) (k : A → State W B) :
  (∀ a, returns Q (k a)) → returns Q (m ≫= k).
Proof. intros Hk w. rewrite eval_bind. apply Hk. Qed.

(** Go through the branches of a service; what is left are the values it returns. *)
Ltac branches :=
  repeat first [apply returns_ret | apply returns_bind; intros ? | progress cbn [negb] | case_match];
  cbn; try done; intros _; repeat first [by left | right].

Lemma login_says uid passwd node :
  returns (λ r, ls_success r = false → ls_reason r ∈ login_reasons) (login uid passwd node).
Proof. unfold login. branches. Qed.

Lemma loginWithToken_says token node :
  returns (λ r, ls_success r = false → ls_reason r ∈ login_reasons) (loginWithToken token node).
Proof. unfold loginWithToken. branches. Qed.

Lemma sendMessage_says from to room content :
  returns (λ r, sm_success r = false → sm_reason r = "store message failed"%string)
    (sendMessage from to room content).
Proof. unfold sendMessage. branches. Qed.

Lemma recallMessage_says id uid to room :
  returns (λ r, rc_success r = false → rc_reason r ∈ recall_reasons) (recallMessage id uid to room).
Proof. unfold recallMessage. branches. Qed.

Lemma createRoom_says name uid :
  returns (λ r, ro_success r = false → ro_reason r ∈ create_reasons) (RoomService.createRoom name uid).
Proof. unfold RoomService.createRoom. branches. Qed.

Lemma joinRoom_says name uid :
  returns (λ r, ro_success r = false → ro_reason r ∈ join_reasons) (RoomService.joinRoom name uid).
Proof.
  unfold RoomService.joinRoom. apply returns_bind. intros [r|].
  - apply returns_bind. intros [|]; apply returns_ret; cbn; [done|]. intros _. by right; left.
  - apply returns_ret. intros _. left.
Qed.

Lemma task_body_says t :
  returns (λ o, match o with Some (_, k) => cont_says k | None => True end) (task_body t).
Proof.
  intros w. destruct t; cbn [task_body]; autorewrite with chat; cbn; try done.
  - apply loginWithToken_says.
  - apply login_says.
  - apply sendMessage_says.
  - apply createRoom_says.
  - apply joinRoom_says.
  - apply recallMessage_says.
Qed.

(** ** What the handlers say *)

Section Says.
  Context (log : list (Conn * string)).

Record speaks (s : Server W) : Prop := mkSpeaks {
  speaks_loops : ∀ l ks, loops s !! l = Some ks → Forall cont_says ks;
  speaks_sm : sm_secure log (sessionManager_ s);
  speaks_out : Forall (says log) (out s)
}.

Lemma sp_call_sm f : (∀ m, sm_secure log m → sm_secure log (f m)) → preserves speaks (call_sm f).
Proof. intros Hf s []. constructor; cbn; auto. Qed.

Lemma sp_emit a : says log a → preserves speaks (emit a).
Proof. intros Ha s []. constructor; cbn; auto. by apply Forall_app, conj, Forall_singleton. Qed.

Lemma sp_send c m : conforms log c m → preserves speaks (codec_send c m).
Proof. apply (sp_emit (Send c m)). Qed.

Lemma sp_error c n r : r ∈ reasons_of n → preserves speaks (sendError c n r).
Proof. apply (sp_send c (error (mkErrorResponse n r))). Qed.

Lemma sp_run t : preserves speaks (threadPool_run t).
Proof. by intros s []. Qed.

Lemma sp_call_world {A} (m : State W A) : preserves speaks (call_world m).
Proof. intros s []. rewrite exec_call_world. by constructor. Qed.

Lemma sp_call_rooms f : preserves speaks (call_rooms f).
Proof. intros s []. by constructor. Qed.

Lemma sp_ask_sm {A} (f : SessionManager → A) : preserves speaks (ask_sm f).
Proof. by intros s Hs. Qed.

Lemma sp_gets {A} (f : Server W → A) : preserves speaks (gets f).
Proof. by intros s Hs. Qed.

Lemma sp_sendFriendList c : known log c → preserves speaks (sendFriendList c).
Proof.
  intros Hc s Hs. rewrite exec_sendFriendList. apply (sp_send c); [|done]. split; [done|].
  apply Forall_forall. intros f Hf. by apply list_elem_of_fmap in Hf as (u & -> & _).
Qed.

(** A connection found for a user has logged in as that user. *)
Lemma sp_getConnection {A} u (k : option Conn → State (Server W) A) :
  (∀ c, (c, u) ∈ log → preserves speaks (k (Some c))) → preserves speaks (k None) →
  preserves speaks (c ← ask_sm (getConnection u); k c).
Proof.
  intros Hsome Hnone s Hs. rewrite exec_bind, eval_ask_sm, exec_ask_sm.
  destruct (getConnection u (sessionManager_ s)) as [c|] eqn:Hc; [|by apply Hnone].
  apply Hsome; [|done]. by apply (speaks_sm _ Hs).
Qed.

Lemma in_known c u : (c, u) ∈ log → known log c.
Proof. by exists u. Qed.

Lemma sp_broadcast room m :
  (∀ c, known log c → conforms log c m) → preserves speaks (broadcast room m).
Proof.
  intros Hm. unfold broadcast. apply preserves_bind; [apply sp_gets|intros X].
  apply preserves_for_each. intros u. apply sp_getConnection; [|apply preserves_ret].
  intros c Hc. by apply sp_send, Hm, (in_known c u).
Qed.

Local Hint Resolve sp_call_sm sp_run sp_call_world sp_call_rooms sp_ask_sm sp_gets
  sp_sendFriendList sm_secure_deauthenticate in_known : chat.

Lemma sp_onEnvelope c env : preserves speaks (onEnvelope c env).
Proof.
  unfold onEnvelope, handleLogin, handleLogout, handleRegister, handleChatMessage,
    handleCreateRoom, handleJoinRoom, handleFriendRequest, handleFriendResponse,
    handleFriendRemove, handleRecall. cbv zeta. preserve; auto with chat.
  all: try (apply sp_error; left).
  - apply sp_send. cbn. auto.
  - by apply sp_emit.
Qed.

Lemma sm_secure_login_tables c r token m :
  (c, ui_uid (ls_userInfo r)) ∈ log → sm_secure log m → sm_secure log (login_tables c r token m).
Proof.
  intros Hin Hm. destruct (sm_secure_authenticate log c _ token m Hin Hm) as [Hm1 Hm2]. unfold login_tables.
  destruct (users_fold_login (ui_uid (ls_userInfo r)) (ls_friends r) (ls_pendingRequests r)
    (snd (authenticate c (ui_uid (ls_userInfo r)) token m))) as [Hu Hc].
  split; [by rewrite Hc|by rewrite Hu].
Qed.

Lemma offline_sends_say c (ms : list MessageInfo) (w : W) :
  known log c → Forall (says log) (offline_sends c ms w).
Proof. intros Hc. revert w. induction ms as [|om ms IH]; intros w; constructor; [by split|apply IH]. Qed.

Lemma sp_login_done c r token :
  (ls_success r = true → (c, ui_uid (ls_userInfo r)) ∈ log) →
  (ls_success r = false → ls_reason r ∈ login_reasons) → preserves speaks (login_done c r token).
Proof.
  intros Hin Hreason s Hs. destruct (ls_success r) eqn:Hr.
  - specialize (Hin eq_refl). rewrite exec_login_done by done. destruct Hs as [Hl Hm Ho].
    apply in_known in Hin as Hk.
    constructor; cbn [loops sessionManager_ out set_out set_pool set_world set_sm]; [done|by apply sm_secure_login_tables|].
    apply Forall_app. split; [done|]. constructor; [cbn; auto|].
    apply Forall_app. split; [|apply Forall_app; split; [by apply offline_sends_say|]].
    + apply Forall_forall. intros a Ha. apply list_elem_of_fmap in Ha as (q & -> & _). by left.
    + constructor; [|done]. split; [done|]. apply Forall_forall. intros f Hf. by apply list_elem_of_fmap in Hf as (u & -> & _).
  - unfold login_done. rewrite Hr. apply sp_error; [exact (Hreason eq_refl)|done].
Qed.

Local Hint Resolve sp_broadcast : chat.

(** Sends of known connections, in sequence. *)
Ltac speak :=
  repeat first
    [ apply preserves_ret
    | apply sp_sendFriendList; solve [eauto using in_known]
    | apply sp_send; done
    | solve [auto with chat]
    | apply preserves_bind; [|intros ?] ].

Lemma sp_cont_body k :
  cont_ok log k → cont_says k →
  match k with
  | cont_loginWithToken c r _ | cont_login c r =>
    ls_success r = true → (c, ui_uid (ls_userInfo r)) ∈ log
  | _ => True
  end → preserves speaks (cont_body k).
Proof.
  destruct k as [c r t|c r|c ok|c f t r x res|c u n res|c u n res|c f t m|c r t a|c u t|c u i t r res];
    cbn [cont_ok cont_body cont_says]; intros Hk Hsay Hlog.
  - by apply sp_login_done.
  - by apply sp_login_done.
  - apply sp_send. by destruct ok.
  - assert (known log c) as Hc by by eexists. unfold sendMessage_done.
    destruct (sm_success res) eqn:Hr; cbn [negb].
    2: { rewrite (Hsay eq_refl). apply sp_error. left. }
    apply preserves_bind; [auto with chat|intros now]. cbv zeta.
    destruct (negb (empty_string t)).
    + apply sp_getConnection; [intros c' Hc'%in_known|]; speak. apply sp_error. right. left.
    + destruct (negb (empty_string r)); [|apply preserves_ret]. by apply sp_broadcast.
  - destruct (ro_success res) eqn:Hr; cbn [negb]; [auto with chat|by apply sp_error, Hsay].
  - destruct (ro_success res) eqn:Hr; cbn [negb]; [auto with chat|by apply sp_error, Hsay].
  - apply preserves_bind; [by apply sp_call_sm|intros _].
    apply sp_getConnection; [|apply preserves_ret]. intros c' Hc'%in_known. apply sp_send. by right.
  - apply preserves_bind; [destruct a; [by apply sp_call_sm|apply preserves_ret]|intros _].
    apply preserves_bind; [by apply sp_call_sm|intros _].
    apply sp_getConnection; [intros c' Hc'|]; speak.
  - assert (known log c) as Hc by by eexists.
    apply preserves_bind; [by apply sp_call_sm|intros _].
    assert (has_logged_in log u) as Hu by by exists c.
    apply sp_getConnection; [intros c' Hc'%in_known|]; speak.
  - assert (known log c) as Hc by by eexists. assert (has_logged_in log u) as Hu by by exists c.
    unfold recall_done. destruct (rc_success res) eqn:Hr; cbn [negb]; [|by apply sp_error, Hsay].
    apply preserves_bind; [auto with chat|intros now].
    apply preserves_bind; [|intros _; by apply sp_send].
    destruct (negb (empty_string t)).
    + apply sp_getConnection; [|apply preserves_ret]. intros c' Hc'%in_known. by apply sp_send.
    + destruct (negb (empty_string r)); [|apply preserves_ret]. by apply sp_broadcast.
Qed.

Lemma sp_run_task t : preserves speaks (run_task t).
Proof.
  intros s Hs. unfold run_task. rewrite exec_bind, eval_call_world.
  pose proof (task_body_says t (world s)) as Hk. apply (sp_call_world (task_body t)) in Hs.
  destruct (eval (task_body t) (world s)) as [[c k]|]; [|done]. destruct Hs as [Hl Hm Ho].
  constructor; [|done|done]. intros l ks. cbn [loops runInLoop]. unfold runInLoop. rewrite exec_modify.
  cbn [loops set_loops]. rewrite lookup_insert.
  case_decide; [|apply Hl]. intros [= <-]. apply Forall_app. split; [|by apply Forall_singleton].
  destruct (loops _ !! getLoop c) eqn:Hq; cbn; eauto.
Qed.
End Says.

(** ** Every run *)

Lemma speaks_mono log log' s :
  log ⊆ log' → sm_secure log' (sessionManager_ s) → speaks log s → speaks log' s.
Proof.
  intros Hsub Hm [Hl _ Ho]. constructor; [done|done|]. eapply Forall_impl; [exact Ho|].
  pose proof (λ c, known_mono log log' c Hsub) as Hk.
  assert (∀ u, has_logged_in log u → has_logged_in log' u) as Hu by (intros u [c Hc]; exists c; by apply Hsub).
  intros [c []|c]; cbn; naive_solver.
Qed.

Lemma speaks_step log e s s' :
  step e s = Some s' → secure log s → speaks log s → speaks (log ++ logins e s) s'.
Proof.
  intros Hstep Hsec Hs.
  assert (log ⊆ log ++ logins e s) as Hsub by set_solver.
  apply (secure_mono _ _ s Hsub) in Hsec. apply (speaks_mono _ _ s Hsub (secure_sm _ _ Hsec)) in Hs.
  destruct e as [c|c|c env| |i|l|n]; cbn [step] in Hstep.
  - case_decide; simplify_eq. by destruct Hs.
  - case_decide; simplify_eq. cbn [onConnection]. apply sp_call_sm; [|by destruct Hs].
    apply sm_secure_onDisconnection.
  - case_decide; [|done]. apply with_room_Some in Hstep as [-> _]. by apply sp_onEnvelope.
  - destruct (pool s) as [|t rest]; [done|]. case_match; simplify_eq. by destruct Hs.
  - destruct (running s !! i) as [t|]; simplify_eq. apply sp_run_task. by destruct Hs.
  - cbn [logins] in *. destruct (loops s !! l) as [[|k rest]|] eqn:Hq; try done.
    apply with_room_Some in Hstep as [-> _]. destruct Hs as [Hl Hm Ho].
    specialize (Hl l _ Hq) as Hk. inversion_clear Hk as [|? ? Hk1 Hk2].
    pose proof (secure_loops _ _ Hsec l _ Hq) as Hok. inversion_clear Hok as [|? ? Hok1 Hok2].
    apply sp_cont_body; [done|done| |].
    + destruct k; try done; intros Hsucc; rewrite Hsucc; set_solver.
    + constructor; cbn; auto. intros l' ks. rewrite lookup_insert. case_decide; [by intros [= <-]|apply Hl].
  - simplify_eq. by destruct Hs.
Qed.

End Conformance.

(** ** The theorem at work on the world in memory *)

