(* ===== verification/Credentials.v ===== *)
(** Who is logged in has shown credentials: the way from a login request to the session
    table, over all interleavings of the transition system of [ChatServer]. *)

From S2P Require Import Prelude Machine Proto SessionManager RoomManager Repositories MemWorld.
From S2P Require Import LoginService ChatService FriendService RoomService.
From S2P Require Import ChatServer ChatServerFacts ChatServerTheorems.

Local Open Scope Z_scope.

Section Credentials.
  Context {W : Type}.
  Context `{UserRepository W, SessionRepository W, FriendRepository W, MessageRepository W}.
  Context `{RoomRepository W, Clock W, Random W, Mktime, Environment W, Config}.
  Implicit Types s : Server W.

(** ** Notions used in the statements *)

(** In the world [w] the stores accept a login request, and take the client for [uid]:
    without a token, the password is right; with one, the token is a session of a user;
    and the row of that user says [uid]. *)
Definition verified (r : LoginRequest) (uid : string) (w : W) : Prop :=
  if empty_string (lr_token r) then
    let verify := userRepo_verifyUser (lr_uid r) (lr_passwd r) in
    eval verify w = true ∧
    ∃ u, eval (userRepo_getUserInfo (lr_uid r)) (exec verify w) = Some u ∧ ui_uid u = uid
  else
    let lookup := sessionRepo_getSessionByToken (lr_token r) in
    let update := sessionRepo_updateSessionNode (lr_token r) node_id_ in
    ∃ x u, eval lookup w = Some x ∧
      eval (userRepo_getUserInfo (si_uid x)) (exec update (exec lookup w)) = Some u ∧ ui_uid u = uid.

(** Some time in the run [es], after the request came in on [conn], the stores accepted it. *)
Definition granted (w : W) (es : list event) (conn : Conn) (uid : string) : Prop :=
  ∃ es1 es2 s token r,
    es = es1 ++ es2 ∧ run es1 (start w) = Some s ∧
    Recv conn (mkEnvelope token (kLoginReq r)) ∈ es1 ∧ verified r uid (world s).

(** Deferred logins go back to requests, and their results to the stores. *)
Definition asked (es : list event) (t : Task) : Prop :=
  match t with
  | task_login conn uid passwd =>
    ∃ env r, Recv conn (mkEnvelope env (kLoginReq r)) ∈ es ∧
      lr_token r = ""%string ∧ lr_uid r = uid ∧ lr_passwd r = passwd
  | task_loginWithToken conn token =>
    ∃ env r, Recv conn (mkEnvelope env (kLoginReq r)) ∈ es ∧
      lr_token r = token ∧ empty_string token = false
  | _ => True
  end.

Definition earned (w : W) (es : list event) (k : Cont) : Prop :=
  match k with
  | cont_login conn r | cont_loginWithToken conn r _ =>
    ls_success r = true → granted w es conn (ui_uid (ls_userInfo r))
  | _ => True
  end.

Record honest (w : W) (es : list event) (s : Server W) : Prop := mkHonest {
  honest_pool : Forall (asked es) (pool s);
  honest_running : Forall (asked es) (running s);
  honest_loops : ∀ l, Forall (earned w es) (default [] (loops s !! l))
}.

(** ** Lemmas *)

(** What was asked or granted stays so as the run goes on. *)
Lemma asked_more es es' t : asked es t → asked (es ++ es') t.
Proof.
  destruct t; cbn; try done; intros (env & r & Hin & Hr); exists env, r; (split; [|exact Hr]);
    apply elem_of_app; by left.
Qed.

Lemma granted_more w es es' conn uid : granted w es conn uid → granted w (es ++ es') conn uid.
Proof.
  intros (es1 & es2 & s & token & r & -> & Hrun & Hin & Hv).
  exists es1, (es2 ++ es'), s, token, r. by rewrite (assoc_L (++)).
Qed.

Lemma earned_more w es es' k : earned w es k → earned w (es ++ es') k.
Proof. destruct k; cbn; try done; intros Hk Hr; by apply granted_more, Hk. Qed.

Lemma honest_more w es es' s : honest w es s → honest w (es ++ es') s.
Proof.
  intros [Hp Hr Hl]. constructor.
  - eapply Forall_impl; [exact Hp|]. intros t. apply asked_more.
  - eapply Forall_impl; [exact Hr|]. intros t. apply asked_more.
  - intros l. eapply Forall_impl; [apply Hl|]. intros k. apply earned_more.
Qed.

(** A handler queues only what the message asks for. *)
Lemma onEnvelope_asks es conn env s :
  Recv conn env ∈ es →
  running (exec (onEnvelope conn env) s) = running s ∧ loops (exec (onEnvelope conn env) s) = loops s ∧
  ∃ ts, pool (exec (onEnvelope conn env) s) = pool s ++ ts ∧ Forall (asked es) ts.
Proof.
  intros Hin. destruct env as [token p].
  assert (∀ s' : Server W, running s' = running s → loops s' = loops s → pool s' = pool s →
    running s' = running s ∧ loops s' = loops s ∧ ∃ ts, pool s' = pool s ++ ts ∧ Forall (asked es) ts) as Hnone.
  { intros s' -> -> ->. split_and!; [done..|]. exists []. by rewrite app_nil_r. }
  assert (∀ t (s' : Server W), asked es t → running s' = running s → loops s' = loops s → pool s' = pool s ++ [t] →
    running s' = running s ∧ loops s' = loops s ∧ ∃ ts, pool s' = pool s ++ ts ∧ Forall (asked es) ts) as Hone.
  { intros t s' Ht -> -> ->. split_and!; [done..|]. exists [t]. split; [done|]. by repeat constructor. }
  destruct p as [r|r|r|r|r|r|r|r|r|r|r|]; unfold onEnvelope; cbn [env_payload].
  4-12: unfold handleChatMessage, handleCreateRoom, handleJoinRoom, handleFriendRequest, handleFriendResponse,
    handleFriendRemove, handleRecall; cbv zeta; autorewrite with chat; try by apply Hnone.
  4-10: destruct (isAuthenticated conn (sessionManager_ s)); cbn [negb]; [|by apply Hnone];
    autorewrite with chat; (eapply Hone; [|reflexivity..]; exact I).
  - unfold handleLogin. destruct (empty_string (lr_token r) && empty_string (lr_passwd r)); [by apply Hnone|].
    destruct (empty_string (lr_token r)) eqn:Ht; cbn [negb].
    + cbv zeta. destruct (empty_string (lr_uid r)); [by apply Hnone|].
      apply (Hone (task_login conn (lr_uid r) (lr_passwd r))); [|done..]. exists token, r.
      apply String.eqb_eq in Ht. by split_and!.
    + apply (Hone (task_loginWithToken conn (lr_token r))); [|done..]. by exists token, r.
  - unfold handleLogout. cbv zeta. autorewrite with chat. by apply (Hone (task_logout (lo_uid r) (lo_token r))).
  - unfold handleRegister. destruct (_ || _); [by apply Hnone|].
    by apply (Hone (task_register conn (rr_uid r) (rr_passwd r) (rr_nickname r) (rr_email r))).
Qed.

(** A login that succeeds was accepted by the stores. *)
Lemma task_earns w es s t c k :
  run es (start w) = Some s → asked es t →
  eval (task_body t) (world s) = Some (c, k) → earned w es k.
Proof.
  intros Hrun Ha Hk.
  assert (∀ conn uid, (∃ env r, Recv conn (mkEnvelope env (kLoginReq r)) ∈ es ∧ verified r uid (world s)) →
    granted w es conn uid) as Hgrant.
  { intros conn uid (env & r & Hin & Hv). exists es, [], s, env, r. by rewrite app_nil_r. }
  destruct t as [conn token|conn uid passwd| | | | | | | | | | |]; cbn [task_body] in Hk; revert Hk;
    autorewrite with chat; intros [= <- <-] || intros [=]; cbn [earned]; try done; intros Hok;
    destruct Ha as (env & r & Hin & Hr); apply Hgrant; exists env, r; (split; [exact Hin|]); revert Hok.
  - destruct Hr as [<- Ht]. unfold verified. rewrite Ht. cbv zeta. unfold loginWithToken. autorewrite with chat.
    destruct (eval (sessionRepo_getSessionByToken _) _) as [x|] eqn:Hx; [|done]. autorewrite with chat.
    destruct (eval (userRepo_getUserInfo _) _) as [u|] eqn:Hu; [|done]. autorewrite with chat. cbn [ls_userInfo].
    intros _. by exists x, u.
  - destruct Hr as (Ht & <- & <-). unfold verified. rewrite Ht. cbn [empty_string String.eqb]. cbv zeta.
    unfold login. autorewrite with chat.
    destruct (eval (userRepo_verifyUser _ _) _) eqn:Hv; cbn [negb]; [|done]. autorewrite with chat.
    destruct (eval (userRepo_getUserInfo _) _) as [u|] eqn:Hu; [|done]. autorewrite with chat.
    destruct (eval (sessionRepo_createSession _ _ _ _) _); cbn [negb]; [|done]. autorewrite with chat.
    cbn [ls_userInfo]. intros _. split; [done|]. by exists u.
Qed.

(** Every step is honest. *)
Lemma honest_step w es s e s' :
  run es (start w) = Some s → honest w es s → step e s = Some s' → honest w (es ++ [e]) s'.
Proof.
  intros Hrun Hs Hstep.
  destruct (honest_more w es [e] s Hs) as [Hp Hr Hl].
  destruct e as [c|c|c env| |i|l|n]; cbn [step] in Hstep.
  - case_decide; simplify_eq. by constructor.
  - case_decide; simplify_eq. by constructor.
  - case_decide; [|done]. apply with_room_Some in Hstep as [-> _].
    destruct (onEnvelope_asks (es ++ [Recv c env]) c env s) as (Hrun' & Hloops & ts & Hpool & Hts).
    { apply elem_of_app. right. by apply list_elem_of_singleton. }
    constructor; rewrite ?Hrun', ?Hloops, ?Hpool; try done. by apply Forall_app.
  - destruct (pool s) as [|t rest] eqn:Hpool; [done|]. case_match; simplify_eq.
    inversion_clear Hp as [|? ? Ht Hrest]. constructor; cbn; [done| |done]. apply Forall_app. by split; [|constructor].
  - destruct (running s !! i) as [t|] eqn:Ht; simplify_eq.
    pose proof (honest_running _ _ _ Hs) as Hr0. assert (asked es t) as Ha by (by eapply Forall_lookup_1).
    unfold run_task. autorewrite with chat. cbn [world set_running].
    destruct (eval (task_body t) (world s)) as [[c k]|] eqn:Hk.
    + constructor; cbn; [done|by apply Forall_delete|]. intros l'. rewrite lookup_insert.
      case_decide as Hll; [|apply Hl]. cbn. apply Forall_app. subst l'. split; [apply Hl|].
      constructor; [|done]. by apply earned_more, (task_earns w es s t c k).
    + constructor; cbn; [done|by apply Forall_delete|done].
  - destruct (loops s !! l) as [[|k rest]|] eqn:Hlk; try done. apply with_room_Some in Hstep as [-> _].
    destruct (cont_body_queues k (set_loops (<[l := rest]> (loops s)) s)) as (Hrun' & Hloops & ts & Hpool & _ & Hcost).
    constructor; rewrite ?Hrun', ?Hloops, ?Hpool; [|done|].
    + apply Forall_app. split; [done|]. apply Forall_forall. intros t Ht.
      assert (task_cost t <= 2)%nat as Hle.
      { etrans; [|exact Hcost]. apply (sum_list_with_in (task_cost t) id). by apply list_elem_of_fmap_2. }
      destruct t; cbn in Hle; done || lia.
    + intros l'. cbn. rewrite lookup_insert. case_decide as Hll; [|apply Hl]. subst l'. cbn.
      specialize (Hl l). rewrite Hlk in Hl. cbn in Hl. by inversion Hl.
  - simplify_eq. by constructor.
Qed.

(** What the log of logins says was granted. *)
Lemma logins_granted w es s e s' conn uid :
  honest w es s → step e s = Some s' → (conn, uid) ∈ logins e s → granted w es conn uid.
Proof.
  intros [_ _ Hl] _ Hin. destruct e as [| | | | |l|]; cbn [logins] in Hin; try by apply not_elem_of_nil in Hin.
  specialize (Hl l). destruct (loops s !! l) as [[|k rest]|]; try by apply not_elem_of_nil in Hin.
  cbn in Hl. inversion_clear Hl as [|? ? Hk _].
  destruct k as [c r t|c r| | | | | | | |]; try (by apply not_elem_of_nil in Hin);
    cbn [earned] in Hk; destruct (ls_success r); try (by apply not_elem_of_nil in Hin);
    apply list_elem_of_singleton in Hin as [= -> ->]; by apply Hk.
Qed.

Lemma run_history_granted w es s :
  run es (start w) = Some s →
  honest w es s ∧ ∃ log, history w log s ∧ ∀ conn uid, (conn, uid) ∈ log → granted w es conn uid.
Proof.
  revert s. induction es as [|e es IH] using rev_ind; intros s Hrun.
  - cbn in Hrun. simplify_eq. split.
    + by constructor.
    + exists []. split; [constructor|]. by intros ? ? ?%not_elem_of_nil.
  - rewrite run_app in Hrun. destruct (run es (start w)) as [s0|] eqn:Hrun0; [|done]. cbn in Hrun.
    destruct (step e s0) as [s1|] eqn:Hstep; [|done]. cbn in Hrun. simplify_eq.
    destruct (IH s0 eq_refl) as [Hs (log & Hh & Hlog)]. split; [by eapply honest_step|].
    exists (log ++ logins e s0). split; [by eapply history_step|].
    intros conn uid [Hin|Hin]%elem_of_app; apply granted_more; [by apply Hlog|].
    by eapply logins_granted.
Qed.

(** ** Theorem *)

(** C3. Nobody is logged in without credentials: in every reachable state, a connection that is
    logged in as a user, and a connection on which a user is registered to receive
    messages, has sent a login request which the stores accepted as that user's at some
    time after it arrived, by its password or as a token that was a session of the user. *)
Theorem logged_in_by_credentials w es s conn :
  run es (start w) = Some s →
  (isAuthenticated conn (sessionManager_ s) = true → granted w es conn (getUid conn (sessionManager_ s))) ∧
  (∀ uid, getConnection uid (sessionManager_ s) = Some conn → granted w es conn uid).
Proof.
  intros Hrun. destruct (run_history_granted w es s Hrun) as [_ (log & Hh & Hlog)].
  apply history_secure in Hh as [_ _ _ [Hc Hu] _]. split.
  - unfold isAuthenticated, getUid. destruct (contexts (sessionManager_ s) !! conn) as [x|] eqn:Hx; [|done].
    intros Ha. by apply Hlog, Hc.
  - intros uid Hconn. by apply Hlog, Hu.
Qed.
End Credentials.

(** ** The theorem at work on the world in memory *)

Lemma logged_in_by_credentials_witness :
  getConnection "alice" (sessionManager_ said1) = Some 1%nat ∧ granted mem_two said_events 1%nat "alice".
Proof.
  assert (getConnection "alice" (sessionManager_ said1) = Some 1%nat) as Hc by (vm_compute; reflexivity).
  split; [exact Hc|].
  refine (proj2 (logged_in_by_credentials mem_two said_events said1 1%nat _) "alice" Hc).
  vm_compute. reflexivity.
Defined.
