(* ===== verification/Interleaving.v ===== *)
(** Service calls that are interleaved: the workers of [ChatServer] make the calls of their
    services one by one, in any order among each other.  The runs of the server so obtained
    are, for everything but the stores, runs of [step] over a script, stores that answer what
    the calls were answered; so the security invariant of [ChatServerFacts], which does not
    look at the stores, holds in them. *)

From S2P Require Import Prelude Machine CString Proto SessionManager RoomManager Repositories MemWorld.
From S2P Require Import LoginService ChatService FriendService RoomService.
From S2P Require Import ChatServer ChatServerFacts ChatServerTheorems.

Local Open Scope Z_scope.

(** ** Services as sequences of calls *)

(** The calls that the services make of the repositories, the clock and the generator, with
    the type of what they return. *)
Inductive Call : Type → Type :=
| call_registerUser (uid passwd nickname email : string) : Call bool
| call_verifyUser (uid passwd : string) : Call bool
| call_userExists (uid : string) : Call bool
| call_getUserInfo (uid : string) : Call (option UserInfo)
| call_addFriendRequest (from to message : string) : Call bool
| call_respondFriendRequest (requester responder : string) (accepted : bool) : Call bool
| call_removeFriends (uid1 uid2 : string) : Call bool
| call_getFriendList (uid : string) : Call (list UserInfo)
| call_getPendingRequests (uid : string) : Call (list string)
| call_storeMessage (from to room content : string) : Call Z
| call_getMessage (msg_id : Z) : Call (option MessageInfo)
| call_recallMessage (msg_id : Z) (uid : string) : Call bool
| call_getUndeliveredMessages (uid : string) : Call (list MessageInfo)
| call_markMessagesDelivered (uid : string) : Call bool
| call_createRoom (name creator : string) : Call Z
| call_getRoomByName (name : string) : Call (option RoomInfo)
| call_roomExists (name : string) : Call bool
| call_addRoomMember (room_id : Z) (uid : string) (role : Z) : Call bool
| call_createSession (uid token node_id : string) (ttl : Z) : Call bool
| call_getSessionByToken (token : string) : Call (option SessionInfo)
| call_revokeSession (token : string) : Call bool
| call_revokeAllSessions (uid : string) : Call bool
| call_updateSessionNode (token node_id : string) : Call bool
| call_time : Call Z
| call_uniform_int (lo hi : Z) : Call Z.

Abbreviation Prog := (Calls Call).

Section Services.
  Context `{Mktime, Config}.

Fixpoint generateToken_prog (n : nat) : Prog string :=
  match n with
  | O => mret ""%string
  | S n =>
    d ← call (call_uniform_int 0 15);
    rest ← generateToken_prog n;
    mret (String (hex_at d) rest)
  end.

(** What a login hands out, once the user is known. *)
Definition login_data_prog (uid token : string) (userInfo : UserInfo) : Prog LoginResult :=
  friends ← call (call_getFriendList uid);
  pendingRequests ← call (call_getPendingRequests uid);
  offlineMessages ← call (call_getUndeliveredMessages uid);
  mret (mkLoginResult true token userInfo friends pendingRequests offlineMessages "").

Definition login_prog (uid passwd node_id : string) : Prog LoginResult :=
  verified ← call (call_verifyUser uid passwd);
  if negb verified then mret (LoginResult_failed "invalid uid or password") else
  userInfo ← call (call_getUserInfo uid);
  match userInfo with
  | None => mret (LoginResult_failed "user not found")
  | Some userInfo =>
    token ← generateToken_prog 64;
    sessionOk ← call (call_createSession uid token node_id session_ttl);
    if negb sessionOk then mret (LoginResult_failed "session create failed")
    else login_data_prog uid token userInfo
  end.

Definition loginWithToken_prog (token node_id : string) : Prog LoginResult :=
  session ← call (call_getSessionByToken token);
  match session with
  | None => mret (LoginResult_failed "invalid token")
  | Some session =>
    let uid := si_uid session in
    _ ← call (call_updateSessionNode token node_id);
    userInfo ← call (call_getUserInfo uid);
    match userInfo with
    | None => mret (LoginResult_failed "user not found")
    | Some userInfo => login_data_prog uid token userInfo
    end
  end.

Definition recallMessage_prog (msg_id : Z) (uid : string) : Prog RecallResult :=
  msg ← call (call_getMessage msg_id);
  match msg with
  | None => mret (mkRecallResult false "message not found")
  | Some msg =>
    if negb (String.eqb (mi_from_uid msg) uid)
    then mret (mkRecallResult false "can only recall your own messages") else
    now ← call call_time;
    if 120 <? now - mktime (tm_of_created_at (mi_created_at msg))
    then mret (mkRecallResult false "recall window expired (2 min)") else
    recalled ← call (call_recallMessage msg_id uid);
    mret (if negb recalled then mkRecallResult false "recall failed" else mkRecallResult true "")
  end.

Definition createRoom_prog (name creator : string) : Prog RoomResult :=
  taken ← call (call_roomExists name);
  if (taken : bool) then mret (mkRoomResult false 0 "room already exists") else
  room_id ← call (call_createRoom name creator);
  if room_id <=? 0 then mret (mkRoomResult false 0 "create room failed") else
  _ ← call (call_addRoomMember room_id creator 2);
  mret (mkRoomResult true room_id "").

Definition joinRoom_prog (room_name uid : string) : Prog RoomResult :=
  room ← call (call_getRoomByName room_name);
  match room with
  | None => mret (mkRoomResult false 0 "room not found")
  | Some room =>
    ok ← call (call_addRoomMember (ri_room_id room) uid 0);
    mret (mkRoomResult ok (ri_room_id room) (if negb ok then "join room failed" else "")%string)
  end.

Definition sendMessage_prog (from to room content : string) : Prog SendMessageResult :=
  msg_id ← call (call_storeMessage from to room content);
  mret (if msg_id <=? 0 then mkSendMessageResult false 0 "store message failed"
        else mkSendMessageResult true msg_id "").

(** The body of a task, call by call. *)
Definition task_prog (t : Task) : Prog (option (Conn * Cont)) :=
  match t with
  | task_loginWithToken conn token =>
    result ← loginWithToken_prog token node_id_;
    mret (Some (conn, cont_loginWithToken conn result token))
  | task_login conn uid passwd =>
    result ← login_prog uid passwd node_id_;
    mret (Some (conn, cont_login conn result))
  | task_logout uid token =>
    _ ← call (call_revokeSession token);
    _ ← call (call_revokeAllSessions uid);
    mret None
  | task_register conn uid passwd nickname email =>
    ok ← call (call_registerUser uid passwd nickname email);
    mret (Some (conn, cont_register conn ok))
  | task_sendMessage conn from to room content =>
    result ← sendMessage_prog from to room content;
    mret (Some (conn, cont_sendMessage conn from to room content result))
  | task_getMessage _ msg_id => _ ← call (call_getMessage msg_id); mret None
  | task_createRoom conn uid name =>
    result ← createRoom_prog name uid;
    mret (Some (conn, cont_createRoom conn uid name result))
  | task_joinRoom conn uid roomName =>
    result ← joinRoom_prog roomName uid;
    mret (Some (conn, cont_joinRoom conn uid roomName result))
  | task_friendRequest conn from to msg =>
    exists_ ← call (call_userExists to);
    _ ← (if negb exists_ then mret false else call (call_addFriendRequest from to msg));
    mret (Some (conn, cont_friendRequest conn from to msg))
  | task_friendResponse conn requester responder accepted =>
    _ ← call (call_respondFriendRequest requester responder accepted);
    mret (Some (conn, cont_friendResponse conn requester responder accepted))
  | task_friendRemove conn uid target =>
    _ ← call (call_removeFriends uid target);
    mret (Some (conn, cont_friendRemove conn uid target))
  | task_markDelivered uid => _ ← call (call_markMessagesDelivered uid); mret None
  | task_recall conn uid msg_id to room =>
    result ← recallMessage_prog msg_id uid;
    mret (Some (conn, cont_recall conn uid msg_id to room result))
  end.
End Services.

(** ** Running the calls *)

Section Perform.
  Context {W : Type}.
  Context `{UserRepository W, SessionRepository W, FriendRepository W, MessageRepository W}.
  Context `{RoomRepository W, Clock W, Random W}.

#[export] Instance perform_call : Perform Call W := λ B c,
  match c with
  | call_registerUser u p n e => userRepo_registerUser u p n e
  | call_verifyUser u p => userRepo_verifyUser u p
  | call_userExists u => userRepo_userExists u
  | call_getUserInfo u => userRepo_getUserInfo u
  | call_addFriendRequest f t m => friendRepo_addFriendRequest f t m
  | call_respondFriendRequest r t a => friendRepo_respondFriendRequest r t a
  | call_removeFriends u v => friendRepo_removeFriends u v
  | call_getFriendList u => friendRepo_getFriendList u
  | call_getPendingRequests u => friendRepo_getPendingRequests u
  | call_storeMessage f t r c => msgRepo_storeMessage f t r c
  | call_getMessage i => msgRepo_getMessage i
  | call_recallMessage i u => msgRepo_recallMessage i u
  | call_getUndeliveredMessages u => msgRepo_getUndeliveredMessages u
  | call_markMessagesDelivered u => msgRepo_markMessagesDelivered u
  | call_createRoom n c => roomRepo_createRoom n c
  | call_getRoomByName n => roomRepo_getRoomByName n
  | call_roomExists n => roomRepo_roomExists n
  | call_addRoomMember i u r => roomRepo_addRoomMember i u r
  | call_createSession u t n l => sessionRepo_createSession u t n l
  | call_getSessionByToken t => sessionRepo_getSessionByToken t
  | call_revokeSession t => sessionRepo_revokeSession t
  | call_revokeAllSessions u => sessionRepo_revokeAllSessions u
  | call_updateSessionNode t n => sessionRepo_updateSessionNode t n
  | call_time => time_now
  | call_uniform_int lo hi => uniform_int lo hi
  end.

End Perform.

(** All at once, the calls of a task are its body. *)
Section Bodies.
  Context {W : Type}.
  Context `{UserRepository W, SessionRepository W, FriendRepository W, MessageRepository W}.
  Context `{RoomRepository W, Clock W, Random W, Mktime, Config}.

Lemma generateToken_calls n (w : W) : interp (generateToken_prog n) w = generateToken_loop n w.
Proof.
  revert w. induction n as [|n IH]; intros w; [done|]. cbn [generateToken_prog generateToken_loop].
  apply interp_bind_eq; [by etrans; [apply interp_call|]|]. intros d w1. apply interp_bind_eq; [apply IH|done].
Qed.

Lemma login_calls uid passwd node (w : W) : interp (login_prog uid passwd node) w = login uid passwd node w.
Proof.
  unfold login_prog, login, login_data_prog. calls.
Qed.

Lemma loginWithToken_calls token node (w : W) :
  interp (loginWithToken_prog token node) w = loginWithToken token node w.
Proof. unfold loginWithToken_prog, loginWithToken, login_data_prog. cbv zeta. calls. Qed.

Lemma recallMessage_calls msg_id uid to room (w : W) :
  interp (recallMessage_prog msg_id uid) w = recallMessage msg_id uid to room w.
Proof. unfold recallMessage_prog, recallMessage. cbv zeta. calls. Qed.

Lemma createRoom_calls name creator (w : W) : interp (createRoom_prog name creator) w = RoomService.createRoom name creator w.
Proof. unfold createRoom_prog, RoomService.createRoom. calls. Qed.

Lemma joinRoom_calls name uid (w : W) : interp (joinRoom_prog name uid) w = RoomService.joinRoom name uid w.
Proof. unfold joinRoom_prog, RoomService.joinRoom. calls. Qed.

Lemma sendMessage_calls from to room content (w : W) :
  interp (sendMessage_prog from to room content) w = sendMessage from to room content w.
Proof. unfold sendMessage_prog, sendMessage. calls. Qed.

Lemma task_calls t (w : W) : interp (task_prog t) w = task_body t w.
Proof.
  destruct t; cbn [task_prog task_body];
    unfold logout, registerUser, getMessage, addFriendRequest, respondFriendRequest, removeFriend, markMessagesDelivered.
  all: try (apply interp_bind_eq; [|done];
    first [apply login_calls | apply loginWithToken_calls | apply recallMessage_calls | apply createRoom_calls
          | apply joinRoom_calls | apply sendMessage_calls]).
  all: rewrite ?interp_bind, ?bind_eq, ?exec_bind, ?eval_call, ?exec_call; unfold perform, perform_call;
    rewrite ?exec_bind, ?exec_ret; try done.
  destruct (negb _); rewrite ?exec_call; autorewrite with chat; done.
Qed.
End Bodies.

(** ** Answers *)

(** What a call returned, and stores that only hand out answers which were written down
    before, one for each call, whatever is asked. *)
Inductive Answer :=
| answer_bool (b : bool)
| answer_Z (z : Z)
| answer_user (u : option UserInfo)
| answer_users (l : list UserInfo)
| answer_names (l : list string)
| answer_message (m : option MessageInfo)
| answer_messages (l : list MessageInfo)
| answer_room (r : option RoomInfo)
| answer_session (s : option SessionInfo).

Abbreviation Script := (list Answer).

Definition answer_of {B} (c : Call B) : B → Answer :=
  match c with
  | call_registerUser _ _ _ _ | call_verifyUser _ _ | call_userExists _
  | call_addFriendRequest _ _ _ | call_respondFriendRequest _ _ _ | call_removeFriends _ _
  | call_recallMessage _ _ | call_markMessagesDelivered _ | call_roomExists _
  | call_addRoomMember _ _ _ | call_createSession _ _ _ _ | call_revokeSession _
  | call_revokeAllSessions _ | call_updateSessionNode _ _ => answer_bool
  | call_storeMessage _ _ _ _ | call_createRoom _ _ | call_time | call_uniform_int _ _ => answer_Z
  | call_getUserInfo _ => answer_user
  | call_getFriendList _ => answer_users
  | call_getPendingRequests _ => answer_names
  | call_getMessage _ => answer_message
  | call_getUndeliveredMessages _ => answer_messages
  | call_getRoomByName _ => answer_room
  | call_getSessionByToken _ => answer_session
  end.

Definition next {B} (read : Answer → option B) (none : B) : State Script B := λ o,
  match o with
  | a :: o => (default none (read a), o)
  | [] => (none, [])
  end.

Definition next_bool : State Script bool := next (λ a, match a with answer_bool b => Some b | _ => None end) false.
Definition next_Z : State Script Z := next (λ a, match a with answer_Z z => Some z | _ => None end) 0.

#[export] Instance script_users : UserRepository Script := {
  userRepo_registerUser _ _ _ _ := next_bool;
  userRepo_verifyUser _ _ := next_bool;
  userRepo_userExists _ := next_bool;
  userRepo_getUserInfo _ := next (λ a, match a with answer_user u => Some u | _ => None end) None;
  userRepo_updateLastLogin _ := next_bool
}.

#[export] Instance script_friends : FriendRepository Script := {
  friendRepo_addFriendRequest _ _ _ := next_bool;
  friendRepo_respondFriendRequest _ _ _ := next_bool;
  friendRepo_removeFriends _ _ := next_bool;
  friendRepo_getFriendList _ := next (λ a, match a with answer_users l => Some l | _ => None end) [];
  friendRepo_getPendingRequests _ := next (λ a, match a with answer_names l => Some l | _ => None end) []
}.

#[export] Instance script_messages : MessageRepository Script := {
  msgRepo_storeMessage _ _ _ _ := next_Z;
  msgRepo_getMessage _ := next (λ a, match a with answer_message m => Some m | _ => None end) None;
  msgRepo_recallMessage _ _ := next_bool;
  msgRepo_addOfflineMessage _ _ := next_bool;
  msgRepo_getUndeliveredMessages _ := next (λ a, match a with answer_messages l => Some l | _ => None end) [];
  msgRepo_markMessagesDelivered _ := next_bool
}.

#[export] Instance script_rooms : RoomRepository Script := {
  roomRepo_createRoom _ _ := next_Z;
  roomRepo_getRoomByName _ := next (λ a, match a with answer_room r => Some r | _ => None end) None;
  roomRepo_getRoomById _ := next (λ a, match a with answer_room r => Some r | _ => None end) None;
  roomRepo_roomExists _ := next_bool;
  roomRepo_addRoomMember _ _ _ := next_bool;
  roomRepo_removeRoomMember _ _ := next_bool;
  roomRepo_getRoomMembers _ := next (λ a, match a with answer_names l => Some l | _ => None end) [];
  roomRepo_getUserRooms _ := mret []
}.

#[export] Instance script_sessions : SessionRepository Script := {
  sessionRepo_createSession _ _ _ _ := next_bool;
  sessionRepo_getSessionByToken _ := next (λ a, match a with answer_session s => Some s | _ => None end) None;
  sessionRepo_revokeSession _ := next_bool;
  sessionRepo_revokeAllSessions _ := next_bool;
  sessionRepo_isValidSession _ := next_bool;
  sessionRepo_updateSessionNode _ _ := next_bool
}.

#[export] Instance script_clock : Clock Script := { time_now := next_Z; Timestamp_now := next_Z }.
#[export] Instance script_random : Random Script := { uniform_int _ _ := next_Z }.
#[export] Instance script_environment : Environment Script := { outside _ o := o }.

Lemma perform_script {B} (c : Call B) b (o : Script) : perform c (answer_of c b :: o) = (b, o).
Proof. by destruct c. Qed.

(** ** The server with interleaved calls *)

(** A task in the hands of a worker: the task, what its calls have returned so far, and
    what it still has to do. *)
Record Worker := mkWorker { w_task : Task; w_past : list Answer; w_todo : Prog (option (Conn * Cont)) }.

(** [base] is the server without its running tasks, which are the [busy] workers. *)
Record Fine (W : Type) := mkFine { base : Server W; busy : list Worker }.
Arguments mkFine {W} _ _.
Arguments base {W} _.
Arguments busy {W} _.

(** A worker takes a task, makes the next call of its task, or has made them all and hands
    over the continuation; everything else is as before. *)
Inductive fine_event :=
| Other (e : event)
| Take
| MakeCall (i : nat)
| HandOver (i : nat).

(** The events of [step] that are not a worker's. *)
Definition other (e : event) : bool :=
  match e with TakeTask | FinishTask _ => false | _ => true end.

(** The event of [step] that does the same at once. *)
Definition coarse_event (e : fine_event) : option event :=
  match e with
  | Other e => Some e
  | Take => Some TakeTask
  | MakeCall _ => None
  | HandOver i => Some (FinishTask i)
  end.

Section Fine.
  Context {W : Type}.
  Context `{UserRepository W, SessionRepository W, FriendRepository W, MessageRepository W}.
  Context `{RoomRepository W, Clock W, Random W, Mktime, Environment W, Config}.

Definition fine_step (e : fine_event) (s : Fine W) : option (Fine W) :=
  match e with
  | Other e => if other e then b ← step e (base s); Some (mkFine b (busy s)) else None
  | Take =>
    match pool (base s) with
    | t :: rest =>
      if (length (busy s) <? workers)%nat
      then Some (mkFine (set_pool rest (base s)) (busy s ++ [mkWorker t [] (task_prog t)])) else None
    | [] => None
    end
  | MakeCall i =>
    match busy s !! i with
    | Some (mkWorker t past (Do c k)) =>
      let '(b, w) := perform c (world (base s)) in
      Some (mkFine (set_world w (base s)) (<[i := mkWorker t (past ++ [answer_of c b]) (k b)]> (busy s)))
    | _ => None
    end
  | HandOver i =>
    match busy s !! i with
    | Some (mkWorker _ _ (Ret (Some (conn, k)))) =>
      Some (mkFine (exec (runInLoop conn k) (base s)) (delete i (busy s)))
    | Some (mkWorker _ _ (Ret None)) => Some (mkFine (base s) (delete i (busy s)))
    | _ => None
    end
  end.

Fixpoint fine_run (es : list fine_event) (s : Fine W) : option (Fine W) :=
  match es with
  | [] => Some s
  | e :: es => s' ← fine_step e s; fine_run es s'
  end.

Definition fine_start (w : W) : Fine W := mkFine (start w) [].
End Fine.

(** The same server over a script: the tables, the queues, the connections and what was
    sent are the same, and the busy workers have their tasks before them. *)
Definition scripted {W} (s : Server W) (tasks : list Task) (o : Script) : Server Script :=
  mkServer (sessionManager_ s) (roomManager_ s) (pool s) tasks (loops s) (connected s) (seen s) o (out s).

(** ** Handlers do the same over a script *)

Section Mirrors.
  Context {W : Type}.
  Context `{UserRepository W, SessionRepository W, FriendRepository W, MessageRepository W}.
  Context `{RoomRepository W, Clock W, Random W, Mktime, Environment W, Config}.

(** With the right answers before it, [m'] does to the script's server what [m] does, and
    uses them up. *)
Definition mirrors {A} (m : State (Server W) A) (m' : State (Server Script) A) : Prop :=
  ∀ b tasks o, ∃ past,
    m' (scripted b tasks (past ++ o)) = (eval m b, scripted (exec m b) tasks o).

Lemma mirrors_ret {A} (a : A) : mirrors (mret a) (mret a).
Proof. intros b tasks o. by exists []. Qed.

Lemma mirrors_bind {A B} (m : State (Server W) A) m' (k : A → State (Server W) B) k' :
  mirrors m m' → (∀ a, mirrors (k a) (k' a)) → mirrors (m ≫= k) (m' ≫= k').
Proof.
  intros Hm Hk b tasks o. destruct (Hk (eval m b) (exec m b) tasks o) as [past2 Hm2].
  destruct (Hm b tasks (past2 ++ o)) as [past1 Hm1]. exists (past1 ++ past2).
  rewrite <- (assoc_L (++)), bind_eq. unfold eval at 1, exec at 1. rewrite Hm1. cbn [fst snd].
  by rewrite Hm2, eval_bind, exec_bind.
Qed.

Lemma mirrors_for_each {A} (l : list A) (f : A → State (Server W) unit) f' :
  (∀ a, mirrors (f a) (f' a)) → mirrors (for_each l f) (for_each l f').
Proof.
  intros Hf. induction l as [|a l IH]; [apply mirrors_ret|].
  apply mirrors_bind; [apply Hf|intros _; exact IH].
Qed.

(** A step that does not touch the world. *)
Lemma mirrors_plain {A} (m : State (Server W) A) (m' : State (Server Script) A) :
  (∀ b tasks o, m' (scripted b tasks o) = (eval m b, scripted (exec m b) tasks o)) → mirrors m m'.
Proof. intros Hm b tasks o. exists []. apply Hm. Qed.

Lemma mirrors_call_sm f : mirrors (call_sm f) (call_sm f).
Proof. by apply mirrors_plain. Qed.

Lemma mirrors_ask_sm {A} (f : SessionManager → A) : mirrors (ask_sm f) (ask_sm f).
Proof. by apply mirrors_plain. Qed.

Lemma mirrors_call_rooms f : mirrors (call_rooms f) (call_rooms f).
Proof. by apply mirrors_plain. Qed.

Lemma mirrors_gets_rooms {A} (f : RoomManager → A) :
  mirrors (gets (λ s, f (roomManager_ s))) (gets (λ s, f (roomManager_ s))).
Proof. by apply mirrors_plain. Qed.

Lemma mirrors_run t : mirrors (threadPool_run t) (threadPool_run t).
Proof. by apply mirrors_plain. Qed.

Lemma mirrors_emit a : mirrors (emit a) (emit a).
Proof. by apply mirrors_plain. Qed.

Lemma mirrors_send c m : mirrors (codec_send c m) (codec_send c m).
Proof. by apply mirrors_plain. Qed.

Lemma mirrors_error c n r : mirrors (sendError c n r) (sendError c n r).
Proof. by apply mirrors_plain. Qed.

Lemma mirrors_now : mirrors (call_world Timestamp_now) (call_world Timestamp_now).
Proof.
  intros b tasks o. exists [answer_Z (eval Timestamp_now (world b))].
  rewrite eval_call_world, exec_call_world. reflexivity.
Qed.

Lemma mirrors_sendFriendList c : mirrors (sendFriendList c) (sendFriendList c).
Proof.
  unfold sendFriendList. repeat (apply mirrors_bind; [|intros ?]);
    [apply mirrors_ask_sm..|by apply mirrors_plain|apply mirrors_send].
Qed.

Lemma mirrors_broadcast room m : mirrors (broadcast room m) (broadcast room m).
Proof.
  unfold broadcast. apply mirrors_bind; [apply (mirrors_gets_rooms (RoomManager.getRoomMembers room))|intros members].
  apply mirrors_for_each. intros u. apply mirrors_bind; [apply mirrors_ask_sm|intros [c|]];
    [apply mirrors_send|apply mirrors_ret].
Qed.

(** Handlers and continuations are the same code over any stores. *)
Ltac mirror :=
  repeat first
    [ apply mirrors_ret | apply mirrors_send | apply mirrors_error | apply mirrors_run | apply mirrors_emit
    | apply mirrors_call_sm | apply mirrors_call_rooms | apply mirrors_ask_sm | apply mirrors_now
    | apply mirrors_sendFriendList | apply mirrors_broadcast
    | apply mirrors_for_each; intros ?
    | apply mirrors_bind; [|intros ?]
    | progress cbn [negb]
    | case_match ].

Lemma mirrors_onEnvelope conn env : mirrors (onEnvelope conn env) (onEnvelope conn env).
Proof.
  unfold onEnvelope, handleLogin, handleLogout, handleRegister, handleChatMessage, handleCreateRoom,
    handleJoinRoom, handleFriendRequest, handleFriendResponse, handleFriendRemove, handleRecall.
  cbv zeta. mirror.
Qed.

Lemma mirrors_cont_body k : mirrors (cont_body k) (cont_body k).
Proof.
  destruct k; cbn [cont_body]; unfold login_done, sendPendingRequests, sendOfflineMessages,
    sendMessage_done, recall_done; cbv zeta; mirror.
Qed.
End Mirrors.

(** ** The refinement *)

Section Refinement.
  Context {W : Type}.
  Context `{UserRepository W, SessionRepository W, FriendRepository W, MessageRepository W}.
  Context `{RoomRepository W, Clock W, Random W, Mktime, Environment W, Config}.

Lemma with_room_scripted (s s' : Server W) tasks o :
  with_room s = Some s' → with_room (scripted s tasks o) = Some (scripted s' tasks o).
Proof. unfold with_room. cbn. case_match; [by intros [= <-]|done]. Qed.

(** A step that is not a worker's is one of the script's server. *)
Lemma other_scripted e (b b' : Server W) tasks o :
  other e = true → step e b = Some b' →
  ∃ past, step e (scripted b tasks (past ++ o)) = Some (scripted b' tasks o).
Proof.
  intros Ho Hstep. destruct e as [c|c|c env| |i|l|n]; try done; cbn [step] in *.
  - exists []. case_decide; simplify_eq. cbn. by rewrite decide_False.
  - exists []. case_decide; simplify_eq. cbn. by rewrite decide_True.
  - case_decide; [|done]. destruct (mirrors_onEnvelope c env b tasks o) as [past Hm]. exists past.
    cbn. rewrite decide_True by done. unfold exec at 1. rewrite Hm. by apply with_room_scripted.
  - destruct (loops b !! l) as [[|k rest]|] eqn:Hl; try done.
    destruct (mirrors_cont_body k (set_loops (<[l := rest]> (loops b)) b) tasks o) as [past Hm]. exists past.
    cbn [loops scripted]. rewrite Hl.
    change (set_loops _ (scripted b tasks _)) with (scripted (set_loops (<[l := rest]> (loops b)) b) tasks (past ++ o)).
    unfold exec at 1. rewrite Hm. by apply with_room_scripted.
  - simplify_eq. exists []. reflexivity.
Qed.

(** What a worker's calls have returned leads its task to what it still has to do. *)
Definition consistent (x : Worker) : Prop := ∀ o : Script,
  interp (task_prog (w_task x)) (w_past x ++ o) = interp (w_todo x) o.

Lemma map_delete_at {A B} (f : A → B) i (l : list A) : delete i (map f l) = map f (delete i l).
Proof. exact (eq_sym (list_fmap_delete f l i)). Qed.

(** One step of the fine server: the script's server makes the corresponding one, or none
    where a call is made, and needs the answers of a task when the task is handed over. *)
Lemma fine_step_simulated e (s s' : Fine W) :
  fine_step e s = Some s' → Forall consistent (busy s) →
  Forall consistent (busy s') ∧
  ∀ o, ∃ past,
    run (option_list (coarse_event e)) (scripted (base s) (map w_task (busy s)) (past ++ o)) =
    Some (scripted (base s') (map w_task (busy s')) o).
Proof.
  destruct s as [b ws]. intros Hstep Hws. cbn [base busy] in *. destruct e as [e| |i|i].
  - cbn [fine_step base busy] in Hstep. destruct (other e) eqn:Ho; [|done].
    destruct (step e b) as [b'|] eqn:He; [|done]. cbn in Hstep. simplify_eq. split; [done|]. intros o. destruct (other_scripted e b b' (map w_task ws) o Ho He) as [past Hp].
    exists past. cbn [coarse_event base busy]. cbn [option_list option_rect run]. by rewrite Hp.
  - cbn [fine_step base busy] in Hstep. destruct (pool b) as [|t rest] eqn:Hp; [done|].
    destruct (length ws <? workers)%nat eqn:Hlen; simplify_eq. cbn [base busy]. split.
    { apply Forall_app. split; [done|]. constructor; [|done]. by intros o. }
    intros o. exists []. cbn [coarse_event]; unfold option_list; cbn [option_rect run step pool scripted running app]. rewrite Hp, length_map, Hlen.
    by rewrite map_app.
  - cbn [fine_step base busy] in Hstep. destruct (ws !! i) as [[t past [a|B c k]]|] eqn:Hi; try done.
    rewrite (surjective_pairing (perform c (world b))) in Hstep. simplify_eq. cbn [base busy].
    set (x := eval (perform c) (world b)). split.
    { apply Forall_insert; [done|]. intros o. cbn [w_task w_past w_todo].
      rewrite <- (assoc_L (++)). pose proof (Forall_lookup_1 _ _ _ _ Hws Hi) as Hc. unfold consistent in Hc.
      cbn in Hc. rewrite Hc. cbn [interp app]. rewrite bind_eq. unfold eval at 1, exec at 1.
      by rewrite perform_script. }
    intros o. exists []. cbn [coarse_event]; unfold option_list; cbn [option_rect run app]. f_equal. unfold scripted. cbn. f_equal.
    rewrite list_fmap_insert. cbn. symmetry. apply list_insert_id. by rewrite list_lookup_fmap, Hi.
  - cbn [fine_step base busy] in Hstep. destruct (ws !! i) as [[t past [a|B c k]]|] eqn:Hi; try done.
    pose proof (Forall_lookup_1 _ _ _ _ Hws Hi) as Hc. unfold consistent in Hc. cbn [w_task w_past w_todo] in Hc.
    assert (∀ o, task_body t (past ++ o) = (a, o)) as Hbody by (intros o; by rewrite <- task_calls, Hc).
    assert (busy s' = delete i ws ∧ ∀ o, scripted (base s') (map w_task (busy s')) o =
      match a with
      | Some (conn, k) => exec (runInLoop conn k) (scripted b (map w_task (delete i ws)) o)
      | None => scripted b (map w_task (delete i ws)) o
      end) as (Hbusy & Hs').
    { destruct a as [[conn k]|]; by simplify_eq. }
    split; [rewrite Hbusy; by apply Forall_delete|]. intros o. exists past.
    cbn [coarse_event]; unfold option_list; cbn [option_rect run step running scripted]. rewrite list_lookup_fmap, Hi. cbn [fmap option_fmap option_map w_task].
    unfold run_task. rewrite exec_bind, eval_call_world, exec_call_world. cbn [world set_running].
    unfold eval at 1, exec at 2. cbn [world scripted]. rewrite Hbody. cbn [fst snd]. rewrite Hs'.
    rewrite map_delete_at. by destruct a as [[conn k]|].
Qed.

Lemma fine_run_simulated es (s s' : Fine W) :
  fine_run es s = Some s' → Forall consistent (busy s) →
  ∀ o, ∃ o',
    run (omap coarse_event es) (scripted (base s) (map w_task (busy s)) o') =
    Some (scripted (base s') (map w_task (busy s')) o).
Proof.
  revert s. induction es as [|e es IH]; intros s Hrun Hws o; cbn in Hrun.
  - simplify_eq. by exists o.
  - destruct (fine_step e s) as [s1|] eqn:Hstep; [|done]. cbn in Hrun.
    destruct (fine_step_simulated e s s1 Hstep Hws) as [Hws1 Hsim].
    destruct (IH s1 Hrun Hws1 o) as (o2 & Hrun2). destruct (Hsim o2) as (past & Hrun1).
    exists (past ++ o2). change (omap coarse_event (e :: es)) with
      (match coarse_event e with Some e' => e' :: omap coarse_event es | None => omap coarse_event es end).
    transitivity (run (option_list (coarse_event e) ++ omap coarse_event es)
      (scripted (base s) (map w_task (busy s)) (past ++ o2))); [by destruct (coarse_event e)|].
    rewrite run_app, Hrun1. exact Hrun2.
Qed.

(** ** Theorems *)

(** The script answers what the calls of the run were answered, so this is about the tables,
    the queues and the messages, and says nothing of the stores: every run of the fine server
    goes through the states of a run of [step]. *)
Lemma interleaving_refines es (w : W) s :
  fine_run es (fine_start w) = Some s →
  ∃ o o', run (omap coarse_event es) (start o) = Some (scripted (base s) (map w_task (busy s)) o').
Proof.
  intros Hrun. destruct (fine_run_simulated es (fine_start w) s Hrun (Forall_nil_2 _) []) as (o & Hrun').
  by exists o, [].
Qed.

(** The logins of a run of the fine server. *)
Definition fine_logins (e : fine_event) (s : Fine W) : list (Conn * string) :=
  match e with Other e => logins e (base s) | _ => [] end.

Inductive fine_history (w : W) : list (Conn * string) → Fine W → Prop :=
| fine_history_start : fine_history w [] (fine_start w)
| fine_history_step log s e s' :
    fine_history w log s → fine_step e s = Some s' → fine_history w (log ++ fine_logins e s) s'.

(** The security invariant, which does not look at the stores. *)
Lemma fine_history_secure w log s :
  fine_history w log s →
  Forall consistent (busy s) ∧ ∀ o, secure log (scripted (base s) (map w_task (busy s)) o).
Proof.
  induction 1 as [|log s e s' _ [Hc Hs] Hstep].
  - split; [constructor|]. intros o. constructor; cbn; try done; split; cbn; intros ? ?; by rewrite lookup_empty.
  - destruct (fine_step_simulated e s s' Hstep Hc) as [Hc' Hsim]. split; [done|]. intros o.
    destruct (Hsim o) as [past Hrun]. specialize (Hs (past ++ o)).
    assert (fine_logins e s = match coarse_event e with
              | Some e' => logins e' (scripted (base s) (map w_task (busy s)) (past ++ o)) | None => [] end) as ->.
    { by destruct e as [[]| | |]. }
    destruct (coarse_event e) as [e'|]; cbn in Hrun.
    + destruct (step e' _) as [s1|] eqn:He; simplify_eq/=. by eapply secure_step.
    + rewrite app_nil_r. apply (inj Some) in Hrun. by rewrite <- Hrun.
Qed.

(** C6. Authenticity and confidentiality hold at the grain of single store calls: when the
    workers make the calls of their services one by one, interleaved in any way among each
    other, with the handlers and with changes of the stores from outside, then still what a
    connection is sent that never logged in is harmless, the user table knows a user only on
    connections that logged in as that user, and a stored chat message waits to be delivered
    only in the name of a user that the requesting connection logged in as. *)
Theorem interleaved_security w log s :
  fine_history w log s →
  (∀ conn m, Send conn m ∈ out (base s) → (∀ uid, (conn, uid) ∉ log) → harmless m) ∧
  (∀ uid conn, getConnection uid (sessionManager_ (base s)) = Some conn → (conn, uid) ∈ log) ∧
  (∀ l conn from to room content result,
     cont_sendMessage conn from to room content result ∈ default [] (loops (base s) !! l) →
     (conn, from) ∈ log) ∧
  (∀ i conn from to room content past todo,
     busy s !! i = Some (mkWorker (task_sendMessage conn from to room content) past todo) →
     (conn, from) ∈ log).
Proof.
  intros Hh. destruct (fine_history_secure w log s Hh) as [_ Hs]. destruct (Hs []) as [_ Hrun Hl [_ Hu] Ho].
  cbn in *. split_and!.
  - intros conn m Hm Hnot. rewrite Forall_forall in Ho.
    destruct (Ho _ Hm) as [|[u Hin]]; [done|]. by destruct (Hnot u).
  - intros uid conn. apply Hu.
  - intros l conn from to room content result Hk. destruct (loops (base s) !! l) as [ks|] eqn:Hq;
      [|by apply not_elem_of_nil in Hk]. specialize (Hl l ks Hq). rewrite Forall_forall in Hl. exact (Hl _ Hk).
  - intros i conn from to room content past todo Hi. rewrite Forall_forall in Hrun.
    apply (Hrun (task_sendMessage conn from to room content)). apply list_elem_of_fmap.
    eexists. split; [|by eapply list_elem_of_lookup_2]. done.
Qed.
End Refinement.

(** ** The theorem at work on the world in memory *)

(** Alice and bob log in at the same time, the seventy calls of one taking turns with those
    of the other; bob's worker is done first. *)
Definition login_bob : Envelope := mkEnvelope "" (kLoginReq (mkLoginRequest "bob" "pw2" "")).

Definition two_logins : list fine_event :=
  [Other (Connect 1%nat); Other (Connect 2%nat); Other (Recv 1%nat login_alice);
   Other (Recv 2%nat login_bob); Take; Take] ++
  concat (replicate 70 [MakeCall 0; MakeCall 1]) ++
  [HandOver 1; HandOver 0; Other (RunLoop 0); Other (RunLoop 0)].

Definition both_in : Fine MemWorld := default (fine_start mem_two) (fine_run two_logins (fine_start mem_two)).

Example both_in_online :
  isOnline "alice" (sessionManager_ (base both_in)) = true ∧ isOnline "bob" (sessionManager_ (base both_in)) = true.
Proof. vm_compute. by split. Qed.

(** The logins of a run, event by event. *)
Fixpoint fine_log (es : list fine_event) (s : Fine MemWorld) (log : list (Conn * string))
    : list (Conn * string) :=
  match es with
  | [] => log
  | e :: es =>
    match fine_step e s with
    | Some s' => fine_log es s' (log ++ fine_logins e s)
    | None => log
    end
  end.

Lemma fine_run_history es s s' w log :
  fine_history w log s → fine_run es s = Some s' → fine_history w (fine_log es s log) s'.
Proof.
  revert s log. induction es as [|e es IH]; intros s log Hh Hrun; cbn in *; [by simplify_eq|].
  destruct (fine_step e s) as [s1|] eqn:Hstep; [|done]. cbn in Hrun. apply IH; [|done]. by econstructor.
Qed.

Lemma interleaved_security_witness :
  (2%nat, "bob"%string) ∈ fine_log two_logins (fine_start mem_two) [].
Proof.
  apply (interleaved_security mem_two _ both_in).
  - apply (fine_run_history two_logins (fine_start mem_two)); [constructor|].
    apply some_default. vm_compute. reflexivity.
  - vm_compute. reflexivity.
Defined.
