(* ===== verification/ThreadPool.v ===== *)
(** [ThreadPool] of [src/thread_pool.h]: a queue of tasks, workers that take from it, and a
    destructor that lets them finish.  The class is a state machine whose steps are the
    sections of [work()] between two waits; a blocked [cond_.wait] is a step that is not
    possible.  The type of tasks is arbitrary. *)

From S2P Require Import Prelude Machine.

Local Open Scope Z_scope.

(** Where a worker is: in [cond_.wait], executing [task()], or returned. *)
Inductive worker (A : Type) :=
| Waiting
| Executing (task : A)
| Returned.
Arguments Waiting {A}.
Arguments Executing {A} _.
Arguments Returned {A}.

(** The members of the class, and two ghost lists: the tasks in the order they were
    pushed, and the tasks in the order their execution ended. *)
Record ThreadPool (A : Type) := mkThreadPool {
  workers_ : list (worker A);
  tasks_ : list A;
  stop_ : bool;
  pushed : list A;
  finished : list A
}.
Arguments mkThreadPool {A} _ _ _ _ _.
Arguments workers_ {A} _.
Arguments tasks_ {A} _.
Arguments stop_ {A} _.
Arguments pushed {A} _.
Arguments finished {A} _.

(** The number of workers the constructor starts, for a given answer of
    [hardware_concurrency()], an [unsigned] assigned to an [int]. *)
Definition worker_count (hardware_concurrency size : Z) : Z :=
  if size <=? 0 then
    let size := i32 hardware_concurrency in
    if size <=? 0 then 4 else size
  else size.

Section ThreadPool.
  Context {A : Type}.

Definition new_ThreadPool (hardware_concurrency size : Z) : ThreadPool A :=
  mkThreadPool (replicate (Z.to_nat (worker_count hardware_concurrency size)) Waiting)
    [] false [] [].

Definition enqueue (task : A) (p : ThreadPool A) : ThreadPool A :=
  mkThreadPool (workers_ p) (tasks_ p ++ [task]) (stop_ p) (pushed p ++ [task]) (finished p).

Definition pendingTasks (p : ThreadPool A) : Z := i32 (Z.of_nat (length (tasks_ p))).

(** The first half of the destructor; the second, [join], waits for every worker. *)
Definition request_stop (p : ThreadPool A) : ThreadPool A :=
  mkThreadPool (workers_ p) (tasks_ p) true (pushed p) (finished p).

Definition joined (p : ThreadPool A) : Prop := Forall (λ w, w = Returned) (workers_ p).

(** One turn of the loop in [work()] of worker [i]: from the wait to a task or to the
    return, or from a task back to the wait. *)
Definition work (i : nat) (p : ThreadPool A) : option (ThreadPool A) :=
  match workers_ p !! i with
  | Some Waiting =>
    if negb (stop_ p || negb (bool_decide (tasks_ p = []))) then None
    else if stop_ p && bool_decide (tasks_ p = []) then
      Some (mkThreadPool (<[i := Returned]> (workers_ p)) (tasks_ p) (stop_ p) (pushed p) (finished p))
    else
      match tasks_ p with
      | task :: rest =>
        Some (mkThreadPool (<[i := Executing task]> (workers_ p)) rest (stop_ p) (pushed p) (finished p))
      | [] => None
      end
  | Some (Executing task) =>
    Some (mkThreadPool (<[i := Waiting]> (workers_ p)) (tasks_ p) (stop_ p) (pushed p)
            (finished p ++ [task]))
  | _ => None
  end.

(** What can happen to a pool: its owner pushes before the destructor starts, a task that
    executes pushes at any time, the destructor starts, a worker does a turn. *)
Inductive pool_step : ThreadPool A → ThreadPool A → Prop :=
| pool_enqueue p task : stop_ p = false → pool_step p (enqueue task p)
| pool_enqueue_inside p i t task :
    workers_ p !! i = Some (Executing t) → pool_step p (enqueue task p)
| pool_stop p : pool_step p (request_stop p)
| pool_work p i p' : work i p = Some p' → pool_step p p'.

Inductive pool_reachable (n size : Z) : ThreadPool A → Prop :=
| pool_start : pool_reachable n size (new_ThreadPool n size)
| pool_next p p' : pool_reachable n size p → pool_step p p' → pool_reachable n size p'.

(** The tasks being executed. *)
Definition executing (p : ThreadPool A) : list A :=
  omap (λ w, match w with Executing t => Some t | _ => None end) (workers_ p).

(** What is left to do for the workers of a pool that is stopping. *)
Definition turn_cost (w : worker A) : nat :=
  match w with
  | Waiting => 1
  | Executing _ => 2
  | Returned => 0
  end.

Definition turns_left (p : ThreadPool A) : nat :=
  3 * length (tasks_ p) + sum_list_with turn_cost (workers_ p).

#[export] Instance returned_dec (w : worker A) : Decision (w = Returned).
Proof. by destruct w; [right|right|left]. Defined.

(** ** Invariants *)

(** The tasks pushed are, in order, those that were taken followed by those that wait;
    those taken are executing or finished; a stopped pool with tasks has a worker left. *)
Record pool_ok (p : ThreadPool A) : Prop := mkPoolOk {
  pool_has_workers : workers_ p ≠ [];
  pool_exactly_once : pushed p ≡ₚ finished p ++ executing p ++ tasks_ p;
  pool_fifo : ∃ taken, pushed p = taken ++ tasks_ p;
  pool_running : stop_ p = false → Forall (λ w, w ≠ Returned) (workers_ p);
  pool_drains : tasks_ p ≠ [] → ∃ i w, workers_ p !! i = Some w ∧ w ≠ Returned
}.

Lemma worker_count_pos n size : 0 < worker_count n size.
Proof. unfold worker_count. repeat case_match; lia. Qed.

Lemma delete_insert_same (l : list (worker A)) i w : delete i (<[i := w]> l) = delete i l.
Proof. revert i. induction l as [|x l IH]; intros [|i]; cbn; [done..|]. by rewrite IH. Qed.

Lemma executing_insert (p : ThreadPool A) i w w' ts st pu fi :
  workers_ p !! i = Some w →
  executing p ≡ₚ match w with Executing t => [t] | _ => [] end ++
    omap (λ w, match w with Executing t => Some t | _ => None end) (delete i (workers_ p)) ∧
  executing (mkThreadPool (<[i := w']> (workers_ p)) ts st pu fi) ≡ₚ
    match w' with Executing t => [t] | _ => [] end ++
    omap (λ w, match w with Executing t => Some t | _ => None end) (delete i (workers_ p)).
Proof.
  intros Hi. unfold executing. cbn [workers_].
  assert (∀ l x, l !! i = Some x → omap (λ w, match w with Executing t => Some t | _ => None end) l ≡ₚ
    match x with Executing t => [t : A] | _ => [] end ++
    omap (λ w, match w with Executing t => Some t | _ => None end) (delete i l)) as Hd.
  { intros l x Hl. apply delete_Permutation in Hl. rewrite Hl at 1. by destruct x. }
  split; [by apply Hd|]. rewrite (Hd _ w') by (apply list_lookup_insert_eq; by eapply lookup_lt_Some).
  by rewrite delete_insert_same.
Qed.

Lemma sum_workers_insert (f : worker A → nat) l i w w' :
  l !! i = Some w → (sum_list_with f (<[i := w']> l) + f w = sum_list_with f l + f w')%nat.
Proof.
  revert i. induction l as [|x l IH]; intros [|i] Hi; simplify_eq/=; [lia|]. specialize (IH _ Hi). lia.
Qed.

Lemma pool_ok_new n size : pool_ok (new_ThreadPool n size).
Proof.
  pose proof (worker_count_pos n size) as Hn. unfold new_ThreadPool.
  destruct (Z.to_nat (worker_count n size)) as [|k] eqn:Hk; [lia|]. constructor; cbn.
  - done.
  - assert (∀ k, omap (λ w : worker A, match w with Executing t => Some t | _ => None end)
      (replicate k Waiting) = []) as Hnil by (intros m; induction m; done).
    unfold executing. cbn. by rewrite Hnil.
  - by exists [].
  - intros _. constructor; [done|]. by apply Forall_replicate.
  - done.
Qed.

Lemma pool_ok_enqueue p i w task :
  workers_ p !! i = Some w → w ≠ Returned → pool_ok p → pool_ok (enqueue task p).
Proof.
  intros Hi Hw [Hne Hperm [taken Hfifo] Hrun Hdr]. constructor; cbn; try done.
  - unfold executing in *. cbn. rewrite Hperm. by rewrite <- !app_assoc.
  - exists taken. by rewrite Hfifo, app_assoc.
  - eauto.
Qed.

Lemma pool_ok_work i p p' : work i p = Some p' → pool_ok p → pool_ok p'.
Proof.
  intros Hwork [Hne Hperm [taken Hfifo] Hrun Hdr]. unfold work in Hwork.
  destruct (workers_ p !! i) as [w|] eqn:Hi; [|done].
  pose proof (lookup_lt_Some _ _ _ Hi) as Hlt.
  assert (∀ w', <[i := w']> (workers_ p) ≠ []) as Hne'.
  { intros w' Hnil. apply (f_equal length) in Hnil. rewrite length_insert in Hnil. cbn in Hnil. lia. }
  destruct w as [|t|]; [|simplify_eq|done].
  - destruct (stop_ p) eqn:Hs, (tasks_ p) as [|t rest] eqn:Ht; cbn in Hwork; simplify_eq.
    + destruct (executing_insert p i Waiting Returned [] true (pushed p) (finished p) Hi) as [H1 H2].
      constructor; cbn; try done; [by rewrite H2, Hperm, H1|by exists taken].
    + destruct (executing_insert p i Waiting (Executing t) rest true (pushed p) (finished p) Hi) as [H1 H2].
      constructor; cbn; try done.
      * rewrite H2, Hperm, H1. cbn. by rewrite <- Permutation_middle.
      * exists (taken ++ [t]). by rewrite Hfifo, <- app_assoc.
      * intros _. exists i, (Executing t). by rewrite list_lookup_insert_eq.
    + destruct (executing_insert p i Waiting (Executing t) rest false (pushed p) (finished p) Hi) as [H1 H2].
      constructor; cbn; try done.
      * rewrite H2, Hperm, H1. cbn. by rewrite <- Permutation_middle.
      * exists (taken ++ [t]). by rewrite Hfifo, <- app_assoc.
      * intros _. apply Forall_insert; auto.
      * intros _. exists i, (Executing t). by rewrite list_lookup_insert_eq.
  - destruct (executing_insert p i (Executing t) Waiting (tasks_ p) (stop_ p) (pushed p) (finished p ++ [t]) Hi)
      as [H1 H2].
    constructor; cbn; try done.
    + rewrite H2, Hperm, H1. cbn. by rewrite <- app_assoc.
    + by exists taken.
    + intros Hs. apply Forall_insert; auto.
    + intros _. exists i, Waiting. by rewrite list_lookup_insert_eq.
Qed.

Lemma pool_ok_step p p' : pool_step p p' → pool_ok p → pool_ok p'.
Proof.
  intros Hstep Hok. destruct Hstep as [p task Hs|p i t task Hi|p|p i p' Hw].
  - pose proof (pool_has_workers p Hok) as Hne. pose proof (pool_running p Hok Hs) as Hrun.
    destruct (workers_ p) as [|w ws] eqn:Hws; [done|]. inversion_clear Hrun.
    by apply (pool_ok_enqueue p 0 w); [rewrite Hws| |].
  - by eapply pool_ok_enqueue.
  - destruct Hok. by constructor.
  - by eapply pool_ok_work.
Qed.

Lemma pool_reachable_ok n size p : pool_reachable n size p → pool_ok p.
Proof. induction 1; eauto using pool_ok_new, pool_ok_step. Qed.

(** ** Theorems *)

(** C39. Tasks are started in the order they were pushed, each pushed task is at any
    time waiting, executing or finished exactly once, and when every worker has returned
    all the tasks pushed have been executed: the destructor loses none. *)
Theorem pool_executes_all n size p :
  pool_reachable n size p →
  (∃ taken, pushed p = taken ++ tasks_ p ∧ taken ≡ₚ finished p ++ executing p) ∧
  (joined p → tasks_ p = [] ∧ finished p ≡ₚ pushed p).
Proof.
  intros [Hne Hperm [taken Hfifo] Hrun Hdr]%pool_reachable_ok. split.
  - exists taken. split; [done|]. rewrite Hfifo, app_assoc in Hperm. by apply Permutation_app_inv_r in Hperm.
  - intros Hj. assert (tasks_ p = []) as Ht.
    { destruct (tasks_ p) as [|t rest]; [done|]. destruct Hdr as (i & w & Hi & Hw); [done|].
      unfold joined in Hj. rewrite Forall_lookup in Hj. by apply Hj in Hi. }
    split; [done|]. rewrite Hperm, Ht, app_nil_r.
    assert (executing p = []) as ->; [|by rewrite app_nil_r]. unfold executing, joined in *.
    clear - Hj. induction Hj as [|w ws -> _ IH]; [done|]. exact IH.
Qed.

(** The destructor ends: once it has started, a worker can do a turn as long as one
    has not returned, and every turn lowers a bound on the turns left, as long as the
    tasks push no more. *)
Theorem pool_stops p :
  stop_ p = true →
  (∀ i p', work i p = Some p' → stop_ p' = true ∧ (turns_left p' < turns_left p)%nat) ∧
  (joined p ∨ ∃ i p', work i p = Some p').
Proof.
  intros Hs. split.
  - intros i p' Hw. unfold work in Hw. destruct (workers_ p !! i) as [w|] eqn:Hi; [|done].
    unfold turns_left. rewrite Hs in Hw. destruct w as [|t|]; [|simplify_eq|done].
    + destruct (tasks_ p) as [|t rest]; cbn in Hw; simplify_eq; cbn [tasks_ workers_ stop_ length];
        (split; [done|]).
      * pose proof (sum_workers_insert turn_cost _ _ _ Returned Hi). cbn [turn_cost] in *. lia.
      * pose proof (sum_workers_insert turn_cost _ _ _ (Executing t) Hi). cbn [turn_cost] in *. lia.
    + cbn [tasks_ workers_ stop_]. split; [done|].
      pose proof (sum_workers_insert turn_cost _ _ _ Waiting Hi). cbn [turn_cost] in *. lia.
  - destruct (decide (Exists (λ w, ¬ (w = Returned)) (workers_ p))) as [Hex|Hall].
    + right. apply Exists_exists in Hex as (w & Hin & Hw). apply list_elem_of_lookup in Hin as [i Hi].
      exists i. unfold work. rewrite Hi, Hs. destruct w as [|t|]; [|eauto|done].
      destruct (tasks_ p); cbn; eauto.
    + left. apply not_Exists_Forall in Hall; [|apply _]. eapply Forall_impl; [exact Hall|].
      intros w Hw. by apply dec_stable.
Qed.
End ThreadPool.

(** ** The theorems at work *)

(** Two workers execute two tasks while the pool is stopped. *)
Fixpoint turns (ids : list nat) (p : ThreadPool Z) : option (ThreadPool Z) :=
  match ids with
  | [] => Some p
  | i :: ids => p' ← work i p; turns ids p'
  end.

Definition pool_filled : ThreadPool Z := enqueue 8 (enqueue 7 (new_ThreadPool 0 2)).
Definition pool_end : ThreadPool Z :=
  default pool_filled (turns [0; 1; 0; 1; 0; 1]%nat (request_stop pool_filled)).

Lemma turns_reachable ids p p' :
  pool_reachable 0 2 p → turns ids p = Some p' → pool_reachable 0 2 p'.
Proof.
  revert p. induction ids as [|i ids IH]; intros p Hp Ht; cbn in Ht; [by simplify_eq|].
  destruct (work i p) as [p1|] eqn:Hw; [|done].
  eapply IH; [|exact Ht]. eapply pool_next; [exact Hp|by eapply pool_work].
Qed.

Lemma pool_executes_all_witness : tasks_ pool_end = [] ∧ finished pool_end ≡ₚ [7; 8].
Proof.
  apply (pool_executes_all 0 2 pool_end).
  - apply (turns_reachable [0; 1; 0; 1; 0; 1]%nat (request_stop pool_filled)).
    + eapply pool_next; [|apply pool_stop]. do 2 (eapply pool_next; [|by apply pool_enqueue]). constructor.
    + vm_compute. reflexivity.
  - unfold joined. vm_compute. repeat constructor.
Defined.

Lemma pool_stops_witness :
  joined (request_stop pool_filled) ∨ ∃ i p', work i (request_stop pool_filled) = Some p'.
Proof. apply (pool_stops (request_stop pool_filled)). reflexivity. Defined.
