(* ===== verification/MySQL.v ===== *)
(** [MySQLPool] of [src/db.{h,cc}]: the pool of database connections, over the client
    library of MySQL, which is the class [MySQLClient].  The pool and the world behind the
    library are the two halves of the state.  A [wait_for] that is given no connection
    within its second is the case of an empty queue; messages to [stderr] and [stdout] are
    left out. *)

From S2P Require Import Prelude Machine CString.
From Stdlib Require Import Ascii.

Local Open Scope Z_scope.

(** ** The client library *)

(** A connection handle, and a row of a result: a column is [None] where it is [NULL]. *)
Abbreviation MYSQL := nat.
Abbreviation MYSQL_ROW := (list (option string)).

Record ConnInfo := mkConnInfo {
  ci_host : string; ci_port : Z; ci_user : string; ci_password : string; ci_database : string }.

(** [mysql_query] and [mysql_ping] are [true] where the C function returns zero;
    [mysql_store_result] gives the rows, or [None] for the null pointer. *)
Class MySQLClient (W : Type) := {
  mysql_init : State W (option MYSQL);
  mysql_options : MYSQL → string → Z → State W unit;
  mysql_real_connect : MYSQL → ConnInfo → State W bool;
  mysql_set_character_set : MYSQL → string → State W unit;
  mysql_close : MYSQL → State W unit;
  mysql_ping : MYSQL → State W bool;
  mysql_query : MYSQL → string → State W bool;
  mysql_store_result : MYSQL → State W (option (list MYSQL_ROW));
  mysql_insert_id : MYSQL → State W Z;
  mysql_affected_rows : MYSQL → State W Z;
  mysql_real_escape_string : MYSQL → string → string
}.

(** What the manual of [mysql_real_escape_string] says it does to a character. *)
Definition escape_char (c : ascii) : string :=
  if Ascii.eqb c "000" then "\0"
  else if Ascii.eqb c "010" then "\n"
  else if Ascii.eqb c "013" then "\r"
  else if Ascii.eqb c "026" then "\Z"
  else if Ascii.eqb c "\" then "\\"
  else if Ascii.eqb c "'" then "\'"
  else if Ascii.eqb c "034" then String "\" (String "034" "")
  else String c "".

Class EscapeLaws (W : Type) `{MySQLClient W} := {
  escape_nil conn : mysql_real_escape_string conn "" = ""%string;
  escape_cons conn c s :
    mysql_real_escape_string conn (String c s) = escape_char c +:+ mysql_real_escape_string conn s
}.

(** ** The pool *)

Record MySQLPool := mkMySQLPool {
  info_ : ConnInfo;
  conns_ : list MYSQL;
  idle_ : list MYSQL;
  activeConns_ : Z;
  maxSize_ : Z
}.

Definition new_MySQLPool : MySQLPool := mkMySQLPool (mkConnInfo "" 0 "" "" "") [] [] 0 0.

Section MySQLPool.
  Context {W : Type} `{MySQLClient W}.

(** A call of the library, and an update of the pool. *)
Definition client {A} (m : State W A) : State (MySQLPool * W) A := λ s,
  let '(a, w) := m (snd s) in (a, (fst s, w)).

Definition set_pool (f : MySQLPool → MySQLPool) : State (MySQLPool * W) unit :=
  modify (λ s, (f (fst s), snd s)).

Definition push_idle (conn : MYSQL) (p : MySQLPool) : MySQLPool :=
  mkMySQLPool (info_ p) (conns_ p) (idle_ p ++ [conn]) (activeConns_ p) (maxSize_ p).

Definition pop_idle (p : MySQLPool) : MySQLPool :=
  mkMySQLPool (info_ p) (conns_ p) (tail (idle_ p)) (activeConns_ p) (maxSize_ p).

Definition push_conn (conn : MYSQL) (p : MySQLPool) : MySQLPool :=
  mkMySQLPool (info_ p) (conns_ p ++ [conn]) (idle_ p) (activeConns_ p) (maxSize_ p).

Definition add_active (n : Z) (p : MySQLPool) : MySQLPool :=
  mkMySQLPool (info_ p) (conns_ p) (idle_ p) (activeConns_ p + n) (maxSize_ p).

(** The tables the program creates. *)
Definition sqls : list string :=
  [
   "CREATE TABLE IF NOT EXISTS users (" +:+
   "  uid VARCHAR(64) PRIMARY KEY," +:+
   "  passwd VARCHAR(128) NOT NULL," +:+
   "  nickname VARCHAR(128) NOT NULL DEFAULT ''," +:+
   "  email VARCHAR(256) NOT NULL DEFAULT ''," +:+
   "  avatar_url TEXT," +:+
   "  created_at DATETIME DEFAULT CURRENT_TIMESTAMP," +:+
   "  last_login DATETIME" +:+
   ") ENGINE=InnoDB DEFAULT CHARSET=utf8mb4";
   "CREATE TABLE IF NOT EXISTS friendships (" +:+
   "  id BIGINT AUTO_INCREMENT PRIMARY KEY," +:+
   "  requester_uid VARCHAR(64) NOT NULL," +:+
   "  target_uid VARCHAR(64) NOT NULL," +:+
   "  status TINYINT DEFAULT 0," +:+
   "  message VARCHAR(256) DEFAULT ''," +:+
   "  created_at DATETIME DEFAULT CURRENT_TIMESTAMP," +:+
   "  updated_at DATETIME DEFAULT CURRENT_TIMESTAMP ON UPDATE CURRENT_TIMESTAMP," +:+
   "  UNIQUE KEY uk_friendship (requester_uid, target_uid)," +:+
   "  FOREIGN KEY (requester_uid) REFERENCES users(uid)," +:+
   "  FOREIGN KEY (target_uid) REFERENCES users(uid)" +:+
   ") ENGINE=InnoDB DEFAULT CHARSET=utf8mb4";
   "CREATE TABLE IF NOT EXISTS rooms (" +:+
   "  room_id BIGINT AUTO_INCREMENT PRIMARY KEY," +:+
   "  name VARCHAR(128) NOT NULL UNIQUE," +:+
   "  creator_uid VARCHAR(64) NOT NULL," +:+
   "  type TINYINT DEFAULT 0," +:+
   "  created_at DATETIME DEFAULT CURRENT_TIMESTAMP," +:+
   "  FOREIGN KEY (creator_uid) REFERENCES users(uid)" +:+
   ") ENGINE=InnoDB DEFAULT CHARSET=utf8mb4";
   "CREATE TABLE IF NOT EXISTS room_members (" +:+
   "  room_id BIGINT NOT NULL," +:+
   "  uid VARCHAR(64) NOT NULL," +:+
   "  role TINYINT DEFAULT 0," +:+
   "  joined_at DATETIME DEFAULT CURRENT_TIMESTAMP," +:+
   "  PRIMARY KEY (room_id, uid)," +:+
   "  FOREIGN KEY (room_id) REFERENCES rooms(room_id)," +:+
   "  FOREIGN KEY (uid) REFERENCES users(uid)" +:+
   ") ENGINE=InnoDB DEFAULT CHARSET=utf8mb4";
   "CREATE TABLE IF NOT EXISTS messages (" +:+
   "  msg_id BIGINT AUTO_INCREMENT PRIMARY KEY," +:+
   "  seq BIGINT NOT NULL," +:+
   "  room_id BIGINT," +:+
   "  from_uid VARCHAR(64) NOT NULL," +:+
   "  to_uid VARCHAR(64)," +:+
   "  content TEXT NOT NULL," +:+
   "  msg_type TINYINT DEFAULT 0," +:+
   "  recalled TINYINT DEFAULT 0," +:+
   "  recall_time DATETIME," +:+
   "  created_at DATETIME DEFAULT CURRENT_TIMESTAMP," +:+
   "  FOREIGN KEY (from_uid) REFERENCES users(uid)" +:+
   ") ENGINE=InnoDB DEFAULT CHARSET=utf8mb4";
   "CREATE TABLE IF NOT EXISTS offline_messages (" +:+
   "  id BIGINT AUTO_INCREMENT PRIMARY KEY," +:+
   "  target_uid VARCHAR(64) NOT NULL," +:+
   "  msg_id BIGINT NOT NULL," +:+
   "  delivered TINYINT DEFAULT 0," +:+
   "  created_at DATETIME DEFAULT CURRENT_TIMESTAMP," +:+
   "  FOREIGN KEY (target_uid) REFERENCES users(uid)," +:+
   "  FOREIGN KEY (msg_id) REFERENCES messages(msg_id)" +:+
   ") ENGINE=InnoDB DEFAULT CHARSET=utf8mb4";
   "CREATE TABLE IF NOT EXISTS sessions (" +:+
   "  id BIGINT AUTO_INCREMENT PRIMARY KEY," +:+
   "  uid VARCHAR(64) NOT NULL," +:+
   "  token VARCHAR(128) NOT NULL UNIQUE," +:+
   "  node_id VARCHAR(64) NOT NULL," +:+
   "  ip_address VARCHAR(45)," +:+
   "  created_at DATETIME DEFAULT CURRENT_TIMESTAMP," +:+
   "  expired_at DATETIME NOT NULL," +:+
   "  revoked TINYINT DEFAULT 0," +:+
   "  FOREIGN KEY (uid) REFERENCES users(uid)" +:+
   ") ENGINE=InnoDB DEFAULT CHARSET=utf8mb4"].

Fixpoint ensureTable_loop (sqls : list string) (conn : MYSQL) : State W bool :=
  match sqls with
  | [] => mret true
  | sql :: sqls =>
    ok ← mysql_query conn sql;
    if negb ok then mret false else ensureTable_loop sqls conn
  end.

Definition ensureTable (conn : MYSQL) : State W bool := ensureTable_loop sqls conn.

Definition createConnection (info : ConnInfo) : State W (option MYSQL) :=
  conn ← mysql_init;
  match conn with
  | None => mret None
  | Some conn =>
    let timeout := 3 in
    _ ← mysql_options conn "MYSQL_OPT_CONNECT_TIMEOUT" timeout;
    _ ← mysql_options conn "MYSQL_OPT_READ_TIMEOUT" timeout;
    _ ← mysql_options conn "MYSQL_OPT_WRITE_TIMEOUT" timeout;
    connected ← mysql_real_connect conn info;
    if negb connected then _ ← mysql_close conn; mret None else
    _ ← mysql_set_character_set conn "utf8mb4";
    ok ← ensureTable conn;
    if negb ok then _ ← mysql_close conn; mret None
    else mret (Some conn)
  end.

(** The loop of [init] with [n] slots to go. *)
Fixpoint init_loop (n : nat) : State (MySQLPool * W) bool :=
  match n with
  | O => mret true
  | S n =>
    p ← gets fst;
    conn ← client (createConnection (info_ p));
    match conn with
    | None => mret false
    | Some conn =>
      _ ← set_pool (push_conn conn);
      _ ← set_pool (push_idle conn);
      init_loop n
    end
  end.

(** [hardware_concurrency] is what [std::thread::hardware_concurrency()] returns. *)
Definition pool_size (hardware_concurrency poolSize : Z) : Z :=
  if poolSize <=? 0 then
    let poolSize := i32 hardware_concurrency in
    if poolSize <=? 0 then 8 else poolSize
  else poolSize.

Definition init (hardware_concurrency : Z) (host user password database : string)
    (port poolSize : Z) : State (MySQLPool * W) bool :=
  let n := pool_size hardware_concurrency poolSize in
  _ ← set_pool (λ p, mkMySQLPool (mkConnInfo host port user password database)
                       (conns_ p) (idle_ p) (activeConns_ p) n);
  init_loop (Z.to_nat n).

Definition pingConnection (conn : MYSQL) : State W bool := mysql_ping conn.

Definition getConnection : State (MySQLPool * W) (option MYSQL) :=
  p ← gets fst;
  match idle_ p with
  | [] => mret None
  | conn :: _ =>
    _ ← set_pool pop_idle;
    _ ← set_pool (add_active 1);
    alive ← client (pingConnection conn);
    if negb alive then
      _ ← client (mysql_close conn);
      conn ← client (createConnection (info_ p));
      match conn with
      | None => _ ← set_pool (add_active (-1)); mret None
      | Some conn => mret (Some conn)
      end
    else mret (Some conn)
  end.

(** Returning a connection that is not null; callers test it first. *)
Definition returnConnection (conn : MYSQL) : State (MySQLPool * W) unit :=
  _ ← set_pool (push_idle conn);
  set_pool (add_active (-1)).

Definition idleConns (p : MySQLPool) : Z := i32 (Z.of_nat (length (idle_ p))).
Definition activeConns (p : MySQLPool) : Z := activeConns_ p.

(** The destructor. *)
Definition destroy : State (MySQLPool * W) unit :=
  p ← gets fst;
  for_each (conns_ p) (λ conn, client (mysql_close conn)).

(** The shape of a repository method: take a connection, answer [none] without one, do
    the work on the library and give the connection back on every path. *)
Definition with_connection {A} (none : A) (body : MYSQL → State W A) : State (MySQLPool * W) A :=
  conn ← getConnection;
  match conn with
  | None => mret none
  | Some conn =>
    a ← client (body conn);
    _ ← returnConnection conn;
    mret a
  end.
End MySQLPool.

(** ** The life of a pool *)

(** Threads take and return connections in any order and use the library in between:
    [held] are the connections that are out, [lost] counts the ones that were given up. *)
Inductive pool_use {W} `{MySQLClient W} (n : nat) : list MYSQL → nat → MySQLPool * W → Prop :=
| use_start s :
    length (idle_ (fst s)) = n → activeConns_ (fst s) = 0 → pool_use n [] 0 s
| use_get held lost s c s' :
    pool_use n held lost s → getConnection s = (Some c, s') → pool_use n (c :: held) lost s'
| use_timeout held lost s s' :
    pool_use n held lost s → idle_ (fst s) = [] → getConnection s = (None, s') →
    pool_use n held lost s'
| use_lost held lost s s' :
    pool_use n held lost s → idle_ (fst s) ≠ [] → getConnection s = (None, s') →
    pool_use n held (S lost) s'
| use_return held1 c held2 lost s :
    pool_use n (held1 ++ c :: held2) lost s →
    pool_use n (held1 ++ held2) lost (exec (returnConnection c) s)
| use_library {A} held lost s (m : State W A) :
    pool_use n held lost s → pool_use n held lost (exec (client m) s).

(** Every connection the pool can still give out. *)
Definition capacity (p : MySQLPool) : Z := Z.of_nat (length (idle_ p)) + activeConns_ p.

(** ** Lemmas *)

Section Facts.
  Context {W : Type} `{MySQLClient W}.

Lemma eval_client {A} (m : State W A) (s : MySQLPool * W) : eval (client m) s = eval m (snd s).
Proof. unfold client, eval. by destruct (m (snd s)). Qed.

Lemma exec_client {A} (m : State W A) (s : MySQLPool * W) :
  exec (client m) s = (fst s, exec m (snd s)).
Proof. unfold client, exec. by destruct (m (snd s)). Qed.

Lemma exec_set_pool f (s : MySQLPool * W) : exec (set_pool f) s = (f (fst s), snd s).
Proof. done. Qed.

Lemma run_eq {A} (m : State (MySQLPool * W) A) s : m s = (eval m s, exec m s).
Proof. unfold eval, exec. by destruct (m s). Qed.
End Facts.

#[export] Hint Rewrite @eval_client @exec_client @exec_set_pool : chat.

Section Pool.
  Context {W : Type} `{MySQLClient W}.

Lemma active_again p : add_active (-1) (add_active 1 p) = p.
Proof. destruct p. unfold add_active. cbn. f_equal. lia. Qed.

(** What a request for a connection does to the pool. *)
Lemma getConnection_cases p (w : W) :
  (idle_ p = [] ∧ getConnection (p, w) = (None, (p, w))) ∨
  (∃ c rest, idle_ p = c :: rest ∧
     ((∃ c' w', getConnection (p, w) = (Some c', (add_active 1 (pop_idle p), w'))) ∨
      (∃ w', getConnection (p, w) = (None, (pop_idle p, w'))))).
Proof.
  unfold getConnection. rewrite bind_eq, eval_gets, exec_gets. cbn [fst].
  destruct (idle_ p) as [|c rest] eqn:Hi; [by left|]. right. exists c, rest. split; [done|].
  rewrite !bind_eq, eval_client, !exec_client, !exec_set_pool. cbn [fst snd].
  destruct (eval (pingConnection c) w); cbn [negb]; [left; by eexists _, _|].
  rewrite !bind_eq, eval_client, !exec_client. cbn [fst snd].
  destruct (eval (createConnection _) _) as [c'|]; [left; by eexists _, _|]. right.
  rewrite bind_eq, exec_set_pool. cbn [fst snd]. rewrite active_again. by eexists.
Qed.

Lemma with_connection_eq {A} (none : A) body (s : MySQLPool * W) :
  with_connection none body s =
  match getConnection s with
  | (None, s) => (none, s)
  | (Some c, (p, w)) => (eval (body c) w, (add_active (-1) (push_idle c p), exec (body c) w))
  end.
Proof.
  unfold with_connection. rewrite bind_eq. rewrite (run_eq getConnection s).
  destruct (eval getConnection s) as [c|]; [|done]. destruct (exec getConnection s) as [p w].
  by rewrite !bind_eq, eval_client, exec_client.
Qed.

Lemma with_connection_pool {A} (none : A) body p (w : W) :
  let p' := fst (exec (with_connection none body) (p, w)) in
  activeConns_ p' = activeConns_ p ∧ conns_ p' = conns_ p ∧
  (length (idle_ p') = length (idle_ p) ∨
   (S (length (idle_ p')) = length (idle_ p) ∧ eval (with_connection none body) (p, w) = none)).
Proof.
  cbv zeta. unfold eval, exec. rewrite with_connection_eq.
  destruct (getConnection_cases p w) as [[Hi Hg]|(c & rest & Hi & [(c' & w' & Hg)|(w' & Hg)])];
    rewrite Hg; cbn [fst snd].
  - auto.
  - cbn. rewrite Hi. cbn. rewrite length_app. cbn. split_and!; [lia|done|left; lia].
  - cbn. rewrite Hi. cbn. auto.
Qed.

(** The pool after the loop of [init], whether or not it could make all connections. *)
Lemma init_loop_pool n p (w : W) :
  let p' := fst (exec (init_loop n) (p, w)) in
  activeConns_ p' = activeConns_ p ∧ (length (idle_ p') <= length (idle_ p) + n)%nat.
Proof.
  cbv zeta. revert p w. induction n as [|n IH]; intros p w; [split; [done|cbn; lia]|]. cbn [init_loop].
  rewrite exec_bind, eval_gets, exec_gets. cbn [fst]. rewrite exec_bind, eval_client, exec_client. cbn [fst snd].
  destruct (eval (createConnection (info_ p)) w) as [c|]; [|split; [done|cbn; lia]].
  rewrite !exec_bind, !exec_set_pool. cbn [fst snd].
  destruct (IH (push_idle c (push_conn c p)) (exec (createConnection (info_ p)) w)) as [-> Hl].
  split; [done|]. cbn in Hl |- *. rewrite length_app in Hl. cbn in Hl. lia.
Qed.

(** A server that cannot be reached leaves the pool without connections. *)
Lemma init_unreachable hc host user password database port poolSize (w : W) :
  eval (createConnection (mkConnInfo host port user password database)) w = None →
  let r := init hc host user password database port poolSize (new_MySQLPool, w) in
  fst r = false ∧ idle_ (fst (snd r)) = [].
Proof.
  intros Hc. cbv zeta. unfold init. rewrite bind_eq, exec_set_pool. cbn [fst snd].
  assert (0 < pool_size hc poolSize) as Hpos.
  { unfold pool_size. repeat case_match; lia. }
  destruct (Z.to_nat (pool_size hc poolSize)) as [|n] eqn:Hn; [lia|]. cbn [init_loop].
  rewrite bind_eq, eval_gets, exec_gets. cbn [fst info_]. rewrite bind_eq, eval_client, exec_client. cbn [snd].
  by rewrite Hc.
Qed.

(** ** Theorems *)

(** A pool that was initialised holds the number of connections asked for, all of
    them idle and each recorded for the destructor. *)
Theorem init_fills n host user password database port poolSize (w : W) :
  let r := init n host user password database port poolSize (new_MySQLPool, w) in
  let p := fst (snd r) in
  fst r = true →
  Z.of_nat (length (idle_ p)) = pool_size n poolSize ∧ 0 < pool_size n poolSize ∧
  conns_ p = idle_ p ∧ activeConns_ p = 0 ∧ maxSize_ p = pool_size n poolSize.
Proof.
  cbv zeta. unfold init. rewrite bind_eq, exec_set_pool. cbn [fst snd].
  assert (0 < pool_size n poolSize) as Hpos by (unfold pool_size; repeat case_match; lia).
  set (p0 := mkMySQLPool _ _ _ _ _).
  assert (∀ k p w, conns_ p = idle_ p → fst (init_loop k (p, w)) = true →
    let p' := fst (snd (init_loop k (p, w))) in
    length (idle_ p') = (length (idle_ p) + k)%nat ∧ conns_ p' = idle_ p' ∧
    activeConns_ p' = activeConns_ p ∧ maxSize_ p' = maxSize_ p) as Hloop.
  { intros k. induction k as [|k IH]; intros p w' Hc Hr; [cbn; auto with lia|]. revert Hr.
    cbn [init_loop]. rewrite bind_eq, eval_gets, exec_gets, bind_eq, eval_client, exec_client. cbn [fst snd].
    destruct (eval (createConnection (info_ p)) w') as [c|]; [|done].
    rewrite !bind_eq, !exec_set_pool. cbn [fst snd]. intros Hr.
    destruct (IH (push_idle c (push_conn c p)) (exec (createConnection (info_ p)) w')) as (H1 & H2 & H3 & H4);
      [cbn; by rewrite Hc|done|].
    rewrite H1, H3, H4. split_and!; try done. cbn. rewrite length_app. cbn. lia. }
  intros Hr. destruct (Hloop _ p0 w eq_refl Hr) as (H1 & H2 & H3 & H4).
  rewrite H1, H3, H4. cbn. split_and!; try done. lia.
Qed.

(** C40. The pool's books: at any time [activeConns_] is the number of connections that
    are out, and the connections idle, out and given up add up to the size of the pool. *)
Theorem pool_accounting n held lost (s : MySQLPool * W) :
  pool_use n held lost s →
  activeConns_ (fst s) = Z.of_nat (length held) ∧
  (length (idle_ (fst s)) + length held + lost = n)%nat.
Proof.
  induction 1 as [s Hi Ha|held lost [p w] c s' _ IH Hg|held lost [p w] s' _ IH Hi Hg
    |held lost [p w] s' _ IH Hi Hg|held1 c held2 lost s _ IH|A held lost s m _ IH].
  - cbn. split; [done|lia].
  - destruct (getConnection_cases p w) as [[Hi Hg']|(c' & rest & Hi & [(? & ? & Hg')|(? & Hg')])];
      rewrite Hg' in Hg; simplify_eq; cbn in *; rewrite Hi in IH |- *; cbn in *; lia.
  - cbn in Hi. destruct (getConnection_cases p w) as [[Hi' Hg']|(c' & rest & Hi' & _)]; [|by rewrite Hi in Hi'].
    rewrite Hg' in Hg. by simplify_eq.
  - destruct (getConnection_cases p w) as [[Hi' Hg']|(c' & rest & Hi' & [(? & ? & Hg')|(? & Hg')])];
      [done|by rewrite Hg' in Hg|]. rewrite Hg' in Hg. simplify_eq; cbn in *.
    rewrite Hi' in IH |- *; cbn in *. lia.
  - destruct s as [p w]. unfold returnConnection. autorewrite with chat. cbn in *.
    rewrite !length_app in *. cbn in *. lia.
  - by rewrite exec_client.
Qed.

(** What the pool gives up it never gets back: no request raises the number of
    connections it can give out, and a pool that has none left times out every request,
    whatever the database does meanwhile. *)
Theorem pool_never_recovers p (w : W) :
  let '(c, (p', _)) := getConnection (p, w) in
  capacity p' <= capacity p ∧
  (capacity p' < capacity p → c = None) ∧
  (idle_ p = [] → c = None ∧ p' = p).
Proof.
  destruct (getConnection_cases p w) as [[Hi Hg]|(c & rest & Hi & [(c' & w' & Hg)|(w' & Hg)])];
    rewrite Hg; unfold capacity; cbn; rewrite ?Hi; cbn; split_and!; try done; lia.
Qed.
End Pool.

(** ** The theorems at work *)

(** A server in memory: the next handle, whether it can be reached, and how many of the
    next queries fail. *)
Record ToyDb := mkToyDb { db_next : nat; db_up : bool; db_failures : nat }.

Fixpoint toy_escape (s : string) : string :=
  match s with
  | EmptyString => EmptyString
  | String c s => escape_char c +:+ toy_escape s
  end.

#[export] Instance toy_client : MySQLClient ToyDb := {
  mysql_init := λ w, (Some (db_next w), mkToyDb (S (db_next w)) (db_up w) (db_failures w));
  mysql_options _ _ _ := mret tt;
  mysql_real_connect _ _ := gets db_up;
  mysql_set_character_set _ _ := mret tt;
  mysql_close _ := mret tt;
  mysql_ping _ := gets db_up;
  mysql_query _ _ := λ w,
    match db_failures w with
    | O => (true, w)
    | S n => (false, mkToyDb (db_next w) (db_up w) n)
    end;
  mysql_store_result _ := mret (Some [[Some "x"%string]]);
  mysql_insert_id _ := mret 1;
  mysql_affected_rows _ := mret 1;
  mysql_real_escape_string _ := toy_escape
}.

#[export] Instance toy_escape_laws : EscapeLaws ToyDb.
Proof. by constructor. Qed.

Definition toy_db : ToyDb := mkToyDb 1 true 0.
Definition toy_down : ToyDb := mkToyDb 1 false 0.
Definition toy_failing : ToyDb := mkToyDb 1 true 1.
Definition toy_pool : MySQLPool := mkMySQLPool (mkConnInfo "h" 3306 "u" "p" "d") [1; 2]%nat [1; 2]%nat 0 2.

Lemma init_fills_witness :
  Z.of_nat (length (idle_ (fst (snd (init 0 "h" "u" "p" "d" 3306 3 (new_MySQLPool, toy_db)))))) = 3.
Proof. apply (init_fills 0 "h" "u" "p" "d" 3306 3 toy_db). vm_compute. reflexivity. Defined.

(** One connection is out and one was given up when the server went away. *)
Definition toy_used : MySQLPool * ToyDb :=
  exec getConnection (fst (exec getConnection (toy_pool, toy_db)), toy_down).

Lemma pool_accounting_witness :
  activeConns_ (fst toy_used) = 1 ∧ (length (idle_ (fst toy_used)) + 1 + 1 = 2)%nat.
Proof.
  apply (pool_accounting 2 [1%nat] 1 toy_used).
  eapply use_lost with (s := (fst (exec getConnection (toy_pool, toy_db)), toy_down)).
  - apply (use_library 2 [1%nat] 0 (exec getConnection (toy_pool, toy_db)) (λ w, (tt, toy_down))).
    eapply use_get; [apply (use_start 2 (toy_pool, toy_db)); reflexivity|vm_compute; reflexivity].
  - vm_compute. discriminate.
  - vm_compute. reflexivity.
Defined.
