(* ===== verification/MySQLRepos.v ===== *)
(** The repositories over MySQL, [src/repository/mysql_*_repo.{h,cc}]: the SQL text each
    method sends, how it reads the answer, and what it does when the library fails.  Each
    implements its interface of [Repositories] on the pool and the world of the library. *)

From S2P Require Import Prelude Machine CString Repositories MySQL.
From Stdlib Require Import Ascii.

Local Open Scope Z_scope.

(** ** Reading rows *)

(** [row[i]], which the library fills for every column of the statement. *)
Definition col (row : MYSQL_ROW) (i : nat) : option string := default None (row !! i).

(** [row[i] ? row[i] : ""], [row[i] ? atoll(row[i]) : 0] and the same with [atoi]. *)
Definition text (row : MYSQL_ROW) (i : nat) : string :=
  match col row i with Some s => c_str s | None => "" end.

Definition number (row : MYSQL_ROW) (i : nat) : Z :=
  match col row i with Some s => atoll s | None => 0 end.

Definition small_number (row : MYSQL_ROW) (i : nat) : Z :=
  match col row i with Some s => i32 (atoll s) | None => 0 end.

Definition user_of_row (row : MYSQL_ROW) : UserInfo :=
  mkUserInfo (text row 0) (text row 1) (text row 2) (text row 3) true.

Definition message_of_row (row : MYSQL_ROW) : MessageInfo :=
  mkMessageInfo (number row 0) (number row 1) (text row 2) (text row 3) (text row 4) (text row 5)
    (small_number row 6) (text row 7) true.

Definition room_of_row (row : MYSQL_ROW) : RoomInfo :=
  mkRoomInfo (number row 0) (text row 1) (text row 2) (small_number row 3) true.

Definition session_of_row (row : MYSQL_ROW) : SessionInfo :=
  mkSessionInfo (text row 0) (text row 1) (text row 2) (text row 3) (text row 4) (text row 5)
    (small_number row 6) true.

Section Repos.
  Context {W : Type} `{MySQLClient W}.

(** ** Talking to the library *)

Definition escape (conn : MYSQL) (s : string) : string :=
  if empty_string s then "" else mysql_real_escape_string conn s.

Definition query (conn : MYSQL) (sql : string) : State W bool := mysql_query conn (c_str sql).

(** A statement with its result set: [None] when either call fails. *)
Definition select (conn : MYSQL) (sql : string) : State W (option (list MYSQL_ROW)) :=
  ok ← query conn sql;
  if (ok : bool) then mysql_store_result conn else mret None.

Definition first_row (rows : option (list MYSQL_ROW)) : option MYSQL_ROW := rows ≫= head.

Definition all_rows (rows : option (list MYSQL_ROW)) : list MYSQL_ROW := default [] rows.

(** [mysql_num_rows(result) > 0]. *)
Definition some_rows (rows : option (list MYSQL_ROW)) : bool :=
  match rows with Some (_ :: _) => true | _ => false end.

(** ** MySQLUserRepo *)

Definition sql_user_by_uid (uid : string) : string := "SELECT uid FROM users WHERE uid = '" +:+ uid +:+ "'".

Definition sql_insert_user (conn : MYSQL) (uid passwd nickname email : string) : string :=
  let nick := if empty_string nickname then uid else escape conn nickname in
  let mail := escape conn email in
  let escapedUid := escape conn uid in
  "INSERT INTO users (uid, nickname, email, passwd) VALUES ('"
    +:+ escapedUid +:+ "', '" +:+ nick +:+ "', '" +:+ mail +:+ "', SHA2('" +:+ passwd +:+ "', 256))".

Definition user_registerUser (uid passwd nickname email : string) : State (MySQLPool * W) bool :=
  with_connection false (λ conn,
    ok ← query conn (sql_user_by_uid uid);
    if negb ok then mret false else
    result ← mysql_store_result conn;
    if some_rows result then mret false else
    query conn (sql_insert_user conn uid passwd nickname email)).

Definition sql_verify (uid passwd : string) : string :=
  "SELECT uid FROM users WHERE uid = '" +:+ uid +:+ "' AND passwd = SHA2('" +:+ passwd +:+ "', 256)".

Definition sql_last_login (uid : string) : string :=
  "UPDATE users SET last_login = NOW() WHERE uid = '" +:+ uid +:+ "'".

(** The last part of [verifyUser], on the connection it ends up with. *)
Definition verify_finish (conn : MYSQL) (uid : string) (ok : bool) : State (MySQLPool * W) bool :=
  _ ← (if ok then _ ← client (query conn (sql_last_login uid)); mret tt else mret tt);
  _ ← returnConnection conn;
  mret ok.

(** [verifyUser]: the loop over [retry] written out. A first attempt without a result
    closes its connection and asks the pool for another one. *)
Definition user_verifyUser (uid passwd : string) : State (MySQLPool * W) bool :=
  conn ← getConnection;
  match conn with
  | None => mret false
  | Some conn =>
    let sql := sql_verify uid passwd in
    result ← client (select conn sql);
    match result with
    | Some rows => verify_finish conn uid (some_rows (Some rows))
    | None =>
      _ ← client (mysql_close conn);
      conn ← getConnection;
      match conn with
      | None => mret false
      | Some conn =>
        result ← client (select conn sql);
        match result with
        | Some rows => verify_finish conn uid (some_rows (Some rows))
        | None => verify_finish conn uid false
        end
      end
    end
  end.

Definition user_userExists (uid : string) : State (MySQLPool * W) bool :=
  with_connection false (λ conn, result ← select conn (sql_user_by_uid uid); mret (some_rows result)).

Definition user_getUserInfo (uid : string) : State (MySQLPool * W) (option UserInfo) :=
  with_connection None (λ conn,
    result ← select conn ("SELECT uid, nickname, email, avatar_url FROM users WHERE uid = '" +:+ uid +:+ "'");
    mret (user_of_row <$> first_row result)).

Definition user_updateLastLogin (uid : string) : State (MySQLPool * W) bool :=
  with_connection false (λ conn, query conn (sql_last_login uid)).

(** ** MySQLFriendRepo *)

Definition sql_add_request (conn : MYSQL) (from to message : string) : string :=
  "INSERT IGNORE INTO friendships (requester_uid, target_uid, status, message) VALUES ('"
    +:+ escape conn from +:+ "', '" +:+ escape conn to +:+ "', 0, '" +:+ escape conn message +:+ "')".

Definition friend_addFriendRequest (from to message : string) : State (MySQLPool * W) bool :=
  with_connection false (λ conn, query conn (sql_add_request conn from to message)).

Definition sql_set_status (conn : MYSQL) (status : Z) (requester responder : string) : string :=
  "UPDATE friendships SET status = " +:+ to_string status
    +:+ " WHERE requester_uid = '" +:+ escape conn requester
    +:+ "' AND target_uid = '" +:+ escape conn responder +:+ "'".

Definition sql_mirror (conn : MYSQL) (requester responder : string) : string :=
  "INSERT IGNORE INTO friendships (requester_uid, target_uid, status) VALUES ('"
    +:+ escape conn responder +:+ "', '" +:+ escape conn requester +:+ "', 1)".

Definition friend_respondFriendRequest (requester responder : string) (accepted : bool)
    : State (MySQLPool * W) bool :=
  with_connection false (λ conn,
    ok ← query conn (sql_set_status conn (if accepted then 1 else 2) requester responder);
    if negb ok then mret false else
    _ ← (if accepted then _ ← query conn (sql_mirror conn requester responder); mret tt else mret tt);
    mret true).

Definition sql_remove_friends (conn : MYSQL) (uid1 uid2 : string) : string :=
  "DELETE FROM friendships WHERE (requester_uid = '" +:+ escape conn uid1
    +:+ "' AND target_uid = '" +:+ escape conn uid2 +:+ "')"
    +:+ " OR (requester_uid = '" +:+ escape conn uid2 +:+ "' AND target_uid = '" +:+ escape conn uid1 +:+ "')".

Definition friend_removeFriends (uid1 uid2 : string) : State (MySQLPool * W) bool :=
  with_connection false (λ conn, query conn (sql_remove_friends conn uid1 uid2)).

Definition sql_friend_list (conn : MYSQL) (uid : string) : string :=
  "SELECT u.uid, u.nickname, u.email, u.avatar_url FROM users u "
    +:+ "JOIN friendships f ON (f.requester_uid = '" +:+ escape conn uid +:+ "' AND f.target_uid = u.uid)"
    +:+ " WHERE f.status = 1"
    +:+ " UNION "
    +:+ "SELECT u.uid, u.nickname, u.email, u.avatar_url FROM users u "
    +:+ "JOIN friendships f ON (f.target_uid = '" +:+ escape conn uid +:+ "' AND f.requester_uid = u.uid)"
    +:+ " WHERE f.status = 1".

Definition friend_getFriendList (uid : string) : State (MySQLPool * W) (list UserInfo) :=
  with_connection [] (λ conn,
    result ← select conn (sql_friend_list conn uid);
    mret (map user_of_row (all_rows result))).

Definition sql_pending (conn : MYSQL) (uid : string) : string :=
  "SELECT requester_uid FROM friendships WHERE target_uid = '"
    +:+ escape conn uid +:+ "' AND status = 0".

Definition friend_getPendingRequests (uid : string) : State (MySQLPool * W) (list string) :=
  with_connection [] (λ conn,
    result ← select conn (sql_pending conn uid);
    mret (omap (λ row, c_str <$> col row 0) (all_rows result))).

(** ** MySQLMessageRepo *)

Definition sql_room_id (conn : MYSQL) (room : string) : string :=
  "SELECT room_id FROM rooms WHERE name = '" +:+ escape conn room +:+ "'".

Definition sql_next_seq (roomId : Z) : string :=
  "SELECT COALESCE(MAX(seq), 0) + 1 FROM messages WHERE room_id = " +:+ to_string roomId.

Definition sql_insert_message (conn : MYSQL) (seq roomId : Z) (from to content : string) : string :=
  let escapedFrom := escape conn from in
  let escapedTo := escape conn to in
  let escapedContent := escape conn content in
  let roomIdStr := if 0 <? roomId then to_string roomId else "NULL" in
  let toStr := if empty_string to then "NULL" else "'" +:+ escapedTo +:+ "'" in
  "INSERT INTO messages (seq, room_id, from_uid, to_uid, content) VALUES ("
    +:+ to_string seq +:+ ", " +:+ roomIdStr +:+ ", '"
    +:+ escapedFrom +:+ "', " +:+ toStr +:+ ", '" +:+ escapedContent +:+ "')".

(** [if (row && row[0]) x = atoll(row[0])], where [x] starts as given. *)
Definition number_or (x : Z) (result : option (list MYSQL_ROW)) : Z :=
  match first_row result with
  | Some row => match col row 0 with Some s => atoll s | None => x end
  | None => x
  end.

Definition message_storeMessage (from to room content : string) : State (MySQLPool * W) Z :=
  with_connection 0 (λ conn,
    roomId ← (if negb (empty_string room)
              then result ← select conn (sql_room_id conn room); mret (number_or 0 result)
              else mret 0);
    seq ← (if 0 <? roomId
           then result ← select conn (sql_next_seq roomId); mret (number_or 1 result)
           else mret 1);
    ok ← query conn (sql_insert_message conn seq roomId from to content);
    if (ok : bool) then id ← mysql_insert_id conn; mret (i64 id) else mret 0).

Definition sql_message_by_id (msg_id : Z) : string :=
  "SELECT m.msg_id, m.seq, m.from_uid, m.to_uid, "
    +:+ "COALESCE(r.name, ''), m.content, m.recalled, m.created_at "
    +:+ "FROM messages m LEFT JOIN rooms r ON m.room_id = r.room_id "
    +:+ "WHERE m.msg_id = " +:+ to_string msg_id.

Definition message_getMessage (msg_id : Z) : State (MySQLPool * W) (option MessageInfo) :=
  with_connection None (λ conn,
    result ← select conn (sql_message_by_id msg_id);
    mret (message_of_row <$> first_row result)).

Definition sql_recall (conn : MYSQL) (msg_id : Z) (uid : string) : string :=
  "UPDATE messages SET recalled = 1, recall_time = NOW() "
    +:+ "WHERE msg_id = " +:+ to_string msg_id +:+ " AND from_uid = '" +:+ escape conn uid +:+ "'".

Definition message_recallMessage (msg_id : Z) (uid : string) : State (MySQLPool * W) bool :=
  with_connection false (λ conn,
    ok ← query conn (sql_recall conn msg_id uid);
    if (ok : bool) then n ← mysql_affected_rows conn; mret (0 <? u64 n) else mret false).

Definition message_addOfflineMessage (target_uid : string) (msg_id : Z) : State (MySQLPool * W) bool :=
  with_connection false (λ conn,
    query conn ("INSERT INTO offline_messages (target_uid, msg_id) VALUES ('"
      +:+ escape conn target_uid +:+ "', " +:+ to_string msg_id +:+ ")")).

Definition sql_undelivered (conn : MYSQL) (uid : string) : string :=
  "SELECT m.msg_id, m.seq, m.from_uid, m.to_uid, COALESCE(r.name, ''), "
    +:+ "m.content, m.recalled, m.created_at "
    +:+ "FROM offline_messages o "
    +:+ "JOIN messages m ON o.msg_id = m.msg_id "
    +:+ "LEFT JOIN rooms r ON m.room_id = r.room_id "
    +:+ "WHERE o.target_uid = '" +:+ escape conn uid +:+ "' AND o.delivered = 0 "
    +:+ "ORDER BY o.id ASC".

Definition message_getUndeliveredMessages (uid : string) : State (MySQLPool * W) (list MessageInfo) :=
  with_connection [] (λ conn,
    result ← select conn (sql_undelivered conn uid);
    mret (map message_of_row (all_rows result))).

Definition message_markMessagesDelivered (uid : string) : State (MySQLPool * W) bool :=
  with_connection false (λ conn,
    query conn ("UPDATE offline_messages SET delivered = 1 WHERE target_uid = '"
      +:+ escape conn uid +:+ "' AND delivered = 0")).

(** ** MySQLRoomRepo *)

Definition room_createRoom (name creator : string) : State (MySQLPool * W) Z :=
  with_connection 0 (λ conn,
    ok ← query conn ("INSERT INTO rooms (name, creator_uid) VALUES ('"
           +:+ escape conn name +:+ "', '" +:+ escape conn creator +:+ "')");
    if (ok : bool) then id ← mysql_insert_id conn; mret (i64 id) else mret 0).

Definition room_getRoomByName (name : string) : State (MySQLPool * W) (option RoomInfo) :=
  with_connection None (λ conn,
    result ← select conn ("SELECT room_id, name, creator_uid, type FROM rooms WHERE name = '"
               +:+ escape conn name +:+ "'");
    mret (room_of_row <$> first_row result)).

Definition room_getRoomById (room_id : Z) : State (MySQLPool * W) (option RoomInfo) :=
  with_connection None (λ conn,
    result ← select conn ("SELECT room_id, name, creator_uid, type FROM rooms WHERE room_id = "
               +:+ to_string room_id);
    mret (room_of_row <$> first_row result)).

Definition room_roomExists (name : string) : State (MySQLPool * W) bool :=
  r ← room_getRoomByName name; mret (match r with Some _ => true | None => false end).

Definition room_addRoomMember (room_id : Z) (uid : string) (role : Z) : State (MySQLPool * W) bool :=
  with_connection false (λ conn,
    query conn ("INSERT IGNORE INTO room_members (room_id, uid, role) VALUES ("
      +:+ to_string room_id +:+ ", '" +:+ escape conn uid +:+ "', " +:+ to_string role +:+ ")")).

Definition room_removeRoomMember (room_id : Z) (uid : string) : State (MySQLPool * W) bool :=
  with_connection false (λ conn,
    query conn ("DELETE FROM room_members WHERE room_id = "
      +:+ to_string room_id +:+ " AND uid = '" +:+ escape conn uid +:+ "'")).

Definition room_getRoomMembers (room_id : Z) : State (MySQLPool * W) (list string) :=
  with_connection [] (λ conn,
    result ← select conn ("SELECT uid FROM room_members WHERE room_id = " +:+ to_string room_id);
    mret (omap (λ row, c_str <$> col row 0) (all_rows result))).

Definition room_getUserRooms (uid : string) : State (MySQLPool * W) (list RoomInfo) :=
  with_connection [] (λ conn,
    result ← select conn ("SELECT r.room_id, r.name, r.creator_uid, r.type FROM rooms r "
               +:+ "JOIN room_members rm ON r.room_id = rm.room_id "
               +:+ "WHERE rm.uid = '" +:+ escape conn uid +:+ "'");
    mret (map room_of_row (all_rows result))).

(** ** MySQLSessionRepo *)

Definition sql_create_session (conn : MYSQL) (uid token node_id : string) (ttlSeconds : Z) : string :=
  "INSERT INTO sessions (uid, token, node_id, expired_at) VALUES ('"
    +:+ escape conn uid +:+ "', '" +:+ escape conn token +:+ "', '" +:+ escape conn node_id +:+ "', "
    +:+ "DATE_ADD(NOW(), INTERVAL " +:+ to_string ttlSeconds +:+ " SECOND)) ON DUPLICATE KEY UPDATE "
    +:+ "node_id = VALUES(node_id), expired_at = VALUES(expired_at), revoked = 0".

Definition session_createSession (uid token node_id : string) (ttlSeconds : Z)
    : State (MySQLPool * W) bool :=
  with_connection false (λ conn, query conn (sql_create_session conn uid token node_id ttlSeconds)).

Definition sql_session_by_token (conn : MYSQL) (token : string) : string :=
  "SELECT uid, token, node_id, ip_address, created_at, expired_at, revoked "
    +:+ "FROM sessions WHERE token = '" +:+ escape conn token
    +:+ "' AND revoked = 0 AND expired_at > NOW()".

Definition session_getSessionByToken (token : string) : State (MySQLPool * W) (option SessionInfo) :=
  with_connection None (λ conn,
    result ← select conn (sql_session_by_token conn token);
    mret (session_of_row <$> first_row result)).

Definition session_revokeSession (token : string) : State (MySQLPool * W) bool :=
  with_connection false (λ conn,
    query conn ("UPDATE sessions SET revoked = 1 WHERE token = '" +:+ escape conn token +:+ "'")).

Definition session_revokeAllSessions (uid : string) : State (MySQLPool * W) bool :=
  with_connection false (λ conn,
    query conn ("UPDATE sessions SET revoked = 1 WHERE uid = '" +:+ escape conn uid +:+ "'")).

Definition session_isValidSession (token : string) : State (MySQLPool * W) bool :=
  s ← session_getSessionByToken token; mret (match s with Some _ => true | None => false end).

Definition session_updateSessionNode (token node_id : string) : State (MySQLPool * W) bool :=
  with_connection false (λ conn,
    query conn ("UPDATE sessions SET node_id = '" +:+ escape conn node_id
      +:+ "' WHERE token = '" +:+ escape conn token +:+ "'")).

(** ** The interfaces *)

#[export] Instance MySQLUserRepo : UserRepository (MySQLPool * W) := {
  userRepo_registerUser := user_registerUser;
  userRepo_verifyUser := user_verifyUser;
  userRepo_userExists := user_userExists;
  userRepo_getUserInfo := user_getUserInfo;
  userRepo_updateLastLogin := user_updateLastLogin
}.

#[export] Instance MySQLFriendRepo : FriendRepository (MySQLPool * W) := {
  friendRepo_addFriendRequest := friend_addFriendRequest;
  friendRepo_respondFriendRequest := friend_respondFriendRequest;
  friendRepo_removeFriends := friend_removeFriends;
  friendRepo_getFriendList := friend_getFriendList;
  friendRepo_getPendingRequests := friend_getPendingRequests
}.

#[export] Instance MySQLMessageRepo : MessageRepository (MySQLPool * W) := {
  msgRepo_storeMessage := message_storeMessage;
  msgRepo_getMessage := message_getMessage;
  msgRepo_recallMessage := message_recallMessage;
  msgRepo_addOfflineMessage := message_addOfflineMessage;
  msgRepo_getUndeliveredMessages := message_getUndeliveredMessages;
  msgRepo_markMessagesDelivered := message_markMessagesDelivered
}.

#[export] Instance MySQLRoomRepo : RoomRepository (MySQLPool * W) := {
  roomRepo_createRoom := room_createRoom;
  roomRepo_getRoomByName := room_getRoomByName;
  roomRepo_getRoomById := room_getRoomById;
  roomRepo_roomExists := room_roomExists;
  roomRepo_addRoomMember := room_addRoomMember;
  roomRepo_removeRoomMember := room_removeRoomMember;
  roomRepo_getRoomMembers := room_getRoomMembers;
  roomRepo_getUserRooms := room_getUserRooms
}.

#[export] Instance MySQLSessionRepo : SessionRepository (MySQLPool * W) := {
  sessionRepo_createSession := session_createSession;
  sessionRepo_getSessionByToken := session_getSessionByToken;
  sessionRepo_revokeSession := session_revokeSession;
  sessionRepo_revokeAllSessions := session_revokeAllSessions;
  sessionRepo_isValidSession := session_isValidSession;
  sessionRepo_updateSessionNode := session_updateSessionNode
}.
End Repos.

(** ** String literals of a statement *)

(** Where the reader of a statement is: outside a literal, inside one, after a backslash
    inside one, or after a quote that may be doubled. *)
Inductive lex_state :=
| Outside
| Inside (value : string)
| Escaped (value : string)
| AfterQuote (value : string).

(** What a backslash sequence of a literal stands for. *)
Definition unescape_char (c : ascii) : ascii :=
  if Ascii.eqb c "0" then "000"%char
  else if Ascii.eqb c "n" then "010"%char
  else if Ascii.eqb c "r" then "013"%char
  else if Ascii.eqb c "t" then "009"%char
  else if Ascii.eqb c "b" then "008"%char
  else if Ascii.eqb c "Z" then "026"%char
  else c.

Definition snoc (s : string) (c : ascii) : string := s +:+ String c "".

(** The values of the single-quoted literals, in order. *)
Fixpoint lex (st : lex_state) (s : string) : list string :=
  match s with
  | EmptyString => match st with AfterQuote v => [v] | _ => [] end
  | String c s =>
    match st with
    | Outside => lex (if Ascii.eqb c "'" then Inside "" else Outside) s
    | Inside v =>
      if Ascii.eqb c "'" then lex (AfterQuote v) s
      else if Ascii.eqb c "\" then lex (Escaped v) s
      else lex (Inside (snoc v c)) s
    | Escaped v => lex (Inside (snoc v (unescape_char c))) s
    | AfterQuote v =>
      if Ascii.eqb c "'" then lex (Inside (snoc v c)) s
      else v :: lex Outside s
    end
  end.

Definition literals (sql : string) : list string := lex Outside sql.

(** No character that ends or opens a literal. *)
Fixpoint plain (s : string) : bool :=
  match s with
  | EmptyString => true
  | String c s => negb (Ascii.eqb c "'") && negb (Ascii.eqb c "\") && negb (Ascii.eqb c "000") && plain s
  end.

(** ** Lemmas on literals *)

Lemma string_app_cons c s t : String c s +:+ t = String c (s +:+ t).
Proof. done. Qed.

Lemma snoc_app v c s : snoc v c +:+ s = v +:+ String c s.
Proof. unfold snoc. by rewrite <- string_app_assoc. Qed.

Lemma escape_char_nonul c : c_str (escape_char c) = escape_char c.
Proof. by destruct c as [[] [] [] [] [] [] [] []]. Qed.

Lemma lex_escape_char c v s : lex (Inside v) (escape_char c +:+ s) = lex (Inside (snoc v c)) s.
Proof. by destruct c as [[] [] [] [] [] [] [] []]. Qed.

Lemma lex_plain v s t : plain s = true → lex (Inside v) (s +:+ t) = lex (Inside (v +:+ s)) t.
Proof.
  revert v. induction s as [|c s IH]; intros v Hs; cbn in Hs.
  - by rewrite string_app_nil_r.
  - apply andb_true_iff in Hs as [Hc Hs]. apply andb_true_iff in Hc as [Hc _].
    apply andb_true_iff in Hc as [Hq Hb]. rewrite string_app_cons. cbn.
    destruct (Ascii.eqb c "'"); [done|]. destruct (Ascii.eqb c "\"); [done|].
    by rewrite IH, snoc_app.
Qed.

Section Escape.
  Context {W : Type} `{MySQLClient W, !EscapeLaws W}.

Lemma escape_eq conn s : escape conn s = mysql_real_escape_string conn s.
Proof. unfold escape, empty_string. destruct (String.eqb_spec s ""); [subst; by rewrite escape_nil|done]. Qed.

(** An escaped value is read back inside its literal, whatever follows. *)
Lemma lex_escape conn v s t : lex (Inside v) (escape conn s +:+ t) = lex (Inside (v +:+ s)) t.
Proof.
  rewrite escape_eq. revert v. induction s as [|c s IH]; intros v.
  - by rewrite escape_nil, string_app_nil_r.
  - rewrite escape_cons, <- string_app_assoc, lex_escape_char, IH, snoc_app. done.
Qed.

Lemma c_str_escape conn s t : c_str (escape conn s +:+ t) = escape conn s +:+ c_str t.
Proof.
  apply c_str_app. rewrite escape_eq. induction s as [|c s IH]; [by rewrite escape_nil|].
  by rewrite escape_cons, c_str_app, IH by apply escape_char_nonul.
Qed.
End Escape.

#[local] Arguments String.append !_ _ : simpl nomatch.

(** Read the constant parts of a statement by computation and the values by the lemmas. *)
Ltac read_sql :=
  repeat first
    [ progress cbn [c_str lex literals String.append Ascii.eqb Bool.eqb andb]
    | rewrite c_str_escape | rewrite lex_escape ].

(** Numbers and plain values in a statement. *)
Lemma digit_char_sql d : 0 <= d < 10 → Ascii.eqb (digit_char d) "'" = false.
Proof.
  intros Hd. assert (∃ n, (n < 10)%nat ∧ d = Z.of_nat n) as (n & Hn & ->).
  { exists (Z.to_nat d). lia. }
  do 10 (destruct n as [|n]; [done|]). lia.
Qed.

Lemma print_digits_app n x rest t : print_digits n x rest +:+ t = print_digits n x (rest +:+ t).
Proof. revert x rest. induction n as [|n IH]; intros x rest; [done|]. cbn [print_digits]. by rewrite IH. Qed.

Lemma lex_print_digits n x t : 0 <= x → lex Outside (print_digits n x t) = lex Outside t.
Proof.
  revert x t. induction n as [|n IH]; intros x t Hx; [done|]. cbn [print_digits].
  rewrite IH by (apply Z.div_pos; lia). cbn [lex].
  by rewrite digit_char_sql by (apply Z.mod_pos_bound; lia).
Qed.

Lemma lex_to_string x t : lex Outside (to_string x +:+ t) = lex Outside t.
Proof.
  unfold to_string. destruct (Z.ltb_spec x 0); rewrite ?string_app_cons, print_digits_app; cbn [String.append].
  - cbn. by rewrite lex_print_digits by lia.
  - by rewrite lex_print_digits by lia.
Qed.

Lemma c_str_plain s : plain s = true → c_str s = s.
Proof.
  induction s as [|c s IH]; cbn; intros Hs; [done|].
  apply andb_true_iff in Hs as [Hc Hs]. apply andb_true_iff in Hc as [_ Hn].
  destruct (Ascii.eqb c "000"); [done|]. by rewrite IH.
Qed.

(** ** What the methods do to the pool *)

(** The number of connections the pool counts as out. *)
Definition active {W} (a : Z) (s : MySQLPool * W) : Prop := activeConns_ (fst s) = a.

(** The pool can give out [n] connections at most, and counts no less than none as out. *)
Definition bounded {W} (n : Z) (s : MySQLPool * W) : Prop :=
  0 <= activeConns_ (fst s) ∧ capacity (fst s) <= n.

(** The pool has no connection to give out. *)
Definition drained {W} (s : MySQLPool * W) : Prop := idle_ (fst s) = [].

(** What every method built by [with_connection] keeps. *)
Section OnePool.
  Context {W : Type} `{MySQLClient W} (Q : MySQLPool * W → Prop).
  Hypothesis HQ : ∀ A (none : A) body, preserves Q (with_connection none body).

Lemma friend_keeps : FriendRepoPreserves Q.
Proof. constructor; intros; apply HQ. Qed.

Lemma message_keeps : MessageRepoPreserves Q.
Proof. constructor; intros; apply HQ. Qed.

Lemma room_keeps : RoomRepoPreserves Q.
Proof.
  constructor; intros; try apply HQ. apply preserves_bind; [apply HQ|intros ?; apply preserves_ret].
Qed.

Lemma session_keeps : SessionRepoPreserves Q.
Proof.
  constructor; intros; try apply HQ. apply preserves_bind; [apply HQ|intros ?; apply preserves_ret].
Qed.

Lemma user_keeps : (∀ u p, preserves Q (user_verifyUser u p)) → UserRepoPreserves Q.
Proof. intros Hv. constructor; intros; [apply HQ|apply Hv|apply HQ..]. Qed.
End OnePool.

Section Balanced.
  Context {W : Type} `{MySQLClient W}.

Lemma with_connection_active {A} a (none : A) body : preserves (active a) (with_connection (W := W) none body).
Proof. intros [p w] Ha. unfold active in *. destruct (with_connection_pool none body p w) as [-> _]. done. Qed.

Lemma with_connection_bounded {A} n (none : A) body : preserves (bounded n) (with_connection (W := W) none body).
Proof.
  intros [p w] [Ha Hc]. destruct (with_connection_pool none body p w) as (Ha' & _ & Hi).
  unfold bounded, capacity in *. cbn [fst] in *. rewrite Ha'. split; [done|]. destruct Hi as [->|[Hi _]]; lia.
Qed.

(** Without a connection every method answers at once what it answers on failure. *)
Lemma with_connection_drained {A} (none : A) body (s : MySQLPool * W) :
  drained s → with_connection none body s = (none, s).
Proof.
  destruct s as [p w]. intros Hi. rewrite with_connection_eq.
  destruct (getConnection_cases p w) as [[_ ->]|(c & rest & Hi' & _)]; [done|]. unfold drained in Hi. cbn in Hi. congruence.
Qed.

Lemma verifyUser_drained u pw (s : MySQLPool * W) : drained s → user_verifyUser u pw s = (false, s).
Proof.
  destruct s as [p w]. intros Hi. unfold user_verifyUser. rewrite bind_eq.
  destruct (getConnection_cases p w) as [[_ Hg]|(c & rest & Hi' & _)]; [|unfold drained in Hi; cbn in Hi; congruence].
  unfold eval, exec. by rewrite Hg.
Qed.

(** The pool after [verifyUser]: at most one connection is counted as out for ever, and
    never is there one more to give out. *)
Lemma verify_finish_pool c uid ok p (w : W) :
  fst (exec (verify_finish c uid ok) (p, w)) = add_active (-1) (push_idle c p).
Proof.
  unfold verify_finish. rewrite exec_bind.
  assert (∃ w'', exec (if ok then _ ← client (query c (sql_last_login uid)); mret tt else mret tt)
    (p, w) = (p, w'')) as [w'' ->].
  { destruct ok; rewrite ?exec_bind, ?exec_client; by eexists. }
  unfold returnConnection. by autorewrite with chat.
Qed.

Lemma verifyUser_bounded n u pw : preserves (bounded n) (user_verifyUser (W := W) u pw).
Proof.
  intros [p w] [Ha Hn]. unfold bounded, capacity in *. cbn [fst] in *. unfold user_verifyUser. rewrite exec_bind.
  destruct (getConnection_cases p w) as [[Hi Hg]|(c & rest & Hi & [(c1 & w1 & Hg)|(w1 & Hg)])];
    rewrite (f_equal fst Hg : eval getConnection _ = _), (f_equal snd Hg : exec getConnection _ = _);
    cbn [fst snd]; rewrite ?exec_ret; cbn [fst]; [done| |cbn; rewrite Hi in *; cbn in *; lia].
  set (p1 := add_active 1 (pop_idle p)) in *. rewrite exec_bind, eval_client, exec_client. cbn [fst snd].
  destruct (eval (select c1 _) w1) as [rows|].
  { rewrite verify_finish_pool. cbn. rewrite length_app, Hi in *. cbn in *. lia. }
  rewrite exec_bind, exec_client. cbn [fst snd]. set (w2 := exec (mysql_close c1) _). rewrite exec_bind.
  destruct (getConnection_cases p1 w2) as [[Hi1 Hg1]|(c2 & rest1 & Hi1 & [(c3 & w3 & Hg1)|(w3 & Hg1)])];
    rewrite (f_equal fst Hg1 : eval getConnection _ = _), (f_equal snd Hg1 : exec getConnection _ = _);
    cbn [fst snd]; rewrite ?exec_ret; cbn [fst].
  - cbn. rewrite Hi in *. cbn in *. lia.
  - rewrite exec_bind, eval_client, exec_client. cbn [fst snd].
    cbn in Hi1. rewrite Hi in Hi1, Hn. cbn in Hi1, Hn. subst rest. cbn in Hn.
    destruct (eval (select c3 _) w3); rewrite verify_finish_pool; cbn; rewrite Hi, length_app; cbn; lia.
  - cbn in Hi1 |- *. rewrite Hi in *. cbn in *. subst rest. cbn in *. lia.
Qed.

#[export] Instance friend_active a : FriendRepoPreserves (W := MySQLPool * W) (active a).
Proof. apply friend_keeps. intros. apply with_connection_active. Qed.

#[export] Instance message_active a : MessageRepoPreserves (W := MySQLPool * W) (active a).
Proof. apply message_keeps. intros. apply with_connection_active. Qed.

#[export] Instance room_active a : RoomRepoPreserves (W := MySQLPool * W) (active a).
Proof. apply room_keeps. intros. apply with_connection_active. Qed.

#[export] Instance session_active a : SessionRepoPreserves (W := MySQLPool * W) (active a).
Proof. apply session_keeps. intros. apply with_connection_active. Qed.

(** ** Theorems *)

(** Every repository method but [verifyUser] gives back the connection it takes, on
    every path: the number of connections counted as out is the same before and after. *)
Theorem repos_return_connections a :
  (FriendRepoPreserves (W := MySQLPool * W) (active a) ∧ MessageRepoPreserves (W := MySQLPool * W) (active a) ∧
   RoomRepoPreserves (W := MySQLPool * W) (active a) ∧ SessionRepoPreserves (W := MySQLPool * W) (active a)) ∧
  (∀ u i, preserves (active a) (message_addOfflineMessage (W := W) u i)) ∧
  (∀ u p n e, preserves (active a) (user_registerUser (W := W) u p n e)) ∧
  (∀ u, preserves (active a) (user_userExists (W := W) u)) ∧
  (∀ u, preserves (active a) (user_getUserInfo (W := W) u)) ∧
  (∀ u, preserves (active a) (user_updateLastLogin (W := W) u)).
Proof.
  split_and!; try apply _; intros; apply with_connection_active.
Qed.

(** [verifyUser] leaks: when its first query has no result it closes its connection
    without giving it back, so the pool counts it as out for ever and has one connection
    less to give out, whether or not the second attempt works. *)
Theorem verifyUser_retry_leaks uid passwd p (w : W) c w1 :
  getConnection (p, w) = (Some c, (add_active 1 (pop_idle p), w1)) →
  eval (select c (sql_verify uid passwd)) w1 = None →
  let p' := fst (exec (user_verifyUser uid passwd) (p, w)) in
  activeConns_ p' = activeConns_ p + 1 ∧ (length (idle_ p') <= length (idle_ p) - 1)%nat.
Proof.
  intros Hg Hs. cbv zeta.
  set (leaked := λ p', activeConns_ p' = activeConns_ p + 1 ∧ (length (idle_ p') <= length (idle_ p) - 1)%nat).
  change (leaked (fst (snd (user_verifyUser uid passwd (p, w))))). unfold user_verifyUser.
  rewrite bind_eq, (f_equal fst Hg : eval getConnection _ = _), (f_equal snd Hg : exec getConnection _ = _).
  cbn [fst snd]. rewrite bind_eq, eval_client, exec_client. cbn [fst snd]. rewrite Hs.
  rewrite bind_eq, exec_client, bind_eq. cbn [fst snd].
  set (p1 := add_active 1 (pop_idle p)). set (w2 := exec (mysql_close c) _).
  destruct (getConnection_cases p1 w2) as [[Hi Hg1]|(c' & rest & Hi & [(c2 & w3 & Hg1)|(w3 & Hg1)])];
    rewrite (f_equal fst Hg1 : eval getConnection _ = _), (f_equal snd Hg1 : exec getConnection _ = _);
    cbn [fst snd].
  - split; [done|]. cbn. destruct (idle_ p); cbn; lia.
  - rewrite bind_eq, eval_client, exec_client. cbn [fst snd].
    assert (∀ ok w', leaked (fst (exec (verify_finish c2 uid ok) (add_active 1 (pop_idle p1), w')))) as Hfin.
    { intros ok w'. rewrite verify_finish_pool. cbn in *. split; cbn; [lia|]. rewrite length_app.
      destruct (idle_ p) as [|x l]; cbn in *; [done|]. rewrite Hi. cbn. lia. }
    destruct (eval (select c2 _) w3); apply Hfin.
  - split; [done|]. cbn in *. destruct (idle_ p) as [|x l]; cbn in *; [done|]. rewrite Hi. cbn. lia.
Qed.
End Balanced.

Section Literals.
  Context {W : Type} `{MySQLClient W, !EscapeLaws W}.

(** The statements of the friend, message, room and session repositories carry their
    values safely: whatever the strings are, quotes and NUL bytes included, the text that
    reaches the server has exactly the intended literals, and they read back as the values. *)
Theorem escaped_values_read_back conn (a b c : string) (n i : Z) :
  literals (c_str (sql_add_request conn a b c)) = [a; b; c] ∧
  literals (c_str (sql_set_status conn n a b)) = [a; b] ∧
  literals (c_str (sql_mirror conn a b)) = [b; a] ∧
  literals (c_str (sql_remove_friends conn a b)) = [a; b; b; a] ∧
  literals (c_str (sql_friend_list conn a)) = [a; a] ∧
  literals (c_str (sql_insert_message conn n i a b c)) =
    (if empty_string b then [a; c] else [a; b; c]) ∧
  literals (c_str (sql_recall conn n a)) = [a] ∧
  literals (c_str (sql_undelivered conn a)) = [""%string; a] ∧
  literals (c_str (sql_create_session conn a b c n)) = [a; b; c] ∧
  literals (c_str (sql_session_by_token conn a)) = [a].
Proof.
  split_and!.
  - unfold sql_add_request. by read_sql.
  - unfold sql_set_status. read_sql. rewrite (c_str_app (to_string n)) by apply c_str_to_string. read_sql. rewrite lex_to_string. by read_sql.
  - unfold sql_mirror. by read_sql.
  - unfold sql_remove_friends. by read_sql.
  - unfold sql_friend_list. by read_sql.
  - unfold sql_insert_message. cbv zeta. read_sql. rewrite (c_str_app (to_string n)) by apply c_str_to_string. read_sql.
    rewrite lex_to_string. read_sql.
    destruct (0 <? i), (empty_string b) eqn:Hb; read_sql; rewrite ?(c_str_app (to_string i)) by apply c_str_to_string; read_sql;
      rewrite ?lex_to_string; read_sql; rewrite <- ?string_app_assoc; by read_sql.
  - unfold sql_recall. read_sql. rewrite (c_str_app (to_string n)) by apply c_str_to_string. read_sql. rewrite lex_to_string. by read_sql.
  - unfold sql_undelivered. by read_sql.
  - unfold sql_create_session. read_sql. rewrite (c_str_app (to_string n)) by apply c_str_to_string. read_sql. rewrite lex_to_string. by read_sql.
  - unfold sql_session_by_token. by read_sql.
Qed.
End Literals.

(** The statements of the user repository are not safe: the user id and the password are
    put between the quotes as they are, so that the user id [a' OR uid = 'b] turns the
    password check into one in which the row of [a] needs no password. *)
Theorem verify_sql_injectable a b passwd :
  plain a = true → plain b = true → plain passwd = true →
  let sql := sql_verify (a +:+ "' OR uid = '" +:+ b) passwd in
  sql = "SELECT uid FROM users WHERE uid = '" +:+ a +:+ "' OR uid = '" +:+ b
          +:+ "' AND passwd = SHA2('" +:+ passwd +:+ "', 256)" ∧
  literals (c_str sql) = [a; b; passwd].
Proof.
  intros Ha Hb Hp. cbv zeta.
  assert (sql_verify (a +:+ "' OR uid = '" +:+ b) passwd =
    "SELECT uid FROM users WHERE uid = '" +:+ a +:+ "' OR uid = '" +:+ b
      +:+ "' AND passwd = SHA2('" +:+ passwd +:+ "', 256)") as ->.
  { unfold sql_verify. by rewrite <- !string_app_assoc. }
  split; [done|].
  repeat first [progress cbn [c_str lex literals String.append Ascii.eqb Bool.eqb]
    | rewrite (c_str_app a) by by apply c_str_plain
    | rewrite (c_str_app b) by by apply c_str_plain
    | rewrite (c_str_app passwd) by by apply c_str_plain
    | rewrite (lex_plain _ a) by done | rewrite (lex_plain _ b) by done
    | rewrite (lex_plain _ passwd) by done].
  done.
Qed.

(** ** The theorems at work *)

Lemma escaped_values_read_back_witness :
  literals (c_str (sql_session_by_token (W := ToyDb) 1 "x' OR '1'='1")) = ["x' OR '1'='1"%string].
Proof. apply (escaped_values_read_back 1%nat "x' OR '1'='1" "" "" 0 0). Defined.

Lemma verify_sql_injectable_witness :
  literals (c_str (sql_verify "alice' OR uid = 'x" "pw")) = ["alice"; "x"; "pw"]%string.
Proof. apply (verify_sql_injectable "alice" "x" "pw"); reflexivity. Defined.

(** The first query fails, the second attempt works, and a connection is gone. *)
Lemma verifyUser_retry_leaks_witness :
  let p' := fst (exec (user_verifyUser "alice" "pw") (toy_pool, toy_failing)) in
  activeConns_ p' = 1 ∧ (length (idle_ p') <= 1)%nat.
Proof.
  apply (verifyUser_retry_leaks "alice" "pw" toy_pool toy_failing 1%nat toy_failing);
    vm_compute; reflexivity.
Defined.
