(* ===== verification/FriendStore.v ===== *)
(** The friendships of the database: what the statements of [MySQLFriendRepo] do to the
    tables [users] and [friendships], and that the repository keeps the promises of
    [FriendRepoLaws] over them, so that [FriendService] carries out an abstract machine of
    friendships.

    A statement is taken apart into its text with a question mark for each string literal
    and the values of the literals, as for a prepared statement; what the server does is a
    law per text, of the class [FriendTables]. *)

From S2P Require Import Prelude Machine CString Repositories MySQL MySQLRepos.
From S2P Require FriendService.
From Stdlib Require Import Ascii.

Local Open Scope Z_scope.

(** ** Statements without their values *)

Inductive quote_state := QOut | QIn | QEsc | QEnd.

(** The text of a statement with its literals replaced by question marks; the literals are
    delimited as in [lex]. *)
Fixpoint skeleton (st : quote_state) (s : string) : string :=
  match s with
  | EmptyString => match st with QEnd => "?" | _ => "" end
  | String c s =>
    match st with
    | QOut => if Ascii.eqb c "'" then skeleton QIn s else String c (skeleton QOut s)
    | QIn => skeleton (if Ascii.eqb c "'" then QEnd else if Ascii.eqb c "\" then QEsc else QIn) s
    | QEsc => skeleton QIn s
    | QEnd => if Ascii.eqb c "'" then skeleton QIn s else String "?" (String c (skeleton QOut s))
    end
  end.

Definition prepare (sql : string) : string * list string := (skeleton QOut sql, literals sql).

Lemma skeleton_escape_char c s : skeleton QIn (escape_char c +:+ s) = skeleton QIn s.
Proof. by destruct c as [[] [] [] [] [] [] [] []]. Qed.

Lemma skeleton_plain s t : plain s = true → skeleton QIn (s +:+ t) = skeleton QIn t.
Proof.
  induction s as [|c s IH]; intros Hs; [done|]. cbn [plain] in Hs.
  apply andb_true_iff in Hs as [[[Hq Hb]%andb_true_iff _]%andb_true_iff Hs].
  rewrite string_app_cons. cbn [skeleton]. apply negb_true_iff in Hq as ->. apply negb_true_iff in Hb as ->. auto.
Qed.

Lemma skeleton_escape {W} `{MySQLClient W, !EscapeLaws W} conn s t :
  skeleton QIn (escape conn s +:+ t) = skeleton QIn t.
Proof.
  rewrite escape_eq. induction s as [|c s IH]; [by rewrite escape_nil|].
  by rewrite escape_cons, <- string_app_assoc, skeleton_escape_char, IH.
Qed.

Lemma uid_char_plain c :
  uid_char c = true → Ascii.eqb c "'" = false ∧ Ascii.eqb c "\" = false ∧ Ascii.eqb c "000" = false.
Proof. by destruct c as [[] [] [] [] [] [] [] []]. Qed.

Lemma plain_uid_plain u : plain_uid u = true → plain u = true.
Proof.
  unfold plain_uid. intros [_ Hu]%andb_true_iff. induction u as [|c u IH]; [done|].
  cbn in Hu |- *. apply andb_true_iff in Hu as [Hc Hu].
  by destruct (uid_char_plain c Hc) as (-> & -> & ->); apply IH.
Qed.

Lemma plain_uid_c_str u : plain_uid u = true → c_str u = u.
Proof. intros Hu. by apply c_str_plain, plain_uid_plain. Qed.

(** ** What the server promises *)

Definition text_insert_request : string :=
  "INSERT IGNORE INTO friendships (requester_uid, target_uid, status, message) VALUES (?, ?, 0, ?)".
Definition text_insert_mirror : string :=
  "INSERT IGNORE INTO friendships (requester_uid, target_uid, status) VALUES (?, ?, 1)".
Definition text_set_status (status : string) : string :=
  "UPDATE friendships SET status = " +:+ status +:+ " WHERE requester_uid = ? AND target_uid = ?".
Definition text_remove : string :=
  "DELETE FROM friendships WHERE (requester_uid = ? AND target_uid = ?) OR (requester_uid = ? AND target_uid = ?)".
Definition text_pending : string :=
  "SELECT requester_uid FROM friendships WHERE target_uid = ? AND status = 0".
Definition text_user : string := "SELECT uid FROM users WHERE uid = ?".
Definition text_friends : string :=
  "SELECT u.uid, u.nickname, u.email, u.avatar_url FROM users u "
    +:+ "JOIN friendships f ON (f.requester_uid = ? AND f.target_uid = u.uid) WHERE f.status = 1 UNION "
    +:+ "SELECT u.uid, u.nickname, u.email, u.avatar_url FROM users u "
    +:+ "JOIN friendships f ON (f.target_uid = ? AND f.requester_uid = u.uid) WHERE f.status = 1".

Abbreviation Users := (gmap string MYSQL_ROW).

Section Server.
  Context {W : Type} `{MySQLClient W}.
  Context (tables : W → option (Friendships * Users)).

(** A statement that succeeds and leaves these friendships. *)
Definition updates (conn : MYSQL) (sql : string) (w : W) (F : Friendships) (U : Users) : Prop :=
  eval (query conn sql) w = true ∧ tables (exec (query conn sql) w) = Some (F, U).

(** A statement that has these rows, each once. *)
Definition selects (conn : MYSQL) (sql : string) (w : W) (rows : MYSQL_ROW → Prop) : Prop :=
  ∃ l, eval (select conn sql) w = Some l ∧ NoDup l ∧ ∀ row, row ∈ l ↔ rows row.
End Server.

(** The tables of a server that can be reached, on every connection: the statuses of the
    friendships, and for each user id the columns [nickname], [email] and [avatar_url].
    User ids are plain.  [INSERT IGNORE] gives up on a row that breaks the unique key of the
    pair or a foreign key, and does not fail; a message of up to 64 KiB leaves the statement
    below the size of a packet. *)
Class FriendTables (W : Type) `{MySQLClient W} := {
  tables : W → option (Friendships * Users);
  user_plain w F U u row : tables w = Some (F, U) → U !! u = Some row → plain_uid u = true;
  foreign_keys w F U a b status :
    tables w = Some (F, U) → F !! (a, b) = Some status → is_Some (U !! a) ∧ is_Some (U !! b);
  ping_law c w F U :
    tables w = Some (F, U) → eval (mysql_ping c) w = true ∧ tables (exec (mysql_ping c) w) = Some (F, U);
  insert_request_law c sql w F U a b m :
    tables w = Some (F, U) → prepare (c_str sql) = (text_insert_request, [a; b; m]) →
    plain_uid a = true → plain_uid b = true → Z.of_nat (String.length m) <= 65536 →
    updates tables c sql w (insert_new U a b 0 F) U;
  insert_mirror_law c sql w F U a b :
    tables w = Some (F, U) → prepare (c_str sql) = (text_insert_mirror, [a; b]) →
    plain_uid a = true → plain_uid b = true →
    updates tables c sql w (insert_new U a b 1 F) U;
  set_status_law c sql w F U status a b :
    tables w = Some (F, U) → status = 1 ∨ status = 2 →
    prepare (c_str sql) = (text_set_status (to_string status), [a; b]) →
    plain_uid a = true → plain_uid b = true →
    updates tables c sql w (alter (λ _, status) (a, b) F) U;
  remove_law c sql w F U a b a' b' :
    tables w = Some (F, U) → prepare (c_str sql) = (text_remove, [a; b; a'; b']) →
    plain_uid a = true → plain_uid b = true → plain_uid a' = true → plain_uid b' = true →
    updates tables c sql w (delete (a', b') (delete (a, b) F)) U;
  select_law c sql w F U :
    tables w = Some (F, U) → (prepare (c_str sql)).1 ∈ [text_pending; text_user; text_friends] →
    tables (exec (select c sql) w) = Some (F, U);
  pending_law c sql w F U b :
    tables w = Some (F, U) → prepare (c_str sql) = (text_pending, [b]) → plain_uid b = true →
    selects c sql w (λ row, ∃ a, F !! (a, b) = Some 0 ∧ row = [Some a]);
  user_law c sql w F U u :
    tables w = Some (F, U) → prepare (c_str sql) = (text_user, [u]) → plain_uid u = true →
    selects c sql w (λ row, is_Some (U !! u) ∧ row = [Some u]);
  friends_law c sql w F U a b :
    tables w = Some (F, U) → prepare (c_str sql) = (text_friends, [a; b]) →
    plain_uid a = true → plain_uid b = true →
    selects c sql w (λ row, ∃ u columns,
      U !! u = Some columns ∧ (F !! (a, u) = Some 1 ∨ F !! (u, b) = Some 1) ∧ row = Some u :: columns)
}.

(** ** The statements of the repositories *)

#[local] Arguments String.append !_ _ : simpl nomatch.

Section Texts.
  Context {W : Type} `{MySQLClient W, !EscapeLaws W}.

(** Read a statement: its constant parts by computation, its values by the lemmas. *)
Ltac read_text :=
  unfold prepare, literals;
  repeat first
    [ progress cbn [c_str lex skeleton String.append Ascii.eqb Bool.eqb andb]
    | rewrite c_str_escape | rewrite lex_escape | rewrite skeleton_escape ].

Lemma read_add_request conn a b m :
  prepare (c_str (sql_add_request conn a b m)) = (text_insert_request, [a; b; m]).
Proof. unfold sql_add_request. by read_text. Qed.

Lemma read_mirror conn a b : prepare (c_str (sql_mirror conn a b)) = (text_insert_mirror, [b; a]).
Proof. unfold sql_mirror. by read_text. Qed.

Lemma read_set_status conn (accepted : bool) a b :
  let status := if accepted then 1 else 2 in
  prepare (c_str (sql_set_status conn status a b)) = (text_set_status (to_string status), [a; b]).
Proof.
  cbv zeta. unfold sql_set_status, text_set_status.
  destruct accepted; [change (to_string 1) with "1"%string|change (to_string 2) with "2"%string]; by read_text.
Qed.

Lemma read_remove conn a b : prepare (c_str (sql_remove_friends conn a b)) = (text_remove, [a; b; b; a]).
Proof. unfold sql_remove_friends. by read_text. Qed.

Lemma read_pending conn a : prepare (c_str (sql_pending conn a)) = (text_pending, [a]).
Proof. unfold sql_pending. by read_text. Qed.

Lemma read_friend_list conn a : prepare (c_str (sql_friend_list conn a)) = (text_friends, [a; a]).
Proof. unfold sql_friend_list. by read_text. Qed.

Lemma read_user u : plain_uid u = true → prepare (c_str (sql_user_by_uid u)) = (text_user, [u]).
Proof.
  intros Hu. pose proof (plain_uid_plain u Hu) as Hp. unfold sql_user_by_uid, prepare, literals.
  repeat first
    [ progress cbn [c_str lex skeleton String.append Ascii.eqb Bool.eqb andb]
    | rewrite (c_str_app u) by by apply c_str_plain
    | rewrite lex_plain by done | rewrite skeleton_plain by done ].
  done.
Qed.
End Texts.

(** ** The repositories keep the promises *)

Section Repos.
  Context {W : Type} `{MySQLClient W, !EscapeLaws W, !FriendTables W}.

Definition profiles (U : Users) : gmap string UserInfo :=
  map_imap (λ u columns, Some (user_of_row (Some u :: columns))) U.

(** The store is in order while the pool has a connection and the server is there. *)
Definition mysql_friend_store (s : MySQLPool * W) : option (Friendships * gmap string UserInfo) :=
  match idle_ (fst s) with
  | [] => None
  | _ :: _ => prod_map id profiles <$> tables (snd s)
  end.

Lemma profiles_lookup U u : profiles U !! u = (λ columns, user_of_row (Some u :: columns)) <$> U !! u.
Proof. unfold profiles. rewrite map_lookup_imap. by destruct (U !! u). Qed.

Lemma profiles_known U u : is_Some (profiles U !! u) ↔ is_Some (U !! u).
Proof. by rewrite profiles_lookup, fmap_is_Some. Qed.

Lemma profiles_insert U a b s F : insert_new (profiles U) a b s F = insert_new U a b s F.
Proof. apply insert_new_known, profiles_known. Qed.

Lemma store_Some s F V :
  mysql_friend_store s = Some (F, V) → ∃ U, tables (snd s) = Some (F, U) ∧ V = profiles U.
Proof.
  unfold mysql_friend_store. destruct (idle_ (fst s)); [done|].
  destruct (tables (snd s)) as [[F' U]|] eqn:Ht; [|done]. intros [= -> <-]. eauto.
Qed.

(** A method on a store in order has a connection: it answers what its statements answer,
    and the store is in order afterwards if they leave it so. *)
Lemma with_connection_store {A} (none : A) body (s : MySQLPool * W) F U V (Q : A → Prop) F' :
  mysql_friend_store s = Some (F, V) → tables (snd s) = Some (F, U) →
  (∀ c w, tables w = Some (F, U) → Q (eval (body c) w) ∧ tables (exec (body c) w) = Some (F', U)) →
  Q (eval (with_connection none body) s) ∧
  mysql_friend_store (exec (with_connection none body) s) = Some (F', V).
Proof.
  destruct s as [p w]. intros Hs Ht Hbody. pose proof (store_Some _ _ _ Hs) as (U' & Ht' & ->).
  cbn [snd] in *. rewrite Ht in Ht'. simplify_eq. unfold mysql_friend_store in Hs. cbn [fst snd] in Hs.
  destruct (idle_ p) as [|c rest] eqn:Hi; [done|].
  destruct (ping_law c w F U' Ht) as [Halive Hw].
  destruct (Hbody c (exec (mysql_ping c) w) Hw) as [HQ Hw'].
  unfold eval at 1, exec at 1. rewrite with_connection_eq.
  assert (getConnection (p, w) = (Some c, (add_active 1 (pop_idle p), exec (mysql_ping c) w))) as ->.
  { unfold getConnection. rewrite bind_eq, eval_gets, exec_gets. cbn [fst]. rewrite Hi.
    rewrite !bind_eq, eval_client, !exec_client, !exec_set_pool. cbn [fst snd]. unfold pingConnection.
    by rewrite Halive. }
  split; [done|]. unfold mysql_friend_store. cbn. rewrite Hi, Hw'. by destruct rest.
Qed.

(** The same for a method that is one statement. *)
Lemma with_updates none sql (s : MySQLPool * W) F U V F' :
  mysql_friend_store s = Some (F, V) → tables (snd s) = Some (F, U) →
  (∀ c w, tables w = Some (F, U) → updates tables c (sql c) w F' U) →
  eval (with_connection none (λ c, query c (sql c))) s = true ∧
  mysql_friend_store (exec (with_connection none (λ c, query c (sql c))) s) = Some (F', V).
Proof. intros Hs Ht Hq. by apply (with_connection_store _ _ _ F U V (λ ok, ok = true)). Qed.

(** And for one that is one query with a reading of its rows. *)
Lemma with_select_keeps {A} (none : A) sql read text (s : MySQLPool * W) F V :
  mysql_friend_store s = Some (F, V) →
  (∀ c, (prepare (c_str (sql c))).1 = text) → text ∈ [text_pending; text_user; text_friends] →
  let method := with_connection none (λ c, result ← select c (sql c); mret (read result)) in
  mysql_friend_store (exec method s) = Some (F, V).
Proof.
  intros Hs Hsql Htext. destruct (store_Some _ _ _ Hs) as (U & Ht & HV). cbv zeta.
  apply (with_connection_store _ _ s F U V (λ _, True)); [done..|]. intros c w Hw. split; [done|].
  autorewrite with chat. apply select_law; [done|]. by rewrite Hsql.
Qed.

Lemma with_selects {A} (none : A) sql read (s : MySQLPool * W) F U V rows :
  mysql_friend_store s = Some (F, V) → tables (snd s) = Some (F, U) →
  (∀ c, (prepare (c_str (sql c))).1 ∈ [text_pending; text_user; text_friends]) →
  (∀ c w, tables w = Some (F, U) → selects c (sql c) w rows) →
  let method := with_connection none (λ c, result ← select c (sql c); mret (read result)) in
  ∃ l, eval method s = read (Some l) ∧ NoDup l ∧ ∀ row, row ∈ l ↔ rows row.
Proof.
  intros Hs Ht Htext Hq. cbv zeta.
  apply (with_connection_store _ _ s F U V (λ a, ∃ l, a = read (Some l) ∧ NoDup l ∧ ∀ row, row ∈ l ↔ rows row) F);
    [done..|].
  intros c w Hw. destruct (Hq c w Hw) as (l & Hl & Hd & Hr). autorewrite with chat. rewrite Hl. split; [eauto|].
  by apply select_law.
Qed.

Lemma user_exists_store u (s : MySQLPool * W) F V :
  mysql_friend_store s = Some (F, V) → plain_uid u = true →
  eval (user_userExists u) s = bool_decide (is_Some (V !! u)) ∧
  mysql_friend_store (exec (user_userExists u) s) = Some (F, V).
Proof.
  intros Hs Hu. destruct (store_Some _ _ _ Hs) as (U & Ht & ->). unfold user_userExists.
  destruct (with_selects false (λ _, sql_user_by_uid u) some_rows s F U (profiles U)
    (λ row, is_Some (U !! u) ∧ row = [Some u])) as (l & Hl & _ & Hr); [done..| | |].
  { intros c. rewrite read_user by done. set_solver. }
  { intros c w Hw. apply (user_law c _ w F U u); [done|by apply read_user|done]. }
  split; [|apply (with_select_keeps _ _ _ text_user); [done|intros; by rewrite read_user|set_solver]]. rewrite Hl. symmetry. destruct l as [|row l]; cbn.
  - apply bool_decide_eq_false. rewrite profiles_known. intros Hk. by apply (not_elem_of_nil [Some u]), Hr.
  - apply bool_decide_eq_true, profiles_known. apply (Hr row). by left.
Qed.

Lemma respond_store requester responder (accepted : bool) (s : MySQLPool * W) F V :
  mysql_friend_store s = Some (F, V) → plain_uid requester = true → plain_uid responder = true →
  eval (friend_respondFriendRequest requester responder accepted) s = true ∧
  mysql_friend_store (exec (friend_respondFriendRequest requester responder accepted) s) =
    Some (answer_request V requester responder accepted F, V).
Proof.
  intros Hs Hq Hp. destruct (store_Some _ _ _ Hs) as (U & Ht & ->).
  apply (with_connection_store _ _ s F U _ (λ ok, ok = true)); [done..|]. intros c w Hw.
  set (status := if accepted then 1 else 2).
  destruct (set_status_law c (sql_set_status c status requester responder) w F U status requester responder)
    as [Hok Hw1]; [done|by destruct accepted; [left|right]|apply read_set_status|done..|].
  autorewrite with chat. rewrite Hok. cbn [negb]. autorewrite with chat. unfold answer_request. fold status.
  rewrite profiles_insert. destruct accepted; autorewrite with chat; [|done]. split; [done|].
  by eapply insert_mirror_law; [|apply read_mirror|..].
Qed.

Lemma friend_list_store u (s : MySQLPool * W) F V :
  mysql_friend_store s = Some (F, V) → plain_uid u = true →
  let l := eval (friend_getFriendList u) s in
  NoDup l ∧ ∀ i, i ∈ l ↔ ∃ v, V !! v = Some i ∧ are_friends F u v.
Proof.
  intros Hs Hu. destruct (store_Some _ _ _ Hs) as (U & Ht & ->). cbv zeta. unfold friend_getFriendList.
  destruct (with_selects [] (λ c, sql_friend_list c u) (λ l, map user_of_row (all_rows l)) s F U (profiles U)
    (λ row, ∃ v columns, U !! v = Some columns ∧ (F !! (u, v) = Some 1 ∨ F !! (v, u) = Some 1) ∧
       row = Some v :: columns)) as (l & Hl & Hd & Hr); [done..| | |].
  { intros c. rewrite read_friend_list. set_solver. }
  { intros c w Hw. apply (friends_law c _ w F U u u); [done|apply read_friend_list|done..]. }
  rewrite Hl. cbn [all_rows default]. split.
  - apply NoDup_fmap_2_strong; [|done].
    intros r1 r2 (v1 & c1 & HU1 & _ & ->)%Hr (v2 & c2 & HU2 & _ & ->)%Hr Heq.
    apply (f_equal ui_uid) in Heq. cbn in Heq. unfold text, col in Heq. cbn in Heq.
    rewrite !plain_uid_c_str in Heq by (by eapply user_plain). by simplify_eq.
  - intros i. rewrite list_elem_of_fmap. split.
    + intros (row & -> & (v & columns & HU & Hf & ->)%Hr). exists v. by rewrite profiles_lookup, HU.
    + intros (v & HV & Hf). rewrite profiles_lookup in HV. apply fmap_Some in HV as (columns & HU & ->).
      eexists. split; [done|]. apply Hr. by exists v, columns.
Qed.

Lemma pending_store u (s : MySQLPool * W) F V :
  mysql_friend_store s = Some (F, V) → plain_uid u = true →
  let l := eval (friend_getPendingRequests u) s in
  NoDup l ∧ ∀ v, v ∈ l ↔ F !! (v, u) = Some 0.
Proof.
  intros Hs Hu. destruct (store_Some _ _ _ Hs) as (U & Ht & ->). cbv zeta. unfold friend_getPendingRequests.
  destruct (with_selects [] (λ c, sql_pending c u) (λ l, omap (λ row, c_str <$> col row 0) (all_rows l)) s F U
    (profiles U) (λ row, ∃ a, F !! (a, u) = Some 0 ∧ row = [Some a])) as (l & Hl & Hd & Hr); [done..| | |].
  { intros c. rewrite read_pending. set_solver. }
  { intros c w Hw. apply (pending_law c _ w F U u); [done|apply read_pending|done]. }
  assert (∀ a status, F !! (a, u) = Some status → c_str a = a) as Hplain.
  { intros a status HF. apply plain_uid_c_str. destruct (foreign_keys _ _ _ _ _ _ Ht HF) as [[row HU] _].
    by eapply user_plain. }
  rewrite Hl. cbn [all_rows default]. split.
  - clear Hl. assert (∀ row, row ∈ l → ∃ a, F !! (a, u) = Some 0 ∧ row = [Some a]) as Hin by (intros; by apply Hr).
    clear Hr. induction Hd as [|row l Hrow Hd IH]; [constructor|].
    destruct (Hin row) as (a & HF & ->); [by left|]. cbn. constructor; [|apply IH; intros; apply Hin; by right].
    intros (row' & Hrow' & Heq)%list_elem_of_omap. destruct (Hin row') as (a' & HF' & ->); [by right|].
    cbn in Heq. rewrite !(Hplain _ 0) in Heq by done. by simplify_eq.
  - intros v. rewrite list_elem_of_omap. split.
    + intros (row & (a & HF & ->)%Hr & Heq). cbn in Heq. rewrite (Hplain _ 0) in Heq by done. by simplify_eq.
    + intros HF. exists [Some v]. split; [apply Hr; eauto|]. cbn. by rewrite (Hplain _ 0).
Qed.

Lemma add_request_store a b m (s : MySQLPool * W) F V :
  mysql_friend_store s = Some (F, V) → plain_uid a = true → plain_uid b = true →
  Z.of_nat (String.length m) <= 65536 →
  eval (friend_addFriendRequest a b m) s = true ∧
  mysql_friend_store (exec (friend_addFriendRequest a b m) s) = Some (insert_new V a b 0 F, V).
Proof.
  intros Hs Ha Hb Hm. destruct (store_Some _ _ _ Hs) as (U & Ht & ->). rewrite profiles_insert.
  exact (with_updates false (λ c, sql_add_request c a b m) s F U _ _ Hs Ht (λ c w Hw,
    insert_request_law c _ w F U a b m Hw (read_add_request c a b m) Ha Hb Hm)).
Qed.

Lemma remove_store u v (s : MySQLPool * W) F V :
  mysql_friend_store s = Some (F, V) → plain_uid u = true → plain_uid v = true →
  eval (friend_removeFriends u v) s = true ∧
  mysql_friend_store (exec (friend_removeFriends u v) s) = Some (unfriend u v F, V).
Proof.
  intros Hs Hu Hv. destruct (store_Some _ _ _ Hs) as (U & Ht & ->).
  exact (with_updates false (λ c, sql_remove_friends c u v) s F U _ _ Hs Ht (λ c w Hw,
    remove_law c _ w F U u v v u Hw (read_remove c u v) Hu Hv Hv Hu)).
Qed.

#[export] Instance mysql_friend_laws : FriendRepoLaws (MySQLPool * W).
Proof.
  refine {| friend_store := mysql_friend_store |}.
  - intros s F V u i (U & Ht & ->)%store_Some. rewrite profiles_lookup.
    intros (columns & HU & ->)%fmap_Some. cbn. unfold text, col. cbn. by eapply plain_uid_c_str, user_plain.
  - intros u s F V. apply user_exists_store.
  - intros a b m s F V. apply add_request_store.
  - intros r t a s F V. apply respond_store.
  - intros u v s F V. apply remove_store.
  - intros u s F V. apply friend_list_store.
  - intros u s F V. apply pending_store.
  - intros u s F V Hs. apply (with_select_keeps _ _ _ text_friends); [done|intros; by rewrite read_friend_list|set_solver].
  - intros u s F V Hs. apply (with_select_keeps _ _ _ text_pending); [done|intros; by rewrite read_pending|set_solver].
Defined.
End Repos.

(** ** The abstract machine of friendships *)

Inductive friend_call :=
| AddRequest (from to message : string)
| Respond (requester responder : string) (accepted : bool)
| Remove (uid1 uid2 : string).

Definition plain_call (c : friend_call) : Prop :=
  match c with
  | AddRequest a b m => plain_uid a = true ∧ plain_uid b = true ∧ Z.of_nat (String.length m) <= 65536
  | Respond a b _ | Remove a b => plain_uid a = true ∧ plain_uid b = true
  end.

(** What a call reports, and the friendships after it. *)
Definition spec_call {A} (known : gmap string A) (c : friend_call) (F : Friendships) : bool * Friendships :=
  match c with
  | AddRequest a b _ =>
    if bool_decide (is_Some (known !! b)) then (true, insert_new known a b 0 F) else (false, F)
  | Respond a b accepted => (true, answer_request known a b accepted F)
  | Remove a b => (true, unfriend a b F)
  end.

Fixpoint spec_calls {A} (known : gmap string A) (cs : list friend_call) (F : Friendships) : list bool * Friendships :=
  match cs with
  | [] => ([], F)
  | c :: cs =>
    let '(ok, F) := spec_call known c F in
    let '(oks, F) := spec_calls known cs F in (ok :: oks, F)
  end.

Section Service.
  Context {W : Type} `{FriendRepository W, UserRepository W}.

(** The same calls made of the service. *)
Definition service_call (c : friend_call) : State W bool :=
  r ← match c with
      | AddRequest a b m => FriendService.addFriendRequest a b m
      | Respond a b accepted => FriendService.respondFriendRequest a b accepted
      | Remove a b => FriendService.removeFriend a b
      end;
  mret (FriendService.fr_success r).

Fixpoint service_calls (cs : list friend_call) : State W (list bool) :=
  match cs with
  | [] => mret []
  | c :: cs => ok ← service_call c; oks ← service_calls cs; mret (ok :: oks)
  end.

(** What a user sees: the friends and the requests that wait for an answer. *)
Definition listed (u v : string) (w : W) : Prop := v ∈ ui_uid <$> eval (FriendService.getFriendList u) w.
Definition waiting (from to : string) (w : W) : Prop := from ∈ eval (FriendService.getPendingRequests to) w.

Context `{!FriendRepoLaws W}.

Lemma service_call_spec c w F U :
  friend_store w = Some (F, U) → plain_call c →
  eval (service_call c) w = (spec_call U c F).1 ∧
  friend_store (exec (service_call c) w) = Some ((spec_call U c F).2, U).
Proof.
  intros Hs Hc. unfold service_call.
  destruct c as [a b m|a b accepted|a b]; cbn in Hc |- *; autorewrite with chat.
  - destruct Hc as (Ha & Hb & Hm). unfold FriendService.addFriendRequest. autorewrite with chat.
    destruct (userExists_law b w F U Hs Hb) as [-> Hs1]. case_bool_decide; cbn [negb]; autorewrite with chat; [|done].
    by destruct (addFriendRequest_law a b m _ F U Hs1 Ha Hb Hm) as [-> ->].
  - destruct Hc as (Ha & Hb). unfold FriendService.respondFriendRequest. autorewrite with chat.
    by destruct (respondFriendRequest_law a b accepted w F U Hs Ha Hb) as [-> ->].
  - destruct Hc as (Ha & Hb). unfold FriendService.removeFriend. autorewrite with chat.
    by destruct (removeFriends_law a b w F U Hs Ha Hb) as [-> ->].
Qed.

Lemma service_calls_spec cs w F U :
  friend_store w = Some (F, U) → Forall plain_call cs →
  eval (service_calls cs) w = (spec_calls U cs F).1 ∧
  friend_store (exec (service_calls cs) w) = Some ((spec_calls U cs F).2, U).
Proof.
  revert w F. induction cs as [|c cs IH]; intros w F Hs Hcs; [done|].
  apply Forall_cons in Hcs as [Hc Hcs]. cbn [service_calls spec_calls]. autorewrite with chat.
  destruct (service_call_spec c w F U Hs Hc) as [Hok Hs1].
  destruct (spec_call U c F) as [ok F1]. cbn [fst snd] in *.
  destruct (IH _ F1 Hs1 Hcs) as [Hoks Hs2]. destruct (spec_calls U cs F1) as [oks F2]. cbn [fst snd] in *.
  by rewrite Hok, Hoks, Hs2.
Qed.

Lemma listed_spec u v w F U :
  friend_store w = Some (F, U) → plain_uid u = true →
  listed u v w ↔ is_Some (U !! v) ∧ are_friends F u v.
Proof.
  intros Hs Hu. unfold listed, FriendService.getFriendList.
  destruct (getFriendList_law u w F U Hs Hu) as [_ Hl]. rewrite list_elem_of_fmap. split.
  - intros (i & -> & (x & HU & Hf)%Hl). rewrite (profile_uid w F U x i) by done. eauto.
  - intros [[i HU] Hf]. exists i. rewrite (profile_uid w F U v i) by done. split; [done|]. apply Hl. eauto.
Qed.

Lemma waiting_spec a b w F U :
  friend_store w = Some (F, U) → plain_uid b = true → waiting a b w ↔ F !! (a, b) = Some 0.
Proof. intros Hs Hb. apply (getPendingRequests_law b w F U Hs Hb). Qed.
End Service.

(** ** What the calls do to a pair of users *)

Section Pair.
  Context {A : Type} (U : gmap string A) (a b : string).
  Hypotheses (Ha : is_Some (U !! a)) (Hb : is_Some (U !! b)).

Lemma insert_new_lookup status F x :
  insert_new U a b status F !! x =
  if bool_decide (x = (a, b)) then Some (default status (F !! x)) else F !! x.
Proof.
  unfold insert_new. destruct (decide (x = (a, b))) as [->|Hx].
  - rewrite (bool_decide_true ((a, b) = (a, b))) by done. case_bool_decide as Hnew.
    + destruct Hnew as (_ & _ & ->). by rewrite lookup_insert_eq.
    + destruct (F !! (a, b)) eqn:HF; [done|]. by destruct Hnew.
  - rewrite (bool_decide_false (x = (a, b))) by done. case_bool_decide; [|done]. by rewrite lookup_insert_ne.
Qed.
End Pair.

Lemma answer_lookup {A} (U : gmap string A) a b (accepted : bool) F x :
  is_Some (U !! a) → is_Some (U !! b) → a ≠ b →
  answer_request U a b accepted F !! x =
  if bool_decide (x = (a, b)) then (λ _, if accepted then 1 else 2) <$> F !! x
  else if bool_decide (x = (b, a)) then (if accepted then Some (default 1 (F !! x)) else F !! x)
  else F !! x.
Proof.
  intros Ha Hb Hab. unfold answer_request. set (status := if accepted then 1 else 2).
  assert (alter (λ _, status) (a, b) F !! x = if bool_decide (x = (a, b)) then (λ _, status) <$> F !! x else F !! x) as Hx.
  { case_bool_decide as He; [subst x; by rewrite lookup_alter_eq|by rewrite lookup_alter_ne]. }
  destruct accepted; [rewrite insert_new_lookup by done|]; rewrite Hx; repeat case_bool_decide; try done; congruence.
Qed.

Lemma unfriend_lookup u v F : unfriend u v F !! (u, v) = None ∧ unfriend u v F !! (v, u) = None.
Proof.
  unfold unfriend. split; [|by rewrite lookup_delete_eq].
  destruct (decide ((v, u) = (u, v))) as [->|?]; [by rewrite lookup_delete_eq|].
  by rewrite lookup_delete_ne, lookup_delete_eq.
Qed.

Lemma spec_asks_known {A} (U : gmap string A) a b ms F :
  is_Some (U !! b) → is_Some (F !! (a, b)) →
  spec_calls U (AddRequest a b <$> ms) F = ((λ _, true) <$> ms, F).
Proof.
  intros Hb HF. induction ms as [|m ms IH]; [done|]. cbn. rewrite bool_decide_true by done.
  assert (insert_new U a b 0 F = F) as ->.
  { unfold insert_new. rewrite bool_decide_false; [done|]. intros (_ & _ & Hn). rewrite Hn in HF. by destruct HF. }
  change (list_fmap _ _ (AddRequest a b) ms) with (AddRequest a b <$> ms). by rewrite IH.
Qed.

(** Who sees whom after an acceptance. *)
Lemma accepted_listed {W} `{FriendRepository W, UserRepository W, !FriendRepoLaws W} a b w F (U : gmap string UserInfo) :
  friend_store w = Some (answer_request U a b true F, U) → plain_uid a = true → plain_uid b = true → a ≠ b →
  is_Some (U !! a) → is_Some (U !! b) →
  (listed a b w ↔ listed b a w) ∧
  (listed a b w ↔ is_Some (F !! (a, b)) ∨ F !! (b, a) = None ∨ F !! (b, a) = Some 1).
Proof.
  intros Hs Ha Hb Hab Hka Hkb. rewrite (listed_spec a b w _ U Hs), (listed_spec b a w _ U Hs) by done.
  unfold are_friends. rewrite !answer_lookup by done.
  rewrite (bool_decide_true ((a, b) = (a, b))), (bool_decide_true ((b, a) = (b, a))) by done.
  rewrite (bool_decide_false ((b, a) = (a, b))) by congruence. split; [tauto|].
  destruct (F !! (a, b)) as [s1|], (F !! (b, a)) as [s2|]; cbn;
    (split; [intros [_ [?|?]]|intros [[? ?]|[?|?]]]); simplify_eq; eauto 6 using mk_is_Some.
Qed.

(** ** Theorems *)

Section Theorems.
  Context {W : Type} `{FriendRepository W, UserRepository W, !FriendRepoLaws W}.

(** C22. What becomes of a friendship, in any store that keeps the promises.  Between two users
    of whom neither asked the other, a request is stored and waits.  An acceptance settles
    the request it answers and makes both users see each other as friends, except when
    nobody asked in that direction and there is an unanswered or refused request in the
    other; so it makes friends without any request.  A refused request stays refused:
    further requests are reported as stored, and none ever waits for an answer.  After a
    removal neither sees the other, and nothing waits between them. *)
Theorem friend_lifecycle a b w F U :
  friend_store w = Some (F, U) → plain_uid a = true → plain_uid b = true → a ≠ b →
  is_Some (U !! a) → is_Some (U !! b) →
  (∀ m, F !! (a, b) = None → Z.of_nat (String.length m) <= 65536 →
     let w' := exec (service_call (AddRequest a b m)) w in
     eval (service_call (AddRequest a b m)) w = true ∧ waiting a b w') ∧
  (let w' := exec (service_call (Respond a b true)) w in
   ¬ waiting a b w' ∧ (listed a b w' ↔ listed b a w') ∧
   (listed a b w' ↔ is_Some (F !! (a, b)) ∨ F !! (b, a) = None ∨ F !! (b, a) = Some 1)) ∧
  (∀ ms, waiting a b w → Forall (λ m, Z.of_nat (String.length m) <= 65536) ms →
     let calls := Respond a b false :: (AddRequest a b <$> ms) in
     Forall (λ ok, ok = true) (eval (service_calls calls) w) ∧ ¬ waiting a b (exec (service_calls calls) w)) ∧
  (let w' := exec (service_call (Remove a b)) w in
   ¬ listed a b w' ∧ ¬ listed b a w' ∧ ¬ waiting a b w' ∧ ¬ waiting b a w').
Proof.
  intros Hs Ha Hb Hab Hka Hkb. split_and!.
  - intros m HF Hm. cbv zeta. destruct (service_call_spec (AddRequest a b m) w F U Hs) as [Hok Hs']; [by split_and!|].
    cbn in Hok, Hs'. rewrite bool_decide_true in Hok, Hs' by done. cbn in Hok, Hs'. split; [done|].
    rewrite (waiting_spec a b _ _ U Hs') by done. rewrite insert_new_lookup by done.
    by rewrite bool_decide_true, HF by done.
  - cbv zeta. destruct (service_call_spec (Respond a b true) w F U Hs) as [_ Hs']; [done|]. cbn [spec_call fst snd] in Hs'.
    split; [|by apply (accepted_listed a b _ F U)]. rewrite (waiting_spec a b _ _ U Hs'), answer_lookup by done.
    rewrite bool_decide_true by done. destruct (F !! (a, b)); cbn; congruence.
  - intros ms Hw Hms. cbv zeta. apply (waiting_spec a b w F U Hs Hb) in Hw.
    set (calls := Respond a b false :: (AddRequest a b <$> ms)).
    destruct (service_calls_spec calls w F U Hs) as [Hok Hs'].
    { constructor; [done|]. apply Forall_fmap. eapply Forall_impl; [done|]. intros m Hm. by split_and!. }
    unfold calls in Hok, Hs' |- *. cbn [spec_calls spec_call] in Hok, Hs'.
    assert (answer_request U a b false F !! (a, b) = Some 2) as HF.
    { rewrite answer_lookup by done. by rewrite bool_decide_true, Hw by done. }
    rewrite spec_asks_known in Hok, Hs' by (by rewrite ?HF). cbn [fst snd] in Hok, Hs'. split.
    + rewrite Hok. constructor; [done|]. by apply Forall_fmap, Forall_true.
    + rewrite (waiting_spec a b _ _ U Hs') by done. by rewrite HF.
  - cbv zeta. destruct (service_call_spec (Remove a b) w F U Hs) as [_ Hs']; [done|]. cbn [spec_call fst snd] in Hs'.
    rewrite (waiting_spec a b _ _ U Hs'), (waiting_spec b a _ _ U Hs') by done.
    rewrite (listed_spec a b _ _ U Hs'), (listed_spec b a _ _ U Hs') by done. unfold are_friends.
    destruct (unfriend_lookup a b F) as [-> ->]. naive_solver.
Qed.
End Theorems.

Section MySQL.
  Context {W : Type} `{MySQLClient W, !EscapeLaws W, !FriendTables W}.

(** C21. The friend service over MySQL implements the abstract machine of friendships.  The store
    is in order while the pool has a connection and the server is there.  After any sequence
    of requests, answers and removals, with any text in the messages, it still is, each call
    has reported what the machine says, the rows of the table are the machine's, and every
    user is shown as friends exactly the profiles of the users the machine says, each once,
    and as open requests exactly those that wait. *)
Theorem friend_calls_refine calls (s : MySQLPool * W) F V :
  mysql_friend_store s = Some (F, V) → Forall plain_call calls →
  let s' := exec (service_calls calls) s in
  let F' := (spec_calls V calls F).2 in
  eval (service_calls calls) s = (spec_calls V calls F).1 ∧ mysql_friend_store s' = Some (F', V) ∧
  ∀ u, plain_uid u = true →
    let friends := eval (FriendService.getFriendList u) s' in
    let requests := eval (FriendService.getPendingRequests u) s' in
    NoDup friends ∧ NoDup requests ∧
    (∀ i, i ∈ friends ↔ ∃ v, V !! v = Some i ∧ are_friends F' u v) ∧
    (∀ v, v ∈ requests ↔ F' !! (v, u) = Some 0).
Proof.
  intros Hs Hcalls. cbv zeta. change (friend_store s = Some (F, V)) in Hs.
  destruct (service_calls_spec calls s F V Hs Hcalls) as [Hok Hs'].
  split_and!; [done..|]. intros u Hu. cbv zeta.
  set (s' := exec (service_calls calls) s) in *. set (F' := (spec_calls V calls F).2) in *.
  destruct (getFriendList_law u s' F' V Hs' Hu) as [Hd Hl].
  by destruct (getPendingRequests_law u s' F' V Hs' Hu) as [Hd' Hp].
Qed.
End MySQL.

(** ** The theorems at work *)

(** A server in memory that knows the statements above: its two tables and the result of
    the last query. *)
Record TableDb := mkTableDb { td_rows : Friendships; td_users : Users; td_result : list MYSQL_ROW }.

Definition td_update (F : Friendships) (w : TableDb) : bool * TableDb :=
  (true, mkTableDb F (td_users w) (td_result w)).
Definition td_answer (rows : list MYSQL_ROW) (w : TableDb) : bool * TableDb :=
  (true, mkTableDb (td_rows w) (td_users w) rows).

Definition td_pending (b : string) (F : Friendships) : list MYSQL_ROW :=
  (λ x, [Some x.1.1]) <$> filter (λ x, x.1.2 = b ∧ x.2 = 0) (map_to_list F).
Definition td_friends (a b : string) (F : Friendships) (U : Users) : list MYSQL_ROW :=
  (λ x, Some x.1 :: x.2) <$> filter (λ x, F !! (a, x.1) = Some 1 ∨ F !! (x.1, b) = Some 1) (map_to_list U).
Definition td_user (u : string) (U : Users) : list MYSQL_ROW :=
  match U !! u with Some _ => [[Some u]] | None => [] end.

Definition td_run (text : string) (values : list string) (w : TableDb) : bool * TableDb :=
  let F := td_rows w in
  let U := td_users w in
  match values with
  | [u] =>
    if String.eqb text text_pending then td_answer (td_pending u F) w
    else if String.eqb text text_user then td_answer (td_user u U) w
    else (false, w)
  | [a; b] =>
    if String.eqb text text_insert_mirror then td_update (insert_new U a b 1 F) w
    else if String.eqb text (text_set_status "1") then td_update (alter (λ _, 1) (a, b) F) w
    else if String.eqb text (text_set_status "2") then td_update (alter (λ _, 2) (a, b) F) w
    else if String.eqb text text_friends then td_answer (td_friends a b F U) w
    else (false, w)
  | [a; b; m] =>
    if String.eqb text text_insert_request then td_update (insert_new U a b 0 F) w else (false, w)
  | [a; b; a'; b'] =>
    if String.eqb text text_remove then td_update (delete (a', b') (delete (a, b) F)) w else (false, w)
  | _ => (false, w)
  end.

#[local] Instance td_client : MySQLClient TableDb := {
  mysql_init := mret (Some 1%nat);
  mysql_options _ _ _ := mret tt;
  mysql_real_connect _ _ := mret true;
  mysql_set_character_set _ _ := mret tt;
  mysql_close _ := mret tt;
  mysql_ping _ := mret true;
  mysql_query _ sql := λ w, td_run (prepare sql).1 (prepare sql).2 w;
  mysql_store_result _ := gets (λ w, Some (td_result w));
  mysql_insert_id _ := mret 0;
  mysql_affected_rows _ := mret 0;
  mysql_real_escape_string _ := toy_escape
}.

#[local] Instance td_escape_laws : EscapeLaws TableDb.
Proof. by constructor. Qed.

(** Its tables keep the keys. *)
Definition td_valid (F : Friendships) (U : Users) : Prop :=
  map_Forall (λ u _, plain_uid u = true) U ∧
  map_Forall (λ x _, is_Some (U !! x.1) ∧ is_Some (U !! x.2)) F.

#[local] Instance td_valid_dec F U : Decision (td_valid F U).
Proof. unfold td_valid. apply _. Defined.

Definition td_tables (w : TableDb) : option (Friendships * Users) :=
  if decide (td_valid (td_rows w) (td_users w)) then Some (td_rows w, td_users w) else None.

Lemma td_tables_Some w F U :
  td_tables w = Some (F, U) ↔ td_rows w = F ∧ td_users w = U ∧ td_valid F U.
Proof. unfold td_tables. case_decide; naive_solver. Qed.

Lemma td_insert F U a b status : td_valid F U → td_valid (insert_new U a b status F) U.
Proof.
  intros [HU HF]. split; [done|]. unfold insert_new. case_bool_decide as Hn; [|done].
  apply map_Forall_insert_2; [cbn; naive_solver|done].
Qed.

Lemma td_alter F U x status : td_valid F U → td_valid (alter (λ _, status) x F) U.
Proof.
  intros [HU HF]. split; [done|]. intros y s. destruct (decide (x = y)) as [->|Hne].
  - rewrite lookup_alter_eq. intros (s' & Hy & _)%fmap_Some. by apply (HF y s').
  - rewrite lookup_alter_ne by done. apply HF.
Qed.

Lemma td_delete F U x : td_valid F U → td_valid (delete x F) U.
Proof. intros [HU HF]. split; [done|]. by apply map_Forall_delete. Qed.

Lemma td_updates c sql w F U F' :
  td_tables w = Some (F, U) → td_valid F' U →
  td_run (prepare (c_str sql)).1 (prepare (c_str sql)).2 w = td_update F' w →
  updates td_tables c sql w F' U.
Proof.
  intros (HF & HU & _)%td_tables_Some Hv Hrun. assert (mysql_query c (c_str sql) w = td_update F' w) as Hq by exact Hrun.
  unfold updates, query, eval, exec. rewrite Hq. split; [done|]. by apply td_tables_Some.
Qed.

Lemma td_selects c sql w l rows :
  td_run (prepare (c_str sql)).1 (prepare (c_str sql)).2 w = td_answer l w →
  NoDup l ∧ (∀ row, row ∈ l ↔ rows row) → selects c sql w rows.
Proof.
  intros Hrun [Hd Hl]. exists l. assert (mysql_query c (c_str sql) w = td_answer l w) as Hq by exact Hrun.
  unfold select. rewrite eval_bind. unfold query, eval, exec. by rewrite Hq.
Qed.

Lemma td_pending_rows b F :
  NoDup (td_pending b F) ∧ ∀ row, row ∈ td_pending b F ↔ ∃ a, F !! (a, b) = Some 0 ∧ row = [Some a].
Proof.
  unfold td_pending. split.
  - apply NoDup_fmap_2_strong; [|apply NoDup_filter, NoDup_map_to_list].
    intros [[a1 b1] s1] [[a2 b2] s2] [Hx _]%list_elem_of_filter [Hy _]%list_elem_of_filter. naive_solver.
  - intros row. rewrite list_elem_of_fmap. split.
    + intros ([[a b'] s] & -> & [[? ?] Hin%elem_of_map_to_list]%list_elem_of_filter). cbn in *. subst. eauto.
    + intros (a & HF & ->). exists ((a, b), 0). split; [done|]. by rewrite list_elem_of_filter, elem_of_map_to_list.
Qed.

Lemma td_friends_rows a b F U :
  NoDup (td_friends a b F U) ∧
  ∀ row, row ∈ td_friends a b F U ↔
    ∃ u columns, U !! u = Some columns ∧ (F !! (a, u) = Some 1 ∨ F !! (u, b) = Some 1) ∧ row = Some u :: columns.
Proof.
  unfold td_friends. split.
  - apply NoDup_fmap_2_strong; [|apply NoDup_filter, NoDup_map_to_list].
    intros [u1 r1] [u2 r2] _ _. naive_solver.
  - intros row. rewrite list_elem_of_fmap. split.
    + intros ([u columns] & -> & [? Hin%elem_of_map_to_list]%list_elem_of_filter). eauto.
    + intros (u & columns & HU & HF & ->). exists (u, columns). split; [done|].
      by rewrite list_elem_of_filter, elem_of_map_to_list.
Qed.

Lemma td_user_rows u U :
  NoDup (td_user u U) ∧ ∀ row, row ∈ td_user u U ↔ is_Some (U !! u) ∧ row = [Some u].
Proof.
  unfold td_user. destruct (U !! u) as [columns|].
  - split; [apply NoDup_singleton|]. intros row. rewrite list_elem_of_singleton. naive_solver.
  - split; [apply NoDup_nil_2|]. intros row. split; [by intros ?%elem_of_nil|by intros [[? ?] _]].
Qed.

Lemma td_select_run sql w :
  (prepare (c_str sql)).1 ∈ [text_pending; text_user; text_friends] →
  ∃ ok l, td_run (prepare (c_str sql)).1 (prepare (c_str sql)).2 w = (ok, mkTableDb (td_rows w) (td_users w) l).
Proof.
  destruct w as [F U l]. generalize (prepare (c_str sql)).2. intros values Htext.
  rewrite !elem_of_cons, elem_of_nil in Htext. destruct Htext as [-> | [-> | [-> | []]]];
    by destruct values as [|a [|b [|m [|b' [|]]]]]; do 2 eexists.
Qed.

#[local] Instance td_laws : FriendTables TableDb.
Proof.
  refine {| tables := td_tables |}.
  - intros w F U u row (_ & _ & [HU _])%td_tables_Some Hu. by apply (HU u row).
  - intros w F U a b s (_ & _ & [_ HF])%td_tables_Some Hs. by apply (HF (a, b) s).
  - done.
  - intros c sql w F U a b m Hw Hsql _ _ _. pose proof (proj1 (td_tables_Some _ _ _) Hw) as (<- & <- & Hv).
    apply (td_updates c sql w _ _ _ Hw); [by apply td_insert|]. by rewrite Hsql.
  - intros c sql w F U a b Hw Hsql _ _. pose proof (proj1 (td_tables_Some _ _ _) Hw) as (<- & <- & Hv).
    apply (td_updates c sql w _ _ _ Hw); [by apply td_insert|]. by rewrite Hsql.
  - intros c sql w F U status a b Hw Hst Hsql _ _. pose proof (proj1 (td_tables_Some _ _ _) Hw) as (<- & <- & Hv).
    apply (td_updates c sql w _ _ _ Hw); [by apply td_alter|]. rewrite Hsql. by destruct Hst as [-> | ->].
  - intros c sql w F U a b a' b' Hw Hsql _ _ _ _. pose proof (proj1 (td_tables_Some _ _ _) Hw) as (<- & <- & Hv).
    apply (td_updates c sql w _ _ _ Hw); [by apply td_delete, td_delete|]. by rewrite Hsql.
  - intros c sql w F U Hw Htext. pose proof (proj1 (td_tables_Some _ _ _) Hw) as (HF & HU & Hv).
    apply td_tables_Some. unfold select. rewrite exec_bind. destruct (td_select_run sql w Htext) as (ok & l & Hrun).
    assert (mysql_query c (c_str sql) w = (ok, mkTableDb (td_rows w) (td_users w) l)) as Hq by exact Hrun.
    unfold query, eval, exec. rewrite Hq. by destruct ok.
  - intros c sql w F U b (<- & <- & Hv)%td_tables_Some Hsql _.
    by apply (td_selects c sql w (td_pending b (td_rows w))); [rewrite Hsql|apply td_pending_rows].
  - intros c sql w F U u (<- & <- & Hv)%td_tables_Some Hsql _.
    by apply (td_selects c sql w (td_user u (td_users w))); [rewrite Hsql|apply td_user_rows].
  - intros c sql w F U a b (<- & <- & Hv)%td_tables_Some Hsql _ _.
    by apply (td_selects c sql w (td_friends a b (td_rows w) (td_users w))); [rewrite Hsql|apply td_friends_rows].
Defined.

(** Three users, and a pool with one connection. *)
Definition td_start : TableDb :=
  mkTableDb ∅
    (<["alice" := [Some "Alice"; Some "a@x"; None]]> (<["bob" := [Some "Bob"; Some "b@x"; None]]>
       (<["carol" := [Some "Carol"; Some ""; None]]> ∅)))%string [].

Definition td_pool : MySQLPool := mkMySQLPool (mkConnInfo "h" 3306 "u" "p" "d") [1%nat] [1%nat] 0 1.

(** Bob accepts what Alice asked, and Carol, who never asked; dave is not known. *)
Definition td_calls : list friend_call :=
  [AddRequest "alice" "bob" "I'm Alice"; AddRequest "carol" "alice" ""; AddRequest "alice" "dave" "";
   Respond "alice" "bob" true; Respond "carol" "bob" true].

Definition td_store : Friendships * gmap string UserInfo := default (∅, ∅) (mysql_friend_store (td_pool, td_start)).

Lemma friend_calls_refine_witness :
  let s' := exec (service_calls td_calls) (td_pool, td_start) in
  eval (service_calls td_calls) (td_pool, td_start) = [true; true; false; true; true] ∧
  (∀ i, i ∈ eval (FriendService.getFriendList "bob") s' ↔
     ∃ v, td_store.2 !! v = Some i ∧ are_friends (spec_calls td_store.2 td_calls td_store.1).2 "bob" v).
Proof.
  destruct (friend_calls_refine td_calls (td_pool, td_start) td_store.1 td_store.2) as (Hok & _ & Hu).
  - vm_compute. reflexivity.
  - repeat constructor; vm_compute; discriminate.
  - split; [rewrite Hok; vm_compute; reflexivity|]. intros i. apply (Hu "bob"%string). reflexivity.
Defined.

(** Carol never asked Bob, who accepts: they see each other as friends. *)
Lemma friend_lifecycle_witness :
  let w' := exec (service_call (Respond "carol" "bob" true)) (td_pool, td_start) in
  listed "carol" "bob" w' ∧ listed "bob" "carol" w'.
Proof.
  destruct (friend_lifecycle "carol" "bob" (td_pool, td_start) td_store.1 td_store.2) as (_ & (_ & Hsym & Hl) & _).
  - vm_compute. reflexivity.
  - reflexivity.
  - reflexivity.
  - discriminate.
  - vm_compute. eauto.
  - vm_compute. eauto.
  - assert (listed "carol" "bob" (exec (service_call (Respond "carol" "bob" true)) (td_pool, td_start))) as H.
    { apply Hl. right. left. vm_compute. reflexivity. }
    exact (conj H (proj1 Hsym H)).
Defined.
