(* ===== verification/Friendship.v ===== *)
(** Friendships through the whole server: a request from one user's connection to the login
    of the other, and answers that nobody asked for.  The theorems are about any stores in
    which the friend repository keeps [FriendRepoLaws] and the other repositories leave the
    friendships alone, the class [KeepsFriends]. *)

From S2P Require Import Prelude Machine Proto SessionManager RoomManager Repositories MemWorld.
From S2P Require Import LoginService ChatService FriendService RoomService ChatServer ChatServerFacts.
From S2P Require Import FriendStore.

Local Open Scope Z_scope.

(** ** Stores that keep friendships *)

(** The store is in order and its rows are like this. *)
Definition holds {W} `{FriendRepository W, UserRepository W, !FriendRepoLaws W} (q : Friendships → Prop) (w : W) : Prop :=
  ∃ F U, friend_store w = Some (F, U) ∧ q F.

(** No other repository, no clock and nothing outside changes the rows. *)
Class KeepsFriends (W : Type) `{UserRepository W, SessionRepository W, FriendRepository W, MessageRepository W}
    `{RoomRepository W, Clock W, Random W, Environment W, !FriendRepoLaws W} := {
  users_hold q : UserRepoPreserves (W := W) (holds q);
  sessions_hold q : SessionRepoPreserves (W := W) (holds q);
  messages_hold q : MessageRepoPreserves (W := W) (holds q);
  rooms_hold q : RoomRepoPreserves (W := W) (holds q);
  env_holds q : EnvPreserves (W := W) (holds q);
  outside_holds q : OutsidePreserves (W := W) (holds q)
}.

(** A task with plain user ids that does not settle the request of [a] to [b]. *)
Definition leaves_request {W} (a b : string) (t : Task) (w : W) : Prop :=
  match t with
  | task_friendRequest _ from to msg => plain_call (AddRequest from to msg)
  | task_friendResponse _ requester responder accepted =>
    plain_call (Respond requester responder accepted) ∧ (requester, responder) ≠ (a, b)
  | task_friendRemove _ u v => plain_call (Remove u v) ∧ (u, v) ≠ (a, b) ∧ (u, v) ≠ (b, a)
  | _ => True
  end.

Section Facts.
  Context {W : Type}.
  Context `{UserRepository W, SessionRepository W, FriendRepository W, MessageRepository W}.
  Context `{RoomRepository W, Clock W, Random W, Mktime, Environment W, Config}.
  Context `{!FriendRepoLaws W, !KeepsFriends W}.
  Implicit Types w : W.

#[local] Instance users_h q : UserRepoPreserves (W := W) (holds q) := users_hold q.
#[local] Instance sessions_h q : SessionRepoPreserves (W := W) (holds q) := sessions_hold q.
#[local] Instance messages_h q : MessageRepoPreserves (W := W) (holds q) := messages_hold q.
#[local] Instance rooms_h q : RoomRepoPreserves (W := W) (holds q) := rooms_hold q.
#[local] Instance env_h q : EnvPreserves (W := W) (holds q) := env_holds q.
#[local] Instance outside_h q : OutsidePreserves (W := W) (holds q) := outside_holds q.

Lemma list_holds q u : preserves (W := W) (holds q) (friendRepo_getFriendList u).
Proof. intros w (F & U & Hs & Hq). exists F, U. split; [by apply getFriendList_keeps|done]. Qed.

Lemma pending_holds q u : preserves (W := W) (holds q) (friendRepo_getPendingRequests u).
Proof. intros w (F & U & Hs & Hq). exists F, U. split; [by apply getPendingRequests_keeps|done]. Qed.

#[local] Hint Resolve list_holds pending_holds : chat.

Lemma token_holds q : preserves (W := W) (holds q) generateToken.
Proof. apply (generateToken_loop_keeps _ 64). apply preserves_uniform_int. Qed.

#[local] Hint Resolve token_holds : chat.

Lemma login_holds q uid passwd node : preserves (W := W) (holds q) (login uid passwd node).
Proof. unfold login. preserve. Qed.

Lemma loginWithToken_holds q token node : preserves (W := W) (holds q) (loginWithToken token node).
Proof. unfold loginWithToken. preserve. Qed.

(** A call of the friend service does to the rows what the machine says. *)
Lemma call_holds (q q' : Friendships → Prop) c w :
  plain_call c → (∀ (U : gmap string UserInfo) F, q F → q' (spec_call U c F).2) →
  holds q w → holds q' (exec (service_call c) w).
Proof.
  intros Hc Hq (F & U & Hs & HF). destruct (service_call_spec c w F U Hs Hc) as [_ Hs'].
  eexists _, U. split; [done|]. by apply Hq.
Qed.

Lemma exec_service_call c w :
  exec (service_call c) w =
  match c with
  | AddRequest a b m => exec (addFriendRequest a b m) w
  | Respond a b accepted => exec (respondFriendRequest a b accepted) w
  | Remove a b => exec (removeFriend a b) w
  end.
Proof. unfold service_call. by destruct c; rewrite exec_bind, exec_ret. Qed.

(** Whatever else the server does, the request waits. *)
Lemma task_leaves_request a b t w :
  holds (λ F, F !! (a, b) = Some 0) w → leaves_request a b t w →
  holds (λ F, F !! (a, b) = Some 0) (exec (task_body t) w).
Proof.
  set (q := λ F : Friendships, F !! (a, b) = Some 0). intros Hw Hl.
  assert (∀ c, plain_call c → (∀ (U : gmap string UserInfo) F, q F → q (spec_call U c F).2) →
    holds q (exec (service_call c) w)) as Hcall by (intros c Hc Hq; by apply (call_holds q q)).
  destruct t as [c token|c u pw|u token|c u pw n e|c f to r x|to i|c u n|c u n|c f to m|c r p acc|c u v|u|c u i to r];
    cbn [task_body leaves_request] in *; rewrite ?exec_bind, ?exec_ret.
  9: { specialize (Hcall (AddRequest f to m) Hl). rewrite exec_service_call in Hcall. apply Hcall.
       intros U F HF. cbn [spec_call]. case_bool_decide; [by apply insert_new_keeps|done]. }
  9: { destruct Hl as [Hl Hne]. specialize (Hcall (Respond r p acc) Hl). rewrite exec_service_call in Hcall.
       apply Hcall. intros U F HF. cbn [spec_call snd]. unfold answer_request.
       assert (q (alter (λ _, if acc then 1 else 2) (r, p) F)) as HF' by (unfold q; by rewrite lookup_alter_ne).
       destruct acc; [by apply insert_new_keeps|done]. }
  9: { destruct Hl as (Hl & Hne & Hne'). specialize (Hcall (Remove u v) Hl). rewrite exec_service_call in Hcall.
       apply Hcall. intros U F HF. unfold q. cbn [spec_call snd]. unfold unfriend. rewrite !lookup_delete_ne; [done|congruence..]. }
  all: revert w Hw Hl Hcall; intros w Hw _ _; revert w Hw;
    match goal with |- ∀ w, _ → ?P (exec ?m w) => change (preserves P m) end;
    eauto using login_holds, loginWithToken_holds, registerUser_preserves, logout_preserves, sendMessage_preserves,
      getMessage_preserves, recallMessage_preserves, markMessagesDelivered_preserves, createRoom_preserves,
      joinRoom_preserves with typeclass_instances.
Qed.

(** What a login is told about requests. *)
Lemma login_told a b passwd node w :
  holds (λ F, F !! (a, b) = Some 0) w → plain_uid b = true →
  let r := eval (login b passwd node) w in
  ls_success r = true → a ∈ ls_pendingRequests r.
Proof.
  intros Hw Hb. cbv zeta. unfold login. autorewrite with chat.
  destruct (eval (userRepo_verifyUser b passwd) w); cbn [negb]; [|done]. autorewrite with chat.
  destruct (eval (userRepo_getUserInfo b) _) as [u|]; [|done]. autorewrite with chat.
  destruct (eval (sessionRepo_createSession _ _ _ _) _); cbn [negb]; [|done]. autorewrite with chat. intros _.
  cbn [ls_pendingRequests].
  match goal with |- a ∈ eval (friendRepo_getPendingRequests b) ?w1 => set (w2 := w1) end.
  assert (holds (λ F, F !! (a, b) = Some 0) w2) as (F & U & Hs & HF).
  { apply list_holds, preserves_createSession, token_holds, preserves_getUserInfo, preserves_verifyUser, Hw. }
  by apply (getPendingRequests_law b w2 F U Hs Hb).
Qed.

(** A login that succeeds, from its arrival to the notices of requests. *)
Lemma serve_login conn env req s :
  idle_for conn s → env_payload env = kLoginReq req →
  lr_token req = ""%string → lr_passwd req ≠ ""%string → lr_uid req ≠ ""%string →
  let r := eval (login (lr_uid req) (lr_passwd req) node_id_) (world s) in
  let uid := ui_uid (ls_userInfo r) in
  ls_success r = true →
  ∃ s' new, run (serve conn env) s = Some s' ∧ out s' = out s ++ new ∧
    ∀ q, q ∈ ls_pendingRequests r →
      Send conn (friend_req (mkFriendRequest q uid "")) ∈ new ∧ hasPendingRequest q uid (sessionManager_ s') = true.
Proof.
  intros Hidle Henv Ht Hp Hu. cbv zeta. set (r := eval (login _ _ _) _). intros Hr. do 2 eexists. split.
  { apply (serve_task conn env (task_login conn (lr_uid req) (lr_passwd req)) (cont_login conn r)); [done| |].
    - unfold onEnvelope. rewrite Henv. unfold handleLogin, empty_string. rewrite Ht.
      destruct (String.eqb_spec (lr_passwd req) ""), (String.eqb_spec (lr_uid req) ""); done.
    - cbn [task_body]. by autorewrite with chat. }
  cbn [cont_body]. rewrite exec_login_done by done.
  cbn [after_task sessionManager_ set_out set_pool set_world set_sm set_loops world out pool].
  split; [done|]. intros q Hq. split.
  - right. apply elem_of_app. left. apply list_elem_of_fmap. by exists q.
  - by apply login_tables_spec.
Qed.

(** ** Theorems *)

(** C9. A friend request reaches a user who is offline.  When a logged-in client asks, and
    nobody asked before, the request is noted in the table of pending requests, the target
    is told at once when online, and whatever happens afterwards, unless the request is
    answered or the two are separated, at the next login of the target with the password
    the request is noted for the target again and sent on the connection of the login. *)
Theorem request_reaches_login conn env req s F U :
  let a := fq_from_uid req in
  let b := fq_to_uid req in
  idle_for conn s → env_payload env = kFriendReq req → isAuthenticated conn (sessionManager_ s) = true →
  plain_call (AddRequest a b (fq_message req)) → b ≠ ""%string →
  friend_store (world s) = Some (F, U) → is_Some (U !! a) → is_Some (U !! b) → F !! (a, b) = None →
  ∃ s1, run (serve conn env) s = Some s1 ∧ hasPendingRequest a b (sessionManager_ s1) = true ∧
    out s1 = out s ++
      match getConnection b (sessionManager_ s) with
      | Some c => [Send c (friend_req (mkFriendRequest a "" (fq_message req)))]
      | None => []
      end ∧
    ∀ es s2 conn' env' login_req,
      run es s1 = Some s2 → undisturbed (leaves_request a b) es s1 →
      idle_for conn' s2 → env_payload env' = kLoginReq login_req →
      lr_token login_req = ""%string → lr_passwd login_req ≠ ""%string → lr_uid login_req = b →
      let r := eval (login b (lr_passwd login_req) node_id_) (world s2) in
      let uid := ui_uid (ls_userInfo r) in
      ls_success r = true →
      ∃ s3 new, run (serve conn' env') s2 = Some s3 ∧ out s3 = out s2 ++ new ∧
        Send conn' (friend_req (mkFriendRequest a uid "")) ∈ new ∧
        hasPendingRequest a uid (sessionManager_ s3) = true.
Proof.
  cbv zeta. set (a := fq_from_uid req). set (b := fq_to_uid req).
  intros Hidle Henv Hauth Hplain Hb Hs Ha Hkb HF. eexists. split.
  { apply (serve_task conn env (task_friendRequest conn a b (fq_message req))
      (cont_friendRequest conn a b (fq_message req))); [done| |].
    - unfold onEnvelope. rewrite Henv. unfold handleFriendRequest. autorewrite with chat. by rewrite Hauth.
    - cbn [task_body]. by autorewrite with chat. }
  set (w1 := exec (task_body _) (world s)).
  assert (holds (λ F, F !! (a, b) = Some 0) w1) as Hw1.
  { unfold w1. cbn [task_body]. rewrite exec_bind, exec_ret.
    destruct (service_call_spec (AddRequest a b (fq_message req)) (world s) F U Hs Hplain) as [_ Hs1].
    rewrite exec_service_call in Hs1. eexists _, _. split; [exact Hs1|]. cbn [spec_call].
    rewrite bool_decide_true by done. cbn [snd]. rewrite insert_new_lookup by done.
    by rewrite bool_decide_true, HF by done. }
  clearbody w1. cbn [cont_body]. autorewrite with chat.
  cbn [sessionManager_ after_task set_sm set_world set_loops].
  set (m := addPendingRequest a b (sessionManager_ s)).
  change (getConnection b m) with (getConnection b (sessionManager_ s)).
  set (s1 := exec _ _).
  assert (sessionManager_ s1 = m ∧ world s1 = w1 ∧ out s1 = out s ++
      match getConnection b (sessionManager_ s) with
      | Some c => [Send c (friend_req (mkFriendRequest a "" (fq_message req)))]
      | None => []
      end) as (Hm & Hw & Hout).
  { unfold s1. destruct (getConnection b (sessionManager_ s)); autorewrite with chat; [done|].
    cbn. by rewrite app_nil_r. }
  rewrite Hm. split; [|split; [done|]].
  { unfold hasPendingRequest. apply bool_decide_eq_true. cbn. set_solver. }
  intros es s2 conn' env' login_req Hrun Hun Hidle' Henv' Ht Hp Hu Hr.
  assert (holds (λ F, F !! (a, b) = Some 0) (world s2)) as Hw2.
  { apply (run_undisturbed _ (leaves_request a b) es s1); [apply task_leaves_request|done|done|by rewrite Hw]. }
  destruct Hplain as (_ & Hplain & _). pose proof (login_told a b _ _ _ Hw2 Hplain Hr) as Htold.
  rewrite <- Hu in Hr, Htold, Hb |- *.
  destruct (serve_login conn' env' login_req s2) as (s3 & new & Hrun3 & Hout3 & Hnew); [done..|].
  exists s3, new. split; [done|]. split; [done|]. by apply Hnew.
Qed.

(** Anyone can make friends of any two users: a connection that is logged in, as whomever,
    answers a request in the name of its target.  When the request is there, or neither of
    the two ever asked the other, the store lists each of them as a friend of the other
    from then on, and the server's table does too. *)
Theorem anyone_makes_friends conn env req s F U :
  let a := fp_to_uid req in
  let b := fp_from_uid req in
  idle_for conn s → env_payload env = kFriendResp req → fp_accepted req = true →
  isAuthenticated conn (sessionManager_ s) = true →
  plain_uid a = true → plain_uid b = true → a ≠ b →
  friend_store (world s) = Some (F, U) → is_Some (U !! a) → is_Some (U !! b) →
  is_Some (F !! (a, b)) ∨ F !! (b, a) = None →
  ∃ s', run (serve conn env) s = Some s' ∧ listed a b (world s') ∧ listed b a (world s') ∧
    b ∈ getFriends a (sessionManager_ s') ∧ a ∈ getFriends b (sessionManager_ s').
Proof.
  cbv zeta. set (a := fp_to_uid req). set (b := fp_from_uid req).
  intros Hidle Henv Hacc Hauth Ha Hb Hab Hs Hka Hkb HF. eexists. split.
  { apply (serve_task conn env (task_friendResponse conn a b (fp_accepted req))
      (cont_friendResponse conn a b (fp_accepted req))); [done| |].
    - unfold onEnvelope. rewrite Henv. unfold handleFriendResponse. autorewrite with chat. by rewrite Hauth.
    - cbn [task_body]. by autorewrite with chat. }
  rewrite Hacc. set (w1 := exec (task_body _) (world s)).
  assert (listed a b w1 ∧ listed b a w1) as Hl.
  { destruct (service_call_spec (Respond a b true) (world s) F U Hs) as [_ Hs1]; [done|].
    rewrite exec_service_call in Hs1. unfold w1. cbn [task_body]. rewrite exec_bind, exec_ret.
    destruct (accepted_listed a b _ F U Hs1) as [Hsym Hiff]; [done..|]. rewrite <- Hsym, Hiff. tauto. }
  clearbody w1. cbn [cont_body]. autorewrite with chat.
  cbn [sessionManager_ after_task set_sm set_world set_loops].
  set (m := removePendingRequest a b (addFriendship a b (sessionManager_ s))).
  assert (b ∈ getFriends a m ∧ a ∈ getFriends b m) as Hm.
  { unfold m. split; [change (b ∈ getFriends a (addFriendship a b (sessionManager_ s)))
      |change (a ∈ getFriends b (addFriendship a b (sessionManager_ s)))]; apply elem_of_addFriendship; tauto. }
  destruct (getConnection a m); autorewrite with chat; cbn [sessionManager_ set_out set_sm world after_task set_world set_loops];
    tauto.
Qed.
End Facts.

(** ** The theorems at work *)

(** The tables of the world in memory do not interfere. *)
Lemma mem_holds q (w w' : MemWorld) :
  mw_users w' = mw_users w → mw_friendships w' = mw_friendships w → holds q w → holds q w'.
Proof.
  intros Hu Hf (F & U & Hs & Hq). exists F, U. split; [|done]. revert Hs. cbn. unfold mem_friend_store.
  by rewrite Hu, Hf.
Qed.

Lemma mem_register_holds q u p n e : preserves (W := MemWorld) (holds q) (userRepo_registerUser u p n e).
Proof.
  intros w (F & U & Hs & Hq). unfold exec; cbn. destruct (mw_users w !! u) eqn:Hu; [by exists F, U|].
  apply mem_friend_store_Some in Hs as (<- & <- & Hv). eexists _, _. split; [|done].
  apply mem_friend_store_Some. split_and!; [done|done|]. cbn. by apply map_Forall_insert_2.
Qed.

#[local] Instance mem_keeps_friends : KeepsFriends MemWorld.
Proof.
  constructor; intros q; constructor; intros; try apply mem_register_holds; try intros w' Hw;
    unfold exec; cbn; repeat case_match; first [by apply (mem_holds q w')|by apply (mem_holds q w)].
Qed.

(** The machine and the configuration of the examples. *)
#[local] Instance friends_mktime : Mktime := {| mktime _ := 1704067200 |}.

#[local] Instance friends_config : Config :=
  {| node_id_ := "node-1"; getLoop _ := 0%nat; workers := 4; workers_pos := ltac:(lia) |}.

(** Two users who know nothing of each other; Alice is logged in on connection 1. *)
Definition strangers : MemWorld :=
  exec (userRepo_registerUser "bob" "pw2" "Bob" "b@x")
    (exec (userRepo_registerUser "alice" "pw" "Alice" "a@x") mem_empty).

Definition login_as (uid passwd : string) : Envelope := mkEnvelope "" (kLoginReq (mkLoginRequest uid passwd "")).

Definition after (es : list event) (s : Server MemWorld) : Server MemWorld := default s (run es s).

Definition alice_in : Server MemWorld :=
  after (Connect 1%nat :: serve 1%nat (login_as "alice" "pw")) (ChatServer.start strangers).

Definition ask_bob : FriendRequest := mkFriendRequest "alice" "bob" "it's me".
Definition ask_bob_env : Envelope := mkEnvelope "" (kFriendReq ask_bob).

(** Bob connects after Alice's request; she has logged out meanwhile. *)
Definition meanwhile : list event :=
  [Recv 1%nat (mkEnvelope "" (kLogoutReq (mkLogoutRequest "" ""))); TakeTask; FinishTask 0; Disconnect 1%nat;
   Connect 2%nat].

Definition strangers_store : Friendships * gmap string UserInfo := default (∅, ∅) (friend_store strangers).

Lemma request_reaches_login_witness :
  ∃ s3 new, run (serve 2%nat (login_as "bob" "pw2")) (after meanwhile (after (serve 1%nat ask_bob_env) alice_in)) = Some s3 ∧
    out s3 = out (after meanwhile (after (serve 1%nat ask_bob_env) alice_in)) ++ new ∧
    Send 2%nat (friend_req (mkFriendRequest "alice" "bob" "")) ∈ new.
Proof.
  destruct (request_reaches_login 1%nat ask_bob_env ask_bob alice_in strangers_store.1 strangers_store.2)
    as (s1 & Hrun & _ & _ & Hnext).
  - split_and!; vm_compute; reflexivity.
  - reflexivity.
  - vm_compute. reflexivity.
  - split_and!; [reflexivity|reflexivity|]. vm_compute. discriminate.
  - discriminate.
  - vm_compute. reflexivity.
  - vm_compute. eauto.
  - vm_compute. eauto.
  - vm_compute. reflexivity.
  - assert (s1 = after (serve 1%nat ask_bob_env) alice_in) as -> by (unfold after; by rewrite Hrun).
    destruct (Hnext meanwhile (after meanwhile (after (serve 1%nat ask_bob_env) alice_in)) 2%nat
      (login_as "bob" "pw2") (mkLoginRequest "bob" "pw2" "")) as (s3 & new & Hrun3 & Hout & Hin & _).
    + apply some_default. vm_compute. reflexivity.
    + vm_compute. tauto.
    + split_and!; vm_compute; reflexivity.
    + reflexivity.
    + reflexivity.
    + discriminate.
    + reflexivity.
    + vm_compute. reflexivity.
    + exists s3, new. split; [exact Hrun3|]. split; [exact Hout|]. exact Hin.
Defined.

(** Alice, logged in as herself, answers in Bob's name a request she never made. *)
Definition forged_answer : FriendResponse := mkFriendResponse "bob" "alice" true.

Lemma anyone_makes_friends_witness :
  ∃ s', run (serve 1%nat (mkEnvelope "" (kFriendResp forged_answer))) alice_in = Some s' ∧
    listed "bob" "alice" (world s').
Proof.
  destruct (anyone_makes_friends 1%nat (mkEnvelope "" (kFriendResp forged_answer)) forged_answer alice_in
    strangers_store.1 strangers_store.2) as (s' & Hrun & _ & Hl & _).
  - split_and!; vm_compute; reflexivity.
  - reflexivity.
  - reflexivity.
  - vm_compute. reflexivity.
  - reflexivity.
  - reflexivity.
  - discriminate.
  - vm_compute. reflexivity.
  - vm_compute. eauto.
  - vm_compute. eauto.
  - right. vm_compute. reflexivity.
  - exists s'. split; [exact Hrun|exact Hl].
Defined.
