(* ===== verification/Redis.v ===== *)
(** The Redis side: [RedisPool] of [src/redis_pool.{h,cc}] and [RedisSessionRepo] of
    [src/repository/redis_session_repo.{h,cc}], over the client library hiredis, which is the
    class [Hiredis].

    A formatted command is the list of its arguments: hiredis splits the format at spaces
    and puts each [%s] into its argument, up to the first NUL.  [RedisPool] keeps its
    connection per thread; its state here is the one of one worker thread. *)

From S2P Require Import Prelude Machine CString Repositories.

Local Open Scope Z_scope.

(** ** The client library *)

Abbreviation redisContext := nat.

#[warnings="-register-all"]
Inductive redisReply :=
| REDIS_REPLY_STRING (str : string)
| REDIS_REPLY_STATUS (str : string)
| REDIS_REPLY_ERROR (str : string)
| REDIS_REPLY_INTEGER (integer : Z)
| REDIS_REPLY_NIL
| REDIS_REPLY_ARRAY (elements : list redisReply).

(** [redisConnect] gives the context and whether its [err] is set; a null reply is
    [None]; [context_err] is the [err] member at the moment. *)
Class Hiredis (W : Type) := {
  redisConnect : string → Z → State W (option (redisContext * bool));
  redisFree : redisContext → State W unit;
  context_err : redisContext → W → bool;
  redisCommand : redisContext → list string → State W (option redisReply)
}.

(** ** RedisPool *)

Record RedisPool := mkRedisPool {
  host_ : string; port_ : Z; password_ : string; db_ : Z;
  tls_conn_ : option redisContext;
  tls_initialized_ : bool
}.

Definition new_RedisPool : RedisPool := mkRedisPool "" 6379 "" 0 None false.

Definition set_tls (conn : option redisContext) (initialized : bool) (p : RedisPool) : RedisPool :=
  mkRedisPool (host_ p) (port_ p) (password_ p) (db_ p) conn initialized.

Section RedisPool.
  Context {W : Type} `{Hiredis W}.

Definition hiredis {A} (m : State W A) : State (RedisPool * W) A := λ s,
  let '(a, w) := m (snd s) in (a, (fst s, w)).

Definition update_pool (f : RedisPool → RedisPool) : State (RedisPool * W) unit :=
  modify (λ s, (f (fst s), snd s)).

Definition redis_init (host : string) (port : Z) (password : string) (db : Z)
    : State (RedisPool * W) bool :=
  _ ← update_pool (λ p, mkRedisPool host port password db (tls_conn_ p) (tls_initialized_ p));
  mret true.

(** Connecting, with [AUTH] where there is a password and [SELECT] where there is a
    database number; shared by [RedisPool] and [RedisPubSub]. *)
Definition redis_connect (host : string) (port : Z) (password : string) (db : Z)
    : State W (option redisContext) :=
  conn ← redisConnect (c_str host) port;
  match conn with
  | None => mret None
  | Some (conn, err) =>
    if (err : bool) then _ ← redisFree conn; mret None else
    authenticated ←
      (if negb (empty_string password) then
         reply ← redisCommand conn ["AUTH"%string; c_str password];
         mret (match reply with
               | Some (REDIS_REPLY_STATUS s) => String.eqb s "OK"
               | _ => false
               end)
       else mret true);
    if negb authenticated then _ ← redisFree conn; mret None else
    _ ← (if negb (db =? 0) then _ ← redisCommand conn ["SELECT"%string; to_string db]; mret tt
         else mret tt);
    mret (Some conn)
  end.

Definition createConnection (p : RedisPool) : State W (option redisContext) :=
  redis_connect (host_ p) (port_ p) (password_ p) (db_ p).

Definition reconnect (conn : redisContext) : State (RedisPool * W) bool :=
  _ ← hiredis (redisFree conn);
  p ← gets fst;
  fresh ← hiredis (createConnection p);
  _ ← update_pool (set_tls fresh (tls_initialized_ p));
  mret (match fresh with Some _ => true | None => false end).

Definition getConnection : State (RedisPool * W) (option redisContext) :=
  s ← gets (λ s, s);
  let '(p, w) := s in
  _ ← (if negb (tls_initialized_ p) then
         conn ← hiredis (createConnection p);
         update_pool (set_tls conn true)
       else
         match tls_conn_ p with
         | Some conn => if context_err conn w then _ ← reconnect conn; mret tt else mret tt
         | None => mret tt
         end);
  p ← gets fst;
  mret (tls_conn_ p).

Definition returnConnection (conn : redisContext) : State (RedisPool * W) unit := mret tt.

Definition redis_close : State (RedisPool * W) unit :=
  p ← gets fst;
  match tls_conn_ p with
  | Some conn => _ ← hiredis (redisFree conn); update_pool (set_tls None false)
  | None => mret tt
  end.

(** The destructor. *)
Definition redis_destroy : State (RedisPool * W) unit := redis_close.

(** ** RedisSessionRepo *)

(** A method that does its commands on the connection of the thread. *)
Definition on_connection {A} (none : A) (body : redisContext → State W A) : State (RedisPool * W) A :=
  conn ← getConnection;
  match conn with
  | None => mret none
  | Some conn => hiredis (body conn)
  end.

(** A command whose reply is freed and not looked at. *)
Definition command (conn : redisContext) (args : list string) : State W unit :=
  _ ← redisCommand conn (map c_str args); mret tt.

Definition session_key (token : string) : string := "session:" +:+ token.

Context `{Clock W}.

Definition createSession (uid token node_id : string) (ttlSeconds : Z) : State (RedisPool * W) bool :=
  on_connection false (λ conn,
    let key := session_key token in
    now ← time_now;
    _ ← command conn ["HMSET"; key; "uid"; uid; "node_id"; node_id; "login_time"; to_string now]%string;
    _ ← command conn ["EXPIRE"; key; to_string ttlSeconds]%string;
    _ ← command conn ["SET"; "online:" +:+ c_str uid; node_id]%string;
    _ ← command conn ["HSET"; "user_route"; uid; node_id]%string;
    mret true).

Definition getSessionByToken (token : string) : State (RedisPool * W) (option SessionInfo) :=
  on_connection None (λ conn,
    reply ← redisCommand conn (map c_str ["HMGET"; session_key token; "uid"; "node_id"]%string);
    mret (match reply with
          | Some (REDIS_REPLY_ARRAY (e0 :: e1 :: _)) =>
            let node_id := match e1 with REDIS_REPLY_STRING s => c_str s | _ => ""%string end in
            match e0 with
            | REDIS_REPLY_STRING s => Some (mkSessionInfo (c_str s) token node_id "" "" "" 0 true)
            | _ => None
            end
          | _ => None
          end)).

Definition revokeSession (token : string) : State (RedisPool * W) bool :=
  on_connection false (λ conn, _ ← command conn ["DEL"; session_key token]%string; mret true).

Definition revokeAllSessions (uid : string) : State (RedisPool * W) bool :=
  on_connection false (λ conn,
    _ ← command conn ["GET"; "online:" +:+ c_str uid]%string;
    _ ← command conn ["DEL"; "online:" +:+ c_str uid]%string;
    _ ← command conn ["HDEL"; "user_route"; uid]%string;
    mret true).

Definition isValidSession (token : string) : State (RedisPool * W) bool :=
  s ← getSessionByToken token; mret (match s with Some _ => true | None => false end).

Definition updateSessionNode (token node_id : string) : State (RedisPool * W) bool :=
  on_connection false (λ conn,
    _ ← command conn ["HMSET"; session_key token; "node_id"; node_id]%string; mret true).

#[export] Instance RedisSessionRepo : SessionRepository (RedisPool * W) := {
  sessionRepo_createSession := createSession;
  sessionRepo_getSessionByToken := getSessionByToken;
  sessionRepo_revokeSession := revokeSession;
  sessionRepo_revokeAllSessions := revokeAllSessions;
  sessionRepo_isValidSession := isValidSession;
  sessionRepo_updateSessionNode := updateSessionNode
}.
End RedisPool.

(** ** What the server promises about sessions *)

Fixpoint starts_with (p s : string) : bool :=
  match p, s with
  | EmptyString, _ => true
  | String a p, String b s => Ascii.eqb a b && starts_with p s
  | _, _ => false
  end.

(** The commands that the program sends, with the keys that it uses: under a session key
    there is never anything but a hash. *)
Definition issued (args : list string) : bool :=
  match args with
  | cmd :: key :: _ =>
    if String.eqb cmd "HMSET" || String.eqb cmd "EXPIRE" || String.eqb cmd "HMGET"
    then starts_with "session:" key
    else if String.eqb cmd "SET" || String.eqb cmd "GET" then starts_with "online:" key
    else if String.eqb cmd "DEL" then starts_with "session:" key || starts_with "online:" key
    else if String.eqb cmd "HSET" || String.eqb cmd "HDEL" then String.eqb key "user_route"
    else String.eqb cmd "AUTH" || String.eqb cmd "SELECT"
  | _ => false
  end.


(** The key a command may change; [AUTH] and [SELECT] concern the connection, [GET] and
    [HMGET] only read. *)
Definition key_of (args : list string) : option string :=
  match args with
  | cmd :: key :: _ =>
    if String.eqb cmd "AUTH" || String.eqb cmd "SELECT" || String.eqb cmd "GET" || String.eqb cmd "HMGET"
    then None else Some key
  | _ => None
  end.

(** Set the fields of a hash, pair by pair. *)
Fixpoint hmset (pairs : list string) (h : gmap string string) : gmap string string :=
  match pairs with
  | f :: v :: pairs => hmset pairs (<[f := v]> h)
  | _ => h
  end.

Definition field_reply (h : gmap string string) (f : string) : redisReply :=
  match h !! f with
  | Some v => REDIS_REPLY_STRING v
  | None => REDIS_REPLY_NIL
  end.

(** Whether a key with this expiry is gone at this time. *)
Definition expired (expiry : option Z) (now : Z) : bool :=
  match expiry with Some t => t <=? now | None => false end.

(** [redis_entry key w] is the hash that a reader finds under a key, empty when there is
    none, with the time at which it expires, if any; [redis_now] is the clock of the server
    in seconds; the server listens where [redis_at] says, and [redis_up] says that it runs,
    can be reached and has room.  A command of the program changes only its key; connecting
    to a running server works and disturbs no other connection; on a healthy connection the
    commands do what the manual says: [HMSET] sets fields and leaves the expiry, [HMGET]
    reads fields, [DEL] removes the key with its expiry, and [EXPIRE] on a key that exists
    sets its expiry.  Commands are taken to be instantaneous: time passes between them. *)
Class RedisLaws (W : Type) `{Hiredis W} := {
  redis_entry : string → W → gmap string string * option Z;
  redis_now : W → Z;
  redis_at : string → Z → Prop;
  redis_up : W → Prop;
  command_other c args key w :
    issued args = true → key_of args ≠ Some key →
    redis_entry key (exec (redisCommand c args) w) = redis_entry key w;
  connect_other host port key w : redis_entry key (exec (redisConnect host port) w) = redis_entry key w;
  free_other c key w : redis_entry key (exec (redisFree c) w) = redis_entry key w;
  command_time c args w : issued args = true → redis_now (exec (redisCommand c args) w) = redis_now w;
  connect_time host port w : redis_now (exec (redisConnect host port) w) = redis_now w;
  connect_law host port w :
    redis_at host port → redis_up w →
    ∃ c w', redisConnect host port w = (Some (c, false), w') ∧ context_err c w' = false ∧ redis_up w';
  connect_no_err host port c w :
    context_err c w = false → context_err c (exec (redisConnect host port) w) = false;
  command_up c args w :
    issued args = true → redis_up w → redis_up (exec (redisCommand c args) w);
  command_no_err c c' args w :
    issued args = true → redis_up w → context_err c w = false →
    context_err c (exec (redisCommand c' args) w) = false;
  hmset_law c token pairs w :
    redis_up w → context_err c w = false →
    let key := session_key token in
    redis_entry key (exec (redisCommand c ("HMSET"%string :: key :: pairs)) w) =
    (hmset pairs (redis_entry key w).1, (redis_entry key w).2);
  expire_law c token ttl w :
    redis_up w → context_err c w = false → 0 < ttl →
    let key := session_key token in
    (redis_entry key w).1 ≠ ∅ →
    redis_entry key (exec (redisCommand c ["EXPIRE"%string; key; to_string ttl]) w) =
    ((redis_entry key w).1, Some (redis_now w + ttl));
  hmget_law c token f1 f2 w :
    redis_up w → context_err c w = false →
    let key := session_key token in
    eval (redisCommand c ["HMGET"%string; key; f1; f2]) w =
    Some (REDIS_REPLY_ARRAY [field_reply (redis_entry key w).1 f1; field_reply (redis_entry key w).1 f2]);
  del_law c token w :
    redis_up w → context_err c w = false →
    let key := session_key token in
    redis_entry key (exec (redisCommand c ["DEL"%string; key]) w) = (∅, None)
}.

(** ** Threads that can work *)

Section Ready.
  Context {W : Type} `{Hiredis W, !RedisLaws W}.

(** The server runs, the given connection, if any, is without error, and the time is [t]. *)
Definition fine (c : option redisContext) (t : Z) (w : W) : Prop :=
  redis_up w ∧ match c with Some c => context_err c w = false | None => True end ∧ redis_now w = t.

(** A computation after which everything that was fine is, at the same time. *)
Definition steady {A} (m : State W A) : Prop := ∀ c t, preserves (fine c t) m.

(** The pool is set up for the server, without password and database number, and the
    connection of the thread, if it made one, is without error. *)
Definition ready (s : RedisPool * W) : Prop :=
  let '(p, w) := s in
  redis_at (c_str (host_ p)) (port_ p) ∧ password_ p = ""%string ∧ db_ p = 0 ∧ redis_up w ∧
  (tls_initialized_ p = true → ∃ c, tls_conn_ p = Some c ∧ context_err c w = false).

(** What a thread that was ready leaves behind: it is ready, the set-up of the pool is the
    same, and the connections of the other threads that were fine are. *)
Definition settled (s s' : RedisPool * W) : Prop :=
  ready s' ∧
  (∃ conn init, fst s' = set_tls conn init (fst s)) ∧
  ∀ c t, fine c t (snd s) → fine c t (snd s').

(** The session that a hash stands for. *)
Definition session_of (token : string) (h : gmap string string) : option SessionInfo :=
  u ← h !! "uid"%string;
  Some (mkSessionInfo (c_str u) token
          (match h !! "node_id"%string with Some n => c_str n | None => "" end) "" "" "" 0 true).

(** What the server keeps for a token, and until when. *)
Definition stored (token : string) (w : W) : gmap string string * option Z :=
  redis_entry (session_key (c_str token)) w.
End Ready.

(** ** Lemmas *)

Section Facts.
  Context {W : Type} `{Hiredis W}.

Lemma eval_hiredis {A} (m : State W A) (s : RedisPool * W) : eval (hiredis m) s = eval m (snd s).
Proof. unfold hiredis, eval. by destruct (m (snd s)). Qed.

Lemma exec_hiredis {A} (m : State W A) (s : RedisPool * W) :
  exec (hiredis m) s = (fst s, exec m (snd s)).
Proof. unfold hiredis, exec. by destruct (m (snd s)). Qed.

Lemma exec_update_pool f (s : RedisPool * W) : exec (update_pool f) s = (f (fst s), snd s).
Proof. done. Qed.

Lemma exec_command c args (w : W) : exec (command c args) w = exec (redisCommand c (map c_str args)) w.
Proof. unfold command. by rewrite exec_bind. Qed.

End Facts.

#[export] Hint Rewrite @eval_hiredis @exec_hiredis @exec_update_pool @exec_command : chat.

Lemma session_key_c_str token : c_str (session_key token) = session_key (c_str token).
Proof. done. Qed.

Section Sessions.
  Context {W : Type} `{Hiredis W, !RedisLaws W, Clock W, !ClockLaws W}.

(** What is stored under the keys that no command names stays. *)
Lemma redis_connect_other host port password db key (w : W) :
  redis_entry key (exec (redis_connect host port password db) w) = redis_entry key w.
Proof.
  unfold redis_connect. autorewrite with chat.
  destruct (eval (redisConnect _ _) w) as [[c err]|]; autorewrite with chat; [|apply connect_other].
  destruct err; autorewrite with chat; [by rewrite free_other, connect_other|].
  set (w1 := exec (redisConnect _ _) w).
  assert (∀ {A} (m : State W A) w', redis_entry key (exec m w') = redis_entry key w' →
    redis_entry key w' = redis_entry key w → redis_entry key (exec m w') = redis_entry key w) as Hstep.
  { intros A m w' -> ->. done. }
  destruct (negb (empty_string password)); autorewrite with chat.
  - destruct (negb _); autorewrite with chat; [apply Hstep; [apply free_other|]|].
    + apply Hstep; [by apply command_other|apply connect_other].
    + destruct (negb (db =? 0)); autorewrite with chat.
      * apply Hstep; [by apply command_other|]. apply Hstep; [by apply command_other|apply connect_other].
      * apply Hstep; [by apply command_other|apply connect_other].
  - cbn [negb]. destruct (negb (db =? 0)); autorewrite with chat; [|apply connect_other].
    apply Hstep; [by apply command_other|apply connect_other].
Qed.

Lemma getConnection_other key (s : RedisPool * W) :
  redis_entry key (snd (exec getConnection s)) = redis_entry key (snd s).
Proof.
  destruct s as [p w]. unfold getConnection. autorewrite with chat.
  destruct (negb (tls_initialized_ p)); autorewrite with chat; cbn [fst snd];
    [unfold createConnection; apply redis_connect_other|].
  destruct (tls_conn_ p) as [c|]; [|done]. destruct (context_err c w); [|done].
  unfold reconnect. autorewrite with chat. cbn [fst snd]. unfold createConnection.
  by rewrite redis_connect_other, free_other.
Qed.

(** ** Threads that are ready *)

Lemma steady_redisCommand c args : issued args = true → steady (redisCommand c args).
Proof.
  intros Ha c' t w (Hup & He & Ht). split; [by apply command_up|].
  split; [by destruct c'; [apply command_no_err|]|]. by rewrite command_time.
Qed.

Lemma steady_command c args : issued (map c_str args) = true → steady (command c args).
Proof. intros Ha c' t w Hw. rewrite exec_command. by apply steady_redisCommand. Qed.

Lemma steady_time_now : steady time_now.
Proof. intros c t w Hw. by rewrite time_now_pure. Qed.

(** A body made of commands and readings of the clock. *)
Ltac steady := intros ? ? ?; preserve;
  first [by apply steady_command | by apply steady_redisCommand | apply steady_time_now].

(** A ready thread gets a connection, its own or a new one. *)
Lemma getConnection_ready s :
  ready s →
  ∃ c s', getConnection s = (Some c, s') ∧ fine (Some c) (redis_now (snd s)) (snd s') ∧ settled s s' ∧
    tls_initialized_ (fst s') = true ∧ tls_conn_ (fst s') = Some c.
Proof.
  destruct s as [p w]. intros (Hat & Hpw & Hdb & Hup & Hc). unfold getConnection. rewrite bind_eq. cbn.
  destruct (tls_initialized_ p) eqn:Hi; cbn [negb].
  - destruct Hc as (c & Hc & He); [done|]. rewrite Hc, He, !bind_eq. unfold eval, exec. cbn.
    exists c, (p, w). rewrite Hc. split_and!; try done. split; [|split].
    + cbn. rewrite Hpw, Hdb. eauto 8.
    + exists (Some c), true. destruct p; cbn in *. by subst.
    + done.
  - destruct (connect_law (c_str (host_ p)) (port_ p) w Hat Hup) as (c & w' & Hw & He & Hup').
    assert (createConnection p w = (Some c, w')) as Hcc.
    { unfold createConnection, redis_connect. rewrite bind_eq. unfold eval, exec. rewrite Hw. cbn [fst snd].
      rewrite Hpw, Hdb. reflexivity. }
    assert ((conn ← hiredis (createConnection p); update_pool (set_tls conn true)) (p, w) =
      (tt, (set_tls (Some c) true p, w'))) as Hstep.
    { rewrite bind_eq. unfold eval, exec, hiredis. cbn. by rewrite Hcc. }
    rewrite bind_eq. unfold eval, exec in *. rewrite Hstep. cbn.
    assert (exec (redisConnect (c_str (host_ p)) (port_ p)) w = w') as Hw' by (unfold exec; by rewrite Hw).
    assert (redis_now w' = redis_now w) as Hnow by (rewrite <- Hw'; apply connect_time).
    exists c, (set_tls (Some c) true p, w'). split_and!; [done|done|split; [|split]|done|done].
    + cbn. rewrite Hpw, Hdb. eauto 8.
    + cbn. eauto.
    + intros c' t (_ & He' & Ht). split; [done|]. cbn. rewrite Hnow. split; [|done].
      destruct c' as [c'|]; [|done]. rewrite <- Hw'. by apply connect_no_err.
Qed.

(** A method that does its commands on the connection of a ready thread does them. *)
Lemma on_connection_ready {A} (none : A) body s :
  ready s → (∀ c, steady (body c)) →
  ∃ c w s', on_connection none body s = (eval (body c) w, s') ∧ snd s' = exec (body c) w ∧
    fine (Some c) (redis_now (snd s)) w ∧ settled s s' ∧ ∀ key, redis_entry key w = redis_entry key (snd s).
Proof.
  intros Hs Hb. destruct (getConnection_ready s Hs) as (c & [p' w'] & Hg & Hf & (Hr & Hset & Hold) & Hi & Hc).
  pose proof (λ key, getConnection_other key s) as Hk. unfold exec in Hk. rewrite Hg in Hk. cbn [snd] in Hk.
  exists c, w', (p', exec (body c) w'). cbn [fst snd] in *. split_and!; try done.
  - unfold on_connection. rewrite bind_eq. unfold eval at 1 2, exec at 1 2. rewrite Hg. cbn [fst snd].
    unfold hiredis, eval, exec. cbn. by destruct (body c w').
  - split; [|split]; cbn [fst snd]; [|done|]. 2: { intros c' t Hc'. apply Hb. by apply (Hold c'). }
    destruct (Hb c (Some c) _ w' Hf) as (Hup & He & _). destruct Hr as (Hat & Hpw & Hdb & _). cbn. eauto 8.
Qed.

(** Run a method on a ready thread: it has connection [c] in world [w] and leaves [s']. *)
Ltac on_ready none :=
  let c := fresh "c" in let w := fresh "w" in let s' := fresh "s'" in
  let Hs' := fresh "Hs'" in let Hup := fresh "Hup" in let He := fresh "He" in
  let Hset := fresh "Hset" in let Hk := fresh "Hk" in let Hnow := fresh "Hnow" in
  edestruct (on_connection_ready none) as (c & w & s' & -> & Hs' & (Hup & He & Hnow) & Hset & Hk);
  [eassumption|intros ?; steady|];
  autorewrite with chat in *; rewrite ?time_now_pure in *; cbn [map] in *;
  rewrite ?session_key_c_str in *; cbn [c_str Ascii.eqb Bool.eqb] in *.

(** The keys of sessions differ when the tokens do. *)
Lemma session_key_inj t t' : session_key t = session_key t' → t = t'.
Proof. unfold session_key. intros [= Ht]. done. Qed.

(** What the methods do on a ready thread: their verdict, and what is stored afterwards for
    each token. *)
Lemma createSession_ready uid token node_id ttl s :
  ready s → 0 < ttl →
  ∃ s' h, createSession uid token node_id ttl s = (true, s') ∧ settled s s' ∧
    (∀ t, stored t (snd s') = if decide (c_str t = c_str token)
       then (h, Some (redis_now (snd s) + ttl)) else stored t (snd s)) ∧
    h !! "uid"%string = Some (c_str uid) ∧ h !! "node_id"%string = Some (c_str node_id).
Proof.
  intros Hs Httl. unfold createSession.
  on_ready false.
  set (n := to_string (eval time_now w)) in *. set (key := session_key (c_str token)).
  set (h := hmset ["uid"; c_str uid; "node_id"; c_str node_id; "login_time"; n]%string (redis_entry key w).1).
  assert (h !! "uid"%string = Some (c_str uid) ∧ h !! "node_id"%string = Some (c_str node_id)) as [Hu Hn].
  { unfold h. cbn [hmset]. split; [rewrite !lookup_insert_ne by done|rewrite lookup_insert_ne by done];
      by rewrite lookup_insert_eq. }
  exists s', h. do 2 (split; [done|]). split; [|done].
  intros t. unfold stored. rewrite Hs'. unfold n. rewrite !c_str_to_string. fold n key.
  rewrite (command_other _ ["HSET"%string; _; _; _]) by done.
  rewrite (command_other _ ["SET"%string; _; _]) by done.
  set (w1 := exec (redisCommand c ("HMSET"%string :: _)) w).
  assert (redis_entry key w1 = (h, (redis_entry key w).2)) as Hw1 by (apply hmset_law; done).
  destruct (decide (c_str t = c_str token)) as [->|Hne]; fold key.
  - unfold key at 1. rewrite expire_law; fold key; [|by apply command_up|by apply command_no_err|done|].
    + rewrite Hw1. cbn [fst]. unfold w1. by rewrite command_time, Hnow.
    + rewrite Hw1. cbn [fst]. intros Hh. by rewrite Hh in Hu.
  - rewrite command_other by (first [done|cbn; intros [= Heq]; done]). unfold w1.
    rewrite command_other by (first [done|cbn; intros [= Heq]; done]). apply Hk.
Qed.

Lemma getSessionByToken_ready token s :
  ready s →
  ∃ s', getSessionByToken token s = (session_of token (stored token (snd s)).1, s') ∧ settled s s' ∧
    ∀ t, stored t (snd s') = stored t (snd s).
Proof.
  intros Hs. unfold getSessionByToken.
  on_ready (@None SessionInfo). rewrite hmget_law by done. exists s'. split_and!; [|done|].
  - f_equal. unfold field_reply, session_of, stored. rewrite Hk.
    set (h := (redis_entry _ (snd s)).1). by destruct (h !! "uid"%string), (h !! "node_id"%string).
  - intros t. unfold stored. rewrite Hs', command_other by done. apply Hk.
Qed.

Lemma revokeSession_ready token s :
  ready s →
  ∃ s', revokeSession token s = (true, s') ∧ settled s s' ∧
    ∀ t, stored t (snd s') = if decide (c_str t = c_str token) then (∅, None) else stored t (snd s).
Proof.
  intros Hs. unfold revokeSession.
  on_ready false. exists s'. split_and!; [done..|]. intros t. unfold stored. rewrite Hs'.
  destruct (decide (c_str t = c_str token)) as [->|Hne]; [by apply del_law|].
  rewrite command_other by (first [done|cbn; intros [= Heq]; done]). apply Hk.
Qed.

Lemma updateSessionNode_ready token node_id s :
  ready s →
  ∃ s', updateSessionNode token node_id s = (true, s') ∧ settled s s' ∧
    ∀ t, stored t (snd s') = if decide (c_str t = c_str token)
      then (<["node_id"%string := c_str node_id]> (stored t (snd s)).1, (stored t (snd s)).2)
      else stored t (snd s).
Proof.
  intros Hs. unfold updateSessionNode.
  on_ready false. exists s'. split_and!; [done..|]. intros t. unfold stored. rewrite Hs'.
  destruct (decide (c_str t = c_str token)) as [->|Hne]; [by rewrite hmset_law, Hk|].
  rewrite command_other by (first [done|cbn; intros [= Heq]; done]). apply Hk.
Qed.

Lemma revokeAllSessions_ready uid s :
  ready s →
  ∃ s', revokeAllSessions uid s = (true, s') ∧ settled s s' ∧ ∀ t, stored t (snd s') = stored t (snd s).
Proof.
  intros Hs. unfold revokeAllSessions.
  on_ready false. exists s'. split_and!; [done..|]. intros t. unfold stored.
  by rewrite Hs', !command_other.
Qed.

(** Whatever the arguments are, a ready thread is ready after each method. *)
Definition calm {A} (m : State (RedisPool * W) A) : Prop := ∀ s, ready s → settled s (exec m s).

Lemma on_connection_calm {A} (none : A) body :
  (∀ c, steady (body c)) → calm (on_connection none body).
Proof.
  intros Hb s Hs. destruct (on_connection_ready none body s Hs Hb) as (c & w & s' & Hr & _ & _ & Hset & _).
  unfold exec. by rewrite Hr.
Qed.

Lemma createSession_calm uid token node_id ttl : calm (createSession uid token node_id ttl).
Proof. apply on_connection_calm. intros c. cbv zeta. steady. Qed.

Lemma getSessionByToken_calm token : calm (getSessionByToken token).
Proof. apply on_connection_calm. intros c. steady. Qed.

Lemma revokeSession_calm token : calm (revokeSession token).
Proof. apply on_connection_calm. intros c. steady. Qed.

Lemma revokeAllSessions_calm uid : calm (revokeAllSessions uid).
Proof. apply on_connection_calm. intros c. steady. Qed.

Lemma isValidSession_exec token (s : RedisPool * W) :
  exec (isValidSession token) s = exec (getSessionByToken token) s.
Proof. unfold isValidSession. by rewrite exec_bind. Qed.

Lemma isValidSession_calm token : calm (isValidSession token).
Proof. intros s Hs. rewrite isValidSession_exec. by apply getSessionByToken_calm. Qed.

Lemma updateSessionNode_calm token node_id : calm (updateSessionNode token node_id).
Proof. apply on_connection_calm. intros c. steady. Qed.

(** The method leaves the user of a token and the expiry as they are. *)
Definition spares {A} (token : string) (m : State (RedisPool * W) A) : Prop := ∀ s,
  ready s →
  (stored token (snd (exec m s))).1 !! "uid"%string = (stored token (snd s)).1 !! "uid"%string ∧
  (stored token (snd (exec m s))).2 = (stored token (snd s)).2.

Lemma createSession_spares token uid token' node_id ttl :
  0 < ttl → c_str token' ≠ c_str token → spares token (createSession uid token' node_id ttl).
Proof.
  intros Httl Hne s Hs. destruct (createSession_ready uid token' node_id ttl s Hs Httl) as (s' & h & Hr & _ & Hst & _).
  unfold exec. by rewrite Hr, Hst, decide_False by congruence.
Qed.

Lemma getSessionByToken_spares token token' : spares token (getSessionByToken token').
Proof.
  intros s Hs. destruct (getSessionByToken_ready token' s Hs) as (s' & Hr & _ & Hst).
  unfold exec. by rewrite Hr, Hst.
Qed.

Lemma revokeSession_spares token token' : c_str token' ≠ c_str token → spares token (revokeSession token').
Proof.
  intros Hne s Hs. destruct (revokeSession_ready token' s Hs) as (s' & Hr & _ & Hst).
  unfold exec. by rewrite Hr, Hst, decide_False by congruence.
Qed.

Lemma revokeAllSessions_spares token uid : spares token (revokeAllSessions uid).
Proof.
  intros s Hs. destruct (revokeAllSessions_ready uid s Hs) as (s' & Hr & _ & Hst).
  unfold exec. by rewrite Hr, Hst.
Qed.

Lemma updateSessionNode_spares token token' node_id : spares token (updateSessionNode token' node_id).
Proof.
  intros s Hs. destruct (updateSessionNode_ready token' node_id s Hs) as (s' & Hr & _ & Hst).
  unfold exec. rewrite Hr, Hst. cbn [snd]. case_decide as Heq; [|done].
  cbn [fst snd]. rewrite lookup_insert_ne by done. by unfold stored.
Qed.

(** The store keeps its promises to the login service. *)
#[export] Instance redis_session_laws : SessionRepoLaws (RedisPool * W).
Proof.
  refine {| store_up := ready |}.
  - intros uid token node_id ttl s Hs Huid Httl _. cbn [sessionRepo_createSession RedisSessionRepo].
    destruct (createSession_ready uid token node_id ttl s Hs Httl) as (s' & h & Hc & (Hr & _) & Hst & Hu & _).
    unfold exec. rewrite Hc. cbn [snd]. split; [done|].
    destruct (getSessionByToken_ready token s' Hr) as (s2 & Hg & _). unfold token_of, eval.
    cbn [sessionRepo_getSessionByToken RedisSessionRepo]. rewrite Hg, Hst, decide_True by done. cbn [fst].
    unfold session_of. rewrite Hu. cbn. eexists. split; [done|]. cbn. by rewrite c_str_idem.
  - intros token s Hs _. cbn [sessionRepo_revokeSession RedisSessionRepo].
    destruct (revokeSession_ready token s Hs) as (s' & Hc & (Hr & _) & Hst). unfold exec. rewrite Hc. cbn [snd].
    split; [done|]. destruct (getSessionByToken_ready token s' Hr) as (s2 & Hg & _). unfold token_void, eval.
    cbn [sessionRepo_getSessionByToken RedisSessionRepo]. by rewrite Hg, Hst, decide_True.
  - intros token uid s Hs. unfold token_void, eval, exec.
    cbn [sessionRepo_getSessionByToken sessionRepo_revokeAllSessions RedisSessionRepo].
    destruct (revokeAllSessions_ready uid s Hs) as (s' & Hc & (Hr & _) & Hst). rewrite Hc. cbn [snd].
    destruct (getSessionByToken_ready token s Hs) as (s1 & -> & _).
    destruct (getSessionByToken_ready token s' Hr) as (s2 & -> & _). by rewrite Hst.
Defined.

(** ** Theorems *)

(** A session that was created by a thread that is ready, be it the first command of the
    thread, is found under its token with its user and its node, and after the token was
    revoked it is not found. *)
Theorem redis_session_roundtrip uid token node_id ttl (s : RedisPool * W) :
  ready s → c_str uid = uid → c_str node_id = node_id → 0 < ttl →
  let s1 := exec (createSession uid token node_id ttl) s in
  eval (createSession uid token node_id ttl) s = true ∧
  eval (getSessionByToken token) s1 = Some (mkSessionInfo uid token node_id "" "" "" 0 true) ∧
  eval (getSessionByToken token) (exec (revokeSession token) s1) = None.
Proof.
  intros Hs Huid Hnode Httl. cbv zeta.
  destruct (createSession_ready uid token node_id ttl s Hs Httl) as (s1 & h & Hc & (Hr1 & _) & Hst & Hu & Hn).
  unfold exec, eval. rewrite Hc. cbn [fst snd]. split; [done|].
  destruct (getSessionByToken_ready token s1 Hr1) as (s2 & -> & _).
  destruct (revokeSession_ready token s1 Hr1) as (s3 & -> & (Hr3 & _) & Hst3). cbn [fst snd].
  destruct (getSessionByToken_ready token s3 Hr3) as (s4 & -> & _).
  rewrite Hst3, Hst, !decide_True by done. cbn [fst]. unfold session_of. rewrite Hu, Hn. cbn. by rewrite Huid, Hnode, Huid, Hnode.
Qed.

(** Revoking all sessions of a user revokes none: the hash of every token is the same
    before and after, so a token taken before a logout under another token stays valid. *)
Theorem revokeAllSessions_keeps_tokens uid token (s : RedisPool * W) :
  redis_entry (session_key token) (snd (exec (revokeAllSessions uid) s)) =
  redis_entry (session_key token) (snd s).
Proof.
  unfold revokeAllSessions, on_connection. rewrite exec_bind.
  rewrite <- (getConnection_other (session_key token) s).
  destruct (eval getConnection s) as [c|]; [|done]. autorewrite with chat. cbn [snd map].
  by rewrite !command_other by done.
Qed.
End Sessions.

(** A worker thread whose first attempt to connect failed never tries again: every
    request for a connection gives none and every session operation of the thread fails,
    even when the server is back. *)
Theorem redis_thread_never_recovers {W} `{Hiredis W, Clock W} p (w : W) uid token node_id ttl :
  tls_initialized_ p = true → tls_conn_ p = None →
  getConnection (p, w) = (None, (p, w)) ∧
  createSession uid token node_id ttl (p, w) = (false, (p, w)) ∧
  getSessionByToken token (p, w) = (None, (p, w)) ∧
  revokeSession token (p, w) = (false, (p, w)).
Proof.
  intros Hi Hc. assert (getConnection (p, w) = (None, (p, w))) as Hg.
  { unfold getConnection. rewrite !bind_eq. cbn. rewrite Hi, Hc. cbn. rewrite !bind_eq.
    unfold eval, exec. cbn. by rewrite Hc. }
  assert (∀ A (none : A) body, on_connection none body (p, w) = (none, (p, w))) as Hon.
  { intros A none body. unfold on_connection. rewrite bind_eq. unfold eval, exec. by rewrite Hg. }
  split_and!; [done|apply Hon..].
Qed.

(** ** The theorems at work *)

(** A server in memory that knows the hash commands, with its clock. *)
Record ToyRedis := mkToyRedis { toy_keys : gmap string (gmap string string * option Z); toy_time : Z }.

#[export] Instance toy_empty : Empty ToyRedis := mkToyRedis ∅ 1704067200.

Definition toy_entry (key : string) (w : ToyRedis) : gmap string string * option Z :=
  default (∅, None) (toy_keys w !! key).

Definition toy_put (key : string) (e : gmap string string * option Z) (w : ToyRedis) : ToyRedis :=
  mkToyRedis (<[key := e]> (toy_keys w)) (toy_time w).

Definition toy_command (args : list string) : State ToyRedis (option redisReply) := λ w,
  match args with
  | cmd :: key :: args =>
    let '(h, expiry) := toy_entry key w in
    if String.eqb cmd "HMSET" then (Some (REDIS_REPLY_STATUS "OK"), toy_put key (hmset args h, expiry) w)
    else if String.eqb cmd "HMGET" then (Some (REDIS_REPLY_ARRAY (map (field_reply h) args)), w)
    else if String.eqb cmd "EXPIRE" then
      match toy_keys w !! key, args with
      | Some _, [n] => (Some (REDIS_REPLY_INTEGER 1), toy_put key (h, Some (toy_time w + atoll n)) w)
      | _, _ => (Some (REDIS_REPLY_INTEGER 0), w)
      end
    else if String.eqb cmd "DEL" then
      (Some (REDIS_REPLY_INTEGER 1), mkToyRedis (delete key (toy_keys w)) (toy_time w))
    else (Some (REDIS_REPLY_STATUS "OK"), w)
  | _ => (Some (REDIS_REPLY_ERROR "ERR"), w)
  end.

(** Days pass, and what has expired is gone. *)
Definition toy_pass (n : nat) (w : ToyRedis) : ToyRedis :=
  let now := toy_time w + 86400 * Z.of_nat n in
  mkToyRedis (filter (λ kv, expired kv.2.2 now = false) (toy_keys w)) now.

#[export] Instance toy_hiredis : Hiredis ToyRedis := {
  redisConnect _ _ := mret (Some (1%nat, false));
  redisFree _ := mret tt;
  context_err _ _ := false;
  redisCommand _ := toy_command
}.

#[export] Instance toy_redis_clock : Clock ToyRedis := {
  time_now := gets toy_time;
  Timestamp_now := gets (λ w, toy_time w * 1000000)
}.

Lemma toy_entry_put key key' e w :
  toy_entry key (toy_put key' e w) = if decide (key' = key) then e else toy_entry key w.
Proof. unfold toy_entry, toy_put. cbn. rewrite lookup_insert. by case_decide. Qed.

Lemma toy_command_spec args key w :
  toy_time (exec (toy_command args) w) = toy_time w ∧
  (key_of args ≠ Some key → toy_entry key (exec (toy_command args) w) = toy_entry key w).
Proof.
  destruct args as [|cmd [|key' args]]; [done..|]. unfold exec, toy_command, key_of.
  destruct (toy_entry key' w) as [h expiry].
  destruct (String.eqb_spec cmd "HMSET") as [->|]; cbn [snd].
  { split; [done|]. intros Hk. rewrite toy_entry_put, decide_False by (cbn in Hk; congruence). done. }
  destruct (String.eqb_spec cmd "HMGET") as [->|]; [done|].
  destruct (String.eqb_spec cmd "EXPIRE") as [->|].
  { destruct (toy_keys w !! key'), args as [|secs [|]]; cbn [snd]; try done.
    split; [done|]. intros Hk. rewrite toy_entry_put, decide_False by (cbn in Hk; congruence). done. }
  destruct (String.eqb_spec cmd "DEL") as [->|]; [|done].
  split; [done|]. intros Hk. unfold toy_entry. cbn. rewrite lookup_delete_ne by (cbn in Hk; congruence). done.
Qed.

Lemma toy_pass_entry n key w :
  toy_entry key (toy_pass n w) =
  if expired (toy_entry key w).2 (toy_time (toy_pass n w)) then (∅, None) else toy_entry key w.
Proof.
  unfold toy_entry, toy_pass. cbn [toy_keys toy_time]. rewrite map_lookup_filter.
  destruct (toy_keys w !! key) as [[h expiry]|] eqn:Hk; [|done]. cbn.
  destruct (expired expiry _) eqn:He; cbn; by rewrite ?option_guard_True, ?option_guard_False by congruence.
Qed.

#[export] Instance toy_clock_laws : ClockLaws ToyRedis.
Proof. by constructor. Qed.

#[export] Instance toy_redis_laws : RedisLaws ToyRedis.
Proof.
  refine {| redis_entry := toy_entry; redis_now := toy_time; redis_at _ _ := True; redis_up _ := True |}.
  - intros c args key w _. apply toy_command_spec.
  - done.
  - done.
  - intros c args w _. by apply (toy_command_spec args "").
  - done.
  - intros host port w _ _. by exists 1%nat, w.
  - done.
  - done.
  - done.
  - intros c token pairs w _ _. unfold exec. cbn -[session_key toy_entry].
    destruct (toy_entry (session_key token) w) as [h e]. cbn [snd]. by rewrite toy_entry_put, decide_True.
  - intros c token ttl w _ _ _ key Hne. unfold exec. cbn -[session_key toy_entry]. fold key.
    destruct (toy_entry key w) as [h e] eqn:Hkey. unfold toy_entry in Hkey.
    destruct (toy_keys w !! key); cbn in Hkey; simplify_eq/=. by rewrite toy_entry_put, decide_True, atoll_to_string.
  - intros c token f1 f2 w _ _. unfold eval. cbn -[session_key toy_entry].
    by destruct (toy_entry (session_key token) w) as [h e].
  - intros c token w _ _. unfold exec. cbn -[session_key toy_entry].
    destruct (toy_entry (session_key token) w) as [h e]. unfold toy_entry. cbn -[session_key]. by rewrite lookup_delete_eq.
Defined.

(** A thread before its first command. *)
Definition toy_pool : RedisPool := mkRedisPool "h" 6379 "" 0 None false.

Lemma redis_session_roundtrip_witness :
  let s1 := exec (createSession "bob" "tok" "node-1" 60) (toy_pool, ∅ : ToyRedis) in
  eval (createSession "bob" "tok" "node-1" 60) (toy_pool, ∅ : ToyRedis) = true ∧
  eval (getSessionByToken "tok") s1 = Some (mkSessionInfo "bob" "tok" "node-1" "" "" "" 0 true) ∧
  eval (getSessionByToken "tok") (exec (revokeSession "tok") s1) = None.
Proof.
  apply (redis_session_roundtrip "bob" "tok" "node-1" 60 (toy_pool, ∅ : ToyRedis)); done.
Defined.

Lemma redis_thread_never_recovers_witness :
  createSession "bob" "tok" "node-1" 60 (mkRedisPool "h" 6379 "" 0 None true, ∅ : ToyRedis) =
  (false, (mkRedisPool "h" 6379 "" 0 None true, ∅)).
Proof.
  apply (redis_thread_never_recovers (mkRedisPool "h" 6379 "" 0 None true) (∅ : ToyRedis) "bob" "tok" "node-1" 60);
    reflexivity.
Defined.

Lemma revokeAllSessions_keeps_tokens_witness :
  let s := exec (createSession "bob" "tok" "node-1" 60) (toy_pool, ∅ : ToyRedis) in
  redis_entry (session_key "tok") (snd (exec (revokeAllSessions "bob") s)) =
  redis_entry (session_key "tok") (snd s).
Proof. cbv zeta. apply (revokeAllSessions_keeps_tokens (W := ToyRedis)). Defined.
