(* ===== verification/TokenCache.v ===== *)
(** [RedisCache] of [src/redis.{h,cc}]: a cache of login tokens in Redis strings.  The program
    does not use it. *)

From S2P Require Import Prelude Machine CString Repositories Redis.

Local Open Scope Z_scope.

Section RedisCache.
  Context {W : Type} `{Hiredis W}.

(** The cache keeps one context, [ctx_], or none. *)
Definition cache_close (ctx : option redisContext) : State W (option redisContext) :=
  match ctx with
  | Some c => _ ← redisFree c; mret None
  | None => mret None
  end.

Definition new_cache : option redisContext := None.

(** The destructor. *)
Definition cache_destroy (ctx : option redisContext) : State W (option redisContext) := cache_close ctx.

Definition cache_init (host : string) (port : Z) : State W (bool * option redisContext) :=
  ctx ← redisConnect (c_str host) port;
  match ctx with
  | Some (c, err) => if (err : bool) then _ ← redisFree c; mret (false, None) else mret (true, Some c)
  | None => mret (false, None)
  end.

Definition cacheToken (ctx : option redisContext) (uid token : string) (ttlSeconds : Z) : State W unit :=
  match ctx with
  | None => mret tt
  | Some c => command c ["SETEX"; "token:" +:+ uid; to_string ttlSeconds; token]%string
  end.

(** The second result is the token the reference argument is set to, if any. *)
Definition getToken (ctx : option redisContext) (uid : string) : State W (bool * option string) :=
  match ctx with
  | None => mret (false, None)
  | Some c =>
    reply ← redisCommand c (map c_str ["GET"; "token:" +:+ uid]%string);
    mret (match reply with
          | Some (REDIS_REPLY_STRING s) => (true, Some (c_str s))
          | _ => (false, None)
          end)
  end.

Definition invalidateToken (ctx : option redisContext) (uid : string) : State W unit :=
  match ctx with
  | None => mret tt
  | Some c => command c ["DEL"; "token:" +:+ uid]%string
  end.
End RedisCache.

(** ** What the server promises about strings *)

Definition token_key (uid : string) : string := "token:" +:+ uid.

(** The commands of this class, on the keys that it uses. *)
Definition cached (args : list string) : bool :=
  match args with
  | cmd :: key :: _ =>
    (String.eqb cmd "SETEX" || String.eqb cmd "GET" || String.eqb cmd "DEL") && starts_with "token:" key
  | _ => false
  end.

(** [redis_string key w] is the string stored under a key.  On a healthy connection [SETEX]
    with a positive time stores one, [GET] reads it, [DEL] removes it, and a command
    changes only its key. *)
Class RedisStrings (W : Type) `{Hiredis W} := {
  redis_string : string → W → option string;
  healthy : redisContext → W → Prop;
  healthy_command c args w : cached args = true → healthy c w → healthy c (exec (redisCommand c args) w);
  string_other c args key w :
    cached args = true → key_of args ≠ Some key → redis_string key (exec (redisCommand c args) w) = redis_string key w;
  setex_law c uid ttl v w :
    healthy c w → 0 < ttl →
    redis_string (token_key uid)
      (exec (redisCommand c ["SETEX"%string; token_key uid; to_string ttl; v]) w) = Some v;
  get_law c uid w :
    healthy c w →
    eval (redisCommand c ["GET"%string; token_key uid]) w =
    Some (match redis_string (token_key uid) w with Some v => REDIS_REPLY_STRING v | None => REDIS_REPLY_NIL end);
  del_string_law c uid w :
    healthy c w → redis_string (token_key uid) (exec (redisCommand c ["DEL"%string; token_key uid]) w) = None
}.

Section Facts.
  Context {W : Type} `{Hiredis W, !RedisStrings W}.

Lemma token_key_c_str uid : c_str (token_key uid) = token_key (c_str uid).
Proof. done. Qed.

Lemma token_key_inj u v : token_key u = token_key v → u = v.
Proof. unfold token_key. by intros [= Huv]. Qed.

Lemma getToken_healthy c uid (w : W) :
  healthy c w →
  eval (getToken (Some c) uid) w =
  match redis_string (token_key (c_str uid)) w with
  | Some v => (true, Some (c_str v))
  | None => (false, None)
  end.
Proof.
  intros Hc. unfold getToken. autorewrite with chat. cbn [map]. change ("token:" +:+ uid) with (token_key uid).
  rewrite token_key_c_str. cbn [c_str Ascii.eqb Bool.eqb]. rewrite get_law by done.
  by destruct (redis_string _ w).
Qed.

(** ** Theorem *)

(** The cache returns the token that was stored last for a user until it is invalidated,
    and then none; neither disturbs what is stored for another user. *)
Theorem cache_roundtrip c uid token ttl (w : W) :
  healthy c w → 0 < ttl →
  let w1 := exec (cacheToken (Some c) uid token ttl) w in
  let w2 := exec (invalidateToken (Some c) uid) w1 in
  eval (getToken (Some c) uid) w1 = (true, Some (c_str token)) ∧
  eval (getToken (Some c) uid) w2 = (false, None) ∧
  ∀ v, c_str v ≠ c_str uid →
    eval (getToken (Some c) v) w1 = eval (getToken (Some c) v) w ∧
    eval (getToken (Some c) v) w2 = eval (getToken (Some c) v) w.
Proof.
  intros Hc Httl. cbv zeta. unfold cacheToken, invalidateToken. rewrite !exec_command. cbn [map].
  change ("token:" +:+ uid) with (token_key uid). rewrite token_key_c_str, c_str_to_string.
  cbn [c_str Ascii.eqb Bool.eqb].
  set (w1 := exec (redisCommand c ["SETEX"%string; _; _; _]) w).
  set (w2 := exec (redisCommand c ["DEL"%string; _]) w1).
  assert (healthy c w1) as Hc1 by (by apply healthy_command).
  assert (healthy c w2) as Hc2 by (by apply healthy_command).
  rewrite !getToken_healthy by done. unfold w2 at 1, w1 at 1.
  rewrite setex_law, del_string_law by done. rewrite c_str_idem. split; [done|]. split; [done|].
  intros v Hv. rewrite !getToken_healthy by done. unfold w2, w1.
  assert (∀ args, cached args = true → key_of args = Some (token_key (c_str uid)) → ∀ w, redis_string (token_key (c_str v)) (exec (redisCommand c args) w) =
    redis_string (token_key (c_str v)) w) as Hother.
  { intros args Hc' Hargs w0. apply string_other; [done|]. rewrite Hargs. intros [= Huv]. done. }
  by rewrite !Hother.
Qed.
End Facts.

(** ** The theorem at work *)

(** A server in memory that knows the string commands. *)
Definition string_command (args : list string) : State (gmap string string) (option redisReply) := λ w,
  match args with
  | [cmd; key] =>
    if String.eqb cmd "GET"
    then (Some (match w !! key with Some v => REDIS_REPLY_STRING v | None => REDIS_REPLY_NIL end), w)
    else if String.eqb cmd "DEL" then (Some (REDIS_REPLY_INTEGER 1), delete key w)
    else (None, w)
  | [cmd; key; _; v] =>
    if String.eqb cmd "SETEX" then (Some (REDIS_REPLY_STATUS "OK"), <[key := v]> w) else (None, w)
  | _ => (None, w)
  end.

#[local] Instance string_hiredis : Hiredis (gmap string string) := {
  redisConnect _ _ := mret (Some (1%nat, false));
  redisFree _ := mret tt;
  context_err _ _ := false;
  redisCommand _ := string_command
}.

#[local] Instance string_laws : RedisStrings (gmap string string).
Proof.
  refine {| redis_string key w := w !! key; healthy _ _ := True |}.
  - done.
  - intros c args key w _ Hk. unfold exec; cbn. destruct args as [|cmd [|k [|t [|v [|]]]]]; try done; cbn in *.
    + destruct (String.eqb_spec cmd "GET"); [done|]. destruct (String.eqb_spec cmd "DEL"); [|done]. subst cmd.
      cbn in *. by rewrite lookup_delete_ne by congruence.
    + destruct (String.eqb_spec cmd "SETEX"); [|done]. subst cmd. cbn in *. by rewrite lookup_insert_ne by congruence.
  - intros c key ttl v w _ _. unfold exec; cbn. by rewrite lookup_insert_eq.
  - done.
  - intros c key w _. unfold exec; cbn. by rewrite lookup_delete_eq.
Defined.

Lemma cache_roundtrip_witness :
  eval (getToken (Some 1%nat) "bob") (exec (cacheToken (Some 1%nat) "bob" "tok" 60) (∅ : gmap string string)) =
  (true, Some "tok"%string).
Proof. apply (cache_roundtrip 1%nat "bob" "tok" 60 (∅ : gmap string string)); done. Defined.
