(* ===== verification/PubSub.v ===== *)
(** [RedisPubSub] of [src/repository/redis_pubsub.{h,cc}]: publishing, subscriptions, and the
    thread that receives what is published, as a transition system of the owner of the
    object and the subscriber thread. *)

From S2P Require Import Prelude Machine CString Redis.

Local Open Scope Z_scope.

(** ** RedisPubSub *)

(** [callbacks_] maps a channel to the identity of the function given for it, [sub_thread_]
    says whether the thread object holds a thread, that is whether it is joinable, and
    [calls] records the callbacks made by the receiving loop. *)
Record RedisPubSub := mkRedisPubSub {
  ps_host : string; ps_port : Z; ps_password : string; ps_db : Z;
  pub_conn_ : option redisContext;
  sub_conn_ : option redisContext;
  running_ : bool;
  sub_thread_ : bool;
  callbacks_ : gmap string nat;
  calls : list (nat * string * string)
}.

Definition new_RedisPubSub : RedisPubSub :=
  mkRedisPubSub "" 6379 "" 0 None None false false ∅ [].

Definition set_callbacks (f : gmap string nat → gmap string nat) (s : RedisPubSub) : RedisPubSub :=
  mkRedisPubSub (ps_host s) (ps_port s) (ps_password s) (ps_db s) (pub_conn_ s) (sub_conn_ s)
    (running_ s) (sub_thread_ s) (f (callbacks_ s)) (calls s).

Definition set_running (running thread : bool) (s : RedisPubSub) : RedisPubSub :=
  mkRedisPubSub (ps_host s) (ps_port s) (ps_password s) (ps_db s) (pub_conn_ s) (sub_conn_ s)
    running thread (callbacks_ s) (calls s).

Definition set_conns (pub sub : option redisContext) (s : RedisPubSub) : RedisPubSub :=
  mkRedisPubSub (ps_host s) (ps_port s) (ps_password s) (ps_db s) pub sub
    (running_ s) (sub_thread_ s) (callbacks_ s) (calls s).

Definition add_call (c : nat * string * string) (s : RedisPubSub) : RedisPubSub :=
  mkRedisPubSub (ps_host s) (ps_port s) (ps_password s) (ps_db s) (pub_conn_ s) (sub_conn_ s)
    (running_ s) (sub_thread_ s) (callbacks_ s) (calls s ++ [c]).

Section RedisPubSub.
  Context {W : Type} `{Hiredis W}.

Definition on_library {A} (m : State W A) : State (RedisPubSub * W) A := λ s,
  let '(a, w) := m (snd s) in (a, (fst s, w)).

Definition update (f : RedisPubSub → RedisPubSub) : State (RedisPubSub * W) unit :=
  modify (λ s, (f (fst s), snd s)).

Definition pubsub_createConnection (s : RedisPubSub) : State W (option redisContext) :=
  redis_connect (ps_host s) (ps_port s) (ps_password s) (ps_db s).

Definition pubsub_init (host : string) (port : Z) (password : string) (db : Z)
    : State (RedisPubSub * W) bool :=
  _ ← update (λ s, mkRedisPubSub host port password db (pub_conn_ s) (sub_conn_ s) (running_ s)
                     (sub_thread_ s) (callbacks_ s) (calls s));
  s ← gets fst;
  pub ← on_library (pubsub_createConnection s);
  _ ← update (λ s, set_conns pub (sub_conn_ s) s);
  sub ← on_library (pubsub_createConnection s);
  _ ← update (λ s, set_conns (pub_conn_ s) sub s);
  mret (match pub, sub with Some _, Some _ => true | _, _ => false end).

(** The verdict of a command that only asks for a reply. *)
Definition replied (conn : redisContext) (args : list string) : State (RedisPubSub * W) bool :=
  reply ← on_library (redisCommand conn (map c_str args));
  mret (match reply with Some _ => true | None => false end).

Definition publish (channel message : string) : State (RedisPubSub * W) bool :=
  s ← gets fst;
  match pub_conn_ s with
  | None => mret false
  | Some conn => replied conn ["PUBLISH"; channel; message]%string
  end.

(** The reply that [subscribe] reads is the next one of the connection, whatever it is: a
    message that arrives just then is taken for the confirmation and reaches no callback. *)
Definition subscribe (channel : string) (callback : nat) : State (RedisPubSub * W) bool :=
  s ← gets fst;
  match sub_conn_ s with
  | None => mret false
  | Some conn =>
    _ ← update (set_callbacks <[channel := callback]>);
    replied conn ["SUBSCRIBE"; channel]%string
  end.

Definition unsubscribe (channel : string) : State (RedisPubSub * W) bool :=
  s ← gets fst;
  match sub_conn_ s with
  | None => mret false
  | Some conn =>
    _ ← update (set_callbacks (delete channel));
    replied conn ["UNSUBSCRIBE"; channel]%string
  end.

Definition pubsub_start : State (RedisPubSub * W) unit :=
  s ← gets fst;
  if running_ s then mret tt else update (set_running true true).

(** [stop] is the part before the call of [join], and the part after it. *)
Definition stop_begin : State (RedisPubSub * W) unit :=
  update (λ s, set_running false (sub_thread_ s) s).

Definition stop_end : State (RedisPubSub * W) unit :=
  _ ← update (λ s, set_running (running_ s) false s);
  s ← gets fst;
  _ ← match pub_conn_ s with Some c => on_library (redisFree c) | None => mret tt end;
  _ ← match sub_conn_ s with Some c => on_library (redisFree c) | None => mret tt end;
  update (set_conns None None).

(** The whole of it, where there is no thread to wait for or it has returned. *)
Definition pubsub_stop : State (RedisPubSub * W) unit := _ ← stop_begin; stop_end.

(** The destructor. *)
Definition pubsub_destroy : State (RedisPubSub * W) unit := pubsub_stop.

(** [reply->element[i]->str] as a [std::string]: null for a reply that carries no text,
    which a string cannot be made from. *)
Definition reply_str (r : redisReply) : outcome string :=
  match r with
  | REDIS_REPLY_STRING s | REDIS_REPLY_STATUS s | REDIS_REPLY_ERROR s => Done (c_str s)
  | _ => OutOfBounds
  end.

(** One turn of [runLoop] that received a reply. *)
Definition handle_reply (reply : redisReply) (s : RedisPubSub) : outcome RedisPubSub :=
  match reply with
  | REDIS_REPLY_ARRAY (e0 :: e1 :: e2 :: _) =>
    type ← reply_str e0;
    channel ← reply_str e1;
    let message := match e2 with REDIS_REPLY_STRING m => c_str m | _ => ""%string end in
    if String.eqb type "message" then
      match callbacks_ s !! channel with
      | Some callback => Done (add_call (callback, channel, message) s)
      | None => Done s
      end
    else Done s
  | _ => Done s
  end.
End RedisPubSub.

(** ** The subscriber thread *)

(** Where the thread is: there is none, at the beginning of [runLoop], about to read
    [running_], inside [redisGetReply] on a context, or returned.  [Crashed] is a process
    that used a null pointer or overwrote a joinable thread. *)
Inductive Thread :=
| NoThread
| Entered
| AtCheck
| Receiving (conn : redisContext)
| Returned
| Crashed.

#[export] Instance Thread_eq_dec : EqDecision Thread.
Proof. solve_decision. Defined.

(** [stopping] says that the owner is inside [stop], at the call of [join]. *)
Record System (W : Type) := mkSystem {
  ps : RedisPubSub;
  lib : W;
  thread : Thread;
  stopping : bool
}.
Arguments mkSystem {W} _ _ _ _.
Arguments ps {W} _.
Arguments lib {W} _.
Arguments thread {W} _.
Arguments stopping {W} _.

(** What redisGetReply gave: an error, [REDIS_OK] with a null reply, or a reply. *)
Inductive received :=
| RecvError
| NullReply
| Reply (reply : redisReply).

Inductive ps_event :=
| Publish (channel message : string)
| Subscribe (channel : string) (callback : nat)
| Unsubscribe (channel : string)
| Start
| Stop
| Joined
| Enter
| CheckRunning
| GetReply (r : received).

(** Whether [sub_thread_.joinable()] is false or [join] returns at once. *)
Definition over (t : Thread) : bool :=
  match t with NoThread | Returned => true | _ => false end.

Section System.
  Context {W : Type} `{Hiredis W}.

(** A call of the owner, and a step of the thread. *)
Definition call {A} (m : State (RedisPubSub * W) A) (s : System W) : System W :=
  let '(p, w) := exec m (ps s, lib s) in mkSystem p w (thread s) (stopping s).

Definition goto (t : Thread) (s : System W) : System W := mkSystem (ps s) (lib s) t (stopping s).

Definition set_stopping (b : bool) (s : System W) : System W := mkSystem (ps s) (lib s) (thread s) b.

(** One event, [None] when it is not possible.  The owner does nothing else while it is
    inside [stop].  A subscription while the thread runs is a data race, on the context
    and on [callbacks_], and has no meaning; it is not a step. *)
Definition ps_step (e : ps_event) (s : System W) : option (System W) :=
  match e with
  | Publish channel message => if stopping s then None else Some (call (publish channel message) s)
  | Subscribe channel callback =>
    if stopping s || negb (over (thread s)) then None else Some (call (subscribe channel callback) s)
  | Unsubscribe channel =>
    if stopping s || negb (over (thread s)) then None else Some (call (unsubscribe channel) s)
  | Start =>
    if stopping s then None
    else if running_ (ps s) then Some s
    else if sub_thread_ (ps s) then Some (goto Crashed s)
    else Some (goto Entered (call pubsub_start s))
  | Stop => if stopping s then None else Some (set_stopping true (call stop_begin s))
  | Joined =>
    if stopping s && over (thread s) then Some (set_stopping false (goto NoThread (call stop_end s))) else None
  | Enter =>
    match thread s with
    | Entered => Some (goto (match sub_conn_ (ps s) with Some _ => AtCheck | None => Returned end) s)
    | _ => None
    end
  | CheckRunning =>
    match thread s with
    | AtCheck =>
      Some (goto (if running_ (ps s)
                  then match sub_conn_ (ps s) with Some c => Receiving c | None => Crashed end
                  else Returned) s)
    | _ => None
    end
  | GetReply r =>
    match thread s with
    | Receiving _ =>
      Some (match r with
            | RecvError | NullReply => goto AtCheck s
            | Reply reply =>
              match handle_reply reply (ps s) with
              | Done p => mkSystem p (lib s) AtCheck (stopping s)
              | _ => goto Crashed s
              end
            end)
    | _ => None
    end
  end.

Fixpoint ps_run (es : list ps_event) (s : System W) : option (System W) :=
  match es with
  | [] => Some s
  | e :: es => s' ← ps_step e s; ps_run es s'
  end.

(** The object after its construction and a call of [init]. *)
Definition ps_boot (host : string) (port : Z) (password : string) (db : Z) (w : W) : System W :=
  call (pubsub_init host port password db) (mkSystem new_RedisPubSub w NoThread false).
End System.

(** ** What subscribers should hear *)

(** Redis pushes arrays whose first two elements are text: the kind and the channel. *)
Definition is_text (r : redisReply) : Prop :=
  match r with REDIS_REPLY_STRING _ | REDIS_REPLY_STATUS _ | REDIS_REPLY_ERROR _ => True | _ => False end.

Definition well_formed (e : ps_event) : Prop :=
  match e with
  | GetReply (Reply (REDIS_REPLY_ARRAY (e0 :: e1 :: _))) => is_text e0 ∧ is_text e1
  | _ => True
  end.

(** A message on a channel. *)
Definition pushed (e : ps_event) : option (string * string) :=
  match e with
  | GetReply (Reply (REDIS_REPLY_ARRAY (e0 :: e1 :: e2 :: _))) =>
    match reply_str e0, reply_str e1 with
    | Done kind, Done channel =>
      if String.eqb kind "message"
      then Some (channel, match e2 with REDIS_REPLY_STRING m => c_str m | _ => ""%string end) else None
    | _, _ => None
    end
  | _ => None
  end.

(** The last subscription to a channel, [None] where it was cancelled. *)
Fixpoint subscribed (es : list ps_event) (channel : string) (now : option nat) : option nat :=
  match es with
  | [] => now
  | Subscribe ch cb :: es => subscribed es channel (if decide (ch = channel) then Some cb else now)
  | Unsubscribe ch :: es => subscribed es channel (if decide (ch = channel) then None else now)
  | _ :: es => subscribed es channel now
  end.

(** The call that is due for an event after [before]: for a message to a channel that has
    a subscription at that time. *)
Definition due (before : list ps_event) (e : ps_event) : list (nat * string * string) :=
  match pushed e with
  | Some (ch, m) => match subscribed before ch None with Some cb => [(cb, ch, m)] | None => [] end
  | None => []
  end.

(** All calls that are due, in order. *)
Fixpoint heard (before es : list ps_event) : list (nat * string * string) :=
  match es with
  | [] => []
  | e :: es => due before e ++ heard (before ++ [e]) es
  end.

(** ** Subscriptions *)

Inductive sub_op :=
| Sub (channel : string) (callback : nat)
| Unsub (channel : string).

Definition run_sub {W} `{Hiredis W} (s : RedisPubSub * W) (o : sub_op) : RedisPubSub * W :=
  match o with
  | Sub ch cb => exec (subscribe ch cb) s
  | Unsub ch => exec (unsubscribe ch) s
  end.

(** The callback the last operation on a channel left. *)
Definition sub_spec (ops : list sub_op) (channel : string) : option nat :=
  fold_left (λ r o,
    match o with
    | Sub ch cb => if bool_decide (ch = channel) then Some cb else r
    | Unsub ch => if bool_decide (ch = channel) then None else r
    end) ops None.

Lemma run_sub_callbacks {W} `{Hiredis W} (s : RedisPubSub * W) c o :
  sub_conn_ (fst s) = Some c →
  let s' := run_sub s o in
  sub_conn_ (fst s') = Some c ∧ calls (fst s') = calls (fst s) ∧
  callbacks_ (fst s') =
    match o with
    | Sub ch cb => <[ch := cb]> (callbacks_ (fst s))
    | Unsub ch => delete ch (callbacks_ (fst s))
    end.
Proof.
  intros Hc. destruct s as [s w], o as [ch cb|ch]; cbv zeta; cbn [run_sub]; unfold subscribe, unsubscribe;
    autorewrite with chat; cbn [fst snd] in *; rewrite Hc; autorewrite with chat; unfold replied;
    autorewrite with chat; unfold update; autorewrite with chat; unfold on_library, exec; cbn [fst snd];
    by destruct (redisCommand _ _ w).
Qed.

(** A published message reaches the function of the last subscription to its channel
    and no other, once, and after the channel was unsubscribed nobody. *)
Theorem message_reaches_subscriber {W} `{Hiredis W} s c (w : W) ops channel message :
  sub_conn_ s = Some c → callbacks_ s = ∅ →
  let s1 := fst (fold_left run_sub ops (s, w)) in
  ∃ s2, handle_reply (REDIS_REPLY_ARRAY [REDIS_REPLY_STRING "message"; REDIS_REPLY_STRING channel;
                        REDIS_REPLY_STRING message]) s1 = Done s2 ∧
    calls s2 = calls s ++
      match sub_spec ops (c_str channel) with
      | Some cb => [(cb, c_str channel, c_str message)]
      | None => []
      end.
Proof.
  intros Hc Hempty. cbv zeta.
  assert (sub_conn_ (fst (fold_left run_sub ops (s, w))) = Some c ∧
    calls (fst (fold_left run_sub ops (s, w))) = calls s ∧
    ∀ ch, callbacks_ (fst (fold_left run_sub ops (s, w))) !! ch = sub_spec ops ch) as (_ & Hcalls & Hspec).
  { unfold sub_spec. induction ops as [|o ops IH] using rev_ind; [cbn; by rewrite Hempty|].
    setoid_rewrite fold_left_app. cbn [fold_left].
    destruct IH as (Hc' & Hcalls & Hspec). set (st := fold_left run_sub ops (s, w)) in *.
    destruct (run_sub_callbacks st c o Hc') as (H1 & H2 & H3). split; [done|]. split; [by rewrite H2|].
    intros ch. rewrite H3. destruct o as [ch' cb|ch']; rewrite ?lookup_insert, ?lookup_delete; rewrite Hspec.
    - by destruct (decide (ch' = ch)), (bool_decide_reflect (ch' = ch)).
    - by destruct (decide (ch' = ch)), (bool_decide_reflect (ch' = ch)). }
  cbn. rewrite Hspec. destruct (sub_spec ops (c_str channel)) as [cb|]; eexists; (split; [done|]); cbn;
    by rewrite Hcalls, ?app_nil_r.
Qed.

(** ** Invariants of the system *)

Section Facts.
  Context {W : Type} `{Hiredis W}.

Lemma exec_on_library {A} (m : State W A) (s : RedisPubSub * W) :
  exec (on_library m) s = (fst s, exec m (snd s)).
Proof. unfold on_library, exec. by destruct (m (snd s)). Qed.

Lemma exec_update f (s : RedisPubSub * W) : exec (update f) s = (f (fst s), snd s).
Proof. done. Qed.

Lemma exec_replied c args (s : RedisPubSub * W) : fst (exec (replied c args) s) = fst s.
Proof. unfold replied. by rewrite exec_bind, exec_on_library. Qed.

Lemma call_eq {A} (m : State (RedisPubSub * W) A) (s : System W) :
  call m s = mkSystem (fst (exec m (ps s, lib s))) (snd (exec m (ps s, lib s))) (thread s) (stopping s).
Proof. unfold call. by destruct (exec m _). Qed.

(** What the calls do to the object. *)
Lemma publish_ps ch m (s : RedisPubSub * W) : fst (exec (publish ch m) s) = fst s.
Proof.
  unfold publish. rewrite exec_bind, eval_gets, exec_gets. destruct (pub_conn_ (fst s)); [|done].
  by rewrite exec_replied.
Qed.

Lemma subscribe_ps ch cb (s : RedisPubSub * W) :
  fst (exec (subscribe ch cb) s) =
  match sub_conn_ (fst s) with Some _ => set_callbacks <[ch := cb]> (fst s) | None => fst s end.
Proof.
  unfold subscribe. rewrite exec_bind, eval_gets, exec_gets. destruct (sub_conn_ (fst s)); [|done].
  by rewrite exec_bind, exec_replied, exec_update.
Qed.

Lemma unsubscribe_ps ch (s : RedisPubSub * W) :
  fst (exec (unsubscribe ch) s) =
  match sub_conn_ (fst s) with Some _ => set_callbacks (delete ch) (fst s) | None => fst s end.
Proof.
  unfold unsubscribe. rewrite exec_bind, eval_gets, exec_gets. destruct (sub_conn_ (fst s)); [|done].
  by rewrite exec_bind, exec_replied, exec_update.
Qed.

Lemma stop_end_ps (s : RedisPubSub * W) :
  fst (exec stop_end s) = set_conns None None (set_running (running_ (fst s)) false (fst s)).
Proof.
  unfold stop_end. autorewrite with chat. rewrite exec_update. cbn [fst snd].
  destruct (pub_conn_ _), (sub_conn_ _); autorewrite with chat; rewrite ?exec_on_library; done.
Qed.

Lemma pubsub_stop_ps (s : RedisPubSub * W) :
  fst (exec pubsub_stop s) = set_conns None None (set_running false false (fst s)).
Proof. unfold pubsub_stop, stop_begin. rewrite exec_bind, exec_update. by rewrite stop_end_ps. Qed.

(** The destructor after a [stop] frees nothing a second time. *)
Lemma stop_then_destroy (s : RedisPubSub * W) :
  exec pubsub_destroy (exec pubsub_stop s) = exec pubsub_stop s.
Proof. pose proof (pubsub_stop_ps s) as Hp. destruct (exec pubsub_stop s) as [p w]. cbn in Hp. by subst p. Qed.

Lemma start_ps (s : RedisPubSub * W) :
  running_ (fst s) = false → fst (exec pubsub_start s) = set_running true true (fst s).
Proof. intros Hr. unfold pubsub_start. autorewrite with chat. by rewrite Hr. Qed.

(** Handling a reply makes at most one call of a callback and changes nothing else. *)
Lemma handle_reply_calls reply p :
  well_formed (GetReply (Reply reply)) →
  ∃ new, handle_reply reply p =
    Done (mkRedisPubSub (ps_host p) (ps_port p) (ps_password p) (ps_db p) (pub_conn_ p) (sub_conn_ p)
            (running_ p) (sub_thread_ p) (callbacks_ p) (calls p ++ new)) ∧
    new = match pushed (GetReply (Reply reply)) with
          | Some (ch, m) => match callbacks_ p !! ch with Some cb => [(cb, ch, m)] | None => [] end
          | None => []
          end.
Proof.
  intros Hwf. eexists. split; [|done].
  assert (∀ p, mkRedisPubSub (ps_host p) (ps_port p) (ps_password p) (ps_db p) (pub_conn_ p) (sub_conn_ p)
            (running_ p) (sub_thread_ p) (callbacks_ p) (calls p ++ []) = p) as Hsame.
  { intros []. cbn. by rewrite app_nil_r. }
  destruct reply as [| | | | |[|e0 [|e1 [|e2 es]]]]; cbn [handle_reply pushed]; rewrite ?Hsame; try done.
  destruct Hwf as [H0 H1].
  assert (∀ e, is_text e → ∃ s, reply_str e = Done s) as Htext by (intros []; cbn; eauto; done).
  destruct (Htext e0 H0) as [kind ->], (Htext e1 H1) as [ch ->]. cbn.
  destruct (String.eqb kind "message"); [|by rewrite Hsame].
  destruct (callbacks_ p !! ch); [done|by rewrite Hsame].
Qed.

(** The thread uses the context only while the object has it, there is a thread exactly
    when the thread object is joinable, and between two runs there is none. *)
Definition consistent (s : System W) : Prop :=
  thread s ≠ Crashed ∧
  sub_thread_ (ps s) = negb (bool_decide (thread s = NoThread)) ∧
  (running_ (ps s) = true → stopping s = false) ∧
  (running_ (ps s) = false → stopping s = false → thread s = NoThread) ∧
  match thread s with
  | AtCheck => is_Some (sub_conn_ (ps s))
  | Receiving c => sub_conn_ (ps s) = Some c
  | _ => True
  end.

(** The connections are those of [init] until [stop] frees them, and then none. *)
Definition holds_conns (pub sub : option redisContext) (s : System W) : Prop :=
  (pub_conn_ (ps s) = pub ∧ sub_conn_ (ps s) = sub) ∨ (pub_conn_ (ps s) = None ∧ sub_conn_ (ps s) = None).

(** The object has heard what it should. *)
Definition informed (es : list ps_event) (s : System W) : Prop :=
  calls (ps s) = heard [] es ∧
  (is_Some (sub_conn_ (ps s)) → ∀ ch, callbacks_ (ps s) !! ch = subscribed es ch None).

Lemma subscribed_app es1 es2 ch now :
  subscribed (es1 ++ es2) ch now = subscribed es2 ch (subscribed es1 ch now).
Proof. revert now. induction es1 as [|e es1 IH]; intros now; [done|]. by destruct e; cbn; rewrite ?IH. Qed.

Lemma heard_app before es1 es2 : heard before (es1 ++ es2) = heard before es1 ++ heard (before ++ es1) es2.
Proof.
  revert before. induction es1 as [|e es1 IH]; intros before; cbn; [by rewrite app_nil_r|].
  by rewrite IH, <- (assoc_L (++)), <- (assoc_L (++)).
Qed.

(** Show that a state is consistent from what is known of its parts. *)
Ltac agree := unfold consistent; cbn in *; split_and!; try done; eauto; naive_solver.

(** The end of [stop] frees the connections. *)
Definition frees (e : ps_event) : bool := match e with Joined => true | _ => false end.

(** The parts of the object a step changes: callbacks, connections and calls. *)
Lemma ps_step_effect e s s' :
  well_formed e → consistent s → ps_step e s = Some s' →
  consistent s' ∧
  pub_conn_ (ps s') = (if frees e then None else pub_conn_ (ps s)) ∧
  sub_conn_ (ps s') = (if frees e then None else sub_conn_ (ps s)) ∧
  callbacks_ (ps s') =
    match e with
    | Subscribe ch cb => if sub_conn_ (ps s) is Some _ then <[ch := cb]> (callbacks_ (ps s)) else callbacks_ (ps s)
    | Unsubscribe ch => if sub_conn_ (ps s) is Some _ then delete ch (callbacks_ (ps s)) else callbacks_ (ps s)
    | _ => callbacks_ (ps s)
    end ∧
  (pushed e = None → calls (ps s') = calls (ps s)) ∧
  (∀ ch m, pushed e = Some (ch, m) → is_Some (sub_conn_ (ps s)) ∧
    calls (ps s') = calls (ps s) ++
      match callbacks_ (ps s) !! ch with Some cb => [(cb, ch, m)] | None => [] end).
Proof.
  intros Hwf (Hc & Ht & Hr & Hn & Hsub) He.
  destruct s as [p w t st]; cbn [ps lib thread stopping] in *.
  destruct e as [ch m|ch cb|ch| | | | | |r]; cbn [ps_step thread stopping ps] in He.
  - destruct st; simplify_eq. rewrite call_eq. cbn [ps]. rewrite publish_ps.
    split; [by split_and!|]. by split_and!.
  - destruct st; [done|]. destruct (over t) eqn:Ho; simplify_eq/=. rewrite call_eq. cbn [ps]. rewrite subscribe_ps.
    cbn [fst]. destruct (sub_conn_ p) eqn:Hs; (split; [by split_and!; try done; destruct t|by split_and!; cbn; rewrite ?Hs]).
  - destruct st; [done|]. destruct (over t) eqn:Ho; simplify_eq/=. rewrite call_eq. cbn [ps]. rewrite unsubscribe_ps.
    cbn [fst]. destruct (sub_conn_ p) eqn:Hs; (split; [by split_and!; try done; destruct t|by split_and!; cbn; rewrite ?Hs]).
  - destruct st; [done|]. destruct (running_ p) eqn:Hrun; simplify_eq/=.
    { split; [unfold consistent; cbn; rewrite Hrun; by split_and!|by split_and!]. }
    rewrite (Hn eq_refl eq_refl) in *. cbn in Ht. rewrite Ht in He. simplify_eq/=. rewrite call_eq. unfold goto. cbn [ps].
    rewrite start_ps by done. cbn. by split_and!.
  - destruct st; simplify_eq/=. rewrite call_eq. unfold set_stopping, stop_begin. cbn [ps]. rewrite exec_update. cbn.
    by split_and!.
  - destruct st, (over t) eqn:Ho; simplify_eq/=. rewrite call_eq. unfold set_stopping, goto. cbn [ps].
    rewrite stop_end_ps. cbn. by split_and!.
  - destruct t; simplify_eq/=. unfold goto; cbn. destruct (sub_conn_ p) eqn:Hs; (split; [agree|by split_and!]).
  - destruct t; simplify_eq/=. unfold goto; cbn. destruct Hsub as [c Hs]. rewrite Hs.
    destruct (running_ p) eqn:Hrun; (split; [agree|by split_and!]).
  - destruct t as [| | |c| |]; simplify_eq/=. destruct r as [| |reply]; [split; [agree|by split_and!]..|].
    destruct (handle_reply_calls reply p Hwf) as (new & -> & Hnew). cbn in Hnew |- *.
    split; [agree|]. split_and!; try done.
    + intros Hp. rewrite Hp in Hnew. subst new. cbn. by rewrite app_nil_r.
    + intros ch m Hp. rewrite Hp in Hnew. subst new. rewrite Hsub. by split; [eauto|].
Qed.

Lemma ps_step_inv pub sub es e s s' :
  well_formed e → ps_step e s = Some s' →
  consistent s → holds_conns pub sub s → informed es s →
  consistent s' ∧ holds_conns pub sub s' ∧ informed (es ++ [e]) s'.
Proof.
  intros Hwf He Hc Hh [Hcalls Hcb].
  destruct (ps_step_effect e s s' Hwf Hc He) as (Hc' & Hpub & Hsub & Hcb' & Hquiet & Hpush).
  split; [done|]. split.
  { unfold holds_conns in *. rewrite Hpub, Hsub. destruct (frees e); [by right|done]. }
  split.
  - rewrite heard_app. cbn. rewrite app_nil_r, <- Hcalls. unfold due.
    destruct (pushed e) as [[ch m]|] eqn:Hp; [|by rewrite Hquiet, app_nil_r].
    destruct (Hpush ch m eq_refl) as [Hs ->]. by rewrite Hcb.
  - rewrite Hsub, Hcb'. destruct (frees e); [by intros []|]. intros Hs ch.
    rewrite subscribed_app. specialize (Hcb Hs). destruct Hs as [c Hs]. rewrite Hs.
    destruct e as [| ch' cb | ch'| | | | | |]; cbn; rewrite ?Hcb; try done.
    + rewrite lookup_insert. by rewrite Hcb.
    + rewrite lookup_delete. by rewrite Hcb.
Qed.

Lemma ps_run_inv pub sub before es s s' :
  Forall well_formed es → ps_run es s = Some s' →
  consistent s → holds_conns pub sub s → informed before s →
  consistent s' ∧ holds_conns pub sub s' ∧ informed (before ++ es) s'.
Proof.
  intros Hwf. revert before s. induction Hwf as [|e es He Hes IH]; intros before s Hrun Hc Hh Hi; cbn in Hrun.
  - simplify_eq. by rewrite app_nil_r.
  - destruct (ps_step e s) as [s1|] eqn:Hs; [|done]. cbn in Hrun.
    destruct (ps_step_inv pub sub before e s s1 He Hs Hc Hh Hi) as (Hc1 & Hh1 & Hi1).
    destruct (IH _ _ Hrun Hc1 Hh1 Hi1) as (Hc2 & Hh2 & Hi2). split_and!; try done.
    by rewrite <- (assoc_L (++)) in Hi2.
Qed.

Lemma pubsub_init_ps host port password db (s : RedisPubSub * W) :
  let p := fst (exec (pubsub_init host port password db) s) in
  running_ p = running_ (fst s) ∧ sub_thread_ p = sub_thread_ (fst s) ∧
  callbacks_ p = callbacks_ (fst s) ∧ calls p = calls (fst s).
Proof.
  cbv zeta. unfold pubsub_init. autorewrite with chat. rewrite !exec_update, !exec_on_library. done.
Qed.

(** Every state of a system that was set up by [init]. *)
Lemma ps_reachable host port password db (w : W) es s :
  Forall well_formed es → ps_run es (ps_boot host port password db w) = Some s →
  let boot := ps (ps_boot host port password db w) in
  consistent s ∧ holds_conns (pub_conn_ boot) (sub_conn_ boot) s ∧ informed es s.
Proof.
  intros Hwf Hrun. cbv zeta.
  destruct (pubsub_init_ps host port password db (new_RedisPubSub, w)) as (Hr & Ht & Hcb & Hcalls).
  apply (ps_run_inv _ _ [] es _ s Hwf Hrun); unfold ps_boot, consistent, holds_conns, informed; rewrite call_eq; cbn [ps thread stopping lib].
  - rewrite Hr, Ht. by split_and!.
  - by left.
  - rewrite Hcb, Hcalls. split; [done|]. intros _ ch. apply lookup_empty.
Qed.
End Facts.
(** ** Theorems *)

(** Steps of the thread that may be left until it returns, once [running_] is false. *)
Definition turns_left (t : Thread) : nat :=
  match t with
  | Entered | Receiving _ => 2
  | AtCheck => 1
  | _ => 0
  end.

Section Theorems.
  Context {W : Type} `{Hiredis W}.

(** C19. The subscriber thread is safe: whatever the owner calls and whatever arrives, as long
    as Redis pushes what its protocol says, no null pointer is used and no joinable thread
    is overwritten; the thread object is joinable exactly while there is a thread; the
    thread waits on the context of [init] and no other, which the object still has; and
    the object has both connections of [init] until [stop] freed them, and then none. *)
Theorem subscriber_safe host port password db (w : W) es s :
  Forall well_formed es → ps_run es (ps_boot host port password db w) = Some s →
  let boot := ps (ps_boot host port password db w) in
  thread s ≠ Crashed ∧ sub_thread_ (ps s) = negb (bool_decide (thread s = NoThread)) ∧
  (∀ c, thread s = Receiving c → sub_conn_ (ps s) = Some c ∧ sub_conn_ boot = Some c) ∧
  holds_conns (pub_conn_ boot) (sub_conn_ boot) s.
Proof.
  intros Hwf Hrun. cbv zeta.
  destruct (ps_reachable host port password db w es s Hwf Hrun) as ((Hc & Ht & _ & _ & Hs) & Hh & _).
  split_and!; try done. intros c Hthread. rewrite Hthread in Hs. split; [done|].
  destruct Hh as [[_ <-]|[_ Hnone]]; [done|]. by rewrite Hnone in Hs.
Qed.

(** C18. The receiving loop implements the subscriptions: in every run the functions called are
    those that were subscribed last to the channel of each message at the time it came,
    one call for each such message, in the order of the messages, with the channel and the
    text; nothing else is called. *)
Theorem subscriber_dispatches host port password db (w : W) es s :
  Forall well_formed es → ps_run es (ps_boot host port password db w) = Some s →
  calls (ps s) = heard [] es.
Proof. intros Hwf Hrun. by destruct (ps_reachable host port password db w es s Hwf Hrun) as (_ & _ & -> & _). Qed.

Lemma handle_reply_running reply p p' : handle_reply reply p = Done p' → running_ p' = running_ p.
Proof.
  destruct reply as [| | | | |[|e0 [|e1 [|e2 es]]]]; cbn [handle_reply]; try (intros [= <-]; done).
  intros (kind & _ & (ch & _ & Hk)%outcome_bind_done)%outcome_bind_done.
  destruct (String.eqb kind "message"); [|by simplify_eq]. destruct (callbacks_ p !! ch); by simplify_eq.
Qed.

(** One step of the thread while [stop] waits. *)
Lemma stopping_step e s s' :
  running_ (ps s) = false → stopping s = true → ps_step e s = Some s' → frees e = false →
  running_ (ps s') = false ∧ stopping s' = true ∧ (S (turns_left (thread s')) <= turns_left (thread s))%nat.
Proof.
  destruct s as [p w t st]. cbn. intros Hr -> He Hf.
  destruct e as [| | | | | | | |[| |reply]]; cbn in He; simplify_eq/=; destruct t; simplify_eq/=.
  - destruct (sub_conn_ p); cbn; split_and!; try done; lia.
  - rewrite Hr. cbn. split_and!; try done; lia.
  - split_and!; try done; lia.
  - split_and!; try done; lia.
  - destruct (handle_reply reply p) as [p'| |] eqn:Hp; simplify_eq/=; try (split_and!; [done|done|lia]).
    apply handle_reply_running in Hp. rewrite Hp. by split_and!; [..|lia].
Qed.

Lemma stopping_run es s s' :
  running_ (ps s) = false → stopping s = true → ps_run es s = Some s' → Forall (λ e, frees e = false) es →
  running_ (ps s') = false ∧ stopping s' = true ∧ (length es + turns_left (thread s') <= turns_left (thread s))%nat.
Proof.
  intros Hr Hst Hrun Hes. revert s Hr Hst Hrun. induction Hes as [|e es He Hes IH]; intros s Hr Hst Hrun; cbn in Hrun.
  - simplify_eq. split_and!; [done|done|cbn; lia].
  - destruct (ps_step e s) as [s1|] eqn:Hs; [|done]. cbn in Hrun.
    destruct (stopping_step e s s1 Hr Hst Hs He) as (Hr1 & Hst1 & Hle).
    destruct (IH s1 Hr1 Hst1 Hrun) as (Hr2 & Hst2 & Hle2). split_and!; [done|done|cbn; lia].
Qed.

(** C20. [stop] and what it waits for.  From the moment [running_] is false the thread makes at
    most two more steps, of which one may be a reply.  Unless it is inside [redisGetReply],
    [join] returns or the thread makes a step by itself, and then [stop] frees both
    connections.  But a thread that is inside [redisGetReply] makes no step before
    something arrives: nothing [stop] does wakes it up, so [stop] waits for the next
    message of any subscribed channel, for ever if there is none. *)
Theorem stop_waits host port password db (w : W) es0 s :
  Forall well_formed es0 → ps_run es0 (ps_boot host port password db w) = Some s → stopping s = true →
  (∀ es s', ps_run es s = Some s' → Forall (λ e, frees e = false) es → (length es <= 2)%nat) ∧
  (over (thread s) = true →
    ∃ s', ps_step Joined s = Some s' ∧ thread s' = NoThread ∧ stopping s' = false ∧
      pub_conn_ (ps s') = None ∧ sub_conn_ (ps s') = None) ∧
  match thread s with
  | Receiving _ => (∀ e s', ps_step e s = Some s' → ∃ r, e = GetReply r) ∧
      ∃ s', ps_run [GetReply NullReply; CheckRunning; Joined] s = Some s'
  | _ => over (thread s) = true ∨ ∃ e s', ps_step e s = Some s' ∧ (e = Enter ∨ e = CheckRunning)
  end.
Proof.
  intros Hwf Hrun Hst. destruct (ps_reachable host port password db w es0 s Hwf Hrun) as ((Hc & Ht & Hr & Hn & Hs) & _ & _).
  assert (running_ (ps s) = false) as Hr0.
  { destruct (running_ (ps s)); [|done]. by specialize (Hr eq_refl); rewrite Hst in Hr. }
  split_and!.
  - intros es s' Hes Hf. destruct (stopping_run es s s' Hr0 Hst Hes Hf) as (_ & _ & Hle).
    revert Hle. unfold turns_left. repeat case_match; lia.
  - intros Ho. destruct s as [p w' t st]. cbn in *. subst st. rewrite Ho. cbn. eexists. split; [done|].
    rewrite call_eq. unfold set_stopping, goto. cbn [ps thread stopping]. by rewrite stop_end_ps.
  - destruct s as [p w' t st]. cbn in *. subst st. destruct t as [| | |c| |]; try done; try by left.
    + right. exists Enter. cbn. eauto.
    + right. exists CheckRunning. cbn. eauto.
    + split.
      * intros e s' He. destruct e; cbn in He; try done. eauto.
      * cbn. rewrite Hr0. cbn. eauto.
Qed.

(** After an error of the connection the loop does not end or connect again: an error
    takes the thread back to where it was before, on the same context, which hiredis
    answers with an error at once, so the loop spins until [stop]. *)
Theorem errors_spin n (s : System W) :
  thread s = AtCheck → running_ (ps s) = true → is_Some (sub_conn_ (ps s)) →
  ps_run (concat (replicate n [CheckRunning; GetReply RecvError])) s = Some s.
Proof.
  intros Ht Hr [c Hc]. induction n as [|n IH]; [done|]. cbn. rewrite Ht. cbn. rewrite Hr, Hc. cbn.
  destruct s as [p w t st]. cbn in *. subst t. exact IH.
Qed.
End Theorems.

(** ** The theorems at work *)

Lemma message_reaches_subscriber_witness :
  let s := set_conns (Some 1%nat) (Some 2%nat) new_RedisPubSub in
  let ops := [Sub "a" 7; Sub "b" 8; Unsub "a"]%nat in
  ∃ s2, handle_reply (REDIS_REPLY_ARRAY [REDIS_REPLY_STRING "message"; REDIS_REPLY_STRING "b";
          REDIS_REPLY_STRING "hi"]) (fst (fold_left run_sub ops (s, ∅ : ToyRedis))) = Done s2 ∧
    calls s2 = [(8%nat, "b", "hi")]%string.
Proof.
  cbv zeta. apply (message_reaches_subscriber (set_conns (Some 1%nat) (Some 2%nat) new_RedisPubSub) 2%nat
    (∅ : ToyRedis) [Sub "a" 7; Sub "b" 8; Unsub "a"]%nat "b" "hi"); reflexivity.
Defined.

(** A message before the subscription, one after it, one after it was cancelled; then the
    owner stops while the thread waits for a reply. *)
Definition toy_message (ch m : string) : ps_event :=
  GetReply (Reply (REDIS_REPLY_ARRAY [REDIS_REPLY_STRING "message"; REDIS_REPLY_STRING ch; REDIS_REPLY_STRING m])).

Definition toy_events : list ps_event :=
  [Subscribe "a" 7; Subscribe "b" 8; Unsubscribe "a"; Start; Enter; CheckRunning; toy_message "a" "x";
   CheckRunning; toy_message "b" "hi"; CheckRunning; Stop].

Definition toy_system : System ToyRedis := ps_boot "h" 6379 "" 0 ∅.

Definition toy_stopped : System ToyRedis := default toy_system (ps_run toy_events toy_system).

Lemma subscriber_safe_witness :
  sub_conn_ (ps toy_stopped) = Some 1%nat ∧ sub_conn_ (ps toy_system) = Some 1%nat.
Proof.
  refine (proj1 (proj2 (proj2 (subscriber_safe "h" 6379 "" 0 (∅ : ToyRedis) toy_events toy_stopped _ _))) 1%nat _);
    [repeat constructor|vm_compute; reflexivity..].
Defined.

Lemma subscriber_dispatches_witness : calls (ps toy_stopped) = heard [] toy_events.
Proof.
  apply (subscriber_dispatches "h" 6379 "" 0 (∅ : ToyRedis)); [repeat constructor|vm_compute; reflexivity].
Defined.

Example toy_heard : heard [] toy_events = [(8%nat, "b", "hi")]%string.
Proof. reflexivity. Qed.

Lemma stop_waits_witness :
  thread toy_stopped = Receiving 1%nat ∧
  (∀ e s', ps_step e toy_stopped = Some s' → ∃ r, e = GetReply r) ∧
  ∃ s', ps_run [GetReply NullReply; CheckRunning; Joined] toy_stopped = Some s'.
Proof.
  split; [vm_compute; reflexivity|].
  refine (proj2 (proj2 (stop_waits "h" 6379 "" 0 (∅ : ToyRedis) toy_events toy_stopped _ _ _)));
    [repeat constructor|vm_compute; reflexivity..].
Defined.

Lemma errors_spin_witness :
  let s := mkSystem (set_running true true (set_conns (Some 1%nat) (Some 2%nat) new_RedisPubSub)) (∅ : ToyRedis) AtCheck false in
  ps_run (concat (replicate 5 [CheckRunning; GetReply RecvError])) s = Some s.
Proof. cbv zeta. apply (errors_spin 5); [reflexivity|reflexivity|by eexists]. Defined.
