(* ===== verification/Deployment.v ===== *)
(** The program [chat_server] as [src/main.cc] puts it together: one pool of MySQL
    connections, one Redis connection per thread, one random generator per thread, the
    repositories on top of them, and the chat server with its services on the
    repositories. *)

From S2P Require Import Prelude Machine CString Proto SessionManager RoomManager Repositories MemWorld.
From S2P Require Import MySQL MySQLRepos FriendStore Redis PubSub.
From S2P Require Import LoginService ChatService FriendService RoomService ChatServer ChatServerFacts.
From stdpp Require Import functions.

Local Open Scope Z_scope.

(** ** The world of the process *)

(** [M] is the world behind the MySQL library, [R] the one behind hiredis, with the clock,
    and [G] a random generator.  The members of [redisPool] that are [thread_local] are in
    [tls], per thread; [gens] are the generators of [generateToken], per thread, and
    [current] is the thread that runs. *)
Record Program (M R G : Type) := mkProgram {
  db : MySQLPool * M;
  redisPool : RedisPool;
  redis : R;
  tls : nat → option redisContext * bool;
  pubsub : RedisPubSub;
  gens : nat → G;
  current : nat
}.
Arguments mkProgram {M R G} _ _ _ _ _ _ _.
Arguments db {M R G} _.
Arguments redisPool {M R G} _.
Arguments redis {M R G} _.
Arguments tls {M R G} _.
Arguments pubsub {M R G} _.
Arguments gens {M R G} _.
Arguments current {M R G} _.

Section Program.
  Context {M R G : Type}.

Definition set_db (d : MySQLPool * M) (s : Program M R G) : Program M R G :=
  mkProgram d (redisPool s) (redis s) (tls s) (pubsub s) (gens s) (current s).

Definition set_redis (r : R) (s : Program M R G) : Program M R G :=
  mkProgram (db s) (redisPool s) r (tls s) (pubsub s) (gens s) (current s).

Definition set_current (t : nat) (s : Program M R G) : Program M R G :=
  mkProgram (db s) (redisPool s) (redis s) (tls s) (pubsub s) (gens s) t.

(** What a thread sees of the Redis pool: the members they share and its own connection. *)
Definition pool_of (t : nat) (s : Program M R G) : RedisPool * R :=
  (Redis.set_tls (fst (tls s t)) (snd (tls s t)) (redisPool s), redis s).

Definition put_pool_of (t : nat) (v : RedisPool * R) (s : Program M R G) : Program M R G :=
  let p := fst v in
  mkProgram (db s) (mkRedisPool (host_ p) (port_ p) (password_ p) (db_ p)
                      (tls_conn_ (redisPool s)) (tls_initialized_ (redisPool s)))
    (snd v) (<[t := (tls_conn_ p, tls_initialized_ p)]> (tls s)) (pubsub s) (gens s) (current s).

Definition on_db {A} (m : State (MySQLPool * M) A) : State (Program M R G) A := zoom db set_db m.

Definition on_redis {A} (m : State (RedisPool * R) A) : State (Program M R G) A := λ s,
  zoom (pool_of (current s)) (put_pool_of (current s)) m s.

Definition on_clock {A} (m : State R A) : State (Program M R G) A := zoom redis set_redis m.

Definition on_pubsub {A} (m : State (RedisPubSub * R) A) : State (Program M R G) A :=
  zoom (λ s, (pubsub s, redis s))
    (λ v s, mkProgram (db s) (redisPool s) (snd v) (tls s) (fst v) (gens s) (current s)) m.

Definition on_gen {A} (m : State G A) : State (Program M R G) A := λ s,
  zoom (λ s, gens s (current s))
    (λ g s, mkProgram (db s) (redisPool s) (redis s) (tls s) (pubsub s)
              (<[current s := g]> (gens s)) (current s)) m s.

Context `{MySQLClient M, Hiredis R, Clock R, Random G, Environment M, Environment R}.

(** ** The repositories of the program *)

#[export] Instance userRepo : UserRepository (Program M R G) := {
  userRepo_registerUser u p n e := on_db (userRepo_registerUser u p n e);
  userRepo_verifyUser u p := on_db (userRepo_verifyUser u p);
  userRepo_userExists u := on_db (userRepo_userExists u);
  userRepo_getUserInfo u := on_db (userRepo_getUserInfo u);
  userRepo_updateLastLogin u := on_db (userRepo_updateLastLogin u)
}.

#[export] Instance friendRepo : FriendRepository (Program M R G) := {
  friendRepo_addFriendRequest f t m := on_db (friendRepo_addFriendRequest f t m);
  friendRepo_respondFriendRequest r t a := on_db (friendRepo_respondFriendRequest r t a);
  friendRepo_removeFriends u v := on_db (friendRepo_removeFriends u v);
  friendRepo_getFriendList u := on_db (friendRepo_getFriendList u);
  friendRepo_getPendingRequests u := on_db (friendRepo_getPendingRequests u)
}.

#[export] Instance msgRepo : MessageRepository (Program M R G) := {
  msgRepo_storeMessage f t r c := on_db (msgRepo_storeMessage f t r c);
  msgRepo_getMessage i := on_db (msgRepo_getMessage i);
  msgRepo_recallMessage i u := on_db (msgRepo_recallMessage i u);
  msgRepo_addOfflineMessage u i := on_db (msgRepo_addOfflineMessage u i);
  msgRepo_getUndeliveredMessages u := on_db (msgRepo_getUndeliveredMessages u);
  msgRepo_markMessagesDelivered u := on_db (msgRepo_markMessagesDelivered u)
}.

#[export] Instance roomRepo : RoomRepository (Program M R G) := {
  roomRepo_createRoom n c := on_db (roomRepo_createRoom n c);
  roomRepo_getRoomByName n := on_db (roomRepo_getRoomByName n);
  roomRepo_getRoomById i := on_db (roomRepo_getRoomById i);
  roomRepo_roomExists n := on_db (roomRepo_roomExists n);
  roomRepo_addRoomMember i u r := on_db (roomRepo_addRoomMember i u r);
  roomRepo_removeRoomMember i u := on_db (roomRepo_removeRoomMember i u);
  roomRepo_getRoomMembers i := on_db (roomRepo_getRoomMembers i);
  roomRepo_getUserRooms u := on_db (roomRepo_getUserRooms u)
}.

#[export] Instance redisSessionRepo : SessionRepository (Program M R G) := {
  sessionRepo_createSession u t n l := on_redis (sessionRepo_createSession u t n l);
  sessionRepo_getSessionByToken t := on_redis (sessionRepo_getSessionByToken t);
  sessionRepo_revokeSession t := on_redis (sessionRepo_revokeSession t);
  sessionRepo_revokeAllSessions u := on_redis (sessionRepo_revokeAllSessions u);
  sessionRepo_isValidSession t := on_redis (sessionRepo_isValidSession t);
  sessionRepo_updateSessionNode t n := on_redis (sessionRepo_updateSessionNode t n)
}.

#[export] Instance program_clock : Clock (Program M R G) := {
  time_now := on_clock time_now;
  Timestamp_now := on_clock Timestamp_now
}.

#[export] Instance program_random : Random (Program M R G) := {
  uniform_int lo hi := on_gen (uniform_int lo hi)
}.

(** Another thread becomes the current one, or the world behind a library changes. *)
#[export] Instance program_environment : Environment (Program M R G) := {
  outside n s :=
    match (n mod 3)%nat with
    | 0%nat => set_current (n / 3) s
    | 1%nat => set_db (fst (db s), outside (n / 3)%nat (snd (db s))) s
    | _ => set_redis (outside (n / 3)%nat (redis s)) s
    end
}.

(** ** [main] *)

(** What the server is constructed and started with. *)
Record Listening := mkListening { listen_ip : string; listen_port : Z; node_id : string; threadNum : Z }.

(** The state before [main]: nothing is connected. *)
Definition new_Program (m : M) (r : R) (g : nat → G) (t : nat) : Program M R G :=
  mkProgram (new_MySQLPool, m) new_RedisPool r (λ _, (None, false)) new_RedisPubSub g t.

(** [main] up to the loop; [None] where it prints its usage instead.  The verdicts of the
    three [init]s are not looked at. *)
Definition main (hardware_concurrency : Z) (argv : list string) : State (Program M R G) (option Listening) :=
  match argv with
  | _ :: ip :: port :: _ =>
    _ ← on_db (MySQL.init hardware_concurrency "localhost" "root" "123456" "chat" 3306 16);
    _ ← on_redis (redis_init "localhost" 6379 "" 0);
    _ ← on_pubsub (pubsub_init "localhost" 6379 "" 0);
    _ ← on_pubsub pubsub_start;
    mret (Some (mkListening (c_str ip) (u16 (i32 (atoll (c_str port)))) "node-1" 4))
  | _ => mret None
  end.

(** After the loop: [pubsub.stop()], and the destructors of [pubsub], [redisPool] and [db],
    in this order. *)
Definition main_exit : State (Program M R G) unit :=
  _ ← on_pubsub pubsub_stop;
  _ ← on_pubsub pubsub_destroy;
  _ ← on_redis redis_destroy;
  on_db MySQL.destroy.
End Program.

(** The server of [main]: its node, the loop of each connection, the workers. *)
Definition main_config (loop_of : SessionManager.Conn → nat) (hardware_concurrency : nat)
    (Hpos : (0 < hardware_concurrency)%nat) : Config :=
  {| node_id_ := "node-1"; getLoop := loop_of; workers := hardware_concurrency; workers_pos := Hpos |}.

(** ** Computing with the parts *)

Section Parts.
  Context {M R G : Type}.

Lemma eval_on_redis {A} (m : State (RedisPool * R) A) (s : Program M R G) :
  eval (on_redis m) s = eval m (pool_of (current s) s).
Proof. exact (eval_zoom _ _ m s). Qed.

Lemma exec_on_redis {A} (m : State (RedisPool * R) A) (s : Program M R G) :
  exec (on_redis m) s = put_pool_of (current s) (exec m (pool_of (current s) s)) s.
Proof. exact (exec_zoom _ _ m s). Qed.

Lemma eval_on_db {A} (m : State (MySQLPool * M) A) (s : Program M R G) : eval (on_db m) s = eval m (db s).
Proof. exact (eval_zoom _ _ m s). Qed.

Lemma exec_on_db {A} (m : State (MySQLPool * M) A) (s : Program M R G) :
  exec (on_db m) s = set_db (exec m (db s)) s.
Proof. exact (exec_zoom _ _ m s). Qed.

Lemma exec_on_gen {A} (m : State G A) (s : Program M R G) :
  db (exec (on_gen m) s) = db s ∧ redisPool (exec (on_gen m) s) = redisPool s ∧
  redis (exec (on_gen m) s) = redis s ∧ tls (exec (on_gen m) s) = tls s ∧
  current (exec (on_gen m) s) = current s.
Proof. unfold on_gen, exec. by rewrite zoom_eq. Qed.
End Parts.

(** ** Lifting what holds of the parts *)

(** What is kept on the side of the database is kept by the program. *)
Section Db.
  Context {M R G : Type} `{MySQLClient M, Hiredis R, Clock R, Random G, Environment M, Environment R}.
  Context (q : MySQLPool → Prop).
  Abbreviation Q := (λ s : MySQLPool * M, q (fst s)).
  Abbreviation P := (λ s : Program M R G, q (fst (db s))).
  Hypothesis HQ : ∀ A (none : A) body, preserves Q (with_connection none body).
  Hypothesis Hverify : ∀ u p, preserves Q (user_verifyUser u p).

Lemma on_db_keeps {A} (m : State (MySQLPool * M) A) : preserves Q m → preserves P (on_db m).
Proof. intros Hm s Hs. unfold on_db. rewrite exec_zoom. cbn. by apply Hm. Qed.

Lemma users_keep : UserRepoPreserves P.
Proof. destruct (user_keeps Q HQ Hverify). constructor; intros; apply on_db_keeps; auto. Qed.

Lemma friends_keep : FriendRepoPreserves P.
Proof. destruct (friend_keeps Q HQ). constructor; intros; apply on_db_keeps; auto. Qed.

Lemma messages_keep : MessageRepoPreserves P.
Proof. destruct (message_keeps Q HQ). constructor; intros; apply on_db_keeps; auto. Qed.

Lemma rooms_keep : RoomRepoPreserves P.
Proof. destruct (room_keeps Q HQ). constructor; intros; apply on_db_keeps; auto. Qed.

Lemma sessions_keep : SessionRepoPreserves P.
Proof. constructor; intros; intros s Hs; cbn; by rewrite exec_on_redis. Qed.

Lemma env_keep : EnvPreserves P.
Proof.
  constructor; intros; intros s Hs; cbn; unfold on_clock; rewrite ?exec_zoom; try done.
  by destruct (exec_on_gen (uniform_int lo hi) s) as [-> _].
Qed.

Lemma outside_keep : OutsidePreserves P.
Proof. constructor. intros n s Hs. unfold outside, program_environment. by destruct (n mod 3)%nat as [|[|k]]. Qed.

(** So it holds in every state of the deployed server. *)
Lemma deployed_keeps `{Mktime, Config} es s s' :
  run es s = Some s' → q (fst (db (world s))) → q (fst (db (world s'))).
Proof.
  intros Hrun Hq.
  pose proof users_keep. pose proof friends_keep. pose proof messages_keep. pose proof rooms_keep.
  pose proof sessions_keep. pose proof env_keep. pose proof outside_keep.
  by apply (stores_run (λ _, True) (λ _, True) P (λ _ _ _, I) (λ _ _ _, I)) in Hrun as (_ & _ & ?).
Qed.
End Db.

(** The friendships of the program are those of its database. *)
#[export] Instance program_friend_laws {M R G} `{MySQLClient M, !EscapeLaws M, !FriendTables M, Hiredis R} :
  FriendRepoLaws (Program M R G).
Proof.
  refine {| friend_store s := friend_store (db s) |}.
  - intros s. apply profile_uid.
  - intros u s F U Hs Hu. cbn [userRepo_userExists userRepo]. rewrite eval_on_db, exec_on_db.
    exact (userExists_law u (db s) F U Hs Hu).
  - intros a b m s F U Hs Ha Hb Hm. cbn [friendRepo_addFriendRequest friendRepo]. rewrite eval_on_db, exec_on_db.
    exact (addFriendRequest_law a b m (db s) F U Hs Ha Hb Hm).
  - intros a b c s F U Hs Ha Hb. cbn [friendRepo_respondFriendRequest friendRepo]. rewrite eval_on_db, exec_on_db.
    exact (respondFriendRequest_law a b c (db s) F U Hs Ha Hb).
  - intros u v s F U Hs Hu Hv. cbn [friendRepo_removeFriends friendRepo]. rewrite eval_on_db, exec_on_db.
    exact (removeFriends_law u v (db s) F U Hs Hu Hv).
  - intros u s F U Hs Hu. cbn [friendRepo_getFriendList friendRepo]. rewrite eval_on_db.
    exact (getFriendList_law u (db s) F U Hs Hu).
  - intros u s F U Hs Hu. cbn [friendRepo_getPendingRequests friendRepo]. rewrite eval_on_db.
    exact (getPendingRequests_law u (db s) F U Hs Hu).
  - intros u s F U Hs. cbn [friendRepo_getFriendList friendRepo]. rewrite exec_on_db.
    exact (getFriendList_keeps u (db s) F U Hs).
  - intros u s F U Hs. cbn [friendRepo_getPendingRequests friendRepo]. rewrite exec_on_db.
    exact (getPendingRequests_keeps u (db s) F U Hs).
Defined.

(** ** The start *)

Section Start.
  Context {M R G : Type} `{MySQLClient M, Hiredis R}.

Lemma pubsub_init_lib host port password d (s : RedisPubSub * R) :
  snd (exec (pubsub_init host port password d) s) =
  exec (redis_connect host port password d) (exec (redis_connect host port password d) (snd s)).
Proof. unfold pubsub_init. autorewrite with chat. by rewrite ?exec_update, ?exec_on_library. Qed.

Lemma pubsub_start_lib (s : RedisPubSub * R) : snd (exec pubsub_start s) = snd s.
Proof. unfold pubsub_start. autorewrite with chat. by destruct (running_ (fst s)). Qed.

Lemma exec_on_pubsub {A} (m : State (RedisPubSub * R) A) (s : Program M R G) :
  exec (on_pubsub m) s =
  mkProgram (db s) (redisPool s) (snd (exec m (pubsub s, redis s))) (tls s)
    (fst (exec m (pubsub s, redis s))) (gens s) (current s).
Proof. exact (exec_zoom _ _ m s). Qed.

(** What [main] leaves to the server. *)
Lemma main_parts hc name ip port rest m r g t :
  let connect := redis_connect "localhost" 6379 "" 0 in
  let s := exec (main hc (name :: ip :: port :: rest)) (new_Program m r g t : Program M R G) in
  db s = exec (MySQL.init hc "localhost" "root" "123456" "chat" 3306 16) (new_MySQLPool, m) ∧
  redisPool s = mkRedisPool "localhost" 6379 "" 0 None false ∧
  (∀ t', tls s t' = (None, false)) ∧
  redis s = exec connect (exec connect r).
Proof.
  cbv zeta. unfold main. rewrite !exec_bind, exec_ret, !exec_on_pubsub, exec_on_redis, exec_on_db.
  cbn [db redisPool tls redis pubsub]. rewrite pubsub_start_lib, pubsub_init_lib. cbn [snd].
  set (d := exec (MySQL.init _ _ _ _ _ _ _) _). split_and!; [done|done| |done].
  intros t'. cbn. destruct (decide (t = t')) as [<-|Hne];
    [by rewrite fn_lookup_insert|by rewrite fn_lookup_insert_ne].
Qed.
End Start.

(** ** Sessions in Redis *)

(** What goes on outside of the program, with regard to Redis: the server keeps running and
    connections hold; time passes, and the sessions whose time is over are gone; nobody else
    writes to the session keys. *)
Class RedisQuiet (R : Type) `{RedisLaws R, Environment R} := {
  outside_up n (w : R) : redis_up w → redis_up (outside n w);
  outside_no_err n c (w : R) :
    redis_up w → context_err c w = false → context_err c (outside n w) = false;
  outside_time n (w : R) : redis_now w <= redis_now (outside n w);
  outside_session n token (w : R) :
    let e := redis_entry (session_key token) w in
    redis_entry (session_key token) (outside n w) =
    if expired e.2 (redis_now (outside n w)) then (∅, None) else e
}.

(** A task that leaves a token alone: it is not a logout with it, nor a password login that
    happens to draw it again. *)
Definition leaves {W} `{UserRepository W, SessionRepository W, FriendRepository W, MessageRepository W}
    `{Random W, Config} (token : string) (t : Task) (w : W) : Prop :=
  match t with
  | task_logout _ token' => c_str token' ≠ c_str token
  | task_login _ uid passwd => c_str (ls_token (eval (login uid passwd node_id_) w)) ≠ c_str token
  | _ => True
  end.

Section Sessions.
  Context {M R G : Type} `{MySQLClient M, Hiredis R, !RedisLaws R, Clock R, !ClockLaws R, Random G}.
  Context `{Environment M, Environment R, !RedisQuiet R, Mktime, Config}.
  Abbreviation Program := (Program M R G).

(** Every thread of the process is ready for Redis. *)
Definition working (s : Program) : Prop := ∀ t, ready (pool_of t s).

(** [token] is stored as a session of [uid] that ends at [D], or is over. *)
Definition session_in (token uid : string) (D : Z) (s : Program) : Prop :=
  let e := stored token (redis s) in
  if redis_now (redis s) <? D
  then (∃ u, e.1 !! "uid"%string = Some u ∧ c_str u = uid) ∧ e.2 = Some D
  else e.1 !! "uid"%string = None.

Definition alive (token uid : string) (D : Z) (s : Program) : Prop := working s ∧ session_in token uid D s.

Lemma working_put t v s : working s → settled (pool_of t s) v → working (put_pool_of t v s).
Proof.
  intros Hs (Hr & (conn & init & Hv) & Hold) t'. destruct v as [p w]. cbn [fst snd] in *.
  specialize (Hs t'). unfold pool_of, put_pool_of in *. cbn [redisPool tls redis fst snd].
  destruct (decide (t = t')) as [<-|Hne].
  - rewrite fn_lookup_insert. exact Hr.
  - rewrite fn_lookup_insert_ne by done. destruct Hr as (Hat & Hpw & Hdb & Hup & _).
    destruct Hs as (_ & _ & _ & Hup' & Hc). cbn in *. split_and!; try done.
    intros Hi. destruct (Hc Hi) as (c & Hc' & He). exists c. split; [done|].
    by apply (Hold (Some c) (redis_now (redis s))).
Qed.

Lemma working_redis {A} (m : State (RedisPool * R) A) : calm m → preserves working (on_redis m).
Proof. intros Hm s Hs. rewrite exec_on_redis. apply working_put; [done|]. by apply Hm. Qed.

(** The methods take no time. *)
Lemma calm_time {A} (m : State (RedisPool * R) A) v :
  calm m → ready v → redis_now (snd (exec m v)) = redis_now (snd v).
Proof.
  intros Hm Hv. destruct (Hm v Hv) as (_ & _ & Hold). destruct v as [p w]. destruct Hv as (_ & _ & _ & Hup & _).
  by destruct (Hold None (redis_now w) (conj Hup (conj I eq_refl))) as (_ & _ & ?).
Qed.

Lemma alive_redis {A} token uid D (m : State (RedisPool * R) A) :
  calm m → spares token m → preserves (alive token uid D) (on_redis m).
Proof.
  intros Hm Hk s [Hs Hu]. split; [by apply working_redis|].
  rewrite exec_on_redis. unfold session_in in *. cbn [put_pool_of redis].
  destruct (Hk (pool_of (current s) s) (Hs _)) as [-> ->]. rewrite calm_time by done. exact Hu.
Qed.

Lemma alive_db {A} token uid D (m : State (MySQLPool * M) A) : preserves (alive token uid D) (on_db m).
Proof. intros s Hs. by rewrite exec_on_db. Qed.

Lemma working_db {A} (m : State (MySQLPool * M) A) : preserves working (on_db m).
Proof. intros s Hs. by rewrite exec_on_db. Qed.

Lemma working_same (s s' : Program) :
  redisPool s' = redisPool s → redis s' = redis s → tls s' = tls s → working s → working s'.
Proof. intros Hp Hr Ht Hs t. unfold pool_of. rewrite Hp, Hr, Ht. apply Hs. Qed.

Lemma working_outside n : preserves working (λ s, (tt, outside n s)).
Proof.
  intros s Hs. unfold exec, outside, program_environment. cbn [snd].
  destruct (n mod 3)%nat as [|[|k]]; [exact Hs|exact Hs|]. intros t. specialize (Hs t).
  unfold pool_of in *. cbn [redisPool redis tls set_redis fst snd]. destruct Hs as (Hat & Hpw & Hdb & Hup & Hc).
  split_and!; try done; [by apply outside_up|]. intros Hi. destruct (Hc Hi) as (c & Hc' & He).
  exists c. split; [done|]. by apply outside_no_err.
Qed.

Lemma clock_pure {A} (m : State R A) (s : Program) : (∀ w, exec m w = w) → exec (on_clock m) s = s.
Proof. intros Hm. unfold on_clock. rewrite exec_zoom, Hm. by destruct s. Qed.

(** Everything the server does keeps its threads working. *)
#[export] Instance working_users : UserRepoPreserves working.
Proof. constructor; intros; apply working_db. Qed.

#[export] Instance working_friends : FriendRepoPreserves working.
Proof. constructor; intros; apply working_db. Qed.

#[export] Instance working_messages : MessageRepoPreserves working.
Proof. constructor; intros; apply working_db. Qed.

#[export] Instance working_rooms : RoomRepoPreserves working.
Proof. constructor; intros; apply working_db. Qed.

#[export] Instance working_sessions : SessionRepoPreserves working.
Proof.
  constructor; intros; apply working_redis.
  - apply createSession_calm.
  - apply getSessionByToken_calm.
  - apply revokeSession_calm.
  - apply revokeAllSessions_calm.
  - apply isValidSession_calm.
  - apply updateSessionNode_calm.
Qed.

#[export] Instance working_env : EnvPreserves working.
Proof.
  constructor.
  - intros s Hs. cbn. rewrite clock_pure; [done|apply time_now_pure].
  - intros s Hs. cbn. rewrite clock_pure; [done|apply Timestamp_now_pure].
  - intros lo hi s. cbn. destruct (exec_on_gen (uniform_int lo hi) s) as (_ & Hp & Hr & Ht & _).
    by apply working_same.
Qed.

#[export] Instance working_quiet : OutsidePreserves working.
Proof. constructor. exact working_outside. Qed.

(** What concerns no token keeps every session. *)
#[export] Instance alive_users token uid D : UserRepoPreserves (alive token uid D).
Proof. constructor; intros; apply alive_db. Qed.

#[export] Instance alive_friends token uid D : FriendRepoPreserves (alive token uid D).
Proof. constructor; intros; apply alive_db. Qed.

#[export] Instance alive_messages token uid D : MessageRepoPreserves (alive token uid D).
Proof. constructor; intros; apply alive_db. Qed.

#[export] Instance alive_rooms token uid D : RoomRepoPreserves (alive token uid D).
Proof. constructor; intros; apply alive_db. Qed.

Lemma alive_same token uid D (s s' : Program) :
  redis s' = redis s → working s' → alive token uid D s → alive token uid D s'.
Proof. intros Hr Hw [_ Hu]. split; [done|]. unfold session_in. by rewrite Hr. Qed.

#[export] Instance alive_env token uid D : EnvPreserves (alive token uid D).
Proof.
  constructor.
  - intros s Hs. cbn. rewrite clock_pure; [done|apply time_now_pure].
  - intros s Hs. cbn. rewrite clock_pure; [done|apply Timestamp_now_pure].
  - intros lo hi s Hs. apply (alive_same token uid D s); [|apply preserves_uniform_int, Hs|done].
    apply (exec_on_gen (uniform_int lo hi) s).
Qed.

#[export] Instance alive_quiet token uid D : OutsidePreserves (alive token uid D).
Proof.
  constructor. intros n s [Hs Hu]. split; [by apply preserves_outside|].
  unfold outside, program_environment. destruct (n mod 3)%nat as [|[|k]]; [exact Hu|exact Hu|].
  unfold session_in, stored in *. cbn [redis set_redis].
  pose proof (outside_time (n / 3) (redis s)) as Htime. rewrite outside_session.
  destruct (Z.ltb_spec (redis_now (redis s)) D) as [Hlt|Hge].
  - destruct Hu as [Hu He]. rewrite He. cbn [expired].
    destruct (Z.ltb_spec (redis_now (outside (n / 3)%nat (redis s))) D).
    + by rewrite (proj2 (Z.leb_gt _ _)) by lia.
    + by rewrite (proj2 (Z.leb_le _ _)) by lia.
  - rewrite (proj2 (Z.ltb_ge _ _)) by lia. by case_match.
Qed.

(** On any thread, the service finds a stored session while its time is not over. *)
Lemma alive_token_of token uid D (s : Program) :
  alive token uid D s →
  if redis_now (redis s) <? D then token_of token uid s else token_void token s.
Proof.
  intros [Hs Hu]. unfold token_of, token_void. cbn. rewrite eval_on_redis. cbn.
  destruct (getSessionByToken_ready token (pool_of (current s) s) (Hs _)) as (v & Hg & _).
  unfold eval. rewrite Hg. cbn [fst pool_of snd]. unfold session_of, session_in in *.
  destruct (redis_now (redis s) <? D); [|by rewrite Hu].
  destruct Hu as [(u & -> & Huid) _]. cbn. eexists. by split.
Qed.

Lemma alive_current token uid D t (s : Program) : alive token uid D s → alive token uid D (set_current t s).
Proof. done. Qed.

(** The database and the generators do not touch Redis. *)
#[local] Instance same_redis_users r : UserRepoPreserves (λ s : Program, redis s = r).
Proof. constructor; intros; intros s Hs; cbn; by rewrite exec_on_db. Qed.

#[local] Instance same_redis_env r : EnvPreserves (λ s : Program, redis s = r).
Proof.
  constructor; intros; intros s Hs; cbn.
  - rewrite clock_pure; [done|apply time_now_pure].
  - rewrite clock_pure; [done|apply Timestamp_now_pure].
  - destruct (exec_on_gen (uniform_int lo hi) s) as (_ & _ & -> & _). exact Hs.
Qed.

(** A session that was just created. *)
Lemma create_working uid token node ttl (s : Program) :
  working s → 0 < ttl → eval (sessionRepo_createSession uid token node ttl) s = true.
Proof.
  intros Hs Httl. cbn. rewrite eval_on_redis. cbn.
  destruct (createSession_ready uid token node ttl (pool_of (current s) s) (Hs _) Httl) as (v & h & Hc & _).
  unfold eval. by rewrite Hc.
Qed.

Lemma create_alive uid token node ttl (s : Program) :
  working s → c_str uid = uid → 0 < ttl →
  alive token uid (redis_now (redis s) + ttl) (exec (sessionRepo_createSession uid token node ttl) s).
Proof.
  intros Hs Huid Httl. split; [by apply preserves_createSession|]. cbn. rewrite exec_on_redis. cbn.
  destruct (createSession_ready uid token node ttl (pool_of (current s) s) (Hs _) Httl)
    as (v & h & Hc & Hset & Hst & Hu & _). unfold exec. rewrite Hc. cbn [snd].
  unfold session_in. cbn [put_pool_of redis]. rewrite Hst, decide_True by done. cbn [fst snd pool_of].
  pose proof (calm_time (createSession uid token node ttl) (pool_of (current s) s)
    (createSession_calm _ _ _ _) (Hs _)) as Ht. unfold exec in Ht. rewrite Hc in Ht. cbn [snd pool_of] in Ht.
  rewrite Ht, (proj2 (Z.ltb_lt _ _)) by lia. split; [|done]. exists (c_str uid). by rewrite c_str_idem.
Qed.

Lemma create_spares token uid D uid' token' node ttl :
  0 < ttl → c_str token' ≠ c_str token →
  preserves (alive token uid D) (sessionRepo_createSession (W := Program) uid' token' node ttl).
Proof.
  intros Httl Hne. apply alive_redis; [apply createSession_calm|by apply createSession_spares].
Qed.

(** The part of a login after the session was made. *)
Lemma lookups_keep (P : Program → Prop) uid `{!FriendRepoPreserves P, !MessageRepoPreserves P} s :
  P s →
  P (exec (msgRepo_getUndeliveredMessages uid)
       (exec (friendRepo_getPendingRequests uid) (exec (friendRepo_getFriendList uid) s))).
Proof.
  intros Hs. by apply preserves_getUndeliveredMessages, preserves_getPendingRequests, preserves_getFriendList.
Qed.

(** A login on working threads: a success leaves its token stored for the user, and what it
    does to the other sessions is nothing. *)
Lemma login_working uid passwd node (s : Program) :
  working s →
  let r := eval (login uid passwd node) s in
  let s' := exec (login uid passwd node) s in
  (ls_success r = true → c_str uid = uid →
     alive (ls_token r) uid (redis_now (redis s) + session_ttl) s') ∧
  (∀ token u D, alive token u D s → c_str (ls_token r) ≠ c_str token → alive token u D s').
Proof.
  intros Hs. cbv zeta. unfold login. autorewrite with chat.
  destruct (eval (userRepo_verifyUser uid passwd) s) eqn:Hv; cbn [negb]; autorewrite with chat;
    [|split; [done|intros; by apply preserves_verifyUser]].
  destruct (eval (userRepo_getUserInfo uid) _) as [info|] eqn:Hu; autorewrite with chat;
    [|split; [done|intros; by apply preserves_getUserInfo, preserves_verifyUser]].
  set (s2 := exec (userRepo_getUserInfo uid) _).
  assert (∀ P, UserRepoPreserves P → EnvPreserves P → P s → P (exec generateToken s2)) as Hgen.
  { intros P ?? HPs. apply (generateToken_loop_keeps P 64); [apply preserves_uniform_int|].
    by apply preserves_getUserInfo, preserves_verifyUser. }
  rewrite create_working by (first [by apply Hgen; first [apply _|done]|done]). cbn [negb]. autorewrite with chat. cbn [ls_token].
  split.
  - intros _ Huid. apply lookups_keep; [apply _..|].
    rewrite <- (Hgen (λ s', redis s' = redis s) _ _ eq_refl) at 1.
    apply create_alive; [|done|done]. by apply Hgen; [apply _..|].
  - intros token u D Ha Hne. apply lookups_keep; [apply _..|]. apply create_spares; [done|done|]. by apply Hgen; [apply _..|].
Qed.

Lemma loginWithToken_spares token uid D token' node : preserves (alive token uid D) (loginWithToken (W := Program) token' node).
Proof.
  unfold loginWithToken. apply preserves_bind.
  { apply alive_redis; [apply getSessionByToken_calm|apply getSessionByToken_spares]. }
  intros [x|]; [|apply preserves_ret]. cbv zeta. apply preserves_bind.
  { apply alive_redis; [apply updateSessionNode_calm|apply updateSessionNode_spares]. }
  intros _. preserve.
Qed.

Lemma logout_spares token uid D uid' token' :
  c_str token' ≠ c_str token → preserves (alive token uid D) (logout (W := Program) uid' token').
Proof.
  intros Hne. unfold logout. apply preserves_bind.
  { apply alive_redis; [apply revokeSession_calm|by apply revokeSession_spares]. }
  intros _. apply preserves_bind; [|intros _; apply preserves_ret].
  apply alive_redis; [apply revokeAllSessions_calm|apply revokeAllSessions_spares].
Qed.

(** A task that leaves a token alone leaves its session. *)
Lemma task_alive token uid D t (s : Program) :
  alive token uid D s → leaves token t s → alive token uid D (exec (task_body t) s).
Proof.
  intros Ha Hl. destruct t; cbn [task_body leaves] in *.
  2: { rewrite exec_bind, exec_ret. by apply login_working; [apply Ha|..]. }
  2: { rewrite exec_bind, exec_ret. by apply logout_spares. }
  all: clear Hl; revert s Ha;
    match goal with |- ∀ s, _ → alive _ _ _ (exec ?m s) => change (preserves (alive token uid D) m) end;
    apply preserves_bind; [|intros ?; apply preserves_ret];
    eauto using loginWithToken_spares, registerUser_preserves, sendMessage_preserves, getMessage_preserves,
      recallMessage_preserves, markMessagesDelivered_preserves, addFriendRequest_preserves,
      respondFriendRequest_preserves, removeFriend_preserves, createRoom_preserves, joinRoom_preserves
      with typeclass_instances.
Qed.

(** Every run without a task that disturbs a token keeps its session. *)
Lemma undisturbed_alive token uid D es (s s' : Server Program) :
  run es s = Some s' → undisturbed (leaves token) es s →
  alive token uid D (world s) → alive token uid D (world s').
Proof. apply (run_undisturbed (alive token uid D)). intros t w. apply task_alive. Qed.

Lemma redis_connect_up host port (w : R) :
  redis_at (c_str host) port → redis_up w → redis_up (exec (redis_connect host port "" 0) w).
Proof.
  intros Hat Hup. destruct (connect_law (c_str host) port w Hat Hup) as (c & w' & Hw & _ & Hup').
  unfold redis_connect. rewrite exec_bind. unfold eval, exec at 2. rewrite Hw. exact Hup'.
Qed.

(** After [main] every thread is ready for a Redis that runs. *)
Lemma main_working hc name ip port rest m r g t :
  redis_at "localhost" 6379 → redis_up r →
  working (exec (main hc (name :: ip :: port :: rest)) (new_Program m r g t)).
Proof.
  intros Hat Hup t'.
  destruct (main_parts hc name ip port rest m r g t) as (_ & Hpool & Hconns & Hredis).
  unfold pool_of. rewrite Hpool, Hconns, Hredis. cbn. split_and!; try done.
  by apply redis_connect_up, redis_connect_up.
Qed.
End Sessions.

(** ** Theorems *)

Section Theorems.
  Context {M R G : Type} `{MySQLClient M, Hiredis R, Clock R, Random G, Environment M, Environment R}.
  Context `{Mktime, Config}.
  Abbreviation Program := (Program M R G).
  Abbreviation server := (λ hc name ip port rest m r g t,
    ChatServer.start (exec (main hc (name :: ip :: port :: rest)) (new_Program m r g t : Program))).

(** C16. The server never has more than sixteen connections to the database: in every state of
    every run, whatever fails on the way, the connections that are idle and those that
    are counted as out are at most sixteen together, and no fewer than none are out. *)
Theorem deployed_pool_bounded hc name ip port rest m r g t es s :
  run es (server hc name ip port rest m r g t) = Some s →
  let p := fst (db (world s)) in
  0 <= activeConns_ p ∧ Z.of_nat (length (idle_ p)) + activeConns_ p <= 16.
Proof.
  intros Hrun. cbv zeta.
  apply (deployed_keeps (λ p, 0 <= activeConns_ p ∧ capacity p <= 16)) in Hrun; [done| | |].
  - intros. apply with_connection_bounded.
  - intros. apply verifyUser_bounded.
  - cbn [world ChatServer.start]. destruct (main_parts hc name ip port rest m r g t) as (-> & _).
    unfold MySQL.init. rewrite exec_bind, exec_set_pool. cbn [fst snd].
    match goal with |- context [exec (init_loop ?n) (?p, ?w)] => destruct (init_loop_pool n p w) as [Ha Hl] end.
    unfold capacity. rewrite Ha. cbn in Hl |- *. lia.
Qed.

(** C26. A server that is started while the database cannot be reached listens all the same,
    and for ever after, whether or not the database comes back, every login with a password
    is refused as a wrong password, every registration is refused, and no message is
    stored. *)
Theorem deployed_without_database hc name ip port rest m r g t es s :
  eval (MySQL.createConnection (mkConnInfo "localhost" 3306 "root" "123456" "chat")) m = None →
  run es (server hc name ip port rest m r g t) = Some s →
  eval (main hc (name :: ip :: port :: rest)) (new_Program m r g t : Program) =
    Some (mkListening (c_str ip) (u16 (i32 (atoll (c_str port)))) "node-1" 4) ∧
  (∀ uid passwd node, eval (login uid passwd node) (world s) = LoginResult_failed "invalid uid or password") ∧
  (∀ uid passwd nickname email, eval (registerUser uid passwd nickname email) (world s) = false) ∧
  (∀ from to room content, eval (msgRepo_storeMessage from to room content) (world s) = 0).
Proof.
  intros Hdown Hrun. split; [unfold main; by rewrite !eval_bind|].
  assert (drained (db (world s))) as Hs.
  { apply (deployed_keeps (λ p, idle_ p = [])) in Hrun; [done| | |].
    - intros A none body s' Hs'. unfold exec. by rewrite with_connection_drained.
    - intros u p s' Hs'. unfold exec. by rewrite verifyUser_drained.
    - cbn [world ChatServer.start]. destruct (main_parts hc name ip port rest m r g t) as (-> & _).
      by apply init_unreachable. }
  split_and!.
  - intros uid passwd node. assert (eval (userRepo_verifyUser uid passwd) (world s) = false) as Hv.
    { cbn. rewrite eval_on_db. unfold eval. by rewrite verifyUser_drained. }
    unfold login. rewrite eval_bind, Hv. done.
  - intros uid passwd nickname email. unfold registerUser. cbn. rewrite eval_on_db.
    unfold eval, user_registerUser. by rewrite with_connection_drained.
  - intros from to room content. cbn. rewrite eval_on_db.
    unfold eval, message_storeMessage. by rewrite with_connection_drained.
Qed.

Context `{!RedisLaws R, !ClockLaws R, !RandomLaws G, !RedisQuiet R}.

#[export] Instance program_random_laws : RandomLaws Program.
Proof.
  constructor. intros lo hi s Hle. cbn. unfold on_gen, eval. rewrite zoom_eq. cbn [fst].
  by apply uniform_int_range.
Qed.

(** C7. Single sign-on, for seven days: when a worker of the server finishes a password login
    with success, the client's token is 64 hexadecimal digits, and after any further events
    in which no logout with this token and no login that happens to draw it again is carried
    out, a token login with it on any thread of the process is one of the same user while
    less than seven days have passed on the clock of Redis (it succeeds as long as the user
    has a row), and is refused as an invalid token afterwards, however often the token was
    used.  Asked of the surroundings is that Redis runs when the program starts and goes on
    running, that connections to it do not break, and that nobody else writes to its session
    keys. *)
Theorem deployed_login_token hc name ip port rest m r g t es1 s1 i conn uid passwd s2 es2 s3 :
  redis_at "localhost" 6379 → redis_up r → c_str uid = uid →
  run es1 (server hc name ip port rest m r g t) = Some s1 →
  running s1 !! i = Some (task_login conn uid passwd) →
  step (FinishTask i) s1 = Some s2 →
  let l := eval (login uid passwd node_id_) (world s1) in
  ls_success l = true →
  run es2 s2 = Some s3 → undisturbed (leaves (ls_token l)) es2 s2 →
  String.length (ls_token l) = 64%nat ∧ all_chars hex_digit (ls_token l) ∧
  ∀ thread,
    let w := set_current thread (world s3) in
    let r := eval (loginWithToken (ls_token l) node_id_) w in
    if redis_now (redis (world s3)) <? redis_now (redis (world s1)) + 7 * 24 * 3600
    then token_of (ls_token l) uid w ∧
         ((ls_success r = true ∧ ls_token r = ls_token l) ∨ r = LoginResult_failed "user not found")
    else r = LoginResult_failed "invalid token".
Proof.
  intros Hat Hup Huid Hrun1 Hi Hstep. cbv zeta. intros Hok Hrun2 Hun.
  assert (working (world s1)) as Hw1.
  { apply (stores_run (λ _, True) (λ _, True) working (λ _ _ _, I) (λ _ _ _, I)) in Hrun1 as (_ & _ & ?); [done|].
    split_and!; [done..|]. by apply main_working. }
  destruct (login_token_shape uid passwd node_id_ (world s1) Hok) as [Hlen Hhex].
  split; [done|]. split; [done|]. intros thread. set (D := redis_now (redis (world s1)) + _).
  set (token := ls_token (eval (login uid passwd node_id_) (world s1))) in *.
  assert (alive token uid D (world s3)) as Ha.
  { apply (undisturbed_alive _ _ _ es2 s2); [done..|].
    cbn [step] in Hstep. rewrite Hi in Hstep. injection Hstep as <-. unfold run_task. autorewrite with chat.
    cbn [world set_running task_body]. rewrite eval_bind, exec_bind, eval_ret, exec_ret. cbn [world set_world].
    exact (proj1 (login_working uid passwd node_id_ (world s1) Hw1) Hok Huid). }
  apply (alive_current _ _ _ thread), alive_token_of in Ha. cbn [redis set_current] in Ha.
  destruct (redis_now (redis (world s3)) <? D).
  - split; [exact Ha|]. apply (loginWithToken_found _ node_id_) in Ha. cbv zeta in Ha.
    destruct (eval (userRepo_getUserInfo uid) _) as [u|]; [left|right]; [|done]. by destruct Ha as (? & _ & ?).
  - unfold loginWithToken. rewrite eval_bind. unfold token_void in Ha. by rewrite Ha.
Qed.
End Theorems.

(** ** The theorems at work *)

#[local] Instance toy_db_environment : Environment ToyDb := {| outside _ w := w |}.
#[local] Instance toy_redis_environment : Environment ToyRedis := {| outside := toy_pass |}.
#[local] Instance toy_mktime : Mktime := {| mktime _ := 0 |}.

#[local] Instance toy_quiet : RedisQuiet ToyRedis.
Proof.
  constructor; try done.
  - intros n w. cbn. lia.
  - intros n token w. apply toy_pass_entry.
Qed.

(** A generator that counts. *)
#[local] Instance toy_random : Random nat := {|
  uniform_int lo hi := λ n, (lo + Z.of_nat n mod (hi - lo + 1), S n)
|}.

#[local] Instance toy_random_laws : RandomLaws nat.
Proof. constructor. intros lo hi n Hle. cbn. pose proof (Z.mod_pos_bound (Z.of_nat n) (hi - lo + 1)). lia. Qed.

#[local] Instance toy_main_config : Config := main_config (λ c, (c mod 4)%nat) 4 (Nat.lt_0_succ 3).

Abbreviation ToyProgram := (Program ToyDb ToyRedis nat).

Definition toy_start (d : ToyDb) : Server ToyProgram :=
  ChatServer.start (exec (main 4 ["chat_server"; "0.0.0.0"; "8888"]%string) (new_Program d (∅ : ToyRedis) (λ t, t) 0%nat)).

(** Bob logs in on thread 0; then thread 2 runs, the answer goes out, six days pass, and
    another client presents the token; a day later it is over. *)
Definition toy_before : list event :=
  [Connect 1%nat; Recv 1%nat (mkEnvelope "" (kLoginReq (mkLoginRequest "bob" "pw" ""))); TakeTask].

Definition toy_s1 : Server ToyProgram := default (toy_start toy_db) (run toy_before (toy_start toy_db)).
Definition toy_s2 : Server ToyProgram := default toy_s1 (step (FinishTask 0) toy_s1).
Definition toy_token : string := ls_token (eval (login "bob" "pw" node_id_) (world toy_s1)).

Definition toy_after : list event :=
  [Outside 6; RunLoop 1; Outside 20; Connect 2%nat; Recv 2%nat (mkEnvelope "" (kLoginReq (mkLoginRequest "" "" toy_token)));
   TakeTask; FinishTask 0].

Definition toy_s3 : Server ToyProgram := default toy_s2 (run toy_after toy_s2).

Example toy_token_in_time :
  ls_success (eval (loginWithToken toy_token node_id_) (world toy_s3)) = true ∧
  eval (loginWithToken toy_token node_id_) (world (default toy_s3 (run [Outside 5] toy_s3))) =
    LoginResult_failed "invalid token".
Proof. vm_compute. by split. Qed.

Lemma deployed_login_token_witness :
  let l := eval (login "bob" "pw" node_id_) (world toy_s1) in
  String.length (ls_token l) = 64%nat ∧ all_chars hex_digit (ls_token l) ∧
  ∀ thread,
    let w := set_current thread (world toy_s3) in
    let r := eval (loginWithToken (ls_token l) node_id_) w in
    if redis_now (redis (world toy_s3)) <? redis_now (redis (world toy_s1)) + 7 * 24 * 3600
    then token_of (ls_token l) "bob" w ∧
         ((ls_success r = true ∧ ls_token r = ls_token l) ∨ r = LoginResult_failed "user not found")
    else r = LoginResult_failed "invalid token".
Proof.
  refine (deployed_login_token 4 "chat_server" "0.0.0.0" "8888" [] toy_db (∅ : ToyRedis) (λ t, t) 0%nat
    toy_before toy_s1 0 1%nat "bob" "pw" toy_s2 toy_after toy_s3 I I eq_refl _ _ _ _ _ _).
  - apply some_default. vm_compute. reflexivity.
  - vm_compute. reflexivity.
  - apply some_default. vm_compute. reflexivity.
  - vm_compute. reflexivity.
  - apply some_default. vm_compute. reflexivity.
  - vm_compute. tauto.
Defined.

Lemma deployed_without_database_witness :
  eval (login "bob" "pw" "node-1") (world (toy_start toy_down)) = LoginResult_failed "invalid uid or password".
Proof.
  apply (deployed_without_database 4 "chat_server" "0.0.0.0" "8888" [] toy_down (∅ : ToyRedis) (λ t, t) 0%nat [] (toy_start toy_down));
    [vm_compute; reflexivity|reflexivity].
Defined.

Lemma deployed_pool_bounded_witness :
  let p := fst (db (world toy_s1)) in
  0 <= activeConns_ p ∧ Z.of_nat (length (idle_ p)) + activeConns_ p <= 16.
Proof.
  apply (deployed_pool_bounded 4 "chat_server" "0.0.0.0" "8888" [] toy_db (∅ : ToyRedis) (λ t, t) 0%nat
    toy_before toy_s1).
  apply some_default. vm_compute. reflexivity.
Defined.
