(* ===== verification/ChatClient.v ===== *)
(** The command-line client, [client/chat_client.cc]: the requests it sends, how it takes
    the server's messages apart, and its menu.

    What the client prints is a list of [Line]s, one constructor per format.  Requests are
    queued on the loop by [runInLoop] and sent there while the connection is up.  Standard input is the string of the characters not yet read. *)

From S2P Require Import Prelude Machine Proto ChatCodec CString.
From Stdlib Require Import Ascii.

Local Open Scope Z_scope.

(** ** State *)

Inductive Line :=
| LoginLine (ok : bool) (token reason : string)
| RegisterLine (ok : bool) (reason : string)
| RoomLine (room : string) (msg_id : Z) (from content : string)
| PrivateLine (msg_id : Z) (from content : string)
| FriendReqLine (from message : string)
| FriendRespLine (from : string) (accepted : bool)
| RecallRoomLine (msg_id : Z) (from room : string)
| RecallPrivateLine (msg_id : Z) (from : string)
| ErrorLine (code : Z) (reason : string)
| UnknownLine.

(** [sent] are the envelopes given to the connection, [queue] those that wait on the loop,
    [lines] what was printed about messages, [conn_] whether [conn_] holds a connection,
    [closing] whether the client has shut it down, [quitting] whether the loop was told to
    stop. *)
Record ChatClient := mkChatClient {
  conn_ : bool;
  loggedIn_ : bool;
  currentUid_ : string;
  sent : list Envelope;
  queue : list Envelope;
  lines : list Line;
  closing : bool;
  quitting : bool
}.

Definition new_ChatClient : ChatClient := mkChatClient false false "" [] [] [] false false.

Definition set_login (loggedIn : bool) (uid : string) (c : ChatClient) : ChatClient :=
  mkChatClient (conn_ c) loggedIn uid (sent c) (queue c) (lines c) (closing c) (quitting c).

Definition print (l : Line) (c : ChatClient) : ChatClient :=
  mkChatClient (conn_ c) (loggedIn_ c) (currentUid_ c) (sent c) (queue c) (lines c ++ [l]) (closing c) (quitting c).

Definition client_shutdown (c : ChatClient) : ChatClient :=
  mkChatClient (conn_ c) (loggedIn_ c) (currentUid_ c) (sent c) (queue c) (lines c) true (quitting c).

Definition quit (c : ChatClient) : ChatClient :=
  mkChatClient (conn_ c) (loggedIn_ c) (currentUid_ c) (sent c) (queue c) (lines c) (closing c) true.

(** [conn_ && conn_->connected()]: a connection that is being shut down is not connected. *)
Definition client_connected (c : ChatClient) : bool := conn_ c && negb (closing c).

Definition isLoggedIn (c : ChatClient) : bool := loggedIn_ c.
Definition currentUid (c : ChatClient) : string := currentUid_ c.

(** ** Sending *)

(** The free function [sendEnvelope]: the bytes of one frame, nothing when the message
    cannot be serialised. *)
Definition envelope_bytes `{ProtoLib} (B : Type) `{MuduoBuffer B} (env : Envelope) : option B :=
  let '(ok, payload) := Envelope_SerializeToString env in
  if negb ok then None else
  let buf := append payload newBuffer in
  let len := i32 (size payload) in
  let be32 := be_bytes 4 (u32 len) in
  Some (prepend be32 buf).

(** [ChatClient::sendEnvelope]: [runInLoop] on another thread than the loop's puts the
    lambda into the queue of the loop. *)
Definition sendEnvelope (env : Envelope) (c : ChatClient) : ChatClient :=
  mkChatClient (conn_ c) (loggedIn_ c) (currentUid_ c) (sent c) (queue c ++ [env]) (lines c) (closing c) (quitting c).

(** The loop carries out what is in its queue: each lambda sends its envelope if the
    connection is up. *)
Definition run_queue (c : ChatClient) : ChatClient :=
  mkChatClient (conn_ c) (loggedIn_ c) (currentUid_ c)
    (if client_connected c then sent c ++ queue c else sent c) [] (lines c) (closing c) (quitting c).

Definition request (p : Envelope_payload) : Envelope := mkEnvelope "" p.

Definition sendRegister (uid passwd : string) : ChatClient → ChatClient :=
  sendEnvelope (request (kRegisterReq (mkRegisterRequest uid passwd "" ""))).

Definition sendLogin (uid passwd : string) : ChatClient → ChatClient :=
  sendEnvelope (request (kLoginReq (mkLoginRequest uid passwd ""))).

Definition sendPrivateMsg (to content : string) : ChatClient → ChatClient :=
  sendEnvelope (request (kChatMsg (mkChatMessage "" to "" content 0 0 0 false))).

Definition sendRoomMsg (room content : string) : ChatClient → ChatClient :=
  sendEnvelope (request (kChatMsg (mkChatMessage "" "" room content 0 0 0 false))).

Definition sendCreateRoom (name : string) : ChatClient → ChatClient :=
  sendEnvelope (request (kCreateRoom (mkCreateRoom name ""))).

Definition sendJoinRoom (room uid : string) : ChatClient → ChatClient :=
  sendEnvelope (request (kJoinRoom (mkJoinRoom room uid))).

Definition sendFriendReq (to msg : string) : ChatClient → ChatClient :=
  sendEnvelope (request (kFriendReq (mkFriendRequest "" to msg))).

Definition sendFriendResp (requester : string) (accept : bool) (c : ChatClient) : ChatClient :=
  sendEnvelope (request (kFriendResp (mkFriendResponse (currentUid_ c) requester accept))) c.

Definition sendRecall (msgId : Z) (toUid room : string) : ChatClient → ChatClient :=
  sendEnvelope (request (kRecallMsg (mkRecallMessage msgId "" room toUid))).

Definition sendLogout (c : ChatClient) : ChatClient :=
  let c := sendEnvelope (request (kLogoutReq (mkLogoutRequest (currentUid_ c) ""))) c in
  set_login false "" c.

(** ** Receiving *)

(** The [switch] on the payload of a server message. *)
Definition handleServerMessage (msg : ServerMessage) (c : ChatClient) : ChatClient :=
  match msg with
  | login_resp r =>
    let c := print (LoginLine (lp_ok r) (c_str (lp_token r)) (c_str (lp_reason r))) c in
    if lp_ok r then set_login true (currentUid_ c) c else c
  | register_resp r => print (RegisterLine (rp_ok r) (c_str (rp_reason r))) c
  | chat_msg m =>
    if negb (empty_string (cm_room m))
    then print (RoomLine (c_str (cm_room m)) (cm_msg_id m) (c_str (cm_from m)) (c_str (cm_content m))) c
    else print (PrivateLine (cm_msg_id m) (c_str (cm_from m)) (c_str (cm_content m))) c
  | friend_req r => print (FriendReqLine (c_str (fq_from_uid r)) (c_str (fq_message r))) c
  | friend_resp r => print (FriendRespLine (c_str (fp_from_uid r)) (fp_accepted r)) c
  | recall_notify n =>
    if negb (empty_string (rn_room n))
    then print (RecallRoomLine (rn_msg_id n) (c_str (rn_from_uid n)) (c_str (rn_room n))) c
    else print (RecallPrivateLine (rn_msg_id n) (c_str (rn_from_uid n))) c
  | error e => print (ErrorLine (i32 (er_code e)) (c_str (er_reason e))) c
  | _ => print UnknownLine c
  end.

Definition handlePayload `{ProtoLib} (payload : bytes) (c : ChatClient) : ChatClient :=
  let '(ok, msg) := ServerMessage_ParseFromArray payload in
  if negb ok then c else handleServerMessage msg c.

(** [ChatClient::onMessage]: the loop of the server's codec with the client's switch; the
    payload is taken off the buffer before it is handled. *)
Fixpoint client_loop {B} `{MuduoBuffer B, ProtoLib} (fuel : nat) (buf : B) (c : ChatClient)
    : outcome (B * ChatClient) :=
  match fuel with
  | O => OutOfFuel
  | Datatypes.S fuel =>
    if 4 <=? readableBytes buf then
      be32 ← in_bounds (read_be 4 (peek buf) 0);
      let len := i32 be32 in
      if (kMaxLen <? len) || (len <? 0) then Done (buf, client_shutdown c)
      else if len + 4 <=? readableBytes buf then
        let buf := retrieve 4 buf in
        payload ← in_bounds (copy_bytes (peek buf) len);
        let buf := retrieve len buf in
        client_loop fuel buf (handlePayload payload c)
      else Done (buf, c)
    else Done (buf, c)
  end.

Definition client_onMessage {B} `{MuduoBuffer B, ProtoLib} (buf : B) (c : ChatClient)
    : outcome (B * ChatClient) :=
  client_loop (S (length (peek buf))) buf c.

(** [ChatClient::onConnection]. *)
Definition client_onConnection (up : bool) (c : ChatClient) : ChatClient :=
  if up then
    mkChatClient true (loggedIn_ c) (currentUid_ c) (sent c) (queue c) (lines c) false (quitting c)
  else
    mkChatClient false false "" (sent c) (queue c) (lines c) (closing c) true.

(** ** The menu *)

Definition newline : ascii := "010"%char.

(** [fgets] with room for [n] characters in front of the closing NUL: through the first
    newline if there is one, and the characters left.  At the end of the input it reads
    nothing. *)
Fixpoint fgets (n : nat) (input : string) : string * string :=
  match n, input with
  | S n, String c input =>
    if Ascii.eqb c newline then (String c EmptyString, input)
    else let '(line, input) := fgets n input in (String c line, input)
  | _, _ => (EmptyString, input)
  end.

(** [line[len-1] = 0] when the last character is a newline. *)
Fixpoint cut_newline (line : string) : string :=
  match line with
  | EmptyString => EmptyString
  | String c EmptyString => if Ascii.eqb c newline then EmptyString else line
  | String c line => String c (cut_newline line)
  end.

(** [readLine] has a buffer of 1024 bytes and reads its content as a C string. *)
Definition readLine (input : string) : string * string :=
  let '(line, input) := fgets 1023 input in (cut_newline (c_str line), input).

(** [strtoull(s, NULL, 10)]: a number that does not fit 64 bits becomes [ULLONG_MAX], a
    negative one wraps around. *)
Definition strtoull (s : string) : Z :=
  let v := atoll s in if 2 ^ 64 <=? Z.abs v then 2 ^ 64 - 1 else u64 v.

Definition login_menu (input : string) (c : ChatClient) : string * ChatClient * bool :=
  let '(choice, input) := readLine input in
  if String.eqb choice "1" then
    let '(uid, input) := readLine input in
    let '(pwd, input) := readLine input in
    if empty_string uid || empty_string pwd then (input, c, true)
    else (input, sendLogin uid pwd c, true)
  else if String.eqb choice "2" then
    let '(uid, input) := readLine input in
    let '(pwd, input) := readLine input in
    if empty_string uid || empty_string pwd then (input, c, true)
    else (input, sendRegister uid pwd c, true)
  else if String.eqb choice "3" then (input, quit c, false)
  else (input, c, true).

Definition main_menu (input : string) (c : ChatClient) : string * ChatClient * bool :=
  let '(choice, input) := readLine input in
  if String.eqb choice "1" then
    let '(to, input) := readLine input in
    let '(content, input) := readLine input in
    if empty_string to || empty_string content then (input, c, true)
    else (input, sendPrivateMsg to content c, true)
  else if String.eqb choice "2" then
    let '(room, input) := readLine input in
    let '(content, input) := readLine input in
    if empty_string room || empty_string content then (input, c, true)
    else (input, sendRoomMsg room content c, true)
  else if String.eqb choice "3" then
    let '(name, input) := readLine input in
    if empty_string name then (input, c, true) else (input, sendCreateRoom name c, true)
  else if String.eqb choice "4" then
    let '(room, input) := readLine input in
    let '(uid, input) := readLine input in
    if empty_string room || empty_string uid then (input, c, true)
    else (input, sendJoinRoom room uid c, true)
  else if String.eqb choice "5" then
    let '(to, input) := readLine input in
    let '(msg, input) := readLine input in
    if empty_string to then (input, c, true) else (input, sendFriendReq to msg c, true)
  else if String.eqb choice "6" then
    let '(from, input) := readLine input in
    let '(accept, input) := readLine input in
    if empty_string from then (input, c, true)
    else (input, sendFriendResp from (String.eqb accept "1") c, true)
  else if String.eqb choice "7" then
    let '(idStr, input) := readLine input in
    let '(to, input) := readLine input in
    let '(room, input) := readLine input in
    if empty_string idStr then (input, c, true)
    else (input, sendRecall (strtoull idStr) to room c, true)
  else if String.eqb choice "8" then (input, sendLogout c, true)
  else (input, c, true).

(** One turn of the loop of the input thread: the input left, the client, and [running]. *)
Definition menu_turn (input : string) (c : ChatClient) : string * ChatClient * bool :=
  if negb (isLoggedIn c) then login_menu input c else main_menu input c.

(** [n] turns of the loop, fewer when [running] becomes false. *)
Fixpoint menu_turns (n : nat) (input : string) (c : ChatClient) : string * ChatClient * bool :=
  match n with
  | O => (input, c, true)
  | S n =>
    let '(input, c, running) := menu_turn input c in
    if running then menu_turns n input c else (input, c, false)
  end.

(** ** Everything that can happen to a client *)

Inductive client_event :=
| ClientUp
| ClientDown
| ClientMessage (msg : ServerMessage)
| ClientLoop
| ClientMenu (input : string).

Definition client_step (c : ChatClient) (e : client_event) : ChatClient :=
  match e with
  | ClientUp => client_onConnection true c
  | ClientDown => client_onConnection false c
  | ClientMessage msg => handleServerMessage msg c
  | ClientLoop => run_queue c
  | ClientMenu input => snd (fst (menu_turn input c))
  end.

Definition client_run (es : list client_event) : ChatClient := fold_left client_step es new_ChatClient.

(** ** Reading lines *)

#[local] Arguments String.append !_ _ : simpl nomatch.

(** Characters a line of text is made of. *)
Fixpoint text_line (l : string) : bool :=
  match l with
  | EmptyString => true
  | String c l => negb (Ascii.eqb c newline) && negb (Ascii.eqb c "000"%char) && text_line l
  end.

Lemma fgets_line n l rest :
  text_line l = true → (String.length l < n)%nat →
  fgets n (l +:+ String newline rest) = (l +:+ String newline EmptyString, rest).
Proof.
  revert n. induction l as [|c l IH]; intros n Hl Hn; destruct n as [|n]; cbn in Hn; try lia.
  - done.
  - cbn [text_line] in Hl. apply andb_true_iff in Hl as [[Hc _]%andb_true_iff Hl].
    apply negb_true_iff in Hc. cbn [String.append fgets]. rewrite Hc.
    by rewrite IH by (done || lia).
Qed.

Lemma c_str_line l : text_line l = true → c_str (l +:+ String newline EmptyString) = l +:+ String newline EmptyString.
Proof.
  induction l as [|c l IH]; intros Hl; [done|]. cbn [text_line] in Hl.
  cbn [String.append c_str]. apply andb_true_iff in Hl as [[_ Hc]%andb_true_iff Hl]. apply negb_true_iff in Hc. rewrite Hc.
  f_equal. by apply IH.
Qed.

Lemma cut_newline_line l : cut_newline (l +:+ String newline EmptyString) = l.
Proof.
  induction l as [|c l IH]; [done|]. cbn [String.append cut_newline]. rewrite IH. by destruct l.
Qed.

(** A line of up to 1022 characters is read as it was typed. *)
Lemma readLine_line l rest :
  text_line l = true → (String.length l < 1023)%nat →
  readLine (l +:+ String newline rest) = (l, rest).
Proof.
  intros Hl Hn. unfold readLine. rewrite fgets_line by done.
  by rewrite c_str_line, cut_newline_line.
Qed.

(** At the end of the input there is nothing but empty lines. *)
Lemma readLine_eof : readLine "" = (""%string, ""%string).
Proof. done. Qed.

(** ** Typing a command *)

(** What a user who is logged in can ask for. *)
Inductive command :=
| CmdPrivate (to content : string)
| CmdRoom (room content : string)
| CmdCreateRoom (name : string)
| CmdJoinRoom (room uid : string)
| CmdAddFriend (to msg : string)
| CmdAnswer (from : string) (accept : bool)
| CmdRecall (msgId : Z) (to room : string)
| CmdLogout.

(** The lines that make the choice and fill in its prompts. *)
Definition typed (cmd : command) : list string :=
  match cmd with
  | CmdPrivate to content => ["1"; to; content]
  | CmdRoom room content => ["2"; room; content]
  | CmdCreateRoom name => ["3"; name]
  | CmdJoinRoom room uid => ["4"; room; uid]
  | CmdAddFriend to msg => ["5"; to; msg]
  | CmdAnswer from accept => ["6"; from; if accept then "1" else "0"]
  | CmdRecall msgId to room => ["7"; to_string msgId; to; room]
  | CmdLogout => ["8"]
  end.

(** The fields the menu insists on are filled in. *)
Definition complete (cmd : command) : bool :=
  match cmd with
  | CmdPrivate a b | CmdRoom a b | CmdJoinRoom a b => negb (empty_string a || empty_string b)
  | CmdCreateRoom a | CmdAddFriend a _ | CmdAnswer a _ => negb (empty_string a)
  | CmdRecall _ _ _ | CmdLogout => true
  end.

(** Message numbers are of 64 bits. *)
Definition in_range (cmd : command) : Prop :=
  match cmd with CmdRecall msgId _ _ => 0 <= msgId < 2 ^ 64 | _ => True end.

(** The request that goes out in the name of [me]. *)
Definition asked (me : string) (cmd : command) : Envelope_payload :=
  match cmd with
  | CmdPrivate to content => kChatMsg (mkChatMessage "" to "" content 0 0 0 false)
  | CmdRoom room content => kChatMsg (mkChatMessage "" "" room content 0 0 0 false)
  | CmdCreateRoom name => kCreateRoom (mkCreateRoom name "")
  | CmdJoinRoom room uid => kJoinRoom (mkJoinRoom room uid)
  | CmdAddFriend to msg => kFriendReq (mkFriendRequest "" to msg)
  | CmdAnswer from accept => kFriendResp (mkFriendResponse me from accept)
  | CmdRecall msgId to room => kRecallMsg (mkRecallMessage msgId "" room to)
  | CmdLogout => kLogoutReq (mkLogoutRequest me "")
  end.

Definition type_lines (ls : list string) (rest : string) : string :=
  foldr (λ l rest, l +:+ String newline rest) rest ls.

Definition fits (l : string) : Prop := text_line l = true ∧ (String.length l < 1023)%nat.

Lemma readLine_fits l ls rest : fits l → readLine (type_lines (l :: ls) rest) = (l, type_lines ls rest).
Proof. intros [Hl Hn]. by apply readLine_line. Qed.

Lemma empty_string_false s : s ≠ ""%string → empty_string s = false.
Proof. intros Hs. unfold empty_string. by destruct (String.eqb_spec s ""). Qed.

Lemma strtoull_to_string x : 0 <= x < 2 ^ 64 → strtoull (to_string x) = x.
Proof.
  intros Hx. unfold strtoull. rewrite atoll_to_string.
  rewrite (proj2 (Z.leb_gt _ _)) by lia. unfold u64. by rewrite Z.mod_small.
Qed.

Lemma to_string_nonempty x : 0 <= x → empty_string (to_string x) = false.
Proof.
  intros Hx. apply empty_string_false. intros Hs. pose proof (atoll_to_string x) as Ha.
  unfold to_string in Hs. rewrite (proj2 (Z.ltb_ge _ _)) in Hs by lia.
  pose proof (digit_count_loop_pos (S (Z.to_nat (Z.log2 x))) x) as Hpos.
  apply (f_equal String.length) in Hs. rewrite print_digits_length in Hs.
  unfold digit_count in Hs. cbn [String.length] in Hs. lia.
Qed.

Lemma sent_run_queue c : client_connected c = true → sent (run_queue c) = sent c ++ queue c.
Proof. intros Hc. cbn. by rewrite Hc. Qed.

(** One prompt of a menu. *)
Ltac prompt := rewrite readLine_fits by done; cbv beta iota zeta.

(** A turn of the menu with the lines of a command. *)
Lemma menu_command cmd rest c :
  isLoggedIn c = true → Forall fits (typed cmd) → in_range cmd →
  ∃ c', menu_turn (type_lines (typed cmd) rest) c = (rest, c', true) ∧
    (complete cmd = true → queue c' = queue c ++ [request (asked (currentUid_ c) cmd)] ∧
       sent c' = sent c ∧ client_connected c' = client_connected c ∧ lines c' = lines c ∧
       loggedIn_ c' = match cmd with CmdLogout => false | _ => true end) ∧
    (complete cmd = false → c' = c).
Proof.
  intros Hlog Hfits Hr. unfold menu_turn. rewrite Hlog. cbn [negb]. unfold main_menu.
  unfold isLoggedIn in Hlog. destruct cmd; cbn [typed in_range complete] in *;
    repeat (apply Forall_cons in Hfits as [? Hfits]); prompt; cbn [String.eqb Ascii.eqb Bool.eqb];
    repeat prompt; rewrite ?to_string_nonempty by lia;
    try (match goal with |- context [if ?b then _ else _] => destruct b eqn:? end);
    cbn [orb negb type_lines foldr]; eexists; (split; [reflexivity|]); (split; [|done]); intros ?; try done.
  - by destruct accept.
  - by rewrite strtoull_to_string.
Qed.

(** The menu before the login, with the lines of a login. *)
Lemma menu_login uid pwd rest c :
  isLoggedIn c = false → Forall fits [uid; pwd] →
  menu_turn (type_lines ["1"; uid; pwd] rest) c =
    (rest, if empty_string uid || empty_string pwd then c else sendLogin uid pwd c, true) ∧
  menu_turn (type_lines ["2"; uid; pwd] rest) c =
    (rest, if empty_string uid || empty_string pwd then c else sendRegister uid pwd c, true).
Proof.
  intros Hlog Hf. unfold menu_turn. rewrite Hlog. cbn [negb]. unfold login_menu.
  repeat (apply Forall_cons in Hf as [? Hf]).
  assert (fits "1" ∧ fits "2") as [? ?] by (repeat split; cbn; lia).
  split; prompt; cbn [String.eqb Ascii.eqb Bool.eqb]; repeat prompt; by case_match.
Qed.

(** ** Theorems *)

(** The menu works as typed: a connected user who chooses an entry and fills in its
    prompts with lines that fit the input buffer uses up exactly those lines and stays in
    the loop.  Before the login, the two entries send a login and a registration with the
    name and the password typed; after it, each of the eight entries sends exactly the
    request it stands for, and only the entry for logging out logs out.  When a field the
    menu insists on is empty, nothing happens. *)
Theorem menu_sends cmd uid pwd rest c :
  Forall fits (typed cmd) → Forall fits [uid; pwd] → in_range cmd →
  if isLoggedIn c then
    ∃ c', menu_turn (type_lines (typed cmd) rest) c = (rest, c', true) ∧
      if complete cmd
      then queue c' = queue c ++ [request (asked (currentUid_ c) cmd)] ∧ sent c' = sent c ∧ lines c' = lines c ∧
           loggedIn_ c' = match cmd with CmdLogout => false | _ => true end
      else c' = c
  else
    ∃ c1 c2, menu_turn (type_lines ["1"; uid; pwd] rest) c = (rest, c1, true) ∧
      menu_turn (type_lines ["2"; uid; pwd] rest) c = (rest, c2, true) ∧
      if empty_string uid || empty_string pwd then c1 = c ∧ c2 = c
      else queue c1 = queue c ++ [request (kLoginReq (mkLoginRequest uid pwd ""))] ∧
           queue c2 = queue c ++ [request (kRegisterReq (mkRegisterRequest uid pwd "" ""))].
Proof.
  intros Hcmd Hlogin Hr. destruct (isLoggedIn c) eqn:Hlog.
  - destruct (menu_command cmd rest c) as (c' & Hrun & Hsent & Hc); [done..|].
    exists c'. split; [done|]. destruct (complete cmd); [|by apply Hc].
    by destruct (Hsent eq_refl) as (? & ? & _ & ? & ?).
  - destruct (menu_login uid pwd rest c) as [-> ->]; [done..|]. do 2 eexists. split_and!; [done..|].
    by destruct (empty_string uid || empty_string pwd).
Qed.

(** A client that is connected and logged in. *)
Definition ready_client : ChatClient := mkChatClient true true "" [] [] [] false false.

Lemma menu_sends_witness :
  let cmd := CmdRecall 18446744073709551615 "" "lobby" in
  (∃ c', menu_turn (type_lines (typed cmd) "more") ready_client = ("more"%string, c', true) ∧
     queue c' = [request (kRecallMsg (mkRecallMessage 18446744073709551615 "" "lobby" ""))]) ∧
  (∃ c', menu_turn (type_lines ["1"; "alice"; "pw"] "") (set_login false "" ready_client) = (""%string, c', true) ∧
     queue c' = [request (kLoginReq (mkLoginRequest "alice" "pw" ""))]).
Proof.
  intros cmd. split.
  - destruct (menu_sends cmd "alice" "pw" "more" ready_client) as (c' & Hrun & Hsent & _).
    + repeat constructor; vm_compute; lia.
    + repeat constructor; vm_compute; lia.
    + cbn. lia.
    + exists c'. by split.
  - destruct (menu_sends cmd "alice" "pw" "" (set_login false "" ready_client)) as (c1 & c2 & H1 & _ & Hs & _).
    + repeat constructor; vm_compute; lia.
    + repeat constructor; vm_compute; lia.
    + cbn. lia.
    + exists c1. by split.
Defined.

(** At the end of its input the menu asks for ever. *)
Lemma login_menu_eof c : login_menu "" c = (""%string, c, true).
Proof. done. Qed.

Lemma main_menu_eof c : main_menu "" c = (""%string, c, true).
Proof. done. Qed.

(** The input thread does not notice the end of its input: it takes every number of
    further turns, each with an empty choice that changes nothing, and never leaves the
    loop. *)
Theorem menu_spins_at_eof n c : menu_turns n "" c = (""%string, c, true).
Proof.
  induction n as [|n IH]; [done|]. cbn [menu_turns]. unfold menu_turn.
  by destruct (isLoggedIn c); cbn [negb]; rewrite ?login_menu_eof, ?main_menu_eof.
Qed.

(** ** Who the client is *)

(** A request that does not say who makes it. *)
Definition anonymous (env : Envelope) : Prop :=
  match env_payload env with
  | kChatMsg m => cm_from m = ""%string
  | kFriendReq r => fq_from_uid r = ""%string
  | kFriendResp r => fp_from_uid r = ""%string
  | kRecallMsg r => rm_from_uid r = ""%string
  | kLogoutReq r => lo_uid r = ""%string ∧ lo_token r = ""%string
  | _ => True
  end.

Definition nameless (c : ChatClient) : Prop := currentUid_ c = ""%string ∧ Forall anonymous (sent c ++ queue c).

Lemma nameless_send env c : anonymous env → nameless c → nameless (sendEnvelope env c).
Proof.
  intros He [Hu Hs]. split; [done|]. cbn. rewrite app_assoc. apply Forall_app; auto.
Qed.

Lemma nameless_menu input c : nameless c → nameless (snd (fst (menu_turn input c))).
Proof.
  intros Hc. assert (∀ r a, nameless (sendFriendResp r a c)) as Hresp.
  { intros r a. apply nameless_send; [apply Hc|done]. }
  assert (nameless (sendLogout c)) as Hout.
  { split; [done|]. apply (nameless_send _ c); [|done]. split; [apply Hc|done]. }
  unfold menu_turn, login_menu, main_menu.
  repeat case_match; simplify_eq; cbn [fst snd]; try done; try (by apply nameless_send); auto.
Qed.

Lemma nameless_message msg c : nameless c → nameless (handleServerMessage msg c).
Proof. intros Hc. unfold handleServerMessage. repeat case_match; exact Hc. Qed.

Lemma nameless_run es : nameless (client_run es).
Proof.
  unfold client_run. assert (nameless new_ChatClient) as Hc by done. revert Hc.
  generalize new_ChatClient. induction es as [|e es IH]; intros c Hc; [done|]. cbn [fold_left].
  apply IH. destruct e; cbn [client_step]; [done| |by apply nameless_message| |by apply nameless_menu].
  2: { destruct Hc as [Hu Hs]. split; [done|]. cbn. rewrite app_nil_r.
       apply Forall_app in Hs as [? ?]. case_match; [by apply Forall_app|done]. }
  split; [done|apply Hc].
Qed.

(** The client never learns who its user is: nothing assigns [currentUid_], so it is
    empty in every state of every run, and no request says who makes it: friend requests
    and answers come from an empty name, and a logout names neither user nor token. *)
Theorem client_is_nameless es :
  currentUid (client_run es) = ""%string ∧ Forall anonymous (sent (client_run es) ++ queue (client_run es)).
Proof. apply nameless_run. Qed.

(** ** The client's loop is the server's *)

Section client_loop.
Context {B : Type} `{MuduoBufferLaws B, ProtoLib}.

Lemma client_loop_eq fuel (buf : B) c :
  client_loop fuel buf c = onMessage_loop handlePayload client_shutdown fuel buf c.
Proof.
  revert buf c. induction fuel as [|fuel IH]; intros buf c; [done|].
  cbn [client_loop onMessage_loop]. unfold kHeaderLen. case_match; [|done].
  destruct (read_be 4 (peek buf) 0) as [n|]; [|done]. cbn [in_bounds mbind outcome_bind].
  destruct ((kMaxLen <? i32 n) || (i32 n <? 0)) eqn:Hb; [done|].
  apply orb_false_iff in Hb as [Hhi%Z.ltb_ge Hlo%Z.ltb_ge]. unfold kMaxLen in Hhi.
  unfold u64. rewrite Z.mod_small by lia. case_match; [|done].
  destruct (copy_bytes _ _); [|done]. cbn [in_bounds mbind outcome_bind]. apply IH.
Qed.

(** The client reads its stream as the server's codec does, with its own switch as the
    handler: it always finishes, hands exactly the payloads of the whole frames to the
    switch, in order and each once, closes the connection only at an invalid length, and
    keeps the bytes that belong to no whole frame. *)
Theorem client_onMessage_correct (buf : B) c :
  ∃ payloads rest bad buf',
    frames (peek buf) payloads rest bad ∧
    client_onMessage buf c = Done (buf', deliver handlePayload client_shutdown payloads bad c) ∧
    peek buf' = rest.
Proof.
  destruct (frames_total (peek buf)) as (ps & r & b & Hf).
  destruct (onMessage_frames handlePayload client_shutdown buf c ps r b Hf) as (buf' & Hrun & Hr).
  exists ps, r, b, buf'. split_and!; [done| |done].
  unfold client_onMessage. by rewrite client_loop_eq.
Qed.

End client_loop.

Lemma client_onMessage_correct_witness :
  let lib := constant_proto sample_payload in
  ∃ payloads rest bad buf',
    frames (peek (mkRegion 8 (frame sample_payload))) payloads rest bad ∧
    client_onMessage (mkRegion 8 (frame sample_payload)) new_ChatClient =
      Done (buf', deliver handlePayload client_shutdown payloads bad new_ChatClient) ∧
    peek buf' = rest.
Proof. intros lib. apply client_onMessage_correct. Defined.
