(* ===== verification/ClientThreads.v ===== *)
(** The process of the client, [main] of [client/chat_client.cc]: the main thread, which
    runs the event loop and then joins the input thread, and the input thread, which waits
    for the connection and then works through the menu.

    The two threads take turns at the level of the steps below.  The loop handles an event
    of its connection or its queue in one step.  The input thread tests the connection,
    looks which menu to show, and carries out a choice with its prompts, each in one step;
    a choice may take any time, since the lines are typed by the user, and the connection
    and the login may change meanwhile.  The shared [conn_] and [currentUid_] are no atomic
    objects, so that the program relies on more than the language promises; what happens
    with a torn read is not modelled. *)

From S2P Require Import Prelude Machine Proto CString ChatClient.

Local Open Scope Z_scope.

(** ** State *)

(** Where the input thread is: at the loop that waits for the connection, at the top of the
    menu, at the prompts of the menu it chose, or at its end. *)
Inductive InputThread := AwaitConnection | AtMenu | AtPrompt (logged_in : bool) | InputEnded.

(** Where the main thread is: in [loop.loop()], in [stdinThread.join()], or past it. *)
Inductive MainThread := Looping | Joining | Returned.

(** [went_up] and [went_down] say whether the connection did, which happens once: the
    client does not reconnect.  [asked_for] are the envelopes of all requests so far. *)
Record Process := mkProcess {
  client : ChatClient;
  input_thread : InputThread;
  main_thread : MainThread;
  input : string;
  went_up : bool;
  went_down : bool;
  asked_for : list Envelope
}.

(** After [client.connect()] and the start of the input thread. *)
Definition new_Process (typed : string) : Process :=
  mkProcess new_ChatClient AwaitConnection Looping typed false false [].

(** The start of [main]: the address to connect to and the process; [None] where it prints
    its usage and returns. *)
Definition client_main (argv : list string) (typed : string) : option (string * Z * Process) :=
  match argv with
  | _ :: host :: port :: _ => Some (c_str host, u16 (i32 (atoll (c_str port))), new_Process typed)
  | _ => None
  end.

Definition set_client (c : ChatClient) (p : Process) : Process :=
  mkProcess c (input_thread p) (main_thread p) (input p) (went_up p) (went_down p) (asked_for p).
Definition set_input_thread (t : InputThread) (p : Process) : Process :=
  mkProcess (client p) t (main_thread p) (input p) (went_up p) (went_down p) (asked_for p).
Definition set_main_thread (t : MainThread) (p : Process) : Process :=
  mkProcess (client p) (input_thread p) t (input p) (went_up p) (went_down p) (asked_for p).

(** ** Steps *)

Inductive process_event :=
| ConnectionUp
| ConnectionDown
| MessageIn (msg : ServerMessage)
| BadLength
| LoopQueue
| LoopReturns
| JoinReturns
| SeeConnection
| ShowMenu
| Choose.

Definition looping (p : Process) : bool := match main_thread p with Looping => true | _ => false end.

(** The requests a step of the menu put into the queue. *)
Definition newly_queued (c c' : ChatClient) : list Envelope := drop (length (queue c)) (queue c').

(** A choice at the prompts of the menu that is shown. *)
Definition choose (logged_in : bool) (p : Process) : Process :=
  let '(rest, c, running) := (if logged_in then main_menu else login_menu) (input p) (client p) in
  mkProcess c (if (running : bool) then AtMenu else InputEnded) (main_thread p) rest (went_up p) (went_down p)
    (asked_for p ++ newly_queued (client p) c).

(** One step, [None] when it is not possible. *)
Definition process_step (e : process_event) (p : Process) : option Process :=
  let c := client p in
  match e with
  | ConnectionUp =>
    if looping p && negb (went_up p)
    then Some (mkProcess (client_onConnection true c) (input_thread p) (main_thread p) (input p) true false (asked_for p))
    else None
  | ConnectionDown =>
    if looping p && conn_ c
    then Some (mkProcess (client_onConnection false c) (input_thread p) (main_thread p) (input p) (went_up p) true
                 (asked_for p))
    else None
  | MessageIn msg => if looping p && conn_ c then Some (set_client (handleServerMessage msg c) p) else None
  | BadLength => if looping p && conn_ c then Some (set_client (client_shutdown c) p) else None
  | LoopQueue => if looping p then Some (set_client (run_queue c) p) else None
  | LoopReturns => if looping p && quitting c then Some (set_main_thread Joining p) else None
  | JoinReturns =>
    match main_thread p, input_thread p with
    | Joining, InputEnded => Some (set_main_thread Returned p)
    | _, _ => None
    end
  | SeeConnection =>
    match input_thread p with
    | AwaitConnection => if client_connected c then Some (set_input_thread AtMenu p) else None
    | _ => None
    end
  | ShowMenu =>
    match input_thread p with
    | AtMenu => Some (set_input_thread (AtPrompt (isLoggedIn c)) p)
    | _ => None
    end
  | Choose =>
    match input_thread p with
    | AtPrompt logged_in => Some (choose logged_in p)
    | _ => None
    end
  end.

Fixpoint process_run (es : list process_event) (p : Process) : option Process :=
  match es with
  | [] => Some p
  | e :: es => p' ← process_step e p; process_run es p'
  end.

(** ** Lemmas *)

(** What a menu does to the client, whatever is typed: it only queues requests, and it ends
    the loop of the menu exactly when it tells the event loop to stop. *)
Definition only_queues (c c' : ChatClient) (running : bool) : Prop :=
  (∃ new, queue c' = queue c ++ new) ∧ sent c' = sent c ∧ conn_ c' = conn_ c ∧ closing c' = closing c ∧
  quitting c' = quitting c || negb running.

Lemma only_queues_refl c : only_queues c c true.
Proof. split_and!; try done; [exists []; by rewrite app_nil_r|by rewrite orb_false_r]. Qed.

Lemma only_queues_send env c : only_queues c (sendEnvelope env c) true.
Proof. split_and!; try done; [by eexists|by rewrite orb_false_r]. Qed.

#[local] Hint Resolve only_queues_refl only_queues_send : core.

Lemma login_menu_queues input c : let '(_, c', running) := login_menu input c in only_queues c c' running.
Proof.
  unfold login_menu, sendLogin, sendRegister. repeat case_match; simplify_eq; auto.
  split_and!; try done; [exists []; by rewrite app_nil_r|by rewrite orb_true_r].
Qed.

Lemma main_menu_queues input c : let '(_, c', running) := main_menu input c in only_queues c c' running.
Proof.
  unfold main_menu, sendPrivateMsg, sendRoomMsg, sendCreateRoom, sendJoinRoom, sendFriendReq, sendFriendResp,
    sendRecall, sendLogout. repeat case_match; simplify_eq; auto.
  all: try (split_and!; try done; [by eexists|by rewrite orb_false_r]).
Qed.

Lemma choose_queues b p :
  ∃ new running,
    queue (client (choose b p)) = queue (client p) ++ new ∧ asked_for (choose b p) = asked_for p ++ new ∧
    sent (client (choose b p)) = sent (client p) ∧
    client_connected (client (choose b p)) = client_connected (client p) ∧
    conn_ (client (choose b p)) = conn_ (client p) ∧
    quitting (client (choose b p)) = quitting (client p) || negb running ∧
    input_thread (choose b p) = (if running then AtMenu else InputEnded) ∧
    main_thread (choose b p) = main_thread p ∧ went_up (choose b p) = went_up p ∧ went_down (choose b p) = went_down p.
Proof.
  unfold choose. set (menu := if b then main_menu else login_menu).
  assert (let '(_, c', running) := menu (input p) (client p) in only_queues (client p) c' running) as Hm.
  { unfold menu. destruct b; [apply main_menu_queues|apply login_menu_queues]. }
  destruct (menu (input p) (client p)) as [[rest c'] running].
  destruct Hm as ((new & Hq) & Hs & Hc & Hcl & Hquit). exists new, running. cbn. split_and!; try done.
  - unfold newly_queued. by rewrite Hq, drop_app_length.
  - unfold client_connected. by rewrite Hc, Hcl.
Qed.

(** ** The invariant *)

Record coherent (p : Process) : Prop := mkCoherent {
  coherent_conn : conn_ (client p) = went_up p && negb (went_down p);
  coherent_start : went_up p = false →
    went_down p = false ∧ asked_for p = [] ∧ sent (client p) = [] ∧ queue (client p) = [] ∧
    input_thread p = AwaitConnection;
  coherent_prefix : ∃ rest, asked_for p = sent (client p) ++ rest;
  coherent_connected : client_connected (client p) = true → asked_for p = sent (client p) ++ queue (client p);
  coherent_quit : quitting (client p) = true ↔ went_down p = true ∨ input_thread p = InputEnded;
  coherent_main : main_thread p ≠ Looping → quitting (client p) = true;
  coherent_returned : main_thread p = Returned → input_thread p = InputEnded
}.

Lemma coherent_new typed : coherent (new_Process typed).
Proof. constructor; cbn; try done; [by exists []|]. naive_solver. Qed.

Lemma handle_keeps msg c :
  let c' := handleServerMessage msg c in
  conn_ c' = conn_ c ∧ sent c' = sent c ∧ queue c' = queue c ∧ closing c' = closing c ∧ quitting c' = quitting c.
Proof. cbv zeta. unfold handleServerMessage. by repeat case_match. Qed.

Lemma looping_true p : looping p = true ↔ main_thread p = Looping.
Proof. unfold looping. by destruct (main_thread p). Qed.

Lemma coherent_step e p p' : process_step e p = Some p' → coherent p → coherent p'.
Proof.
  intros Hstep [Hconn Hstart [rest Hpre] Hall Hquit Hmain Hret]. destruct e; cbn [process_step] in Hstep.
  - case_match eqn:Hc; simplify_eq. apply andb_true_iff in Hc as [Hl%looping_true Hup%negb_true_iff].
    destruct (Hstart Hup) as (Hd & Ha & Hs & Hq & Hi). constructor; cbn; try done.
    + exists []. by rewrite Ha, Hs.
    + intros _. by rewrite Ha, Hs, Hq.
    + rewrite Hquit, Hd. done.
  - case_match eqn:Hc; simplify_eq. apply andb_true_iff in Hc as [Hl%looping_true Hc].
    rewrite Hconn in Hc. apply andb_true_iff in Hc as [Hup Hd]. constructor; cbn; try done.
    + by rewrite andb_false_r.
    + congruence.
    + eauto.
    + naive_solver.
  - case_match eqn:Hc; simplify_eq. apply andb_true_iff in Hc as [Hl%looping_true Hc].
    destruct (handle_keeps msg (client p)) as (H1 & H2 & H3 & H4 & H5).
    constructor; cbn; unfold client_connected in *; rewrite ?H1, ?H2, ?H3, ?H4, ?H5; eauto.
  - case_match eqn:Hc; simplify_eq. constructor; cbn; eauto. unfold client_connected. cbn. by rewrite andb_false_r.
  - case_match eqn:Hc; simplify_eq. constructor; cbn; eauto.
    + intros Hup. destruct (Hstart Hup) as (? & ? & -> & -> & ?). split_and!; try done. by destruct (client_connected _).
    + destruct (client_connected (client p)) eqn:Hcc; [exists []; rewrite app_nil_r; by apply Hall|eauto].
    + change (client_connected (run_queue (client p))) with (client_connected (client p)). intros Hcc.
      rewrite Hcc, app_nil_r. by apply Hall.
  - case_match eqn:Hc; simplify_eq. apply andb_true_iff in Hc as [Hl Hq]. constructor; cbn; eauto; done.
  - destruct (main_thread p) eqn:Hm; try done. destruct (input_thread p) eqn:Hi; try done. simplify_eq.
    constructor; cbn; rewrite ?Hi; eauto.
  - destruct (input_thread p) eqn:Hi; try done. case_match eqn:Hc; simplify_eq.
    constructor; cbn; rewrite ?Hi; eauto; try done.
    + intros Hup. unfold client_connected in Hc. rewrite Hconn, Hup in Hc. done.
    + rewrite Hquit. naive_solver.
    + intros Hm. by specialize (Hret Hm).
  - destruct (input_thread p) eqn:Hi; try done. simplify_eq. constructor; cbn; rewrite ?Hi; eauto; try done.
    + intros Hup. by destruct (Hstart Hup) as (? & ? & ? & ? & ?).
    + rewrite Hquit. naive_solver.
    + intros Hm. by specialize (Hret Hm).
  - destruct (input_thread p) as [| |b|] eqn:Hi; try done. injection Hstep as <-.
    destruct (choose_queues b p) as (new & running & Hq & Ha & Hs & Hcc & Hc & Hqt & Hin & Hm & Hu & Hd).
    constructor; rewrite ?Hq, ?Ha, ?Hs, ?Hcc, ?Hc, ?Hqt, ?Hin, ?Hm, ?Hu, ?Hd; eauto.
    + intros Hup. by destruct (Hstart Hup) as (? & ? & ? & ? & ?).
    + exists (rest ++ new). by rewrite Hpre, app_assoc.
    + intros Hup. by rewrite Hall, app_assoc.
    + rewrite orb_true_iff, Hquit. destruct running; cbn; naive_solver.
    + intros Hne. by rewrite Hmain.
    + intros Hr. by specialize (Hret Hr).
Qed.

Lemma coherent_run es p p' : process_run es p = Some p' → coherent p → coherent p'.
Proof.
  revert p. induction es as [|e es IH]; intros p Hrun Hp; cbn in Hrun; [by simplify_eq|].
  destruct (process_step e p) as [p1|] eqn:He; [|done]. apply (IH p1 Hrun). by eapply coherent_step.
Qed.

(** What every step keeps, every run keeps. *)
Lemma process_run_keeps (I : Process → Prop) :
  (∀ e p p', process_step e p = Some p' → I p → I p') → ∀ es p p', process_run es p = Some p' → I p → I p'.
Proof.
  intros Hstep es. induction es as [|e es IH]; intros p p' Hrun Hp; cbn in Hrun; [by simplify_eq|].
  destruct (process_step e p) as [p1|] eqn:He; [|done]. by eapply IH, Hstep.
Qed.

Lemma process_run_app es1 es2 p : process_run (es1 ++ es2) p = process_run es1 p ≫= process_run es2.
Proof.
  revert p. induction es1 as [|e es1 IH]; intros p; [done|]. cbn.
  destruct (process_step e p) as [p1|]; [|done]. cbn. apply IH.
Qed.

(** A connection that is not there, or is being closed, sends nothing ever again. *)
Lemma cut_off_step e p p' sent0 :
  process_step e p = Some p' →
  went_up p = true ∧ client_connected (client p) = false ∧ sent (client p) = sent0 →
  went_up p' = true ∧ client_connected (client p') = false ∧ sent (client p') = sent0.
Proof.
  intros Hstep (Hup & Hc & Hs). destruct e; cbn [process_step] in Hstep.
  - rewrite Hup, andb_false_r in Hstep. done.
  - case_match; simplify_eq. by cbn.
  - case_match; simplify_eq. destruct (handle_keeps msg (client p)) as (H1 & H2 & _ & H4 & _).
    cbn. unfold client_connected in *. by rewrite H1, H2, H4.
  - case_match; simplify_eq. cbn. unfold client_connected in *. cbn. by rewrite andb_false_r.
  - case_match; simplify_eq. cbn. change (client_connected (run_queue (client p))) with (client_connected (client p)).
    by rewrite Hc.
  - case_match; by simplify_eq.
  - by repeat case_match; simplify_eq.
  - by repeat case_match; simplify_eq.
  - by repeat case_match; simplify_eq.
  - destruct (input_thread p) as [| |b|]; try done. injection Hstep as <-.
    destruct (choose_queues b p) as (new & running & _ & _ & -> & -> & _ & _ & _ & _ & -> & _). done.
Qed.

(** The input thread is not going to end: it waits for a connection that is gone, or its
    input is at its end. *)
Definition stuck (p : Process) : Prop :=
  (input_thread p = AwaitConnection ∧ went_up p = true ∧ client_connected (client p) = false) ∨
  (input p = ""%string ∧ input_thread p ≠ InputEnded).

Lemma stuck_step e p p' : process_step e p = Some p' → stuck p → stuck p'.
Proof.
  intros Hstep [(Hi & Hup & Hc)|[Hin Hi]].
  - left. destruct (cut_off_step e p p' _ Hstep (conj Hup (conj Hc eq_refl))) as (Hup' & Hc' & _).
    split; [|done]. destruct e; cbn [process_step] in Hstep; rewrite ?Hi, ?Hc in Hstep;
      repeat case_match; by simplify_eq.
  - right. destruct e; cbn [process_step] in Hstep; try (by repeat case_match; simplify_eq).
    destruct (input_thread p) as [| |b|]; try done. injection Hstep as <-. unfold choose. rewrite Hin.
    by destruct b; rewrite ?login_menu_eof, ?main_menu_eof.
Qed.

(** ** Theorems *)

(** C23. What reaches the connection.  In every state of every run, what was sent is an initial
    piece of what was asked for at the menu, so requests are sent in the order typed and
    none twice; while the connection is up nothing is lost, what was not sent waits in the
    queue, and one turn of the loop sends all of it; once the connection is gone or being
    closed, nothing is ever sent again, whatever the user still types. *)
Theorem requests_sent_in_order typed es p :
  process_run es (new_Process typed) = Some p →
  (∃ rest, asked_for p = sent (client p) ++ rest) ∧
  (client_connected (client p) = true →
     asked_for p = sent (client p) ++ queue (client p) ∧
     ∀ p', process_step LoopQueue p = Some p' → sent (client p') = asked_for p') ∧
  (went_up p = true → client_connected (client p) = false →
     ∀ es' p', process_run es' p = Some p' → sent (client p') = sent (client p)).
Proof.
  intros Hrun. pose proof (coherent_run _ _ _ Hrun (coherent_new typed)) as [Hconn _ Hpre Hall _ _ _].
  split; [done|]. split.
  - intros Hc. split; [by apply Hall|]. intros p' Hstep. cbn in Hstep. case_match; simplify_eq. cbn.
    rewrite Hc. symmetry. by apply Hall.
  - intros Hup Hc es' p' Hrun'.
    apply (process_run_keeps (λ q, went_up q = true ∧ client_connected (client q) = false ∧ sent (client q) = sent (client p)))
      in Hrun' as (_ & _ & ?); [done| |done].
    intros e q q'. apply cut_off_step.
Qed.

(** C24. When the process ends.  [main] returns only after the input thread has ended; and when
    it has, by the choice to leave, the process is at most two steps from its end.  But
    when the connection went down before the input thread looked, the thread waits for it
    for ever, without reading a line of input; and when the input ends before the choice to
    leave, the thread asks for ever: in both cases [main] never returns, whatever
    happens. *)
Theorem process_ends typed es p :
  process_run es (new_Process typed) = Some p →
  (main_thread p = Returned → input_thread p = InputEnded) ∧
  (input_thread p = InputEnded →
     ∃ es' p', (length es' <= 2)%nat ∧ process_run es' p = Some p' ∧ main_thread p' = Returned) ∧
  (input_thread p = AwaitConnection → went_down p = true →
     ∀ es' p', process_run es' p = Some p' → main_thread p' ≠ Returned) ∧
  (input p = ""%string → input_thread p ≠ InputEnded →
     ∀ es' p', process_run es' p = Some p' → main_thread p' ≠ Returned).
Proof.
  intros Hrun. pose proof (coherent_run _ _ _ Hrun (coherent_new typed)) as Hp.
  assert (stuck p → ∀ es' p', process_run es' p = Some p' → main_thread p' ≠ Returned) as Hstuck.
  { intros Hs es' p' Hrun' Hm. pose proof (coherent_run _ _ _ Hrun' Hp) as Hp'.
    apply (process_run_keeps stuck) in Hrun'; [|intros e q q'; apply stuck_step|done].
    apply (coherent_returned p' Hp') in Hm. destruct Hrun' as [(? & _)|[_ ?]]; congruence. }
  split; [apply Hp|]. split; [|split].
  - intros Hi. assert (quitting (client p) = true) as Hq by (apply (coherent_quit p Hp); by right).
    destruct (main_thread p) eqn:Hm.
    + exists [LoopReturns; JoinReturns]. eexists. split; [done|]. split; [|].
      * cbn [process_run process_step]. unfold looping. rewrite Hm, Hq. cbn. rewrite Hi. reflexivity.
      * done.
    + exists [JoinReturns]. eexists. split; [cbn; lia|]. split; [|].
      * cbn [process_run process_step]. rewrite Hm, Hi. reflexivity.
      * done.
    + exists [], p. split; [cbn; lia|]. by split.
  - intros Hi Hd. apply Hstuck. left. split; [done|].
    destruct (went_up p) eqn:Hup; [|by destruct (coherent_start p Hp Hup); congruence].
    split; [done|]. unfold client_connected. by rewrite (coherent_conn p Hp), Hup, Hd.
  - intros Hin Hi. apply Hstuck. by right.
Qed.

(** ** The theorems at work *)

(** A user logs in and leaves. *)
Definition session_input : string := type_lines ["1"; "alice"; "pw"; "3"] "".

(** The login is typed, and sent at the next turn of the loop. *)
Definition session_events : list process_event := [ConnectionUp; SeeConnection; ShowMenu; Choose].

Definition after_events (es : list process_event) : Process :=
  default (new_Process "") (process_run es (new_Process session_input)).

Lemma requests_sent_in_order_witness :
  asked_for (after_events session_events) = [request (kLoginReq (mkLoginRequest "alice" "pw" ""))] ∧
  sent (client (after_events (session_events ++ [LoopQueue]))) = asked_for (after_events (session_events ++ [LoopQueue])).
Proof.
  destruct (requests_sent_in_order session_input session_events (after_events session_events)) as (_ & Hup & _).
  - vm_compute. reflexivity.
  - destruct Hup as [Ha Hnext]; [vm_compute; reflexivity|]. split; [exact Ha|].
    apply Hnext. vm_compute. reflexivity.
Defined.

(** A server that hangs up at once: the loop returns, and [main] waits in [join]. *)
Definition hung_up : list process_event := [ConnectionUp; ConnectionDown].

Lemma process_ends_witness :
  main_thread (after_events (hung_up ++ [LoopReturns])) = Joining ∧
  main_thread (after_events (hung_up ++ [LoopReturns])) ≠ Returned.
Proof.
  split; [vm_compute; reflexivity|].
  destruct (process_ends session_input hung_up (after_events hung_up)) as (_ & _ & Hgone & _);
    [vm_compute; reflexivity|].
  apply (Hgone ltac:(vm_compute; reflexivity) ltac:(vm_compute; reflexivity) [LoopReturns]).
  vm_compute. reflexivity.
Defined.
