(* ===== verification/EndToEnd.v ===== *)
(** The client and the server together: the bytes either side writes are the messages the
    other acts on, and what becomes of a message and of a logout on the way from one menu
    to the other. *)

From S2P Require Import Prelude Machine Proto ChatCodec CString SessionManager RoomManager.
From S2P Require Import Repositories MemWorld LoginService ChatService FriendService RoomService.
From S2P Require Import ChatServer ChatServerFacts ChatServerTheorems ChatClient.

Local Open Scope Z_scope.

(** ** The wire *)

(** Messages that the protobuf runtime writes as payloads within the limit and reads back
    as they were. *)
Definition envelope_travels `{ProtoLib} (env : Envelope) (payload : bytes) : Prop :=
  Envelope_SerializeToString env = (true, payload) ∧ Envelope_ParseFromArray payload = (true, env) ∧
  Machine.size payload <= kMaxLen.

Definition message_travels `{ProtoLib} (msg : ServerMessage) (payload : bytes) : Prop :=
  ServerMessage_SerializeToString msg = (true, payload) ∧
  ServerMessage_ParseFromArray payload = (true, msg) ∧ Machine.size payload <= kMaxLen.

(** The messages among some actions that go to one connection, in order. *)
Definition sends_to (conn : Conn) (acts : list Action) : list ServerMessage :=
  omap (λ a, match a with
             | Send c m => if decide (c = conn) then Some m else None
             | _ => None
             end) acts.

(** What a client shows and remembers after some messages. *)
Definition client_reads (msgs : list ServerMessage) (c : ChatClient) : ChatClient :=
  fold_left (λ c m, handleServerMessage m c) msgs c.

Section wire.
Context {B : Type} `{MuduoBufferLaws B, ProtoLib}.

(** What the client puts on the wire is one frame. *)
Lemma peek_envelope_bytes env payload :
  Envelope_SerializeToString env = (true, payload) →
  ∃ b, envelope_bytes B env = Some b ∧ peek b = frame payload.
Proof.
  intros Hs. unfold envelope_bytes. rewrite Hs. cbn [negb]. eexists. split; [done|].
  rewrite peek_prepend, peek_append, peek_newBuffer.
  - unfold frame. rewrite app_nil_l. f_equal. rewrite u32_i32. apply (be_bytes_mod 4).
  - rewrite size_be_bytes. pose proof (cheap_prepend (B:=B) payload). lia.
Qed.

Lemma payloads_fit {A} (R : A → bytes → Prop) l payloads :
  (∀ a p, R a p → Machine.size p <= kMaxLen) → Forall2 R l payloads →
  Forall (λ p, Machine.size p <= kMaxLen) payloads.
Proof. intros HR. induction 1; constructor; eauto. Qed.

(** Buffers that hold the frames of some payloads hold their concatenation. *)
Lemma peek_frames {A} (write : A → option B) (R : A → bytes → Prop) l payloads bs :
  (∀ a p, R a p → ∃ b, write a = Some b ∧ peek b = frame p) →
  Forall2 R l payloads → Forall2 (λ a b, write a = Some b) l bs →
  concat (peek <$> bs) = concat (frame <$> payloads) ++ [].
Proof.
  intros HR Hl. rewrite app_nil_r. revert bs.
  induction Hl as [|a p l payloads Ha _ IH]; intros bs Hbs.
  - by apply Forall2_nil_inv_l in Hbs as ->.
  - apply Forall2_cons_inv_l in Hbs as (b & bs' & Hb & Hbs & ->).
    destruct (HR a p Ha) as (b' & Hb' & Hpeek). simplify_eq. cbn. rewrite Hpeek. f_equal. by apply IH.
Qed.

(** C12. What clients write is what the server acts on: envelopes that protobuf carries,
    framed by the client and sent back to back, take the server exactly through the events
    that receive those envelopes, in order, and leave nothing in the buffer, when the task
    queue has room for them. *)
Theorem wire_to_server {W : Type}
    `{UserRepository W, SessionRepository W, FriendRepository W, MessageRepository W}
    `{RoomRepository W, Clock W, Random W, Mktime, Environment W, Config}
    conn (buf : B) (s : Server W) envs payloads bs :
  Forall2 envelope_travels envs payloads →
  Forall2 (λ env b, envelope_bytes B env = Some b) envs bs →
  peek buf = concat (peek <$> bs) → conn ∈ connected s →
  Z.of_nat (length (pool s) + length envs) <= kMaxQueueSize →
  ∃ buf' s', server_onMessage conn buf s = Done (buf', s') ∧ peek buf' = [] ∧
    run (Recv conn <$> envs) s = Some s'.
Proof.
  intros Htravel Hbs Hbuf Hc Hroom. apply (stream_acts_as_envelopes conn buf s payloads envs []).
  - eapply payloads_fit, Htravel. by intros ? ? (_ & _ & ?).
  - by left.
  - rewrite Hbuf. eapply peek_frames; [|exact Htravel|exact Hbs].
    intros ? ? (? & _). by apply peek_envelope_bytes.
  - clear - Htravel. induction Htravel as [|? ? ? ? (_ & ? & _) _ IH]; constructor; done.
  - done.
  - done.
Qed.

(** C34. What the server writes is what the client shows: messages that protobuf carries,
    framed by the server and sent back to back, are handled by the client one by one, in
    order, and leave nothing in its buffer. *)
Theorem wire_to_client (buf : B) c msgs payloads :
  Forall2 message_travels msgs payloads →
  peek buf = concat (peek <$> (sendServerMessage B <$> msgs)) →
  ∃ buf', client_onMessage buf c = Done (buf', client_reads msgs c) ∧ peek buf' = [].
Proof.
  intros Htravel Hbuf.
  destruct (onMessage_frames handlePayload client_shutdown buf c payloads [] false) as (buf' & Hrun & Hr).
  - rewrite Hbuf, (peek_frames (λ m, Some (sendServerMessage B m)) message_travels msgs payloads); [|..].
    + apply frames_stream; [|by left]. eapply payloads_fit, Htravel. by intros ? ? (_ & _ & ?).
    + intros m p (Hm & _). eexists. split; [done|]. rewrite peek_sendServerMessage.
      unfold serializeServerMessage. by rewrite Hm.
    + done.
    + clear. by induction msgs; constructor.
  - exists buf'. split; [|done]. unfold client_onMessage. rewrite client_loop_eq.
    fold (onMessage handlePayload client_shutdown buf c). rewrite Hrun. do 2 f_equal.
    unfold deliver, client_reads. clear - Htravel. revert c.
    induction Htravel as [|m p msgs payloads (_ & Hp & _) _ IH]; intros c; [done|].
    cbn [fold_left]. rewrite IH. f_equal. unfold handlePayload. by rewrite Hp.
Qed.

End wire.

(** ** From menu to menu *)

Section conversation.
  Context {W : Type}.
  Context `{UserRepository W, SessionRepository W, FriendRepository W, MessageRepository W}.
  Context `{RoomRepository W, Clock W, Random W, Mktime, Environment W, Config}.
  Implicit Types s : Server W.

Lemma sends_to_other conn c m acts :
  c ≠ conn → sends_to conn (Send c m :: acts) = sends_to conn acts.
Proof. intros Hc. unfold sends_to. cbn. by rewrite decide_False. Qed.

Lemma sends_to_same conn m acts : sends_to conn (Send conn m :: acts) = m :: sends_to conn acts.
Proof. unfold sends_to. cbn. by rewrite decide_True. Qed.

(** C8. A private message from one terminal to the other: it is typed at the menu of one
    client, whose loop sends it; the server, when it has nothing else to do and stores the message, serves the
    request the client sent; and the other client, on whose connection the addressee is
    logged in, prints exactly one line, with the user the sender's connection logged in as
    and the text typed.  The name in the line is the server's, not the client's. *)
Theorem private_message_end_to_end sender receiver ca cb to content rest s :
  let cmd := CmdPrivate to content in
  let from := getUid sender (sessionManager_ s) in
  let id := eval (msgRepo_storeMessage from to "" content) (world s) in
  isLoggedIn ca = true → client_connected ca = true → Forall fits (typed cmd) → complete cmd = true →
  idle_for sender s → isAuthenticated sender (sessionManager_ s) = true →
  getConnection to (sessionManager_ s) = Some receiver → receiver ≠ sender → 0 < id →
  ∃ ca0 env s' new,
    let ca' := run_queue ca0 in
    menu_turn (type_lines (typed cmd) rest) ca = (rest, ca0, true) ∧ sent ca' = sent ca ++ queue ca ++ [env] ∧
    run (serve sender env) s = Some s' ∧ out s' = out s ++ new ∧
    client_reads (sends_to receiver new) cb =
      print (PrivateLine (u64 id) (c_str from) (c_str content)) cb ∧
    client_reads (sends_to sender new) ca' =
      print (PrivateLine (u64 id) (c_str from) (c_str content)) ca'.
Proof.
  intros cmd from id Hlog Hconn Hfits Hcomplete Hidle Ha Hto Hne Hid.
  destruct (menu_command cmd rest ca) as (ca0 & Hturn & Hqueue & _); [done..|].
  destruct (Hqueue Hcomplete) as (Hqueue' & Hsent & Hconn' & _). rewrite Hconn in Hconn'.
  apply negb_true_iff, orb_false_iff in Hcomplete as [Hne_to _].
  set (result := eval (sendMessage from to "" content) (world s)).
  exists ca0, (request (asked (currentUid_ ca) cmd)). eexists. exists
    (let m := chat_message from to "" content id
       (eval Timestamp_now (exec (sendMessage from to "" content) (world s))) in [Send receiver m; Send sender m]).
  split; [done|]. split; [by rewrite sent_run_queue, Hsent, Hqueue'|]. split.
  { apply (serve_task sender _ (task_sendMessage sender from to "" content)
      (cont_sendMessage sender from to "" content result)); [done| |].
    - unfold onEnvelope, request, cmd. cbn [env_payload asked]. unfold handleChatMessage.
      autorewrite with chat. by rewrite Ha.
    - cbn [task_body]. by autorewrite with chat. }
  split.
  - cbn [cont_body task_body]. autorewrite with chat. rewrite exec_sendMessage_done. unfold chat_effect.
    assert (sm_success result = true ∧ sm_msg_id result = id) as [Hs Hm].
    { unfold result, sendMessage. autorewrite with chat. fold id.
      rewrite (proj2 (Z.leb_gt _ _)) by lia. by autorewrite with chat. }
    rewrite Hs, Hm. cbn [negb]. rewrite Hne_to. cbn [negb].
    cbn [after_task set_loops set_world sessionManager_ world out]. by rewrite Hto.
  - cbv zeta. rewrite sends_to_same, !sends_to_other, sends_to_same by done. done.
Qed.

(** C38. A logout from the menu does not end the session.  The request names neither user
    nor token, because the client knows neither, so the service is asked to revoke the
    sessions of nobody; the server forgets the connection's user; and its answer, which is a
    successful login response, puts the client back into the state of being logged in, so
    that the menu offers requests which the server now ignores. *)
Theorem logout_end_to_end conn es rest s :
  let c := client_run es in
  isLoggedIn c = true → client_connected c = true → idle_for conn s →
  ∃ c0 env s' new,
    let c' := run_queue c0 in
    menu_turn (type_lines (typed CmdLogout) rest) c = (rest, c0, true) ∧ sent c' = sent c ++ queue c ++ [env] ∧
    isLoggedIn c' = false ∧
    run [Recv conn env; TakeTask; FinishTask 0] s = Some s' ∧ out s' = out s ++ new ∧
    world s' = exec (logout "" "") (world s) ∧
    isAuthenticated conn (sessionManager_ s') = false ∧
    isLoggedIn (client_reads (sends_to conn new) c') = true.
Proof.
  intros c Hlog Hconn (Hc & Hp & Hr & _).
  destruct (menu_command CmdLogout rest c) as (c0 & Hturn & Hqueue & _); [done| |done|].
  { constructor; [|done]. split; [done|]. cbn. lia. }
  destruct (Hqueue eq_refl) as (Hqueue' & Hsent & Hconn' & _ & Hout). destruct (nameless_run es) as [Hu _].
  fold c in Hu. rewrite Hu in Hqueue'. rewrite Hconn in Hconn'.
  set (answer := login_resp (mkLoginResponse true "" "logged out" 0 "" "" "")).
  exists c0, (request (asked "" CmdLogout)). eexists. exists [Send conn answer].
  split; [done|]. split; [by rewrite sent_run_queue, Hsent, Hqueue'|]. split; [done|]. split.
  { cbn [run step]. rewrite decide_True by done.
    unfold onEnvelope, request. cbn [env_payload asked]. unfold handleLogout. cbv zeta.
    autorewrite with chat. rewrite with_room_fits by (cbn; by rewrite Hp). 
    cbn [mbind option_bind pool set_pool set_out set_sm app]. rewrite Hp. cbn [app running set_pool set_out set_sm].
    rewrite Hr. cbn [length]. rewrite (proj2 (Nat.ltb_lt _ _) workers_pos). cbn. reflexivity. }
  unfold run_task. rewrite !exec_bind, !eval_call_world, !exec_call_world. cbn [task_body].
  autorewrite with chat. cbn. split_and!; [done|done| |].
  - unfold isAuthenticated, deauthenticate. cbn. by rewrite lookup_insert_eq.
  - by rewrite decide_True.
Qed.

End conversation.

(** ** The theorems at work *)

(** A protobuf runtime that writes one byte for each of the messages below. *)
Definition b1 : bytes := be_bytes 1 1.
Definition b2 : bytes := be_bytes 1 2.
Definition oops : ServerMessage := error (mkErrorResponse 1 "parse error").

#[local] Instance byte_proto : ProtoLib := {|
  Envelope_ParseFromArray p :=
    if be_val p =? 1 then (true, login_alice)
    else if be_val p =? 2 then (true, say_bob) else (false, mkEnvelope "" PAYLOAD_NOT_SET);
  Envelope_SerializeToString env :=
    (true, match env_payload env with kLoginReq _ => b1 | _ => b2 end);
  ServerMessage_ParseFromArray p := if be_val p =? 1 then (true, oops) else (false, SERVER_PAYLOAD_NOT_SET);
  ServerMessage_SerializeToString _ := (true, b1)
|}.

Lemma wire_to_server_witness :
  ∃ buf' s', server_onMessage 1%nat (mkRegion 8 (frame b1 ++ frame b2)) up1 = Done (buf', s') ∧
    peek buf' = [] ∧ run (Recv 1%nat <$> [login_alice; say_bob]) up1 = Some s'.
Proof.
  apply (wire_to_server 1%nat _ up1 [login_alice; say_bob] [b1; b2]
    (omap (envelope_bytes region) [login_alice; say_bob])).
  - repeat constructor; vm_compute; congruence.
  - repeat constructor; vm_compute; reflexivity.
  - vm_compute. reflexivity.
  - vm_compute. reflexivity.
  - vm_compute. discriminate.
Defined.

Lemma wire_to_client_witness :
  ∃ buf', client_onMessage (mkRegion 8 (frame b1 ++ frame b1)) new_ChatClient =
            Done (buf', client_reads [oops; oops] new_ChatClient) ∧ peek buf' = [].
Proof.
  apply (wire_to_client _ new_ChatClient [oops; oops] [b1; b1]).
  - repeat constructor; vm_compute; congruence.
  - vm_compute. reflexivity.
Defined.

(** Alice is logged in on connection 1 and bob on connection 2. *)
Definition login_bob : Envelope := mkEnvelope "" (kLoginReq (mkLoginRequest "bob" "pw2" "")).
Definition both : Server MemWorld := get (run (Connect 2%nat :: serve 2%nat login_bob) alice1).

Lemma private_message_end_to_end_witness :
  ∃ ca0 env s' new,
    menu_turn (type_lines ["1"; "bob"; "hi"] "") ready_client = (""%string, ca0, true) ∧ sent (run_queue ca0) = [env] ∧
    run (serve 1%nat env) both = Some s' ∧ out s' = out both ++ new ∧
    client_reads (sends_to 2%nat new) new_ChatClient = print (PrivateLine 1 "alice" "hi") new_ChatClient.
Proof.
  destruct (private_message_end_to_end 1%nat 2%nat ready_client new_ChatClient "bob" "hi" "" both)
    as (ca0 & env & s' & new & Hturn & Hsent & Hrun & Hout & Hb & _).
  1-2: reflexivity.
  1: repeat constructor; vm_compute; lia.
  1: reflexivity.
  1: split_and!; vm_compute; reflexivity.
  1-2: vm_compute; reflexivity.
  1: discriminate.
  1: vm_compute; reflexivity.
  exists ca0, env, s', new. split_and!; [exact Hturn|exact Hsent|exact Hrun|exact Hout|].
  etransitivity; [exact Hb|]. vm_compute. reflexivity.
Defined.

(** A client that logged in, seen through its events. *)
Definition alice_events : list client_event :=
  [ClientUp; ClientMenu (type_lines ["1"; "alice"; "pw"] ""); ClientLoop;
   ClientMessage (login_resp (mkLoginResponse true "token" "" 0 "" "" ""))].

(** Alice's client logs out, and her tokens are the ones from before. *)
Lemma logout_end_to_end_witness :
  ∃ c0 env s' new,
    let c' := run_queue c0 in
    sent c' = sent (client_run alice_events) ++ [env] ∧ isLoggedIn c' = false ∧
    run [Recv 1%nat env; TakeTask; FinishTask 0] alice1 = Some s' ∧ out s' = out alice1 ++ new ∧
    isLoggedIn (client_reads (sends_to 1%nat new) c') = true ∧
    mw_sessions (world s') = mw_sessions (world alice1).
Proof.
  destruct (logout_end_to_end 1%nat alice_events "" alice1)
    as (c0 & env & s' & new & _ & Hsent & Hoff & Hrun & Hout & Hw & _ & Hon).
  - vm_compute. reflexivity.
  - vm_compute. reflexivity.
  - split_and!; vm_compute; reflexivity.
  - exists c0, env, s', new. split_and!; [exact Hsent|exact Hoff|exact Hrun|exact Hout|exact Hon|].
    rewrite Hw. vm_compute. reflexivity.
Defined.
